(* ===== verification/_CoqProject ===== *)
-Q . S2P
Prelude.v
OrdMap.v
Coroutine.v
Timestamp.v
TimeoutSet.v
Os.v
Epoller.v
CoSocket.v
EventLoop.v
LoopSafe.v
LoopInvariant.v
LoopProps.v
LoopFrame.v
LoopInterest.v
LoopTimeout.v
CoStream.v
LoopDemo.v
UrlCodec.v
Base64.v
WebSocket.v
WebSocketProps.v
HttpTables.v
HttpUrl.v
HttpExecute.v
HttpSafe.v
HttpSafeLoops.v
HttpProps.v
HttpRun.v
HttpSplit.v
HttpMessage.v
HttpHeaders.v
HttpPieces.v
HttpRoundTrip.v
HttpSessions.v
HttpHeaderCut.v
Connections.v
Exchange.v
HttpClient.v
HttpDispatch.v
HttpServerProps.v
TcpServer.v
TcpServerProps.v
CoQueue.v
CoQueueProps.v
Examples.v
Turns.v
ThroughputProps.v
ExampleProps.v
