(* ===== verification/Prelude.v ===== *)
(** * CoSocket: a verification development

    CoSocket (src/CoSocket) is a C++ library for network servers: stackful coroutines over one
    epoll loop, TCP classes on top of them, an HTTP and WebSocket layer, and a pre-forking server.
    This development models its code as executable definitions and proves what makes it correct,
    and where it is not.

    ** The parts and how they interact

    A server process ([net/TcpServer]) forks slaves.  A slave owns a [CoSocket] ([net/CoSocket]):
    a loop around epoll ([net/Epoller]) that resumes coroutines ([3rd/coroutine]) when their
    descriptor is ready, their deadline has passed ([base/Timestamp], [CoSocket::TimeoutSet]), or
    their condition was notified.  One coroutine accepts; it starts one per connection, which runs
    the handler: for HTTP, [net/http/HttpDispatch], which feeds the bytes it reads to
    [net/http/HttpParser] (callbacks over [3rd/http-parser]) or, after a handshake
    ([3rd/base64], SHA-1), to [net/http/WebSocketParser], and writes what [HttpEncoder] or
    [WebSocketEncoder] print.  [net/http/HttpClient] is the other end.  [net/CoQueue] passes data
    between the coroutines of a process by the conditions of [CoSocket].

    ** The files

    Foundations.
    - Prelude.v: bytes ([bytes], a list of [Z] in [[0,256)]), machine words ([u8] to [u64]), C
      characters and strings, generic lemmas, tactics and hints.  OrdMap.v: [std::map] and
      [std::set] as sorted association lists, with the class [KeyOrder] for their order.
    - Os.v: the system calls as a signature and the class [OS] of kernels, which is a parameter of
      everything above it.

    The event loop.
    - Coroutine.v: coroutine.c.  [schedule] and [coroutine] are the structs, with the bytes of the
      shared stack; a context is a value of a type the client chooses.  CoroutineTest is
      coroutine_test.c.
    - Timestamp.v and TimeoutSet.v: base/Timestamp, [TimeoutSet] and [SetTimeoutGuard].
    - Epoller.v: net/Epoller.cpp, and a concrete kernel for examples.
    - CoSocket.v: the members of [CoSocket] as a record of the same name and every method as a
      statement of the monad [act]; a method that blocks is two halves, up to the yield and after
      it.  A coroutine is an interaction tree over the public interface ([apiE]).
    - EventLoop.v: [CoSocket::Run] and its coroutines as a transition system, [step], with a
      control point per statement.  LoopSafe.v and LoopInvariant.v: its invariant, LoopProps.v: what
      it promises, LoopFrame.v: what the blocking calls leave alone, LoopInterest.v: what epoll is
      asked to watch, LoopTimeout.v: termination of [RunTimeoutCo], LoopDemo.v: concrete runs, and
      the function objects of [m_coFuncList].
    - CoStream.v: [ReadFull] and [WriteAll].  Exchange.v: what a program does for given answers
      of its calls.  Connections.v: TcpClient, TcpConnector, Timer.  CoQueue.v and
      CoQueueProps.v: CoQueue and Buffer.
    - TcpServer.v and TcpServerProps.v: the master and its slaves.

    Codecs.
    - UrlCodec.v, Base64.v, WebSocket.v with WebSocketProps.v.
    - HttpTables.v: the enums, tables and character classes of http_parser; HttpUrl.v: its URL
      parser; HttpExecute.v: [http_parser_execute], one definition per group of cases of its switch,
      on a machine state with the local variables of the function.
    - HttpSafe.v and HttpSafeLoops.v: a calculus for those statements and the safety theorems,
      HttpProps.v: sessions of calls.  HttpRun.v and HttpHeaders.v: what a call does with a
      well-formed text.  HttpSplit.v: several calls do what one does.
    - HttpMessage.v: [HttpParser], [HttpDecoder], [HttpEncoder].  HttpPieces.v and
      HttpRoundTrip.v: what is printed is parsed.  HttpSessions.v: invariants of any use.
      HttpHeaderCut.v: a read that ends inside a header value.
    - HttpClient.v, HttpDispatch.v, HttpServerProps.v: requests, responses and the handshake, as
      programs over the interface of the loop.

    The programs of example/: Examples.v, one Section per group of files, and ExampleProps.v; and
    for the two coroutines of the throughput server Turns.v, a machine of coroutines that take
    turns in any order, and ThroughputProps.v.

    ** What the theorems show

    - Coroutines: a slot is found and never taken twice, the schedule stays well-formed, and a
      coroutine that yields finds its stack as it left it ([Coroutine]).
    - The loop, for every kernel and all coroutines: no assertion fails (but those on the depth of a
      stack, when one is deeper than the shared stack) and no dangling iterator is used; a coroutine runs only for a reason, and learns the right one, and no reason is passed
      over; epoll watches exactly what is registered; notifications reach exactly the waiters;
      [RunTimeoutCo] ends, whatever the clock does in so far as it is set back finitely often
      ([LoopProps], [LoopInterest], [LoopTimeout]).
    - Clients of the loop: [ReadFull], [WriteAll], [HttpClient::Request] refine specifications on the
      answers of the system calls; a queue loses no wake-up; a server keeps its slaves.
    - The message parser, for every input cut in any way: it returns, no assertion fails, all counts
      stay in bounds ([HttpProps], [HttpSessions]).  Cuts that are not inside a header name or value
      make no difference at all ([HttpSplit], [HttpPieces]); the others do ([HttpHeaderCut]).
    - Round trips: URL encoding, base64 (which is that of RFC 4648), WebSocket messages, HTTP
      requests and responses, and the exchange between [HttpClient] and [HttpDispatch]; each for the
      messages its doc comment describes, and where others are lost a theorem often says so.
    - The example programs: the echo server and the proxy hand on what they read, in order and
      completely, in whatever portions the writes are accepted; the two coroutines of the throughput
      server do so through their queue in every interleaving, and both end ([ThroughputProps]); its
      client counts what came back; a pointer to a local variable of another coroutine reads one of
      the running coroutine ([ExampleProps]).
    - Faults: theorems that prove wrong behaviour of the code are stated as such, each with an input
      where it happens (a busy loop, a lost registration, a crash after a handshake, wrong frames).

    ** Fuel

    The loops of C that are bounded by their data are recursions on it; the others have fuel, and a
    theorem says that the fuel given is enough: [http_parser_execute] never returns [OutOfFuel]
    ([HttpProps.http_parser_execute_safe]), with [length data + 1] for the loop over the data and 4
    for the jumps to [reexecute]; [decimal] prints 64-bit numbers with 20 digits; [find_slot] looks
    at each slot once.  Loops that need not end ([ITree.iter]) are interaction trees, [Run] is a
    transition system; termination is a theorem where it holds ([RunTimeoutCo_bounded]), and its
    failure where it does not ([WriteAll_null_spins], [DoAccept_spins]).

    ** What is not modelled

    - The kernel (sockets, epoll, timerfd, fork, the clock) is the parameter [OS]; SHA-1,
      [inet_addr], [random()] and [NDEBUG] are arguments; so are the bytes of uninitialised members.
    - base/SimpleLog.h (printing) and base/NonCopyable.h (no behaviour); the build files.
    - Signal dispositions ([IgnoreSigPipe]).
    - Counters whose overflow needs more memory than there is: the [int]s [cap] and [nco] of a
      schedule are natural numbers (they overflow at 2^30 coroutines).
    - Reads of a caller's buffer past its end: a [Write] whose size is beyond its buffer, which is
      undefined behaviour, writes the buffer ([Write_start]).
    - Where the stack of the main thread lies: the assertion [&C > S->stack] of
      [coroutine_yield] and that of [_save_stack] both bound the depth of the stack in use, and are
      one test on it ([StackOverflow]).
    - [shared_ptr]: a connector is its descriptor, and its destructor is the method that closes it;
      when the last reference goes is not followed, except where a theorem says so.
    - The members [m_handleInit] and [m_handleFini] of [TcpServer], which nothing uses.
    - The parts of http_parser.h that are declarations, and the name tables of its errors.
    - In the programs of example/: the number of the arguments, [atoi] and the log messages.  The
      theorems of ExampleProps.v fix the answers of the calls, one coroutine at a time.  The machine
      of Turns.v is an abstraction of the loop, not derived from it: it takes over what LoopProps.v
      shows of the loop (a coroutine runs until it blocks and goes on for its cause, with the result
      of it; a notification wakes the waiters) and leaves the order of the turns open.  How several
      connections interleave is the matter of the theorems on the loop and the queue. *)

From Stdlib Require Import Ascii String.
From Stdlib Require Export ZArith Lia Sorting.Sorted.
From stdpp Require Export base numbers list strings sets gmap sorting.

Open Scope Z_scope.

(** ** Bytes, machine words, C characters *)

(** A byte is a [Z] in [[0,256)]; a C string is the list of its bytes. *)
Abbreviation bytes := (list Z).

Definition is_byte (b : Z) : Prop := 0 <= b < 256.

#[export] Instance is_byte_dec b : Decision (is_byte b).
Proof. unfold is_byte. apply _. Defined.

(** Conversions to the fixed-width unsigned types of C. *)
Definition u8 (z : Z) : Z := z mod 2 ^ 8.
Definition u16 (z : Z) : Z := z mod 2 ^ 16.
Definition u32 (z : Z) : Z := z mod 2 ^ 32.
Definition u64 (z : Z) : Z := z mod 2 ^ 64.

(** The value of a [char] (signed on the targets of the build) that holds the byte [b]. *)
Definition schar (b : Z) : Z := if b <? 128 then b else b - 256.

Definition bytes_of_string (s : string) : bytes :=
  (fun a => Z.of_N (Ascii.N_of_ascii a)) <$> String.list_ascii_of_string s.

Definition first_byte (s : string) : Z := default 0 (head (bytes_of_string s)).

(** [chr "x"] is the code of the character literal 'x', already a numeral. *)
Abbreviation chr s :=
  (ltac:(let v := eval vm_compute in (first_byte s%string) in exact v))
  (only parsing).

(** [bs "text"] is the byte list of a string literal, already computed. *)
Abbreviation bs s :=
  (ltac:(let v := eval vm_compute in (bytes_of_string s%string) in exact v))
  (only parsing).

(** The [n] elements of [l] from index [i]: [std::string(ptr + i, n)] when it is in range. *)
Definition slice {A} (l : list A) (i n : nat) : list A := take n (drop i l).

(** Lexicographic order on byte strings: [operator<] of [std::string]. *)
Fixpoint bytes_ltb (a b : bytes) : bool :=
  match a, b with
  | _, [] => false
  | [], _ :: _ => true
  | x :: a', y :: b' => if x <? y then true else if y <? x then false else bytes_ltb a' b'
  end.

(** Decidable equality of byte strings as a boolean. *)
Definition bytes_eqb (a b : bytes) : bool := bool_decide (a = b).

(** ** Tactics *)

(** Turn boolean comparisons on [Z] and [nat] in the context into propositions. *)
Ltac breflect :=
  repeat match goal with
  | H : (_ =? _) = true |- _ => apply Z.eqb_eq in H
  | H : (_ =? _) = false |- _ => apply Z.eqb_neq in H
  | H : (_ <? _) = true |- _ => apply Z.ltb_lt in H
  | H : (_ <? _) = false |- _ => apply Z.ltb_ge in H
  | H : (_ <=? _) = true |- _ => apply Z.leb_le in H
  | H : (_ <=? _) = false |- _ => apply Z.leb_gt in H
  | H : (_ >? _) = _ |- _ => rewrite Z.gtb_ltb in H
  | H : (_ >=? _) = _ |- _ => rewrite Z.geb_leb in H
  | H : (_ && _)%bool = true |- _ => apply andb_true_iff in H as [? ?]
  | H : (_ || _)%bool = false |- _ => apply orb_false_iff in H as [? ?]
  | H : negb _ = true |- _ => apply negb_true_iff in H
  | H : negb _ = false |- _ => apply negb_false_iff in H
  | H : bool_decide _ = true |- _ => apply bool_decide_eq_true in H
  | H : bool_decide _ = false |- _ => apply bool_decide_eq_false in H
  end.

(** Case analysis on the outermost boolean test of the goal. *)
Ltac case_if :=
  match goal with
  | |- context [if ?b then _ else _] =>
      lazymatch b with
      | context [if _ then _ else _] => fail
      | _ => let E := fresh "E" in destruct b eqn:E
      end
  end.

(** Decide every boolean comparison of the goal whose value [lia] knows. *)
Ltac decide_cmp :=
  repeat match goal with
  | |- context [?a =? ?b] =>
      first [ rewrite (proj2 (Z.eqb_eq a b)) by lia | rewrite (proj2 (Z.eqb_neq a b)) by lia ]
  | |- context [?a <? ?b] =>
      first [ rewrite (proj2 (Z.ltb_lt a b)) by lia | rewrite (proj2 (Z.ltb_ge a b)) by lia ]
  | |- context [?a <=? ?b] =>
      first [ rewrite (proj2 (Z.leb_le a b)) by lia | rewrite (proj2 (Z.leb_gt a b)) by lia ]
  end.

(** [lia] with division and remainder by numerals. *)
Ltac divlia := Z.to_euclidean_division_equations; lia.

(** The constant or constructor at the head of an application. *)
Ltac head_of m := lazymatch m with ?f _ => head_of f | _ => m end.

(** Every element of a literal byte string is a byte (and other closed decidable facts). *)
Ltac by_compute :=
  match goal with
  | |- ?P => refine (bool_decide_unpack P _); vm_compute; exact I
  end.

(** ** Generic lemmas *)

Lemma u8_small z : is_byte z -> u8 z = z.
Proof. intros H. unfold u8, is_byte in *. apply Z.mod_small. lia. Qed.

Lemma u8_byte z : is_byte (u8 z).
Proof. unfold u8, is_byte. pose proof (Z.mod_pos_bound z (2 ^ 8)). lia. Qed.

Lemma u64_small z : 0 <= z < 2 ^ 64 -> u64 z = z.
Proof. apply Z.mod_small. Qed.

Lemma u32_small z : 0 <= z < 2 ^ 32 -> u32 z = z.
Proof. apply Z.mod_small. Qed.

Lemma slice_app_mid {A} (a b c : list A) :
  slice (a ++ b ++ c) (length a) (length b) = b.
Proof. unfold slice. by rewrite drop_app_length, take_app_length. Qed.

Lemma length_slice {A} (l : list A) i n : (i + n <= length l)%nat -> length (slice l i n) = n.
Proof. intros H. unfold slice. rewrite length_take, length_drop. lia. Qed.

Lemma bytes_eqb_eq a b : bytes_eqb a b = true <-> a = b.
Proof. apply bool_decide_eq_true. Qed.

Lemma bytes_eqb_refl a : bytes_eqb a a = true.
Proof. by apply bytes_eqb_eq. Qed.

Lemma bytes_ltb_irrefl a : bytes_ltb a a = false.
Proof. induction a as [|x a IH]; [done|]. simpl. by rewrite Z.ltb_irrefl. Qed.

Lemma bytes_ltb_trans a b c :
  bytes_ltb a b = true -> bytes_ltb b c = true -> bytes_ltb a c = true.
Proof.
  revert b c. induction a as [|x a IH]; intros [|y b] [|z c]; simpl; try done.
  repeat case_if; intros; breflect; try done; try lia. by eapply IH.
Qed.

Lemma bytes_ltb_total a b : bytes_ltb a b = false -> bytes_ltb b a = false -> a = b.
Proof.
  revert b. induction a as [|x a IH]; intros [|y b]; simpl; try done.
  repeat case_if; intros; breflect; try done; try lia.
  f_equal; [lia|]. by apply IH.
Qed.

Create HintDb cosocket.
Create Rewrite HintDb cosocket_len.
#[export] Hint Resolve u8_byte : cosocket.
