(* ===== verification/OrdMap.v ===== *)
(** * Ordered containers

    [std::map] and [std::set] as the code uses them: sorted association lists, iterated in the
    order of their keys.  [smap_set] is [m[k] = v], [smap_insert] is [m.insert(make_pair(k, v))]
    (which keeps an existing entry), [smap_erase] is [m.erase(k)].  Two keys are the same key when
    neither is below the other, as in C++; the laws of [KeyOrder] make that equality. *)

From S2P Require Import Prelude.

Open Scope Z_scope.

(** A strict total order on keys, as a boolean function: the comparator of the container. *)
Class KeyOrder (K : Type) := {
  key_ltb : K -> K -> bool;
  key_ltb_irrefl k : key_ltb k k = false;
  key_ltb_trans k1 k2 k3 : key_ltb k1 k2 = true -> key_ltb k2 k3 = true -> key_ltb k1 k3 = true;
  key_ltb_total k1 k2 : key_ltb k1 k2 = false -> key_ltb k2 k1 = false -> k1 = k2
}.

#[export] Instance Z_key_order : KeyOrder Z.
Proof.
  refine {| key_ltb := Z.ltb |}; intros; breflect; lia.
Defined.

#[export] Instance bytes_key_order : KeyOrder bytes := {|
  key_ltb := bytes_ltb;
  key_ltb_irrefl := bytes_ltb_irrefl;
  key_ltb_trans := bytes_ltb_trans;
  key_ltb_total := bytes_ltb_total
|}.

Section Maps.
Context {K V : Type} `{KeyOrder K}.

(** [m.find(k)] *)
Fixpoint smap_find (k : K) (m : list (K * V)) : option V :=
  match m with
  | [] => None
  | (k', v) :: m' =>
      if key_ltb k' k then smap_find k m'
      else if key_ltb k k' then None else Some v
  end.

(** [m[k] = v] *)
Fixpoint smap_set (k : K) (v : V) (m : list (K * V)) : list (K * V) :=
  match m with
  | [] => [(k, v)]
  | (k', v') :: m' =>
      if key_ltb k' k then (k', v') :: smap_set k v m'
      else if key_ltb k k' then (k, v) :: m else (k', v) :: m'
  end.

(** [m.insert(std::make_pair(k, v))]: an existing entry is kept. *)
Definition smap_insert (k : K) (v : V) (m : list (K * V)) : list (K * V) :=
  match smap_find k m with
  | Some _ => m
  | None => smap_set k v m
  end.

(** [m.erase(k)] *)
Fixpoint smap_erase (k : K) (m : list (K * V)) : list (K * V) :=
  match m with
  | [] => []
  | (k', v) :: m' =>
      if key_ltb k' k then (k', v) :: smap_erase k m'
      else if key_ltb k k' then m else m'
  end.

Definition key_lt (p q : K * V) : Prop := key_ltb p.1 q.1 = true.

(** The representation invariant of an ordered map. *)
Definition smap_wf (m : list (K * V)) : Prop := StronglySorted key_lt m.
End Maps.

Section Sets.
Context {K : Type} `{KeyOrder K}.

(** [s.insert(k)] and whether it took place. *)
Fixpoint oset_insert (k : K) (s : list K) : list K * bool :=
  match s with
  | [] => ([k], true)
  | k' :: s' =>
      if key_ltb k' k then let '(r, b) := oset_insert k s' in (k' :: r, b)
      else if key_ltb k k' then (k :: s, true) else (s, false)
  end.

(** [s.erase(it)] where [it] points at [k]. *)
Fixpoint oset_erase (k : K) (s : list K) : list K :=
  match s with
  | [] => []
  | k' :: s' => if key_ltb k' k then k' :: oset_erase k s' else if key_ltb k k' then s else s'
  end.

Definition oset_wf (s : list K) : Prop := StronglySorted (fun a b => key_ltb a b = true) s.
End Sets.

(** ** Laws of ordered maps *)

Section MapLaws.
Context {K V : Type} `{KeyOrder K}.
Implicit Types (m : list (K * V)) (k : K) (v : V).

Lemma key_ltb_asym k1 k2 : key_ltb k1 k2 = true -> key_ltb k2 k1 = false.
Proof.
  intros H1. destruct (key_ltb k2 k1) eqn:H2; [|done].
  pose proof (key_ltb_trans _ _ _ H1 H2) as Hc. by rewrite key_ltb_irrefl in Hc.
Qed.

Lemma key_ltb_ne k1 k2 : key_ltb k1 k2 = true -> k1 <> k2.
Proof. intros H1 ->. by rewrite key_ltb_irrefl in H1. Qed.

Lemma smap_find_lt k m : Forall (fun p => key_ltb k p.1 = true) m -> smap_find k m = None.
Proof.
  intros Hm. destruct m as [|[k' v'] m]; [done|]. apply Forall_cons in Hm as [Hk _].
  simpl in *. by rewrite Hk, (key_ltb_asym _ _ Hk).
Qed.

Lemma smap_find_set_eq k v m : smap_find k (smap_set k v m) = Some v.
Proof.
  induction m as [|[k' v'] m IH]; simpl; [by rewrite key_ltb_irrefl|].
  destruct (key_ltb k' k) eqn:E1; simpl; [by rewrite E1|].
  destruct (key_ltb k k') eqn:E2; simpl; [by rewrite key_ltb_irrefl|].
  by rewrite E1, E2.
Qed.

Lemma smap_find_set_ne k1 k2 v m :
  k1 <> k2 -> smap_wf m -> smap_find k1 (smap_set k2 v m) = smap_find k1 m.
Proof.
  intros Hne. induction 1 as [|[k' v'] m Hs IH Hf]; simpl.
  { destruct (key_ltb k2 k1) eqn:E1; [done|]. destruct (key_ltb k1 k2) eqn:E2; [done|].
    by destruct Hne; apply key_ltb_total. }
  destruct (key_ltb k' k2) eqn:E1; simpl; [by rewrite IH|].
  destruct (key_ltb k2 k') eqn:E2; simpl.
  - destruct (key_ltb k2 k1) eqn:E3; [done|].
    destruct (key_ltb k1 k2) eqn:E4; [|by destruct Hne; apply key_ltb_total].
    pose proof (key_ltb_trans _ _ _ E4 E2) as E5.
    by rewrite E5, (key_ltb_asym _ _ E5).
  - assert (k' = k2) as -> by (by apply key_ltb_total).
    destruct (key_ltb k2 k1) eqn:E3; [done|].
    destruct (key_ltb k1 k2) eqn:E4; [done|]. by destruct Hne; apply key_ltb_total.
Qed.

Lemma smap_set_Forall (P : K * V -> Prop) k v m :
  P (k, v) -> (forall k' v', P (k', v') -> ~ k' = k -> P (k', v')) ->
  Forall P m -> Forall P (smap_set k v m).
Proof.
  intros Hkv _. induction 1 as [|[k' v'] m Hp Hm IH]; simpl; [by constructor|].
  destruct (key_ltb k' k) eqn:E1; [by constructor|].
  destruct (key_ltb k k') eqn:E2; [by repeat constructor|].
  assert (k' = k) as -> by (by apply key_ltb_total). by constructor.
Qed.

Lemma smap_set_wf k v m : smap_wf m -> smap_wf (smap_set k v m).
Proof.
  unfold smap_wf. induction 1 as [|[k' v'] m Hs IH Hf]; simpl; [repeat constructor|].
  destruct (key_ltb k' k) eqn:E1.
  - constructor; [done|]. apply smap_set_Forall; [done|done|done].
  - destruct (key_ltb k k') eqn:E2.
    + repeat constructor; try done. eapply Forall_impl; [exact Hf|].
      intros [k2 v2] Hlt. unfold key_lt in *. simpl in *. by eapply key_ltb_trans.
    + constructor; [done|]. by eapply Forall_impl.
Qed.

Lemma smap_insert_wf k v m : smap_wf m -> smap_wf (smap_insert k v m).
Proof. unfold smap_insert. case_match; [done|]. apply smap_set_wf. Qed.

Lemma smap_erase_Forall (P : K * V -> Prop) k m : Forall P m -> Forall P (smap_erase k m).
Proof.
  induction 1 as [|[k' v'] m Hp Hm IH]; simpl; [done|].
  destruct (key_ltb k' k); [by constructor|]. destruct (key_ltb k k'); by repeat constructor.
Qed.

Lemma smap_erase_wf k m : smap_wf m -> smap_wf (smap_erase k m).
Proof.
  unfold smap_wf. induction 1 as [|[k' v'] m Hs IH Hf]; simpl; [constructor|].
  destruct (key_ltb k' k); [constructor; [done|by apply smap_erase_Forall]|].
  destruct (key_ltb k k'); [by constructor|done].
Qed.

Lemma smap_find_erase_eq k m : smap_wf m -> smap_find k (smap_erase k m) = None.
Proof.
  induction 1 as [|[k' v'] m Hs IH Hf]; simpl; [done|].
  destruct (key_ltb k' k) eqn:E1; simpl; [by rewrite E1|].
  destruct (key_ltb k k') eqn:E2; simpl; [by rewrite E1, E2|].
  assert (k' = k) as -> by (by apply key_ltb_total). by apply smap_find_lt.
Qed.

Lemma smap_find_erase_ne k1 k2 m :
  k1 <> k2 -> smap_wf m -> smap_find k1 (smap_erase k2 m) = smap_find k1 m.
Proof.
  intros Hne. induction 1 as [|[k' v'] m Hs IH Hf]; simpl; [done|].
  destruct (key_ltb k' k2) eqn:E1; simpl; [by rewrite IH|].
  destruct (key_ltb k2 k') eqn:E2; simpl; [done|].
  assert (k' = k2) as -> by (by apply key_ltb_total).
  destruct (key_ltb k2 k1) eqn:E3; [done|].
  destruct (key_ltb k1 k2) eqn:E4; [|by destruct Hne; apply key_ltb_total].
  apply smap_find_lt. eapply Forall_impl; [exact Hf|].
  intros [k3 v3] Hlt. simpl. by eapply key_ltb_trans.
Qed.

Lemma smap_find_Some_elem k v m : smap_find k m = Some v -> (k, v) ∈ m.
Proof.
  induction m as [|[k' v'] m IH]; simpl; [done|]. repeat case_match; intros; simplify_eq.
  - right. by apply IH.
  - assert (k' = k) as -> by (by apply key_ltb_total). left.
Qed.

Lemma smap_elem_find k v m : smap_wf m -> (k, v) ∈ m -> smap_find k m = Some v.
Proof.
  induction 1 as [|[k' v'] m Hs IH Hf]; [by intros ?%elem_of_nil|].
  intros [[= <- <-]|Hin]%elem_of_cons; simpl; [by rewrite key_ltb_irrefl|].
  rewrite Forall_forall in Hf. pose proof (Hf _ Hin) as Hlt. unfold key_lt in Hlt; simpl in Hlt.
  rewrite Hlt. by apply IH.
Qed.
End MapLaws.

(** ** Laws of ordered sets *)

Section SetLaws.
Context {K : Type} `{KeyOrder K}.
Implicit Types (s : list K) (k : K).

Lemma oset_insert_elem k s x : x ∈ (oset_insert k s).1 <-> x = k \/ x ∈ s.
Proof.
  induction s as [|k' s IH]; simpl; [set_solver|].
  destruct (key_ltb k' k) eqn:E1.
  - destruct (oset_insert k s) as [r b] eqn:E. simpl in *. set_solver.
  - destruct (key_ltb k k') eqn:E2; simpl; [set_solver|].
    assert (k' = k) as -> by (by apply key_ltb_total). set_solver.
Qed.

Lemma oset_insert_wf k s : oset_wf s -> oset_wf (oset_insert k s).1.
Proof.
  unfold oset_wf. induction 1 as [|k' s Hs IH Hf]; simpl; [repeat constructor|].
  destruct (key_ltb k' k) eqn:E1.
  - pose proof (oset_insert_elem k s) as He.
    destruct (oset_insert k s) as [r b] eqn:E. simpl in *. constructor; [done|].
    apply Forall_forall. intros x [->|Hx]%He; [done|]. by rewrite Forall_forall in Hf; apply Hf.
  - destruct (key_ltb k k') eqn:E2; simpl.
    + repeat constructor; try done. eapply Forall_impl; [exact Hf|].
      intros x Hx. by eapply key_ltb_trans.
    + by constructor.
Qed.

Lemma oset_insert_new k s : oset_wf s -> (oset_insert k s).2 = true <-> k ∉ s.
Proof.
  induction 1 as [|k' s Hs IH Hf]; simpl; [set_solver|].
  destruct (key_ltb k' k) eqn:E1.
  - destruct (oset_insert k s) as [r b] eqn:E. simpl in *. rewrite IH, not_elem_of_cons.
    pose proof (key_ltb_ne _ _ E1). naive_solver.
  - destruct (key_ltb k k') eqn:E2; simpl.
    + split; [intros _|done]. intros [->|Hin]%elem_of_cons; [by rewrite key_ltb_irrefl in E2|].
      rewrite Forall_forall in Hf. specialize (Hf _ Hin).
      pose proof (key_ltb_trans _ _ _ E2 Hf) as Hc. by rewrite key_ltb_irrefl in Hc.
    + assert (k' = k) as -> by (by apply key_ltb_total). split; [done|]. set_solver.
Qed.

Lemma oset_insert_false k s : oset_wf s -> (oset_insert k s).2 = false -> (oset_insert k s).1 = s.
Proof.
  induction 1 as [|k' s Hs IH Hf]; simpl; [done|].
  destruct (key_ltb k' k) eqn:E1.
  - destruct (oset_insert k s) as [r b] eqn:E. simpl in *. intros ->. by rewrite IH.
  - by destruct (key_ltb k k').
Qed.

Lemma oset_erase_elem k s x : oset_wf s -> x ∈ oset_erase k s <-> x ∈ s /\ x <> k.
Proof.
  induction 1 as [|k' s Hs IH Hf]; simpl; [set_solver|]. rewrite Forall_forall in Hf.
  destruct (key_ltb k' k) eqn:E1.
  - rewrite !elem_of_cons, IH. pose proof (key_ltb_ne _ _ E1). naive_solver.
  - destruct (key_ltb k k') eqn:E2.
    + split; [|naive_solver]. intros Hin. split; [done|]. intros ->.
      apply elem_of_cons in Hin as [->|Hin]; [by rewrite key_ltb_irrefl in E2|].
      pose proof (key_ltb_trans _ _ _ E2 (Hf _ Hin)) as Hc. by rewrite key_ltb_irrefl in Hc.
    + assert (k' = k) as -> by (by apply key_ltb_total). rewrite elem_of_cons.
      split; [|naive_solver]. intros Hin. split; [by right|]. intros ->.
      pose proof (Hf _ Hin) as Hc. by rewrite key_ltb_irrefl in Hc.
Qed.

Lemma oset_erase_Forall (P : K -> Prop) k s : Forall P s -> Forall P (oset_erase k s).
Proof.
  induction 1 as [|k' s Hp Hs IH]; simpl; [done|].
  destruct (key_ltb k' k); [by constructor|]. destruct (key_ltb k k'); by repeat constructor.
Qed.

Lemma oset_erase_wf k s : oset_wf s -> oset_wf (oset_erase k s).
Proof.
  induction 1 as [|k' s Hs IH Hf]; simpl; [constructor|].
  destruct (key_ltb k' k) eqn:E1; [constructor; [done|by apply oset_erase_Forall]|].
  destruct (key_ltb k k'); [by constructor|done].
Qed.

(** The first element of an ordered set is its least one. *)
Lemma oset_erase_insert k s : k ∉ s -> oset_erase k (oset_insert k s).1 = s.
Proof.
  intros Hk. induction s as [|k' s IH]; simpl; [by rewrite key_ltb_irrefl|].
  apply not_elem_of_cons in Hk as [Hne Hk]. destruct (key_ltb k' k) eqn:E1.
  - specialize (IH Hk). destruct (oset_insert k s) as [r b]. simpl in *. by rewrite E1, IH.
  - destruct (key_ltb k k') eqn:E2; simpl; [by rewrite key_ltb_irrefl|]. destruct Hne. by apply key_ltb_total.
Qed.

Lemma oset_nodup s : oset_wf s -> NoDup s.
Proof.
  induction 1 as [|k s Hs IH Hk]; constructor; [|done]. intros Hin.
  rewrite Forall_forall in Hk. specialize (Hk _ Hin). by rewrite key_ltb_irrefl in Hk.
Qed.

Lemma oset_head_least k s : oset_wf (k :: s) -> forall x, x ∈ k :: s -> key_ltb x k = false.
Proof.
  intros Hs x. inversion Hs as [|? ? ? Hf]; subst. rewrite Forall_forall in Hf.
  intros [->|Hin]%elem_of_cons; [apply key_ltb_irrefl|]. by apply key_ltb_asym, Hf.
Qed.

Lemma oset_erase_sub k s x : x ∈ oset_erase k s -> x ∈ s.
Proof.
  induction s as [|k' s IH]; simpl; [done|].
  destruct (key_ltb k' k); [|destruct (key_ltb k k')]; set_solver.
Qed.
End SetLaws.

#[export] Hint Resolve smap_set_wf smap_insert_wf smap_erase_wf oset_insert_wf oset_erase_wf : cosocket.
