(* ===== verification/Coroutine.v ===== *)
(** * 3rd/coroutine/coroutine.c: stackful coroutines over one shared stack

    [schedule] and [coroutine] are the structs of the C file.  A context ([ucontext_t]) is a value
    of the type [C], which the clients choose (a program to continue); the bytes of the machine
    stack are modelled, because copying them in and out of the one shared stack is what the library
    does.  Every operation returns [None] where an [assert] fails, and the state otherwise. *)

From S2P Require Import Prelude.

Open Scope Z_scope.

Definition DEFAULT_COROUTINE : nat := 16.
(** [STACK_SIZE] of the build; the theory holds for every size. *)
Definition STACK_SIZE : Z := 1024 * 1024.

Inductive co_status_t := COROUTINE_DEAD | COROUTINE_READY | COROUTINE_RUNNING | COROUTINE_SUSPEND.

#[export] Instance co_status_eq_dec : EqDecision co_status_t.
Proof. solve_decision. Defined.

(** [struct coroutine]: [co_func] is [func] applied to [ud], [co_ctx] the saved [ucontext_t]. *)
Record coroutine (C : Type) := mkCoroutine {
  co_func : C;
  co_ctx : option C;
  co_cap : nat;
  co_size : nat;
  co_status : co_status_t;
  co_stack : bytes
}.
Arguments mkCoroutine {C}. Arguments co_func {C}. Arguments co_ctx {C}. Arguments co_cap {C}.
Arguments co_size {C}. Arguments co_status {C}. Arguments co_stack {C}.

(** [struct schedule] *)
Record schedule (C : Type) := mkSchedule {
  sch_stack : bytes;
  sch_nco : nat;
  sch_cap : nat;
  sch_running : Z;
  sch_co : list (option (coroutine C))
}.
Arguments mkSchedule {C}. Arguments sch_stack {C}. Arguments sch_nco {C}. Arguments sch_cap {C}.
Arguments sch_running {C}. Arguments sch_co {C}.

(** What running a context ends with: a [coroutine_yield] with the context to continue and the
    depth [top - &dummy] of the stack at that point, the return of the function, or an abort. *)
Inductive run_result (C X : Type) :=
  | RunYield (S : schedule C) (x : X) (k : C) (depth : nat)
  | RunReturn (S : schedule C) (x : X)
  | RunAbort.
Arguments RunYield {C X}. Arguments RunReturn {C X}. Arguments RunAbort {C X}.

(** The outcome of the first half of [coroutine_resume]. *)
Inductive enter_result (C : Type) :=
  | EnterAbort
  | EnterDead
  | EnterRun (S : schedule C) (k : C).
Arguments EnterAbort {C}. Arguments EnterDead {C}. Arguments EnterRun {C}.

Section Coroutine.
Context (stack_size : nat) {C : Type}.
Implicit Types (S : schedule C) (co : coroutine C) (f k : C).

Definition co_new f : coroutine C := mkCoroutine f None 0 0 COROUTINE_READY [].

(** [junk] is the uninitialised content of the freshly allocated stack. *)
Definition coroutine_open (junk : bytes) : schedule C :=
  mkSchedule junk 0 DEFAULT_COROUTINE (-1) (replicate DEFAULT_COROUTINE None).

(** The scan of [coroutine_new] for a free slot, [i] being [cap - n]. *)
Fixpoint find_slot (cos : list (option (coroutine C))) (nco cap i n : nat) : option nat :=
  match n with
  | O => None
  | Datatypes.S n' =>
      let id := ((i + nco) mod cap)%nat in
      match cos !! id with
      | Some None => Some id
      | _ => find_slot cos nco cap (Datatypes.S i) n'
      end
  end.

Definition coroutine_new S f : option (schedule C * nat) :=
  let co := co_new f in
  if (sch_cap S <=? sch_nco S)%nat then
    let id := sch_cap S in
    let cos := sch_co S ++ replicate (sch_cap S) None in
    Some (mkSchedule (sch_stack S) (Datatypes.S (sch_nco S)) (sch_cap S * 2) (sch_running S)
            (<[id := Some co]> cos), id)
  else
    match find_slot (sch_co S) (sch_nco S) (sch_cap S) 0 (sch_cap S) with
    | Some id =>
        Some (mkSchedule (sch_stack S) (Datatypes.S (sch_nco S)) (sch_cap S) (sch_running S)
                (<[id := Some co]> (sch_co S)), id)
    | None => None
    end.

(** [coroutine_close]: the coroutines it deletes, in slot order; the schedule is gone after it. *)
Definition coroutine_close S : list (coroutine C) := omap id (sch_co S).

Definition coroutine_status S (id : Z) : option co_status_t :=
  if (0 <=? id) && (id <? Z.of_nat (sch_cap S)) then
    match sch_co S !! Z.to_nat id with
    | Some (Some co) => Some (co_status co)
    | _ => Some COROUTINE_DEAD
    end
  else None.

Definition coroutine_running S : Z := sch_running S.

(** [memcpy(S->stack + STACK_SIZE - size, buf, size)] *)
Definition restore_stack (stack buf : bytes) (size : nat) : bytes :=
  take (stack_size - size) stack ++ take size buf.

(** [coroutine_resume] up to its [swapcontext]. *)
Definition resume_enter S (id : Z) : enter_result C :=
  if negb (sch_running S =? -1) then EnterAbort
  else if negb ((0 <=? id) && (id <? Z.of_nat (sch_cap S))) then EnterAbort
  else
    match sch_co S !! Z.to_nat id with
    | Some (Some co) =>
        match co_status co with
        | COROUTINE_READY =>
            let co' := mkCoroutine (co_func co) (Some (co_func co)) (co_cap co) (co_size co)
                         COROUTINE_RUNNING (co_stack co) in
            EnterRun (mkSchedule (sch_stack S) (sch_nco S) (sch_cap S) id
                        (<[Z.to_nat id := Some co']> (sch_co S))) (co_func co)
        | COROUTINE_SUSPEND =>
            let stack := restore_stack (sch_stack S) (co_stack co) (co_size co) in
            let co' := mkCoroutine (co_func co) (co_ctx co) (co_cap co) (co_size co)
                         COROUTINE_RUNNING (co_stack co) in
            match co_ctx co with
            | Some k =>
                EnterRun (mkSchedule stack (sch_nco S) (sch_cap S) id
                            (<[Z.to_nat id := Some co']> (sch_co S))) k
            | None => EnterAbort
            end
        | _ => EnterAbort
        end
    | _ => EnterDead
    end.

(** [_save_stack(C, S->stack + STACK_SIZE)] when [depth] bytes of the stack are in use. *)
Definition save_stack (stack : bytes) co (depth : nat) : option (coroutine C) :=
  if (depth <=? stack_size)%nat then
    let live := drop (stack_size - depth) stack in
    if (co_cap co <? depth)%nat then
      Some (mkCoroutine (co_func co) (co_ctx co) depth depth (co_status co) live)
    else
      Some (mkCoroutine (co_func co) (co_ctx co) (co_cap co) depth (co_status co)
              (live ++ drop depth (co_stack co)))
  else None.

(** [coroutine_yield] up to its [swapcontext], which saves the context [k].  Its assertion
    [&C > S->stack] says that its own frame lies in the shared stack; the frame of
    [_save_stack] lies below it, so the test of [save_stack] on [depth] includes it. *)
Definition coroutine_yield S k (depth : nat) : option (schedule C) :=
  let id := sch_running S in
  if 0 <=? id then
    match sch_co S !! Z.to_nat id with
    | Some (Some co) =>
        match save_stack (sch_stack S) co depth with
        | Some co1 =>
            let co2 := mkCoroutine (co_func co1) (Some k) (co_cap co1) (co_size co1)
                         COROUTINE_SUSPEND (co_stack co1) in
            Some (mkSchedule (sch_stack S) (sch_nco S) (sch_cap S) (-1)
                    (<[Z.to_nat id := Some co2]> (sch_co S)))
        | None => None
        end
    | _ => None
    end
  else None.

(** [mainfunc] after [C->func(S,C->ud)] has returned; [id] is the local read at its start. *)
Definition mainfunc_end S : schedule C :=
  mkSchedule (sch_stack S) (sch_nco S - 1) (sch_cap S) (-1)
    (<[Z.to_nat (sch_running S) := None]> (sch_co S)).

(** [coroutine_resume], given what running a context does to the schedule and the rest [X] of
    the program state. *)
Definition coroutine_resume {X} (run : C -> schedule C -> X -> run_result C X)
    S (x : X) (id : Z) : option (schedule C * X) :=
  match resume_enter S id with
  | EnterAbort => None
  | EnterDead => Some (S, x)
  | EnterRun S1 k =>
      match run k S1 x with
      | RunYield S2 x2 k2 depth =>
          match coroutine_yield S2 k2 depth with
          | Some S3 => Some (S3, x2)
          | None => None
          end
      | RunReturn S2 x2 => Some (mainfunc_end S2, x2)
      | RunAbort => None
      end
  end.

(** ** Invariant *)

Fixpoint live_slots (cos : list (option (coroutine C))) : nat :=
  match cos with
  | [] => 0
  | Some _ :: cos' => Datatypes.S (live_slots cos')
  | None :: cos' => live_slots cos'
  end.

(** A coroutine at rest in its slot; [id] is its slot and [run] the schedule's [running]. *)
Definition co_wf (run : Z) (id : nat) co : Prop :=
  (co_status co = COROUTINE_RUNNING <-> run = Z.of_nat id) /\
  co_status co <> COROUTINE_DEAD /\
  (co_status co = COROUTINE_SUSPEND -> is_Some (co_ctx co)) /\
  (co_size co <= co_cap co <= stack_size)%nat /\
  length (co_stack co) = co_cap co.

Record sched_wf S : Prop := {
  wf_cap_pos : (0 < sch_cap S)%nat;
  wf_len : length (sch_co S) = sch_cap S;
  wf_nco : sch_nco S = live_slots (sch_co S);
  wf_stack : length (sch_stack S) = stack_size;
  wf_running : sch_running S = -1 \/
    exists id co, sch_running S = Z.of_nat id /\ sch_co S !! id = Some (Some co);
  wf_co : forall id co, sch_co S !! id = Some (Some co) -> co_wf (sch_running S) id co
}.

(** ** The schedule as a transition system *)

Inductive event :=
  | ENew (f : C) (id : nat)
  | EResume (id : Z) (k : C)
  | EResumeDead (id : Z)
  | EWrite (stack : bytes)
  | EYield (k : C) (depth : nat)
  | EReturn.

(** One step of the schedule.  Between entering and leaving a context the running coroutine
    writes its stack as it likes ([EWrite]) and may create coroutines. *)
Inductive step : schedule C -> event -> schedule C -> Prop :=
  | step_new S f S' id : coroutine_new S f = Some (S', id) -> step S (ENew f id) S'
  | step_resume S id S' k : resume_enter S id = EnterRun S' k -> step S (EResume id k) S'
  | step_dead S id : resume_enter S id = EnterDead -> step S (EResumeDead id) S
  | step_write S stack : 0 <= sch_running S -> length stack = stack_size ->
      step S (EWrite stack)
        (mkSchedule stack (sch_nco S) (sch_cap S) (sch_running S) (sch_co S))
  | step_yield S k depth S' : coroutine_yield S k depth = Some S' -> step S (EYield k depth) S'
  | step_return S : 0 <= sch_running S -> step S EReturn (mainfunc_end S).

Inductive steps : schedule C -> list event -> schedule C -> Prop :=
  | steps_nil S : steps S [] S
  | steps_cons S e S' es S'' : step S e S' -> steps S' es S'' -> steps S (e :: es) S''.

(** The event resumes the coroutine in slot [id]. *)
Definition resumes (id : nat) (e : event) : Prop :=
  match e with EResume i _ => i = Z.of_nat id | _ => False end.
End Coroutine.

(** ** Slots *)

Section SlotLemmas.
Context {C : Type}.
Implicit Types (cos : list (option (coroutine C))).

Lemma live_slots_fill cos i co :
  cos !! i = Some None -> live_slots (<[i := Some co]> cos) = S (live_slots cos).
Proof.
  revert i. induction cos as [|[co'|] cos IH]; intros [|i]; simpl; try done.
  all: intros Hi; by rewrite (IH _ Hi).
Qed.

Lemma live_slots_replace cos i co co' :
  cos !! i = Some (Some co) -> live_slots (<[i := Some co']> cos) = live_slots cos.
Proof.
  revert i. induction cos as [|[co''|] cos IH]; intros [|i]; simpl; try done.
  all: intros Hi; by rewrite (IH _ Hi).
Qed.

Lemma live_slots_pos cos i co : cos !! i = Some (Some co) -> (0 < live_slots cos)%nat.
Proof.
  revert i. induction cos as [|[co'|] cos IH]; intros [|i]; simpl; try done; try lia.
  apply IH.
Qed.

Lemma live_slots_clear cos i co :
  cos !! i = Some (Some co) -> live_slots (<[i := None]> cos) = (live_slots cos - 1)%nat.
Proof.
  revert i. induction cos as [|[co'|] cos IH]; intros [|i]; simpl; try done; try lia.
  - intros Hi. rewrite (IH _ Hi). apply live_slots_pos in Hi. lia.
  - intros Hi. apply (IH _ Hi).
Qed.

Lemma live_slots_app_None cos n : live_slots (cos ++ replicate n None) = live_slots cos.
Proof. induction cos as [|[co|] cos IH]; simpl; [by induction n|by rewrite IH|done]. Qed.

Lemma free_slot_exists cos :
  (live_slots cos < length cos)%nat -> exists i, cos !! i = Some None.
Proof.
  induction cos as [|[co|] cos IH]; simpl; [lia| |by exists 0%nat].
  intros Hlt. destruct IH as [i Hi]; [lia|]. by exists (S i).
Qed.

Lemma find_slot_free cos nco cap i n id :
  find_slot cos nco cap i n = Some id -> cos !! id = Some None.
Proof.
  revert i. induction n as [|n IH]; intros i; simpl; [done|].
  repeat case_match; intros; simplify_eq; eauto.
Qed.

Lemma find_slot_None cos nco cap i n :
  find_slot cos nco cap i n = None ->
  forall j, (i <= j < i + n)%nat -> cos !! ((j + nco) mod cap)%nat <> Some None.
Proof.
  revert i. induction n as [|n IH]; intros i; simpl; [lia|].
  intros Hf j Hj. destruct (decide (j = i)) as [->|Hne].
  - intros Hi. by rewrite Hi in Hf.
  - apply (IH (S i)); [|lia]. by repeat case_match.
Qed.

(** The scan of [coroutine_new] visits every slot, so it fails only when none is free. *)
Lemma find_slot_total cos nco :
  nco = live_slots cos -> (nco < length cos)%nat ->
  exists id, find_slot cos nco (length cos) 0 (length cos) = Some id.
Proof.
  intros -> Hlt. destruct (find_slot _ _ _ _ _) as [id|] eqn:E; [by exists id|exfalso].
  destruct (free_slot_exists cos Hlt) as [s Hs].
  pose proof (lookup_lt_Some _ _ _ Hs) as Hb.
  pose proof (find_slot_None _ _ _ _ _ E) as Hn.
  set (nco := live_slots cos) in *. set (cap := length cos) in *.
  destruct (decide (nco <= s)%nat).
  - apply (Hn (s - nco)%nat); [lia|].
    replace (s - nco + nco)%nat with s by lia. by rewrite Nat.mod_small.
  - apply (Hn (s + cap - nco)%nat); [lia|].
    replace (s + cap - nco + nco)%nat with (s + 1 * cap)%nat by lia.
    rewrite Nat.Div0.mod_add. by rewrite Nat.mod_small.
Qed.
End SlotLemmas.

(** ** The invariant *)

Section InvariantLemmas.
Context (stack_size : nat) {C : Type}.
Implicit Types (S : schedule C) (co : coroutine C) (f k : C).
#[local] Notation wf := (sched_wf stack_size).

Lemma open_wf (junk : bytes) : length junk = stack_size -> wf (coroutine_open (C := C) junk).
Proof.
  intros Hj. unfold coroutine_open, DEFAULT_COROUTINE. split; cbn; auto; try lia.
  intros id co Hco. by repeat (destruct id as [|id]; try done).
Qed.

(** Closing deletes each of the [nco] coroutines once. *)
Lemma close_deletes_all S : wf S -> length (coroutine_close S) = sch_nco S.
Proof.
  intros Hwf. rewrite (wf_nco _ _ Hwf). unfold coroutine_close.
  induction (sch_co S) as [|[co|] cos IH]; simpl; [done|by rewrite <- IH|done].
Qed.

(** Replacing the record of one slot keeps the slots' invariant when the new record has it and
    the change of [running] concerns that slot only. *)
Lemma co_wf_insert (cos : list (option (coroutine C))) run run' i o :
  (forall id co, cos !! id = Some (Some co) -> co_wf stack_size run id co) ->
  (forall j, j <> i -> run = Z.of_nat j <-> run' = Z.of_nat j) ->
  (forall co, o = Some co -> co_wf stack_size run' i co) ->
  forall id co, <[i := o]> cos !! id = Some (Some co) -> co_wf stack_size run' id co.
Proof.
  intros Hall Hrun Ho id co Hco. destruct (decide (id = i)) as [->|Hne].
  - apply list_lookup_insert_Some in Hco as [(_ & -> & _)|(? & _)]; [by apply Ho|done].
  - rewrite list_lookup_insert_ne in Hco by done.
    destruct (Hall _ _ Hco) as (H1 & H2). split; [|done]. rewrite H1. by apply Hrun.
Qed.

(** The slots of [cos] hold the same coroutines as those of [cos']. *)
Definition same_slots (cos cos' : list (option (coroutine C))) (id : nat) : Prop :=
  forall j co, j <> id -> cos !! j = Some (Some co) <-> cos' !! j = Some (Some co).

(** Storing a new coroutine in a free slot of a (possibly grown) array. *)
Lemma place_wf S cos id f :
  wf S -> cos !! id = Some None -> live_slots cos = sch_nco S ->
  (forall j co, cos !! j = Some (Some co) <-> sch_co S !! j = Some (Some co)) ->
  let S' := mkSchedule (sch_stack S) (Datatypes.S (sch_nco S)) (length cos) (sch_running S)
              (<[id := Some (co_new f)]> cos) in
  wf S' /\ (forall co, sch_co S !! id <> Some (Some co)) /\
    sch_co S' !! id = Some (Some (co_new f)) /\ same_slots (sch_co S') (sch_co S) id.
Proof.
  intros [Hcap Hlen Hnco Hst Hrun Hco] Hfree Hlive Hcos S'.
  pose proof (lookup_lt_Some _ _ _ Hfree) as Hlt.
  assert (forall co, sch_co S !! id <> Some (Some co)) as Hnot.
  { intros co Hc%Hcos. by simplify_eq. }
  assert (sch_running S <> Z.of_nat id) as Hne.
  { destruct Hrun as [->|(id' & co & -> & Hid)]; [lia|]. intros ?.
    assert (id' = id) as -> by lia. by eapply Hnot. }
  split_and!; [split; simpl| | |]; try done.
  - lia.
  - by rewrite length_insert.
  - by rewrite (live_slots_fill _ _ _ Hfree), Hlive.
  - destruct Hrun as [?|(id' & co & ? & Hid')]; [by left|right]. exists id', co.
    split; [done|]. rewrite list_lookup_insert_ne; [by apply Hcos|]. intros <-. by eapply Hnot.
  - eapply (co_wf_insert cos (sch_running S)); try done.
    + intros id' co ?%Hcos. by apply Hco.
    + intros co' [= <-]. unfold co_wf. simpl. split_and!; try done; lia.
  - simpl. by rewrite list_lookup_insert_eq.
  - intros j co Hj. simpl. rewrite list_lookup_insert_ne by done. apply Hcos.
Qed.

Lemma new_spec S f :
  wf S ->
  exists S' id, coroutine_new S f = Some (S', id) /\ wf S' /\ sch_running S' = sch_running S /\
    sch_stack S' = sch_stack S /\ (forall co, sch_co S !! id <> Some (Some co)) /\
    sch_co S' !! id = Some (Some (co_new f)) /\ same_slots (sch_co S') (sch_co S) id.
Proof.
  intros Hwf. pose proof Hwf as [Hcap Hlen Hnco Hst Hrun Hco]. unfold coroutine_new.
  destruct (sch_cap S <=? sch_nco S)%nat eqn:E.
  - set (cos := sch_co S ++ replicate (sch_cap S) None).
    assert (cos !! sch_cap S = Some None) as Hfree.
    { unfold cos. rewrite lookup_app_r by lia. apply lookup_replicate_2. lia. }
    assert (length cos = (sch_cap S * 2)%nat) as Hl.
    { unfold cos. rewrite length_app, length_replicate. lia. }
    destruct (place_wf S cos (sch_cap S) f) as (? & ? & ? & ?); try done.
    + unfold cos. by rewrite live_slots_app_None.
    + intros j co. unfold cos. split.
      * intros [?|[_ Hj]]%lookup_app_Some; [done|]. by apply lookup_replicate in Hj as [? _].
      * intros Hj. by apply lookup_app_l_Some.
    + rewrite Hl in *. eexists _, _. split_and!; done.
  - apply Nat.leb_gt in E.
    destruct (find_slot_total (sch_co S) (sch_nco S) Hnco) as [id Hid]; [lia|].
    rewrite Hlen in Hid. rewrite Hid. pose proof (find_slot_free _ _ _ _ _ _ Hid) as Hfree.
    destruct (place_wf S (sch_co S) id f) as (? & ? & ? & ?); try done.
    rewrite Hlen in *. eexists _, _. split_and!; done.
Qed.

(** The coroutine that a resume enters becomes the running one; its code and buffer stay. *)
Lemma enter_spec S id S' k :
  wf S -> resume_enter stack_size S id = EnterRun S' k ->
  exists i co co' st, id = Z.of_nat i /\ sch_running S = -1 /\ sch_co S !! i = Some (Some co) /\
    S' = mkSchedule st (sch_nco S) (sch_cap S) id (<[i := Some co']> (sch_co S)) /\
    co_status co' = COROUTINE_RUNNING /\ co_cap co' = co_cap co /\ co_size co' = co_size co /\
    co_stack co' = co_stack co /\ is_Some (co_ctx co') /\
    (co_status co = COROUTINE_READY /\ k = co_func co /\ st = sch_stack S \/
     co_status co = COROUTINE_SUSPEND /\ co_ctx co = Some k /\
     st = restore_stack stack_size (sch_stack S) (co_stack co) (co_size co)).
Proof.
  intros Hwf. unfold resume_enter.
  destruct (sch_running S =? -1) eqn:E1; [simpl|done].
  destruct ((0 <=? id) && (id <? Z.of_nat (sch_cap S))) eqn:E2; [simpl|done]. breflect.
  destruct (sch_co S !! Z.to_nat id) as [[co|]|] eqn:Hid; try done.
  intros He. exists (Z.to_nat id), co.
  destruct (co_status co) eqn:Hs; try done.
  - injection He as <- <-.
    eexists _, _. split_and!; simpl; try done; try lia. by left.
  - destruct (co_ctx co) as [k'|] eqn:Hk; [|done]. injection He as <- <-.
    eexists _, _. split_and!; simpl; try done; try lia. by right.
Qed.

Lemma length_restore_stack stack buf size :
  length stack = stack_size -> (size <= length buf)%nat -> (size <= stack_size)%nat ->
  length (restore_stack stack_size stack buf size) = stack_size.
Proof. intros. unfold restore_stack. rewrite length_app, !length_take. lia. Qed.

Lemma enter_wf S id S' k : wf S -> resume_enter stack_size S id = EnterRun S' k -> wf S'.
Proof.
  intros Hwf He.
  destruct (enter_spec _ _ _ _ Hwf He)
    as (i & co & co' & st & -> & Hr & Hi & -> & Hs & Hc1 & Hc2 & Hc3 & Hk & Hcase).
  destruct Hwf as [Hcap Hlen Hnco Hst Hrun Hco]. destruct (Hco _ _ Hi) as (_ & _ & _ & Hsz & Hl).
  pose proof (lookup_lt_Some _ _ _ Hi) as Hlt.
  split; simpl; try done.
  - by rewrite length_insert.
  - by rewrite (live_slots_replace _ _ _ _ Hi).
  - destruct Hcase as [(_ & _ & ->)|(_ & _ & ->)]; [done|]. apply length_restore_stack; lia.
  - right. exists i, co'. by rewrite list_lookup_insert_eq.
  - eapply (co_wf_insert (sch_co S) (sch_running S)); try done; [lia|].
    intros ? [= <-]. unfold co_wf. rewrite Hs, Hc1, Hc2, Hc3. split_and!; try done; lia.
Qed.

Lemma yield_spec S k depth S' :
  wf S -> coroutine_yield stack_size S k depth = Some S' ->
  exists i co co', sch_running S = Z.of_nat i /\ sch_co S !! i = Some (Some co) /\
    (depth <= stack_size)%nat /\
    S' = mkSchedule (sch_stack S) (sch_nco S) (sch_cap S) (-1) (<[i := Some co']> (sch_co S)) /\
    co_status co' = COROUTINE_SUSPEND /\ co_ctx co' = Some k /\ co_size co' = depth /\
    (depth <= co_cap co' <= stack_size)%nat /\ length (co_stack co') = co_cap co' /\
    take depth (co_stack co') = drop (stack_size - depth) (sch_stack S).
Proof.
  intros [Hcap Hlen Hnco Hst Hrun Hco]. unfold coroutine_yield.
  destruct (0 <=? sch_running S) eqn:E; [|done]. breflect.
  destruct Hrun as [|(i & co & Hi & Hic)]; [lia|]. rewrite Hi, Nat2Z.id, Hic.
  destruct (Hco _ _ Hic) as (_ & _ & _ & Hsz & Hl).
  unfold save_stack. destruct (depth <=? stack_size)%nat eqn:Ed; [|done]. apply Nat.leb_le in Ed.
  assert (length (drop (stack_size - depth) (sch_stack S)) = depth) as Hd.
  { rewrite length_drop. lia. }
  destruct (co_cap co <? depth)%nat eqn:Ec; intros [= <-].
  - eexists i, co, _. split_and!; simpl; try done; try lia.
    simpl. by rewrite firstn_all2 by (rewrite Hd; lia).
  - apply Nat.ltb_ge in Ec. eexists i, co, _. split_and!; simpl; try done; try lia.
    + simpl. lia.
    + simpl. rewrite length_app, Hd, length_drop. lia.
    + simpl. by rewrite take_app_length'.
Qed.

Lemma yield_wf S k depth S' : wf S -> coroutine_yield stack_size S k depth = Some S' -> wf S'.
Proof.
  intros Hwf Hy. destruct (yield_spec _ _ _ _ Hwf Hy)
    as (i & co & co' & Hi & Hic & Hd & -> & Hs & Hk & Hz & Hc & Hl & _).
  destruct Hwf as [Hcap Hlen Hnco Hst Hrun Hco]. split; simpl; try done; [..|by left|].
  - by rewrite length_insert.
  - by rewrite (live_slots_replace _ _ _ _ Hic).
  - eapply (co_wf_insert (sch_co S) (sch_running S)); try done; [lia|].
    intros ? [= <-]. unfold co_wf. rewrite Hs, Hk, Hz. split_and!; try done; try lia.
    split; [done|lia].
Qed.

Lemma return_wf S : wf S -> 0 <= sch_running S -> wf (mainfunc_end S).
Proof.
  intros [Hcap Hlen Hnco Hst Hrun Hco] Hr. unfold mainfunc_end.
  destruct Hrun as [|(i & co & Hi & Hic)]; [lia|]. rewrite Hi, Nat2Z.id.
  split; simpl; try done; [..|by left|].
  - by rewrite length_insert.
  - by rewrite (live_slots_clear _ _ _ Hic), Hnco.
  - eapply (co_wf_insert (sch_co S) (sch_running S)); try done. lia.
Qed.

Lemma write_wf S stack :
  wf S -> length stack = stack_size ->
  wf (mkSchedule stack (sch_nco S) (sch_cap S) (sch_running S) (sch_co S)).
Proof. by intros [] ?. Qed.

Lemma step_wf S e S' : step stack_size S e S' -> wf S -> wf S'.
Proof.
  destruct 1 as [S f S' id Hn|S id S' k He|S id|S stack|S k d S' Hy|S]; intros Hwf; try done.
  - destruct (new_spec S f Hwf) as (S2 & id2 & Hn2 & ? & _). by simplify_eq.
  - by eapply enter_wf.
  - by apply write_wf.
  - by eapply yield_wf.
  - by apply return_wf.
Qed.

Lemma steps_wf S es S' : steps stack_size S es S' -> wf S -> wf S'.
Proof. induction 1; eauto using step_wf. Qed.
End InvariantLemmas.

(** ** What the shared stack promises to a suspended coroutine *)

Section SharedStack.
Context (stack_size : nat) {C : Type}.
Implicit Types (S : schedule C) (co : coroutine C) (f k : C).
#[local] Notation wf := (sched_wf stack_size).

(** No event but its own resume touches the record of a coroutine that is not running. *)
Lemma step_keeps S e S' i co :
  wf S -> step stack_size S e S' -> ~ resumes i e ->
  sch_co S !! i = Some (Some co) -> co_status co <> COROUTINE_RUNNING ->
  sch_co S' !! i = Some (Some co).
Proof.
  intros Hwf Hstep Hne Hi Hs.
  assert (sch_running S <> Z.of_nat i) as Hnr.
  { intros Hr. by apply (wf_co _ _ Hwf _ _ Hi) in Hr. }
  destruct Hstep as [S f S' id Hn|S id S' k He|S id|S stack|S k d S' Hy|S].
  - destruct (new_spec _ S f Hwf) as (S2 & id2 & Hn2 & _ & _ & _ & Hfree & _ & Hsame).
    simplify_eq. apply Hsame; [|done]. intros ->. by eapply Hfree.
  - destruct (enter_spec _ _ _ _ _ Hwf He) as (j & cj & cj' & st & -> & _ & _ & -> & _).
    simpl in *. rewrite list_lookup_insert_ne; [done|]. naive_solver.
  - done.
  - done.
  - destruct (yield_spec _ _ _ _ _ Hwf Hy) as (j & cj & cj' & Hj & _ & _ & -> & _).
    simpl. rewrite list_lookup_insert_ne; [done|]. naive_solver.
  - simpl. rewrite list_lookup_insert_ne; [done|]. intros Heq. lia.
Qed.

Lemma steps_keep S es S' i co :
  steps stack_size S es S' -> wf S -> Forall (fun e => ~ resumes i e) es ->
  sch_co S !! i = Some (Some co) -> co_status co <> COROUTINE_RUNNING ->
  sch_co S' !! i = Some (Some co).
Proof.
  induction 1 as [|S e S' es S'' Hstep Hsteps IH]; intros Hwf Hes Hi Hs; [done|].
  apply Forall_cons in Hes as [He Hes]. apply IH; eauto using step_wf, step_keeps.
Qed.

(** A suspended coroutine can be resumed, and gets the stack bytes it saved. *)
Lemma resume_suspended S i co k :
  wf S -> sch_running S = -1 -> sch_co S !! i = Some (Some co) ->
  co_status co = COROUTINE_SUSPEND -> co_ctx co = Some k ->
  exists S', resume_enter stack_size S (Z.of_nat i) = EnterRun S' k /\
    sch_stack S' = restore_stack stack_size (sch_stack S) (co_stack co) (co_size co).
Proof.
  intros Hwf Hr Hi Hs Hk. pose proof (lookup_lt_Some _ _ _ Hi) as Hlt.
  rewrite (wf_len _ _ Hwf) in Hlt. unfold resume_enter. rewrite Hr. simpl.
  decide_cmp. simpl. rewrite Nat2Z.id, Hi, Hs, Hk. by eexists.
Qed.

Lemma drop_restore_stack stack buf size :
  length stack = stack_size -> (size <= length buf)%nat -> (size <= stack_size)%nat ->
  drop (stack_size - size) (restore_stack stack_size stack buf size) = take size buf.
Proof.
  intros. unfold restore_stack. apply drop_app_length'. rewrite length_take. lia.
Qed.

(** C1.  A coroutine that yielded with [depth] bytes on the shared stack finds them again,
    byte for byte, when it is next resumed, and continues with the context it saved, whatever
    the other coroutines did to the stack and to the schedule in between. *)
Theorem yield_resume_restores S i k depth S1 es S2 :
  wf S -> sch_running S = Z.of_nat i ->
  coroutine_yield stack_size S k depth = Some S1 ->
  steps stack_size S1 es S2 -> Forall (fun e => ~ resumes i e) es -> sch_running S2 = -1 ->
  exists S3, resume_enter stack_size S2 (Z.of_nat i) = EnterRun S3 k /\
    drop (stack_size - depth) (sch_stack S3) = drop (stack_size - depth) (sch_stack S).
Proof.
  intros Hwf Hi Hy Hsteps Hes Hr.
  pose proof (yield_wf _ _ _ _ _ Hwf Hy) as Hwf1.
  pose proof (steps_wf _ _ _ _ Hsteps Hwf1) as Hwf2.
  destruct (yield_spec _ _ _ _ _ Hwf Hy)
    as (j & co & co' & Hj & Hic & Hd & HS1 & Hs & Hk & Hz & Hc & Hl & Htake).
  assert (j = i) as -> by lia. pose proof (lookup_lt_Some _ _ _ Hic) as Hlt.
  assert (sch_co S2 !! i = Some (Some co')) as Hi2.
  { eapply steps_keep; [done..| |by rewrite Hs]. subst S1. simpl. by rewrite list_lookup_insert_eq. }
  destruct (resume_suspended _ _ _ _ Hwf2 Hr Hi2 Hs Hk) as (S3 & He & Hst3).
  exists S3. split; [done|]. rewrite Hst3, Hz. rewrite drop_restore_stack; [done| |lia..].
  apply (wf_stack _ _ Hwf2).
Qed.

(** C2.  [coroutine_new] always finds a slot: the free one its scan meets, or the first of the
    doubled array; it never takes the slot of a live coroutine, changes no other slot, and
    keeps the invariant of the schedule ([nco] is the number of live coroutines, ...). *)
Theorem coroutine_new_correct S f :
  wf S ->
  exists S' id, coroutine_new S f = Some (S', id) /\ wf S' /\ (id < sch_cap S')%nat /\
    coroutine_status S' (Z.of_nat id) = Some COROUTINE_READY /\
    (forall co, sch_co S !! id <> Some (Some co)) /\
    same_slots (sch_co S') (sch_co S) id /\ sch_nco S' = Datatypes.S (sch_nco S).
Proof.
  intros Hwf. destruct (new_spec _ S f Hwf) as (S' & id & Hn & Hwf' & _ & _ & Hf & Hnew & Hs).
  exists S', id. pose proof (lookup_lt_Some _ _ _ Hnew) as Hlt.
  rewrite (wf_len _ _ Hwf') in Hlt. split_and!; try done.
  - unfold coroutine_status. decide_cmp. simpl. by rewrite Nat2Z.id, Hnew.
  - revert Hn. unfold coroutine_new. repeat case_match; by intros; simplify_eq.
Qed.

(** Running contexts keep the invariant and the identity of the running coroutine. *)
Definition run_ok {X} (run : C -> schedule C -> X -> run_result C X) : Prop :=
  forall k S x, wf S -> 0 <= sch_running S ->
    match run k S x with
    | RunYield S' _ _ depth => wf S' /\ sch_running S' = sch_running S /\ (depth <= stack_size)%nat
    | RunReturn S' _ => wf S' /\ sch_running S' = sch_running S
    | RunAbort => False
    end.

(** C3.  A resume from the main context, of a coroutine that exists or not, never hits an
    assertion, comes back to the main context, and keeps the invariant. *)
Theorem coroutine_resume_wf {X} (run : C -> schedule C -> X -> run_result C X) S x id :
  run_ok run -> wf S -> sch_running S = -1 -> 0 <= id < Z.of_nat (sch_cap S) ->
  exists S' x', coroutine_resume stack_size run S x id = Some (S', x') /\
    wf S' /\ sch_running S' = -1.
Proof.
  intros Hrun Hwf Hr Hid. unfold coroutine_resume.
  destruct (resume_enter stack_size S id) as [| |S1 k] eqn:He.
  - exfalso. revert He. unfold resume_enter. rewrite Hr. decide_cmp. simpl.
    destruct (sch_co S !! Z.to_nat id) as [[co|]|] eqn:Hco; try done.
    destruct (wf_co _ _ Hwf _ _ Hco) as (Hst & Hnd & Hctx & _).
    destruct (co_status co) eqn:Hs; try done.
    + rewrite Hr in Hst. destruct Hst as [Hst _]. specialize (Hst eq_refl). lia.
    + destruct Hctx as [k ->]; done.
  - by exists S, x.
  - pose proof (enter_wf _ _ _ _ _ Hwf He) as Hwf1.
    destruct (enter_spec _ _ _ _ _ Hwf He) as (i & co & co' & st & -> & _ & Hi & HS1 & _).
    assert (sch_running S1 = Z.of_nat i) as Hr1 by (by subst).
    specialize (Hrun k S1 x Hwf1 ltac:(lia)).
    destruct (run k S1 x) as [S2 x2 k2 d|S2 x2|]; [|destruct Hrun as [Hwf2 Hr2]|done].
    + destruct Hrun as (Hwf2 & Hr2 & Hd).
      destruct (wf_running _ _ Hwf2) as [|(j & cj & Hj & Hcj)]; [lia|].
      destruct (coroutine_yield stack_size S2 k2 d) as [S3|] eqn:Hy.
      * destruct (yield_spec _ _ _ _ _ Hwf2 Hy) as (j2 & c1 & c2 & _ & _ & _ & Heq & _).
        exists S3, x2. split_and!; [done|exact (yield_wf _ _ _ _ _ Hwf2 Hy)|by subst].
      * exfalso. revert Hy. unfold coroutine_yield. rewrite Hj. decide_cmp.
        rewrite Nat2Z.id, Hcj. unfold save_stack. rewrite (proj2 (Nat.leb_le _ _) Hd).
        by destruct (co_cap cj <? d)%nat.
    + exists (mainfunc_end S2), x2. split_and!; [done|apply return_wf; [done|lia]|done].
Qed.

(** When the function of a coroutine returns, its slot is dead: its status says so, a
    further resume does nothing, and the slot is free for the next [coroutine_new]. *)
Theorem finished_coroutine_dead {X} (run : C -> schedule C -> X -> run_result C X) S x i :
  wf S -> sch_running S = Z.of_nat i ->
  coroutine_status (mainfunc_end S) (Z.of_nat i) = Some COROUTINE_DEAD /\
  coroutine_resume stack_size run (mainfunc_end S) x (Z.of_nat i) = Some (mainfunc_end S, x) /\
  sch_co (mainfunc_end S) !! i = Some None /\
  (sch_nco (mainfunc_end S) < sch_cap (mainfunc_end S))%nat.
Proof.
  intros Hwf Hr. destruct (wf_running _ _ Hwf) as [|(j & co & Hj & Hco)]; [lia|].
  assert (j = i) as -> by lia. pose proof (lookup_lt_Some _ _ _ Hco) as Hlt.
  assert (sch_co (mainfunc_end S) !! i = Some None) as Hi.
  { simpl. rewrite Hr, Nat2Z.id. by rewrite list_lookup_insert_eq. }
  rewrite (wf_len _ _ Hwf) in Hlt. split_and!; try done.
  - unfold coroutine_status. simpl sch_cap. decide_cmp. simpl andb. rewrite Nat2Z.id.
    by rewrite Hi.
  - unfold coroutine_resume, resume_enter. simpl sch_running. simpl negb. simpl sch_cap.
    decide_cmp. simpl negb. rewrite Nat2Z.id. by rewrite Hi.
  - simpl. rewrite (wf_nco _ _ Hwf). pose proof (live_slots_pos _ _ _ Hco).
    assert (live_slots (sch_co S) <= length (sch_co S))%nat as Hle.
    { clear. induction (sch_co S) as [|[co|] cos IH]; simpl; lia. }
    rewrite (wf_len _ _ Hwf) in Hle. lia.
Qed.
End SharedStack.

(** ** 3rd/coroutine/coroutine_test.c *)

Module CoroutineTest.
(** The context of [foo]: its locals [start] and [i], stopped at the test of its [for] loop. *)
Record foo_ctx := mkFoo { foo_start : Z; foo_i : Z }.

(** The printed lines ["coroutine %d : %d\n"]. *)
Abbreviation output := (list (Z * Z)).

Definition test_stack_size : nat := 8.

(** [foo] up to its next [coroutine_yield]: the locals are on its stack. *)
Definition foo (k : foo_ctx) (S : schedule foo_ctx) (out : output)
    : run_result foo_ctx output :=
  if foo_i k <? 5 then
    let out' := out ++ [(coroutine_running S, foo_start k + foo_i k)] in
    let stack := take 6 (sch_stack S) ++ [foo_start k; foo_i k] in
    RunYield (mkSchedule stack (sch_nco S) (sch_cap S) (sch_running S) (sch_co S)) out'
      (mkFoo (foo_start k) (foo_i k + 1)) 2
  else RunReturn S out.

(** The loop of [test]; [None] is an assertion failure or exhausted fuel. *)
Fixpoint test_loop (fuel : nat) (S : schedule foo_ctx) (out : output) (co1 co2 : Z)
    : option (schedule foo_ctx * output) :=
  match fuel with
  | O => None
  | Datatypes.S fuel' =>
      match coroutine_status S co1, coroutine_status S co2 with
      | Some s1, Some s2 =>
          if bool_decide (s1 <> COROUTINE_DEAD) && bool_decide (s2 <> COROUTINE_DEAD) then
            match coroutine_resume test_stack_size foo S out co1 with
            | Some (S1, out1) =>
                match coroutine_resume test_stack_size foo S1 out1 co2 with
                | Some (S2, out2) => test_loop fuel' S2 out2 co1 co2
                | None => None
                end
            | None => None
            end
          else Some (S, out)
      | _, _ => None
      end
  end.

Definition test (fuel : nat) : option output :=
  match coroutine_new (coroutine_open (replicate test_stack_size 0)) (mkFoo 0 0) with
  | Some (S1, co1) =>
      match coroutine_new S1 (mkFoo 100 0) with
      | Some (S2, co2) => snd <$> test_loop fuel S2 [] (Z.of_nat co1) (Z.of_nat co2)
      | None => None
      end
  | None => None
  end.

Example test_output :
  test 10 = Some [(0, 0); (1, 100); (0, 1); (1, 101); (0, 2); (1, 102); (0, 3); (1, 103);
                  (0, 4); (1, 104)].
Proof. reflexivity. Qed.

Lemma foo_ok : run_ok test_stack_size foo.
Proof.
  intros k S out Hwf Hr. unfold foo. destruct (foo_i k <? 5); [|done].
  split_and!; [|done|unfold test_stack_size; lia]. apply write_wf; [done|].
  rewrite length_app, length_take, (wf_stack _ _ Hwf). done.
Qed.

(** A concrete schedule: two coroutines, the first one running. *)
Definition demo0 : schedule foo_ctx := coroutine_open (replicate test_stack_size 7).
Definition demo1 : schedule foo_ctx :=
  mkSchedule (replicate 8 7) 1 16 (-1) (<[0%nat := Some (co_new (mkFoo 0 0))]> (sch_co demo0)).
Definition demo2 : schedule foo_ctx :=
  mkSchedule (replicate 8 7) 2 16 (-1) (<[1%nat := Some (co_new (mkFoo 100 0))]> (sch_co demo1)).
Definition demo3 : schedule foo_ctx :=
  mkSchedule (replicate 8 7) 2 16 0
    (<[0%nat := Some (mkCoroutine (mkFoo 0 0) (Some (mkFoo 0 0)) 0 0 COROUTINE_RUNNING [])]>
       (sch_co demo2)).
(** The first coroutine yields with three bytes on the stack, the second one runs. *)
Definition demo4 : schedule foo_ctx :=
  default demo3 (coroutine_yield 8 demo3 (mkFoo 0 1) 3).
Definition demo5 : schedule foo_ctx :=
  mkSchedule (replicate 8 7) 2 16 1
    (<[1%nat := Some (mkCoroutine (mkFoo 100 0) (Some (mkFoo 100 0)) 0 0 COROUTINE_RUNNING [])]>
       (sch_co demo4)).
Definition demo6 : schedule foo_ctx := mkSchedule (replicate 8 9) 2 16 1 (sch_co demo5).
Definition demo7 : schedule foo_ctx := mainfunc_end demo6.

Lemma demo_wf : sched_wf 8 demo2 /\ sched_wf 8 demo3.
Proof.
  assert (sched_wf 8 demo2) as H2.
  { apply (steps_wf 8 demo0 [ENew (mkFoo 0 0) 0; ENew (mkFoo 100 0) 1] demo2).
    - repeat (eapply steps_cons; [by constructor|]). constructor.
    - by apply open_wf. }
  split; [done|]. by apply (enter_wf 8 demo2 0 _ (mkFoo 0 0)).
Qed.

Definition demo_events : list (event (C := foo_ctx)) :=
  [EResume 1 (mkFoo 100 0); EWrite (replicate 8 9); EReturn].

Lemma demo_steps : steps 8 demo4 demo_events demo7.
Proof.
  eapply (steps_cons _ _ _ demo5); [by constructor|].
  eapply (steps_cons _ _ _ demo6); [by apply (step_write 8 demo5)|].
  eapply (steps_cons _ _ _ demo7); [by apply (step_return 8 demo6)|]. constructor.
Qed.

Lemma yield_resume_restores_witness :
  exists S3, resume_enter 8 demo7 0 = EnterRun S3 (mkFoo 0 1) /\
    drop 5 (sch_stack S3) = [7; 7; 7].
Proof.
  apply (yield_resume_restores 8 demo3 0 (mkFoo 0 1) 3 demo4 demo_events demo7).
  - apply demo_wf.
  - reflexivity.
  - reflexivity.
  - apply demo_steps.
  - repeat constructor; simpl; lia.
  - reflexivity.
Defined.

Lemma coroutine_new_correct_witness :
  exists S' id, coroutine_new demo2 (mkFoo 5 0) = Some (S', id) /\ sched_wf 8 S' /\
    (id < sch_cap S')%nat /\ coroutine_status S' (Z.of_nat id) = Some COROUTINE_READY /\
    (forall co, sch_co demo2 !! id <> Some (Some co)) /\
    same_slots (sch_co S') (sch_co demo2) id /\ sch_nco S' = 3%nat.
Proof. apply (coroutine_new_correct 8 demo2 (mkFoo 5 0)). apply demo_wf. Defined.

Lemma coroutine_resume_wf_witness :
  exists S' out, coroutine_resume 8 foo demo2 [] 1 = Some (S', out) /\
    sched_wf 8 S' /\ sch_running S' = -1.
Proof.
  apply (coroutine_resume_wf 8 foo demo2 [] 1); [apply foo_ok|apply demo_wf|done|].
  simpl; lia.
Defined.

Lemma finished_coroutine_dead_witness :
  coroutine_status (mainfunc_end demo3) 0 = Some COROUTINE_DEAD /\
  coroutine_resume 8 foo (mainfunc_end demo3) [] 0 = Some (mainfunc_end demo3, []) /\
  sch_co (mainfunc_end demo3) !! 0%nat = Some None /\
  (sch_nco (mainfunc_end demo3) < sch_cap (mainfunc_end demo3))%nat.
Proof.
  apply (finished_coroutine_dead 8 foo demo3 [] 0); [apply demo_wf|reflexivity].
Defined.
End CoroutineTest.
