(* ===== verification/Timestamp.v ===== *)
(** * base/Timestamp: wall-clock instants

    [timeval] is the struct of the same name; [Timestamp()] is the value [gettimeofday] returned,
    which the operations of the other files receive as an argument. *)

From S2P Require Import Prelude OrdMap.

Open Scope Z_scope.

Record timeval := mkTimeval { tv_sec : Z; tv_usec : Z }.

#[export] Instance timeval_eq_dec : EqDecision timeval.
Proof. solve_decision. Defined.

(** [Timestamp::AddMillisecond]: C division and remainder, no carry into the seconds. *)
Definition AddMillisecond (ts : timeval) (millisecond : Z) : timeval :=
  mkTimeval (tv_sec ts + Z.quot millisecond 1000)
            (tv_usec ts + Z.rem millisecond 1000 * 1000).

(** [operator <] *)
Definition ts_lt (lhs rhs : timeval) : bool :=
  if tv_sec lhs <? tv_sec rhs then true
  else if tv_sec lhs =? tv_sec rhs then tv_usec lhs <? tv_usec rhs
  else false.

(** [operator ==] *)
Definition ts_eq (lhs rhs : timeval) : bool :=
  (tv_sec lhs =? tv_sec rhs) && (tv_usec lhs =? tv_usec rhs).

(** [operator >] *)
Definition ts_gt (lhs rhs : timeval) : bool :=
  if tv_sec lhs >? tv_sec rhs then true
  else if tv_sec lhs =? tv_sec rhs then tv_usec lhs >? tv_usec rhs
  else false.

(** [operator -], in milliseconds *)
Definition ts_sub (lhs rhs : timeval) : Z :=
  let millisec := 1000 * (tv_sec lhs - tv_sec rhs) in
  millisec + Z.quot (tv_usec lhs - tv_usec rhs) 1000.

(** The instant in microseconds, and the values [gettimeofday] returns. *)
Definition usecs (ts : timeval) : Z := 1000000 * tv_sec ts + tv_usec ts.
Definition normal (ts : timeval) : Prop := 0 <= tv_usec ts < 1000000.

(** ** Order *)

Lemma ts_lt_irrefl a : ts_lt a a = false.
Proof. unfold ts_lt. by rewrite Z.ltb_irrefl, Z.eqb_refl, Z.ltb_irrefl. Qed.

Lemma ts_lt_spec a b :
  ts_lt a b = true <-> tv_sec a < tv_sec b \/ tv_sec a = tv_sec b /\ tv_usec a < tv_usec b.
Proof. unfold ts_lt. repeat case_if; breflect; split; intros; breflect; try done; lia. Qed.

Lemma ts_gt_lt a b : ts_gt a b = ts_lt b a.
Proof.
  unfold ts_gt, ts_lt. rewrite !Z.gtb_ltb, (Z.eqb_sym (tv_sec b)). done.
Qed.

Lemma ts_eq_spec a b : ts_eq a b = true <-> a = b.
Proof.
  unfold ts_eq. destruct a as [s u], b as [s' u']; simpl.
  rewrite andb_true_iff, !Z.eqb_eq. naive_solver.
Qed.

Lemma ts_lt_total a b : ts_lt a b = false -> ts_lt b a = false -> a = b.
Proof.
  unfold ts_lt. destruct a as [s u], b as [s' u']; simpl.
  repeat case_if; intros; breflect; try done; f_equal; lia.
Qed.

(** The deadline [timeoutMs] after a reading of the clock. *)
Lemma usecs_add ts ms : usecs (AddMillisecond ts ms) = usecs ts + 1000 * ms.
Proof.
  unfold usecs, AddMillisecond. simpl. pose proof (Z.quot_rem' ms 1000). lia.
Qed.

(** A timeout deadline is never detected late, and is detected less than a second early. *)
Lemma deadline_detection start ms now :
  normal start -> normal now -> 0 <= ms ->
  let deadline := AddMillisecond start ms in
  (usecs deadline <= usecs now -> ts_gt deadline now = false) /\
  (ts_gt deadline now = false -> usecs deadline < usecs now + 999000).
Proof.
  intros [Hs1 Hs2] [Hn1 Hn2] Hms deadline. rewrite ts_gt_lt.
  assert (0 <= Z.rem ms 1000 < 1000) as Hr by (by apply Z.rem_bound_pos).
  assert (tv_usec deadline = tv_usec start + Z.rem ms 1000 * 1000) as Hu by done.
  unfold usecs, ts_lt. split.
  - intros Hle. repeat case_if; breflect; try done; lia.
  - repeat case_if; intros; breflect; try done; lia.
Qed.
