(* ===== verification/TimeoutSet.v ===== *)
(** * net/CoSocket.cpp, lines 29-150: [CoSocket::TimeoutSet] and [SetTimeoutGuard]

    [m_timeoutSet] is the [std::set] of pending deadlines in the order of [operator <];
    [m_timeoutPtrMap] maps a coroutine to an iterator of that set.  An iterator of a [std::set]
    designates one element for as long as the element is in the set, so it is modelled by the
    element; erasing through an iterator whose element is gone would be undefined behaviour, which
    [Delete] reports as [None]. *)

From S2P Require Import Prelude OrdMap Timestamp.

Open Scope Z_scope.

Record CoIdTimeout := mkCoIdTimeout { cit_coId : Z; cit_timestamp : timeval }.

#[export] Instance CoIdTimeout_eq_dec : EqDecision CoIdTimeout.
Proof. solve_decision. Defined.

(** [operator < (const CoIdTimeout &, const CoIdTimeout &)] *)
Definition CoIdTimeout_lt (lhs rhs : CoIdTimeout) : bool :=
  if ts_lt (cit_timestamp lhs) (cit_timestamp rhs) then true
  else if ts_eq (cit_timestamp lhs) (cit_timestamp rhs) then cit_coId lhs <? cit_coId rhs
  else false.

Lemma CoIdTimeout_lt_spec a b :
  CoIdTimeout_lt a b = true <->
  ts_lt (cit_timestamp a) (cit_timestamp b) = true \/
  cit_timestamp a = cit_timestamp b /\ cit_coId a < cit_coId b.
Proof.
  unfold CoIdTimeout_lt. destruct (ts_lt _ _) eqn:E1; [naive_solver|].
  destruct (ts_eq _ _) eqn:E2.
  - apply ts_eq_spec in E2. rewrite Z.ltb_lt. naive_solver.
  - split; [done|]. intros [?|[Heq _]]; [done|]. apply ts_eq_spec in Heq. congruence.
Qed.

#[export] Instance CoIdTimeout_order : KeyOrder CoIdTimeout.
Proof.
  refine {| key_ltb := CoIdTimeout_lt |}.
  - intros k. destruct (CoIdTimeout_lt k k) eqn:E; [|done].
    apply CoIdTimeout_lt_spec in E as [E|[_ ?]]; [by rewrite ts_lt_irrefl in E|lia].
  - intros a b c. rewrite !CoIdTimeout_lt_spec, !ts_lt_spec.
    intros [H1|[-> H1]] [H2|[H2' H2]]; rewrite <-?H2'; try (left; lia); right; split; [done|lia].
  - intros [ca ta] [cb tb] H1 H2.
    assert (ta = tb) as ->.
    { apply ts_lt_total.
      - destruct (ts_lt ta tb) eqn:E; [|done]. by rewrite (proj2 (CoIdTimeout_lt_spec _ _)) in H1; auto.
      - destruct (ts_lt tb ta) eqn:E; [|done]. by rewrite (proj2 (CoIdTimeout_lt_spec _ _)) in H2; auto. }
    f_equal. unfold CoIdTimeout_lt in *. simpl in *.
    rewrite ts_lt_irrefl, (proj2 (ts_eq_spec tb tb) eq_refl) in *. breflect. lia.
Defined.

Record TimeoutSet := mkTimeoutSet {
  m_timeoutSet : list CoIdTimeout;
  m_timeoutPtrMap : gmap Z CoIdTimeout
}.

Definition TimeoutSet_empty : TimeoutSet := mkTimeoutSet [] ∅.

(** [TimeoutSet::Insert]; [now] is the clock reading of [CoIdTimeout()]'s [Timestamp]. *)
Definition Insert (now : timeval) (ts : TimeoutSet) (coId timeoutMs : Z) : TimeoutSet :=
  let timeout := mkCoIdTimeout coId (AddMillisecond now timeoutMs) in
  let '(set', fresh) := oset_insert timeout (m_timeoutSet ts) in
  if negb fresh then ts
  else
    mkTimeoutSet set'
      (match m_timeoutPtrMap ts !! coId with
       | Some _ => m_timeoutPtrMap ts
       | None => <[coId := timeout]> (m_timeoutPtrMap ts)
       end).

(** [TimeoutSet::Delete]; [None] when the stored iterator is no longer valid. *)
Definition Delete (ts : TimeoutSet) (coId : Z) : option TimeoutSet :=
  match m_timeoutPtrMap ts !! coId with
  | Some it =>
      if bool_decide (it ∈ m_timeoutSet ts) then
        Some (mkTimeoutSet (oset_erase it (m_timeoutSet ts)) (delete coId (m_timeoutPtrMap ts)))
      else None
  | None => Some ts
  end.

(** [TimeoutSet::GetExpired] *)
Definition GetExpired (ts : TimeoutSet) (now : timeval) : Z :=
  match m_timeoutSet ts with
  | [] => -1
  | t :: _ => if ts_gt (cit_timestamp t) now then -1 else cit_coId t
  end.

(** [TimeoutSet::GetNeareastTimeGap]; [now] is the clock reading of its [Timestamp()]. *)
Definition GetNeareastTimeGap (now : timeval) (ts : TimeoutSet) : Z :=
  match m_timeoutSet ts with
  | [] => -1
  | t :: _ =>
      let timeGap := ts_sub now (cit_timestamp t) in
      if timeGap <? 0 then 0 else timeGap
  end.

(** [SetTimeoutGuard]: constructor and destructor. *)
Definition guard_enter (now : timeval) (ts : TimeoutSet) (coId timeout : Z) : TimeoutSet :=
  if timeout >? 0 then Insert now ts coId timeout else ts.

Definition guard_leave (ts : TimeoutSet) (coId timeout : Z) : option TimeoutSet :=
  if timeout >? 0 then Delete ts coId else Some ts.

(** ** Invariant *)

(** The set is sorted, and the map holds one valid iterator for each element of the set. *)
Record timeout_wf (ts : TimeoutSet) : Prop := {
  tw_sorted : oset_wf (m_timeoutSet ts);
  tw_map : forall c e, m_timeoutPtrMap ts !! c = Some e <-> e ∈ m_timeoutSet ts /\ cit_coId e = c
}.

(** The coroutines with a pending timeout. *)
Definition pending (ts : TimeoutSet) : gset Z := dom (m_timeoutPtrMap ts).

Section TimeoutLemmas.
Implicit Types (ts : TimeoutSet).

Lemma timeout_empty_wf : timeout_wf TimeoutSet_empty.
Proof. split; [constructor|]. intros c e. simpl. rewrite lookup_empty. set_solver. Qed.

(** A coroutine without a pending timeout is in no element of the set. *)
Lemma not_pending ts c : timeout_wf ts -> c ∉ pending ts ->
  m_timeoutPtrMap ts !! c = None /\ forall e, e ∈ m_timeoutSet ts -> cit_coId e <> c.
Proof.
  intros [_ Hm] Hc. unfold pending in Hc. apply not_elem_of_dom in Hc. split; [done|].
  intros e He Hce. assert (m_timeoutPtrMap ts !! c = Some e) as Hs by (by apply Hm).
  by rewrite Hc in Hs.
Qed.

Lemma Insert_fresh ts now c ms : timeout_wf ts -> c ∉ pending ts ->
  let e := mkCoIdTimeout c (AddMillisecond now ms) in
  Insert now ts c ms =
    mkTimeoutSet (oset_insert e (m_timeoutSet ts)).1 (<[c := e]> (m_timeoutPtrMap ts)) /\
  e ∉ m_timeoutSet ts.
Proof.
  intros Hwf Hc e. destruct (not_pending _ _ Hwf Hc) as [Hn He].
  assert (e ∉ m_timeoutSet ts) as Hnew by (intros ?%He; done).
  split; [|done]. unfold Insert. fold e.
  pose proof (oset_insert_new e _ (tw_sorted _ Hwf)) as Hb.
  destruct (oset_insert e (m_timeoutSet ts)) as [s b]. simpl in *.
  rewrite (proj2 Hb Hnew). by rewrite Hn.
Qed.

Lemma Insert_wf ts now c ms : timeout_wf ts -> c ∉ pending ts ->
  timeout_wf (Insert now ts c ms) /\ pending (Insert now ts c ms) = {[c]} ∪ pending ts.
Proof.
  intros Hwf Hc. destruct (Insert_fresh ts now c ms Hwf Hc) as [-> Hnew].
  set (e := mkCoIdTimeout c (AddMillisecond now ms)) in *.
  destruct (not_pending _ _ Hwf Hc) as [Hn He]. destruct Hwf as [Hs Hm].
  split; [|by apply dom_insert_L].
  split; simpl; [by apply oset_insert_wf|].
  intros c' e'. rewrite oset_insert_elem. destruct (decide (c = c')) as [<-|Hne].
  - rewrite lookup_insert_eq. split; [intros [= <-]; by split; [left|]|].
    intros [[->|Hin] Hce]; [done|]. by apply He in Hin.
  - rewrite lookup_insert_ne by done. rewrite Hm. split; [naive_solver|].
    intros [[->|Hin] <-]; [done|by split].
Qed.

Lemma Delete_wf ts c : timeout_wf ts ->
  exists ts', Delete ts c = Some ts' /\ timeout_wf ts' /\ pending ts' = pending ts ∖ {[c]}.
Proof.
  intros [Hs Hm]. unfold Delete. destruct (m_timeoutPtrMap ts !! c) as [e|] eqn:Hc.
  - pose proof Hc as [Hin Hce]%Hm. rewrite bool_decide_eq_true_2 by done.
    eexists. split; [done|]. split; [|by apply dom_delete_L].
    split; simpl; [by apply oset_erase_wf|]. intros c' e'.
    rewrite oset_erase_elem by done. destruct (decide (c = c')) as [<-|Hne].
    + rewrite lookup_delete_eq. split; [done|]. intros [[Hin' Hne'] Hce'].
      destruct Hne'. assert (m_timeoutPtrMap ts !! c = Some e') as He' by (by apply Hm).
      rewrite Hc in He'. by injection He'.
    + rewrite lookup_delete_ne by done. rewrite Hm. split; [|naive_solver].
      intros [Hin' <-]. split; [|done]. split; [done|]. by intros ->.
  - exists ts. split; [done|]. split; [done|]. apply not_elem_of_dom in Hc.
    unfold pending in *. set_solver.
Qed.

Lemma GetExpired_none ts now : timeout_wf ts ->
  (forall e, e ∈ m_timeoutSet ts -> 0 <= cit_coId e) ->
  GetExpired ts now = -1 <->
  forall e, e ∈ m_timeoutSet ts -> ts_gt (cit_timestamp e) now = true.
Proof.
  intros [Hs _] Hpos. unfold GetExpired. destruct (m_timeoutSet ts) as [|t s]; [set_solver|].
  destruct (ts_gt (cit_timestamp t) now) eqn:E.
  - split; [intros _|done]. intros e He.
    pose proof (oset_head_least _ _ Hs _ He) as Hl. rewrite ts_gt_lt in *.
    destruct (ts_lt now (cit_timestamp e)) eqn:E2; [done|exfalso].
    assert (CoIdTimeout_lt e t = true) as Hlt; [|unfold key_ltb in Hl; simpl in Hl; congruence].
    apply CoIdTimeout_lt_spec. left. apply ts_lt_spec. apply ts_lt_spec in E.
    destruct (ts_lt (cit_timestamp e) now) eqn:E3.
    + apply ts_lt_spec in E3. lia.
    + rewrite (ts_lt_total _ _ E3 E2). lia.
  - split; [intros Hc|].
    + specialize (Hpos t ltac:(left)). lia.
    + intros Ha. specialize (Ha t ltac:(left)). congruence.
Qed.

Lemma GetExpired_some ts now c : timeout_wf ts -> c <> -1 -> GetExpired ts now = c ->
  exists e, m_timeoutPtrMap ts !! c = Some e /\ ts_gt (cit_timestamp e) now = false /\
    forall e', e' ∈ m_timeoutSet ts -> CoIdTimeout_lt e' e = false.
Proof.
  intros [Hs Hm] Hc. unfold GetExpired. destruct (m_timeoutSet ts) as [|t s] eqn:Hset; [done|].
  destruct (ts_gt (cit_timestamp t) now) eqn:E; [done|]. intros <-. exists t. split_and!.
  - apply Hm. by split; [left|].
  - done.
  - intros e' He'. by apply (oset_head_least _ _ Hs).
Qed.

Lemma guard_enter_spec ts now c timeout : timeout_wf ts -> c ∉ pending ts ->
  timeout_wf (guard_enter now ts c timeout) /\
  (0 < timeout ->
     pending (guard_enter now ts c timeout) = {[c]} ∪ pending ts /\
     m_timeoutPtrMap (guard_enter now ts c timeout) !! c =
       Some (mkCoIdTimeout c (AddMillisecond now timeout))).
Proof.
  intros Hwf Hc. unfold guard_enter. rewrite Z.gtb_ltb.
  destruct (0 <? timeout) eqn:E; breflect; [|by split; [|lia]].
  destruct (Insert_wf ts now c timeout Hwf Hc) as [Hwf' Hp]. split_and!; [done|].
  intros _. split; [done|]. destruct (Insert_fresh ts now c timeout Hwf Hc) as [-> _].
  simpl. by rewrite lookup_insert_eq.
Qed.

Lemma Insert_Delete ts now c ms : timeout_wf ts -> c ∉ pending ts ->
  Delete (Insert now ts c ms) c = Some ts.
Proof.
  intros Hwf Hc. destruct (Insert_fresh ts now c ms Hwf Hc) as [-> Hnew].
  destruct (not_pending _ _ Hwf Hc) as [Hn _]. unfold Delete. simpl.
  rewrite lookup_insert_eq, bool_decide_eq_true_2 by (apply oset_insert_elem; by left).
  rewrite oset_erase_insert, delete_insert_id by done. by destruct ts.
Qed.

(** C25.  The two containers of a [TimeoutSet] stay in step under [SetTimeoutGuard], which a
    coroutine enters only when it has no deadline pending: entering adds exactly its deadline, and
    leaving at once gives back the set and the map of before.  Whatever the other coroutines did to
    the deadlines in between, leaving never uses a dangling iterator and removes exactly the
    deadline of the coroutine. *)
Theorem guard_scoped ts now c timeout : timeout_wf ts -> c ∉ pending ts ->
  let ts1 := guard_enter now ts c timeout in
  timeout_wf ts1 /\
  (0 < timeout ->
     m_timeoutPtrMap ts1 = <[c := mkCoIdTimeout c (AddMillisecond now timeout)]> (m_timeoutPtrMap ts)) /\
  guard_leave ts1 c timeout = Some ts /\
  (forall ts2, 0 < timeout -> timeout_wf ts2 -> exists ts3,
     guard_leave ts2 c timeout = Some ts3 /\ timeout_wf ts3 /\
     m_timeoutPtrMap ts3 = delete c (m_timeoutPtrMap ts2)).
Proof.
  intros Hwf Hc ts1. unfold ts1, guard_leave, guard_enter. rewrite Z.gtb_ltb.
  destruct (0 <? timeout) eqn:E; breflect; [|split_and!; try done; lia].
  split_and!; [by apply Insert_wf| |by apply Insert_Delete|].
  - intros _. by destruct (Insert_fresh ts now c timeout Hwf Hc) as [-> _].
  - intros ts2 _ Hwf2. destruct (Delete_wf ts2 c Hwf2) as (ts3 & Hd & Hwf3 & _). exists ts3.
    split_and!; [done..|]. unfold Delete in Hd. destruct (m_timeoutPtrMap ts2 !! c) eqn:Em.
    + destruct (bool_decide _); [|done]. by injection Hd as <-.
    + injection Hd as <-. by rewrite delete_id.
Qed.

(** Of two entries one is less, unless they are the same. *)
Lemma CoIdTimeout_trichotomy e e' : CoIdTimeout_lt e e' = false -> CoIdTimeout_lt e' e = false -> e = e'.
Proof. exact (key_ltb_total (K := CoIdTimeout) e e'). Qed.

(** C26.  [GetExpired] returns -1 exactly when no deadline has passed; otherwise it returns the
    coroutine of the least entry, whose deadline is the earliest (and among equal deadlines the
    least coroutine), and no other.  With the clock readings the system gives, a timeout of [ms]
    milliseconds is never detected late, and less than one second early. *)
Theorem GetExpired_correct ts now : timeout_wf ts ->
  (forall e, e ∈ m_timeoutSet ts -> 0 <= cit_coId e) ->
  (GetExpired ts now = -1 <-> forall e, e ∈ m_timeoutSet ts -> ts_gt (cit_timestamp e) now = true) /\
  (forall c, c <> -1 -> GetExpired ts now = c <->
     exists e, e ∈ m_timeoutSet ts /\ cit_coId e = c /\ ts_gt (cit_timestamp e) now = false /\
       forall e', e' ∈ m_timeoutSet ts -> CoIdTimeout_lt e' e = false /\
         ts_lt (cit_timestamp e') (cit_timestamp e) = false) /\
  (forall e start ms, e ∈ m_timeoutSet ts -> cit_timestamp e = AddMillisecond start ms ->
     normal start -> normal now -> 0 < ms ->
     (usecs start + 1000 * ms <= usecs now -> GetExpired ts now <> -1) /\
     (GetExpired ts now = cit_coId e -> usecs start + 1000 * ms < usecs now + 999000)).
Proof.
  intros Hwf Hpos. pose proof (GetExpired_none ts now Hwf Hpos) as Hnone. split; [exact Hnone|]. split.
  - intros c Hc. split.
    + intros Hex. destruct (GetExpired_some ts now c Hwf Hc Hex) as (e & He & Hgt & Hleast).
      apply (tw_map _ Hwf) in He as [Hin Hce]. exists e. split_and!; [done..|]. intros e' He'.
      specialize (Hleast e' He'). split; [done|]. destruct (ts_lt _ _) eqn:El; [|done].
      assert (CoIdTimeout_lt e' e = true); [|congruence]. apply CoIdTimeout_lt_spec. by left.
    + intros (e & Hin & <- & Hgt & Hleast). destruct (decide (GetExpired ts now = -1)) as [Hn|Hn].
      { rewrite Hnone in Hn. specialize (Hn e Hin). congruence. }
      destruct (GetExpired_some ts now _ Hwf Hn eq_refl) as (e1 & He1 & _ & Hleast1).
      apply (tw_map _ Hwf) in He1 as [Hin1 <-].
      by rewrite (CoIdTimeout_trichotomy e1 e (proj1 (Hleast e1 Hin1)) (Hleast1 e Hin)).
  - intros e start ms Hin Hts Hstart Hnow Hms.
    destruct (deadline_detection start ms now Hstart Hnow ltac:(lia)) as [Hlate Hearly].
    rewrite usecs_add in *. rewrite <- Hts in *. split.
    + intros Hle Hex. rewrite Hnone in Hex. specialize (Hex e Hin). by rewrite (Hlate Hle) in Hex.
    + intros Hex. destruct (GetExpired_some ts now (cit_coId e) Hwf ltac:(specialize (Hpos e Hin); lia) Hex) as (e1 & He1 & Hgt & _).
      assert (m_timeoutPtrMap ts !! cit_coId e = Some e) as He by (by apply (tw_map _ Hwf)).
      rewrite He in He1. injection He1 as <-. by apply Hearly.
Qed.

(** C27.  [GetNeareastTimeGap] subtracts the deadline from the clock: up to the nearest deadline the
    gap is [0], however far the deadline is, and after it the gap is the lateness in milliseconds
    (to less than one, in either direction).  The poll timeout of [Run] (gap plus 10) is thus 10 ms
    while a deadline is ahead, grows with the lateness, and is 9 ms without deadlines. *)
Theorem neareast_gap_inverted now ts t s : m_timeoutSet ts = t :: s ->
  let late := usecs now - usecs (cit_timestamp t) in
  let gap := GetNeareastTimeGap now ts in
  (late <= 0 -> gap = 0) /\
  (0 <= late -> 0 <= gap /\ late - 1000 < 1000 * gap < late + 1000) /\
  GetNeareastTimeGap now TimeoutSet_empty = -1.
Proof.
  intros Hset. unfold GetNeareastTimeGap. rewrite Hset.
  destruct (cit_timestamp t) as [ds du], now as [ns nu]. unfold ts_sub, usecs; simpl.
  pose proof (Z.quot_rem' (nu - du) 1000).
  pose proof (Z.rem_bound_abs (nu - du) 1000 ltac:(lia)).
  split_and!; [..|done]; case_if; breflect; lia.
Qed.
End TimeoutLemmas.

(** [AddMillisecond] does not carry microseconds into seconds, so a timeout can fire early:
    started at 10.999999 s with a delay of 999 ms, it is reported as expired one microsecond later,
    998.999 ms before its time. *)
Theorem premature_expiry :
  exists start now ts, normal start /\ normal now /\
    ts = guard_enter start TimeoutSet_empty 3 999 /\
    usecs now = usecs start + 1 /\ GetExpired ts now = 3.
Proof.
  exists (mkTimeval 10 999999), (mkTimeval 11 0),
    (guard_enter (mkTimeval 10 999999) TimeoutSet_empty 3 999).
  unfold normal. simpl. split_and!; try lia; done.
Qed.

Module TimeoutWitness.
(** One coroutine already waits, with a deadline two seconds ahead. *)
Definition now0 := mkTimeval 100 250000.
Definition ts0 : TimeoutSet := guard_enter now0 TimeoutSet_empty 1 2000.

Lemma ts0_wf : timeout_wf ts0 /\ 5 ∉ pending ts0 /\
  (forall e, e ∈ m_timeoutSet ts0 -> 0 <= cit_coId e).
Proof.
  destruct (Insert_wf TimeoutSet_empty now0 1 2000 timeout_empty_wf) as [Hwf Hp]; [done|].
  split_and!; [done| |].
  - unfold ts0, guard_enter. simpl. rewrite Hp. set_solver.
  - intros e. simpl. intros [->|He]%elem_of_cons; [done|set_solver].
Qed.

Lemma guard_scoped_witness :
  guard_leave (guard_enter now0 ts0 5 700) 5 700 = Some ts0.
Proof. refine (proj1 (proj2 (proj2 (guard_scoped ts0 now0 5 700 _ _)))); apply ts0_wf. Defined.

Lemma GetExpired_correct_witness :
  GetExpired (guard_enter now0 ts0 5 700) (mkTimeval 100 950000) = 5.
Proof.
  destruct ts0_wf as (Hwf & H5 & Hpos).
  assert (timeout_wf (guard_enter now0 ts0 5 700)) as Hwf' by by apply guard_enter_spec.
  set (e := mkCoIdTimeout 5 (AddMillisecond now0 700)).
  assert (m_timeoutSet (guard_enter now0 ts0 5 700) = [e; mkCoIdTimeout 1 (AddMillisecond now0 2000)]) as Hset
    by reflexivity.
  apply (GetExpired_correct _ (mkTimeval 100 950000) Hwf'); [|discriminate|]; rewrite Hset.
  - intros x. rewrite !elem_of_cons. intros [-> |[-> |Hx]]; [discriminate..|by apply elem_of_nil in Hx].
  - exists e. rewrite !elem_of_cons. split_and!; [by left|reflexivity|reflexivity|].
    intros x. rewrite !elem_of_cons. intros [-> |[-> |Hx]]; [done..|by apply elem_of_nil in Hx].
Defined.

(** Two seconds before the deadline, and three seconds after it. *)
Lemma neareast_gap_inverted_witness :
  GetNeareastTimeGap now0 ts0 = 0 /\
  3000000 - 1000 < 1000 * GetNeareastTimeGap (mkTimeval 105 250000) ts0 < 3000000 + 1000.
Proof.
  split.
  - apply (neareast_gap_inverted now0 ts0 (mkCoIdTimeout 1 (AddMillisecond now0 2000)) [] eq_refl). discriminate.
  - apply (neareast_gap_inverted (mkTimeval 105 250000) ts0 (mkCoIdTimeout 1 (AddMillisecond now0 2000)) [] eq_refl).
    discriminate.
Defined.
End TimeoutWitness.
