(* ===== verification/Os.v ===== *)
(** * The operating system under the library

    The system calls of the sources, as a signature [sysE].  What they do is not under src/: the
    kernel is a type [W] of worlds with a handler, the class [OS].  Laws of the calls that a
    theorem relies on are stated where they are used. *)

From S2P Require Import Prelude Timestamp.

Open Scope Z_scope.

(** ** errno and epoll constants of the Linux headers *)

Definition ENOENT : Z := 2.
Definition EINTR : Z := 4.
Definition EAGAIN : Z := 11.
Definition EWOULDBLOCK : Z := 11.
Definition EEXIST : Z := 17.
Definition ETIME : Z := 62.
Definition ECONNABORTED : Z := 103.
Definition EISCONN : Z := 106.
Definition ETIMEDOUT : Z := 110.
Definition EINPROGRESS : Z := 115.

Definition EPOLLIN : Z := 1.
Definition EPOLLOUT : Z := 4.
Definition EPOLLERR : Z := 8.
Definition EPOLLHUP : Z := 16.

Inductive epoll_op := EPOLL_CTL_ADD | EPOLL_CTL_DEL | EPOLL_CTL_MOD.

(** What a call returns: its result, or -1 with [errno]. *)
Inductive sysret (A : Type) := Succ (a : A) | Errno (e : Z).
Arguments Succ {A}. Arguments Errno {A}.

(** ** The calls

    The address of an endpoint and the argument of [fcntl] are opaque byte strings and numbers.
    [sys_read] returns the bytes it stored; [sys_so_error] is [getsockopt(SO_ERROR)]. *)
Inductive sysE : Type -> Type :=
  | sys_connect (fd : Z) (addr : bytes) : sysE (sysret unit)
  | sys_accept (fd : Z) : sysE (sysret Z)
  | sys_read (fd : Z) (size : nat) : sysE (sysret bytes)
  | sys_write (fd : Z) (data : bytes) : sysE (sysret Z)
  | sys_so_error (fd : Z) : sysE (sysret Z)
  | sys_close (fd : Z) : sysE (sysret unit)
  | sys_socket (flags : Z) : sysE (sysret Z)
  | sys_reuseaddr (fd : Z) : sysE (sysret unit)
  | sys_bind (fd : Z) (addr : bytes) : sysE (sysret unit)
  | sys_listen (fd : Z) : sysE (sysret unit)
  | sys_getfl (fd : Z) : sysE Z
  | sys_setfl (fd flags : Z) : sysE (sysret unit)
  | sys_timerfd_create : sysE (sysret Z)
  | sys_timerfd_settime (fd sec nsec : Z) : sysE (sysret unit)
  | sys_gettimeofday : sysE timeval
  | sys_epoll_ctl (op : epoll_op) (fd events : Z) : sysE (sysret unit)
  | sys_epoll_wait (maxevents : nat) (timeout : Z) : sysE (sysret (list (Z * Z)))
  (** The bytes of stack in use when the running coroutine yields. *)
  | sys_stack_depth : sysE nat.

Class OS (W : Type) := os_call : forall A, sysE A -> W -> A * W.
Arguments os_call {W _ A}.
