(* ===== verification/Epoller.v ===== *)
(** * net/Epoller.cpp: the wrapper over epoll

    [m_events] is the buffer of [Poll], of which only the size matters between two calls.  A fatal
    error ([exit(1)] of the source) is [None]. *)

From S2P Require Import Prelude Timestamp Os.

Open Scope Z_scope.

Definition kInitEventListSize : nat := 16.

Section Epoller.
Context {W : Type} `{OS W}.

(** [Epoller::EpollCtl] returns the [errno]. *)
Definition EpollCtl (operation : epoll_op) (fd events : Z) (w : W) : Z * W :=
  match os_call (sys_epoll_ctl operation fd events) w with
  | (Errno e, w') => (e, w')
  | (Succ _, w') => (0, w')
  end.

Definition is_del (operation : epoll_op) : bool :=
  match operation with EPOLL_CTL_DEL => true | _ => false end.
Definition is_add (operation : epoll_op) : bool :=
  match operation with EPOLL_CTL_ADD => true | _ => false end.

(** [Epoller::Update] *)
Definition Update (fd events : Z) (w : W) : Z * W :=
  let operation := if events =? 0 then EPOLL_CTL_DEL else EPOLL_CTL_ADD in
  let '(ret, w1) := EpollCtl operation fd events w in
  if (ret =? ENOENT) && is_del operation then (- 0, w1)
  else if (ret =? EEXIST) && is_add operation then
    let '(ret2, w2) := EpollCtl EPOLL_CTL_MOD fd events w1 in (- ret2, w2)
  else (- ret, w1).

(** [Epoller::Poll] before and after the loop over the handlers: the events to handle ([[]] when
    interrupted), and the size the buffer gets. *)
Definition Poll_wait (m_events : nat) (timeoutMs : Z) (w : W) : option (list (Z * Z)) * W :=
  match os_call (sys_epoll_wait m_events timeoutMs) w with
  | (Errno e, w') => (if e =? EINTR then Some [] else None, w')
  | (Succ events, w') => (Some events, w')
  end.

Definition Poll_resize (m_events numEvents : nat) : nat :=
  if (numEvents =? m_events)%nat then (numEvents * 2)%nat else m_events.
End Epoller.

(** ** What epoll promises, and what [Update] makes of it

    [interest w] is the interest list of the epoll descriptor, [pollable w fd] says that [fd] can be
    registered. *)
Class EpollLaws (W : Type) `{OS W} := {
  interest : W -> gmap Z Z;
  pollable : W -> Z -> Prop;
  epoll_add_new w fd ev : pollable w fd -> interest w !! fd = None ->
    exists w', os_call (sys_epoll_ctl EPOLL_CTL_ADD fd ev) w = (Succ tt, w') /\
      interest w' = <[fd := ev]> (interest w) /\ (forall x, pollable w' x <-> pollable w x);
  epoll_add_old w fd ev ev0 : pollable w fd -> interest w !! fd = Some ev0 ->
    exists w', os_call (sys_epoll_ctl EPOLL_CTL_ADD fd ev) w = (Errno EEXIST, w') /\
      interest w' = interest w /\ (forall x, pollable w' x <-> pollable w x);
  epoll_mod w fd ev ev0 : pollable w fd -> interest w !! fd = Some ev0 ->
    exists w', os_call (sys_epoll_ctl EPOLL_CTL_MOD fd ev) w = (Succ tt, w') /\
      interest w' = <[fd := ev]> (interest w) /\ (forall x, pollable w' x <-> pollable w x);
  epoll_del_old w fd ev ev0 : pollable w fd -> interest w !! fd = Some ev0 ->
    exists w', os_call (sys_epoll_ctl EPOLL_CTL_DEL fd ev) w = (Succ tt, w') /\
      interest w' = delete fd (interest w) /\ (forall x, pollable w' x <-> pollable w x);
  epoll_del_new w fd ev : pollable w fd -> interest w !! fd = None ->
    exists w', os_call (sys_epoll_ctl EPOLL_CTL_DEL fd ev) w = (Errno ENOENT, w') /\
      interest w' = interest w /\ (forall x, pollable w' x <-> pollable w x)
}.

(** The interest list with the events of [fd] set. *)
Definition set_interest (fd ev : Z) (m : gmap Z Z) : gmap Z Z :=
  if ev =? 0 then delete fd m else <[fd := ev]> m.

Lemma Update_reaches {W} `{EpollLaws W} w fd ev :
  pollable w fd ->
  exists w', Update fd ev w = (0, w') /\ interest w' = set_interest fd ev (interest w) /\
    (forall x, pollable w' x <-> pollable w x).
Proof.
  intros Hp. unfold Update, EpollCtl, set_interest.
  destruct (ev =? 0) eqn:E0; destruct (interest w !! fd) as [ev0|] eqn:Ei; simpl.
  - destruct (epoll_del_old w fd ev ev0 Hp Ei) as (w' & -> & Hi & Ho). eauto.
  - destruct (epoll_del_new w fd ev Hp Ei) as (w' & -> & Hi & Ho). simpl.
    exists w'. by rewrite Hi, (delete_id (interest w)).
  - destruct (epoll_add_old w fd ev ev0 Hp Ei) as (w1 & -> & Hi & Ho). simpl.
    assert (interest w1 !! fd = Some ev0) as Ei1 by by rewrite Hi.
    destruct (epoll_mod w1 fd ev ev0 (proj2 (Ho fd) Hp) Ei1) as (w2 & -> & Hi2 & Ho2).
    exists w2. rewrite Hi2, Hi. split_and!; [done|done|]. intros x. by rewrite Ho2, Ho.
  - destruct (epoll_add_new w fd ev Hp Ei) as (w' & -> & Hi & Ho). eauto.
Qed.

(** C28.  Whatever was registered before, [Update] succeeds on a descriptor that can be polled and
    makes the interest list exactly the old one with the given events of [fd] (none for 0), every
    other descriptor untouched: [ADD], [MOD] after [EEXIST], or [DEL] with [ENOENT] forgiven. *)
Theorem Update_sets_interest {W} `{EpollLaws W} w fd ev :
  pollable w fd ->
  exists w', Update fd ev w = (0, w') /\
    interest w' !! fd = (if ev =? 0 then None else Some ev) /\
    (forall fd', fd' <> fd -> interest w' !! fd' = interest w !! fd') /\
    (forall x, pollable w' x <-> pollable w x).
Proof.
  intros Hp. destruct (Update_reaches w fd ev Hp) as (w' & Hu & Hi & Ho).
  exists w'. rewrite Hi. unfold set_interest. split_and!; try done; destruct (ev =? 0).
  - apply lookup_delete_eq.
  - apply lookup_insert_eq.
  - intros. by apply lookup_delete_ne.
  - intros. by apply lookup_insert_ne.
Qed.

(** ** A concrete kernel

    Enough of one to run the library: an interest list, readable bytes and pending errors per
    descriptor, a script of ready events, and a clock that ticks with every reading. *)
Module ToyOS.

Record world := mkWorld {
  t_interest : gmap Z Z;
  t_input : gmap Z (list (sysret bytes));
  t_ready : list (list (Z * Z));
  t_clock : timeval;
  t_log : list (Z * bytes)
}.

Definition toy_epoll_ctl (op : epoll_op) (fd ev : Z) (w : world) : sysret unit * world :=
  let upd m := mkWorld m (t_input w) (t_ready w) (t_clock w) (t_log w) in
  match op, t_interest w !! fd with
  | EPOLL_CTL_ADD, None => (Succ tt, upd (<[fd := ev]> (t_interest w)))
  | EPOLL_CTL_ADD, Some _ => (Errno EEXIST, w)
  | EPOLL_CTL_MOD, Some _ => (Succ tt, upd (<[fd := ev]> (t_interest w)))
  | EPOLL_CTL_DEL, Some _ => (Succ tt, upd (delete fd (t_interest w)))
  | _, None => (Errno ENOENT, w)
  end.

(** Reads follow the script of the descriptor; past its end they would block. *)
Definition toy_read (fd : Z) (w : world) : sysret bytes * world :=
  match t_input w !! fd with
  | Some (r :: rs) =>
      (r, mkWorld (t_interest w) (<[fd := rs]> (t_input w)) (t_ready w) (t_clock w) (t_log w))
  | _ => (Errno EAGAIN, w)
  end.

Definition toy_call (A : Type) (e : sysE A) (w : world) : A * world :=
  match e in sysE T return T * world with
  | sys_connect _ _ => (Errno EINPROGRESS, w)
  | sys_accept fd =>
      match toy_read fd w with
      | (Succ d, w') => (Succ (nth 0 d 0), w')
      | (Errno e, w') => (Errno e, w')
      end
  | sys_read fd _ => toy_read fd w
  | sys_write fd d =>
      (Succ (Z.of_nat (length d)),
        mkWorld (t_interest w) (t_input w) (t_ready w) (t_clock w) (t_log w ++ [(fd, d)]))
  | sys_so_error _ => (Succ 0, w)
  | sys_close fd =>
      (Succ tt, mkWorld (delete fd (t_interest w)) (t_input w) (t_ready w) (t_clock w) (t_log w))
  | sys_socket _ => (Succ 3, w)
  | sys_reuseaddr _ | sys_bind _ _ | sys_listen _ | sys_setfl _ _ => (Succ tt, w)
  | sys_getfl _ => (0, w)
  | sys_timerfd_create => (Succ 4, w)
  | sys_timerfd_settime _ _ _ => (Succ tt, w)
  | sys_gettimeofday =>
      let t := t_clock w in
      (t, mkWorld (t_interest w) (t_input w) (t_ready w) (mkTimeval (tv_sec t + 1) (tv_usec t))
            (t_log w))
  | sys_epoll_ctl op fd ev => toy_epoll_ctl op fd ev w
  | sys_epoll_wait _ _ =>
      match t_ready w with
      | l :: r => (Succ l, mkWorld (t_interest w) (t_input w) r (t_clock w) (t_log w))
      | [] => (Succ [], w)
      end
  | sys_stack_depth => (4%nat, w)
  end.

#[global] Instance toy_os : OS world := toy_call.

#[global] Program Instance toy_epoll : EpollLaws world := {|
  interest := t_interest;
  pollable := fun _ _ => True
|}.
Solve All Obligations with
  intros; unfold os_call, toy_os, toy_call, toy_epoll_ctl;
  repeat match goal with H : t_interest _ !! _ = _ |- _ => rewrite H end; eauto.

Definition toy_world : world := mkWorld ∅ ∅ [] (mkTimeval 100 0) [].
End ToyOS.

Lemma Update_sets_interest_witness :
  exists w, Update 7 EPOLLIN ToyOS.toy_world = (0, w) /\ interest w !! 7 = Some EPOLLIN.
Proof.
  destruct (Update_sets_interest ToyOS.toy_world 7 EPOLLIN) as (w & Hu & Hi & _); [exact I|].
  exists w. split; [exact Hu|exact Hi].
Defined.
