(* ===== verification/CoSocket.v ===== *)
(** * net/CoSocket.cpp: the state and the operations of the event loop's object

    A coroutine is a program over the public interface, an interaction tree with the events
    [apiE].  [F] is the type of function objects ([CoFunction]: the code and what it captured);
    [Hp] is the type of the heap the coroutines share, which only their own code uses.

    The statements of a method run in the monad [act]: the state goes through, and a failed
    assertion, an [abort()] or an [exit(1)] ends the run.  A method that blocks is given as two
    halves, [start_op] up to the [coroutine_yield] and [resume_op] from there to its [return];
    what its frame holds in between is a value of [waiting]. *)

From S2P Require Import Prelude OrdMap Coroutine Timestamp TimeoutSet Os Epoller.
From ITree Require Import ITree.

Open Scope Z_scope.

(** ** The public interface *)

Section Api.
Context (F Hp : Type).

(** The buffer of a [Write] is [None] for a null pointer.  [Sys] is a system call the client makes
    itself, [Heap] an access to the clients' shared objects. *)
Inductive apiE : Type -> Type :=
  | Connect (fd : Z) (addr : bytes) (timeoutMs : Z) : apiE Z
  | Accept (fd timeoutMs : Z) : apiE Z
  | Read (fd : Z) (size : nat) (timeoutMs : Z) : apiE (Z * bytes)
  | Write (fd : Z) (buffer : option bytes) (size : nat) (timeoutMs : Z) : apiE Z
  | GetCondition : apiE Z
  | ConditionWait (condition : Z) : apiE unit
  | ConditionNotify (condition : Z) : apiE unit
  | NewCoroutine (func : F) : apiE unit
  | Sys {A} (e : sysE A) : apiE A
  | Heap {A} (op : Hp -> A * Hp) : apiE A.

Definition prog : Type := itree apiE unit.

(** A blocked call: the locals of its frame.  [coId] is the field of its [SetTimeoutGuard]. *)
Inductive waiting : Type -> Type :=
  | WConnect (fd coId timeoutMs : Z) : waiting Z
  | WAccept (fd coId timeoutMs : Z) : waiting Z
  | WRead (fd : Z) (size : nat) (coId timeoutMs : Z) : waiting (Z * bytes)
  | WWrite (fd : Z) (buffer : bytes) (coId timeoutMs : Z) : waiting Z
  | WCondition (condition : Z) : waiting unit.

(** The [ud] pointer of a coroutine: an element of [m_coFuncList], or a variable of the caller of
    [NewCoroutine]. *)
Inductive func_ptr := InFuncList | OfCaller.

(** A saved context: not started, or blocked with the rest of its program. *)
Inductive ctx :=
  | CtxStart (ud : func_ptr) (func : F)
  | CtxWait {A} (w : waiting A) (k : A -> prog).
End Api.

Arguments Connect {F Hp}. Arguments Accept {F Hp}. Arguments Read {F Hp}. Arguments Write {F Hp}.
Arguments GetCondition {F Hp}. Arguments ConditionWait {F Hp}. Arguments ConditionNotify {F Hp}.
Arguments NewCoroutine {F Hp}. Arguments Sys {F Hp A}. Arguments Heap {F Hp A}.
Arguments CtxStart {F Hp}. Arguments CtxWait {F Hp A}.

(** ** The state *)

Record FdWatcher := mkWatcher { m_readCoId : Z; m_writeCoId : Z }.
Definition FdWatcher_init : FdWatcher := mkWatcher (-1) (-1).
Definition HasReadCoroutine (x : FdWatcher) : bool := negb (m_readCoId x =? -1).
Definition HasWriteCoroutine (x : FdWatcher) : bool := negb (m_writeCoId x =? -1).
Definition ReadCoId (x : FdWatcher) : Z := m_readCoId x.
Definition WriteCoId (x : FdWatcher) : Z := m_writeCoId x.
Definition SetReadCoId (x : FdWatcher) (coId : Z) : FdWatcher * bool :=
  if negb (m_readCoId x =? -1) then (x, false) else (mkWatcher coId (m_writeCoId x), true).
Definition SetWriteCoId (x : FdWatcher) (coId : Z) : FdWatcher * bool :=
  if negb (m_writeCoId x =? -1) then (x, false) else (mkWatcher (m_readCoId x) coId, true).
Definition ResetReadCoId (x : FdWatcher) : FdWatcher := mkWatcher (-1) (m_writeCoId x).
Definition ResetWriteCoId (x : FdWatcher) : FdWatcher := mkWatcher (m_readCoId x) (-1).

(** [class CoSocket]; [m_events] is the size of the buffer of its [m_epoller], and the keys of
    [m_conditionMap] are [int]s. *)
Record CoSocket (C F : Type) := mkCoSocket {
  m_conditionCounter : Z;
  m_conditionMap : gmap Z (list Z);
  m_waitResumeList : list Z;
  m_handlingTimeout : bool;
  m_coFuncList : list F;
  cs_timeouts : TimeoutSet;
  m_coIdMap : gmap Z FdWatcher;
  m_schedule : schedule C;
  m_events : nat
}.
Arguments mkCoSocket {C F}. Arguments m_conditionCounter {C F}. Arguments m_conditionMap {C F}.
Arguments m_waitResumeList {C F}. Arguments m_handlingTimeout {C F}. Arguments m_coFuncList {C F}.
Arguments cs_timeouts {C F}. Arguments m_coIdMap {C F}. Arguments m_schedule {C F}.
Arguments m_events {C F}.

Section Setters.
Context {C F : Type}.
Implicit Types (s : CoSocket C F).
Definition set_counter (v : Z) s := mkCoSocket v (m_conditionMap s) (m_waitResumeList s)
  (m_handlingTimeout s) (m_coFuncList s) (cs_timeouts s) (m_coIdMap s) (m_schedule s) (m_events s).
Definition set_conditionMap v s := mkCoSocket (m_conditionCounter s) v (m_waitResumeList s)
  (m_handlingTimeout s) (m_coFuncList s) (cs_timeouts s) (m_coIdMap s) (m_schedule s) (m_events s).
Definition set_waitResume v s := mkCoSocket (m_conditionCounter s) (m_conditionMap s) v
  (m_handlingTimeout s) (m_coFuncList s) (cs_timeouts s) (m_coIdMap s) (m_schedule s) (m_events s).
Definition set_handling v s := mkCoSocket (m_conditionCounter s) (m_conditionMap s)
  (m_waitResumeList s) v (m_coFuncList s) (cs_timeouts s) (m_coIdMap s) (m_schedule s) (m_events s).
Definition set_funcList (v : list F) s := mkCoSocket (m_conditionCounter s) (m_conditionMap s)
  (m_waitResumeList s) (m_handlingTimeout s) v (cs_timeouts s) (m_coIdMap s) (m_schedule s)
  (m_events s).
Definition set_timeouts v s := mkCoSocket (m_conditionCounter s) (m_conditionMap s)
  (m_waitResumeList s) (m_handlingTimeout s) (m_coFuncList s) v (m_coIdMap s) (m_schedule s)
  (m_events s).
Definition set_coIdMap v s := mkCoSocket (m_conditionCounter s) (m_conditionMap s)
  (m_waitResumeList s) (m_handlingTimeout s) (m_coFuncList s) (cs_timeouts s) v (m_schedule s)
  (m_events s).
Definition set_schedule (v : schedule C) s := mkCoSocket (m_conditionCounter s) (m_conditionMap s)
  (m_waitResumeList s) (m_handlingTimeout s) (m_coFuncList s) (cs_timeouts s) (m_coIdMap s) v
  (m_events s).
Definition set_events v s := mkCoSocket (m_conditionCounter s) (m_conditionMap s)
  (m_waitResumeList s) (m_handlingTimeout s) (m_coFuncList s) (cs_timeouts s) (m_coIdMap s)
  (m_schedule s) v.
End Setters.

(** Why a run ends: [abort()] after a failed epoll update or at the last condition, [exit(1)]
    after a failed [epoll_wait], an assertion of coroutine.c, or the stack of a coroutine being
    too deep to be saved (its assertion too), and undefined behaviour in [TimeoutSet]. *)
Inductive stop := AbortUpdate | AbortCondition | ExitPoll | AssertSchedule | StackOverflow
  | BadIterator.

(** ** Statements *)

Section Act.
Context {W F Hp : Type}.

Record st := mkSt { cs : CoSocket (ctx F Hp) F; heap : Hp; world : W }.

Definition act (A : Type) : Type := st -> A * st + stop.
#[export] Instance act_ret : MRet act := fun A a s => inl (a, s).
#[export] Instance act_bind : MBind act := fun A B f m s =>
  match m s with
  | inl (a, s') => f a s'
  | inr e => inr e
  end.

Definition halt {A} (e : stop) : act A := fun _ => inr e.
Definition gets {A} (f : CoSocket (ctx F Hp) F -> A) : act A := fun s => inl (f (cs s), s).
Definition upd (f : CoSocket (ctx F Hp) F -> CoSocket (ctx F Hp) F) : act unit := fun s =>
  inl (tt, mkSt (f (cs s)) (heap s) (world s)).
Definition on_world {A} (f : W -> A * W) : act A := fun s =>
  let '(a, w) := f (world s) in inl (a, mkSt (cs s) (heap s) w).
Definition on_heap {A} (f : Hp -> A * Hp) : act A := fun s =>
  let '(a, h) := f (heap s) in inl (a, mkSt (cs s) h (world s)).
End Act.
Arguments st : clear implicits.
Arguments act : clear implicits.

(** The conversion of a [uint64_t] to the [int] key of [m_conditionMap]. *)
Definition to_int (z : Z) : Z := let r := z mod 2 ^ 32 in if r <? 2 ^ 31 then r else r - 2 ^ 32.

Definition has_bit (events bit : Z) : bool := negb (Z.land events bit =? 0).

(** The errors after which [Read] and [Write] wait. *)
Definition would_block (e : Z) : bool := (e =? EAGAIN) || (e =? EWOULDBLOCK) || (e =? EINTR).
Definition accept_retry (e : Z) : bool :=
  (e =? EAGAIN) || (e =? EWOULDBLOCK) || (e =? ECONNABORTED) || (e =? EINTR) || (e =? ETIMEDOUT).
Definition connect_retry (e : Z) : bool := (e =? EAGAIN) || (e =? EINPROGRESS) || (e =? EINTR).

Section Operations.
Context {W F Hp : Type} `{OS W}.
#[local] Abbreviation act := (act W F Hp).

Definition sys {A} (e : sysE A) : act A := on_world (os_call e).
Definition running : act Z := gets (fun s => coroutine_running (m_schedule s)).

(** [m_coIdMap[fd]], which creates the entry, and a write through the reference. *)
Definition watcher (fd : Z) : act FdWatcher :=
  m ← gets m_coIdMap;
  match m !! fd with
  | Some x => mret x
  | None => upd (set_coIdMap (<[fd := FdWatcher_init]> m));; mret FdWatcher_init
  end.
Definition put_watcher (fd : Z) (x : FdWatcher) : act unit :=
  upd (fun s => set_coIdMap (<[fd := x]> (m_coIdMap s)) s).

Definition SaveToCoIdMap (fd events : Z) : act bool :=
  coId ← running;
  fdWatcher ← watcher fd;
  ok ← (if has_bit events EPOLLIN then
          if HasReadCoroutine fdWatcher then mret false
          else put_watcher fd (SetReadCoId fdWatcher coId).1;; mret true
        else mret true);
  if negb ok then mret false
  else
    fdWatcher ← watcher fd;
    if has_bit events EPOLLOUT then
      if HasWriteCoroutine fdWatcher then mret false
      else put_watcher fd (SetWriteCoId fdWatcher coId).1;; mret true
    else mret true.

Definition ResetInCoIdMap (fd events : Z) : act unit :=
  (if has_bit events EPOLLIN then
     fdWatcher ← watcher fd; put_watcher fd (ResetReadCoId fdWatcher)
   else mret tt);;
  if has_bit events EPOLLOUT then
    fdWatcher ← watcher fd; put_watcher fd (ResetWriteCoId fdWatcher)
  else mret tt.

Definition GetEvents (fd : Z) : act Z :=
  fdWatcher ← watcher fd;
  mret (Z.lor (if HasReadCoroutine fdWatcher then EPOLLIN else 0)
              (if HasWriteCoroutine fdWatcher then EPOLLOUT else 0)).

(** [AddEventAndYield] up to its [coroutine_yield]; [false] when it returns -1 instead. *)
Definition AddEvent (fd events : Z) : act bool :=
  saved ← SaveToCoIdMap fd events;
  if negb saved then mret false
  else
    events ← GetEvents fd;
    ret ← on_world (Update fd events);
    if negb (ret =? 0) then halt AbortUpdate else mret true.

Definition DeleteEvent (fd events : Z) : act unit :=
  oldEvents ← GetEvents fd;
  let newEvents := Z.ldiff oldEvents events in
  ret ← on_world (Update fd newEvents);
  if negb (ret =? 0) then halt AbortUpdate else ResetInCoIdMap fd events.

(** [SetTimeoutGuard]: its constructor reads the clock when it inserts a deadline. *)
Definition guard_begin (coId timeoutMs : Z) : act unit :=
  if timeoutMs >? 0 then
    now ← sys sys_gettimeofday;
    upd (fun s => set_timeouts (guard_enter now (cs_timeouts s) coId timeoutMs) s)
  else mret tt.

Definition guard_end (coId timeoutMs : Z) : act unit :=
  ts ← gets cs_timeouts;
  match guard_leave ts coId timeoutMs with
  | Some ts' => upd (set_timeouts ts')
  | None => halt BadIterator
  end.

(** The part the four calls share: set the timeout, register, and yield or (when the registration
    is refused) go on at once. *)
Definition block {A} (fd events timeoutMs : Z) (frame : Z -> waiting A) (finish : Z -> act A)
    : act (A + waiting A) :=
  coId ← running;
  guard_begin coId timeoutMs;;
  yields ← AddEvent fd events;
  if (yields : bool) then mret (inr (frame coId))
  else a ← finish coId; mret (inl a).

Definition unblock {A} (fd events coId timeoutMs : Z) (timed_out : A) (retry : act A) : act A :=
  handling ← gets m_handlingTimeout;
  ret ← (if (handling : bool) then mret timed_out else retry);
  DeleteEvent fd events;;
  guard_end coId timeoutMs;;
  mret ret.

(** ** Connect, Accept, Read, Write *)

Definition Connect_finish (fd timeoutMs coId : Z) : act Z :=
  unblock fd EPOLLOUT coId timeoutMs (- ETIME)
    (r ← sys (sys_so_error fd);
     mret (match r with Succ v => - v | Errno e => - e end)).

Definition Connect_start (fd : Z) (addr : bytes) (timeoutMs : Z) : act (Z + waiting Z) :=
  r ← sys (sys_connect fd addr);
  match r with
  | Succ _ => mret (inl 0)
  | Errno e =>
      if e =? EISCONN then mret (inl 0)
      else if negb (connect_retry e) then mret (inl (- e))
      else block fd EPOLLOUT timeoutMs (fun coId => WConnect fd coId timeoutMs)
             (Connect_finish fd timeoutMs)
  end.

Definition as_ret (r : sysret Z) : Z := match r with Succ v => v | Errno e => - e end.

Definition Accept_finish (fd timeoutMs coId : Z) : act Z :=
  unblock fd EPOLLIN coId timeoutMs (- ETIME) (r ← sys (sys_accept fd); mret (as_ret r)).

Definition Accept_start (fd timeoutMs : Z) : act (Z + waiting Z) :=
  r ← sys (sys_accept fd);
  match r with
  | Succ v => mret (inl v)
  | Errno e =>
      if negb (accept_retry e) then mret (inl (- e))
      else block fd EPOLLIN timeoutMs (fun coId => WAccept fd coId timeoutMs)
             (Accept_finish fd timeoutMs)
  end.

(** The number of bytes, or the error; and the bytes stored in the buffer. *)
Definition as_read (r : sysret bytes) : Z * bytes :=
  match r with Succ d => (Z.of_nat (length d), d) | Errno e => (- e, []) end.

Definition Read_finish (fd : Z) (size : nat) (timeoutMs coId : Z) : act (Z * bytes) :=
  unblock fd EPOLLIN coId timeoutMs (- ETIME, []) (r ← sys (sys_read fd size); mret (as_read r)).

Definition Read_start (fd : Z) (size : nat) (timeoutMs : Z)
    : act ((Z * bytes) + waiting (Z * bytes)) :=
  r ← sys (sys_read fd size);
  match r with
  | Succ d => mret (inl (as_read r))
  | Errno e =>
      if negb (would_block e) then mret (inl (as_read r))
      else block fd EPOLLIN timeoutMs (fun coId => WRead fd size coId timeoutMs)
             (Read_finish fd size timeoutMs)
  end.

Definition Write_finish (fd : Z) (buffer : bytes) (timeoutMs coId : Z) : act Z :=
  unblock fd EPOLLOUT coId timeoutMs (- ETIME) (r ← sys (sys_write fd buffer); mret (as_ret r)).

Definition Write_start (fd : Z) (buffer : option bytes) (size : nat) (timeoutMs : Z)
    : act (Z + waiting Z) :=
  match buffer with
  | None => mret (inl 0)
  | Some d =>
      if (size =? 0)%nat then mret (inl 0)
      else
        let d := take size d in
        r ← sys (sys_write fd d);
        match r with
        | Succ v => mret (inl v)
        | Errno e =>
            if negb (would_block e) then mret (inl (- e))
            else block fd EPOLLOUT timeoutMs (fun coId => WWrite fd d coId timeoutMs)
                   (Write_finish fd d timeoutMs)
        end
  end.

(** ** Conditions *)

Definition do_GetCondition : act Z :=
  c ← gets m_conditionCounter;
  if c =? 0xFFFFFFFFFFFFFFFF then halt AbortCondition
  else upd (set_counter (u64 (c + 1)));; mret c.

(** [ConditionWait] up to its [coroutine_yield]. *)
Definition ConditionWait_start (condition : Z) : act (unit + waiting unit) :=
  coId ← running;
  upd (fun s => set_conditionMap
         (<[to_int condition :=
              (oset_insert coId (default [] (m_conditionMap s !! to_int condition))).1]>
            (m_conditionMap s)) s);;
  mret (inr (WCondition condition)).

Definition do_ConditionNotify (condition : Z) : act unit :=
  m ← gets m_conditionMap;
  let list := default [] (m !! to_int condition) in
  upd (fun s => set_waitResume (m_waitResumeList s ++ list) s);;
  upd (set_conditionMap (<[to_int condition := []]> m)).

(** [NewCoroutine] called from a coroutine. *)
Definition defer_coroutine (func : F) : act unit :=
  upd (fun s => set_funcList (m_coFuncList s ++ [func]) s).

(** ** A call of the interface, up to its return or its yield, and after the yield *)

Definition done {A} (m : act A) : act (A + waiting A) := a ← m; mret (inl a).

Definition start_op {A} (e : apiE F Hp A) : act (A + waiting A) :=
  match e in apiE _ _ T return act (T + waiting T) with
  | Connect fd addr timeoutMs => Connect_start fd addr timeoutMs
  | Accept fd timeoutMs => Accept_start fd timeoutMs
  | Read fd size timeoutMs => Read_start fd size timeoutMs
  | Write fd buffer size timeoutMs => Write_start fd buffer size timeoutMs
  | GetCondition => done do_GetCondition
  | ConditionWait c => ConditionWait_start c
  | ConditionNotify c => done (do_ConditionNotify c)
  | NewCoroutine func => done (defer_coroutine func)
  | Sys e => done (sys e)
  | Heap op => done (on_heap op)
  end.

Definition resume_op {A} (w : waiting A) : act A :=
  match w in waiting T return act T with
  | WConnect fd coId timeoutMs => Connect_finish fd timeoutMs coId
  | WAccept fd coId timeoutMs => Accept_finish fd timeoutMs coId
  | WRead fd size coId timeoutMs => Read_finish fd size timeoutMs coId
  | WWrite fd d coId timeoutMs => Write_finish fd d timeoutMs coId
  | WCondition _ => mret tt
  end.
End Operations.
