(* ===== verification/EventLoop.v ===== *)
(** * net/CoSocket.cpp: [CoSocket::Run] and the coroutines it runs, as a transition system

    A state of the system is the state of the object, the shared heap and the world, together with
    a control point: somewhere in [Run] (or in the main function before it, which creates some
    coroutines), or inside a coroutine with the rest of its program and the point of [Run] that
    resumed it.  [step] is one statement of the main context or one call of a coroutine.  All
    interleavings the single thread can have are sequences of steps. *)

From S2P Require Import Prelude OrdMap Coroutine Timestamp TimeoutSet Os Epoller CoSocket.
From ITree Require Import ITree.

Open Scope Z_scope.

Section Loop.
Context {W F Hp : Type} `{OS W} (stack_size : nat) (body : F -> prog F Hp).
#[local] Abbreviation act := (act W F Hp).

(** The control points of the main context: the main function with the coroutines it will create,
    the iterators of [RunNewCoFunc] and [RunWaitResumeCo], [Poll] before [epoll_wait], [Poll] with
    the events still to handle, [EventHandler] between its two halves, and [RunTimeoutCo]. *)
Inductive loc :=
  | AtMain (fs : list F)
  | AtNew (i : nat)
  | AtWait (i : nat)
  | AtPoll
  | AtEvents (l : list (Z * Z)) (n : nat)
  | AtWrite (fd events : Z) (l : list (Z * Z)) (n : nat)
  | AtTimeout (now : timeval).

Inductive pc := Main (l : loc) | InCo (p : prog F Hp) (back : loc).

(** [coroutine_resume(m_schedule, coId)] up to the first statement of the coroutine. *)
Definition resume (coId : Z) (back : loc) : act pc :=
  S ← gets m_schedule;
  match resume_enter stack_size S coId with
  | EnterAbort => halt AssertSchedule
  | EnterDead => mret (Main back)
  | EnterRun S' (CtxStart _ func) =>
      upd (set_schedule S');;
      mret (InCo (body func) back)
  | EnterRun S' (CtxWait w k) =>
      upd (set_schedule S');;
      a ← resume_op w;
      mret (InCo (k a) back)
  end.

(** [coroutine_yield(m_schedule)] *)
Definition yield (k : ctx F Hp) : act unit :=
  depth ← sys sys_stack_depth;
  if (stack_size <? depth)%nat then halt StackOverflow
  else
    S ← gets m_schedule;
    match coroutine_yield stack_size S k depth with
    | Some S' => upd (set_schedule S')
    | None => halt AssertSchedule
    end.

(** [CoSocket::NewCoroutine] *)
Definition new_coroutine (ud : func_ptr) (func : F) (back : loc) : act pc :=
  coId ← running;
  if negb (coId =? -1) then defer_coroutine func;; mret (Main back)
  else
    S ← gets m_schedule;
    match coroutine_new S (CtxStart ud func) with
    | Some (S', coId) => upd (set_schedule S');; resume (Z.of_nat coId) back
    | None => halt AssertSchedule
    end.

(** ** [EventHandler] *)

Definition is_error (events : Z) : bool := has_bit events EPOLLERR || has_bit events EPOLLHUP.

Definition EventHandler_read (fd events : Z) (l : list (Z * Z)) (n : nat) : act pc :=
  x ← watcher fd;
  if negb (HasReadCoroutine x) && negb (HasWriteCoroutine x) then mret (Main (AtEvents l n))
  else if (is_error events || has_bit events EPOLLIN) && HasReadCoroutine x then
    resume (ReadCoId x) (AtWrite fd events l n)
  else mret (Main (AtWrite fd events l n)).

Definition EventHandler_write (fd events : Z) (l : list (Z * Z)) (n : nat) : act pc :=
  x ← watcher fd;
  if (is_error events || has_bit events EPOLLOUT) && HasWriteCoroutine x then
    resume (WriteCoId x) (AtEvents l n)
  else mret (Main (AtEvents l n)).

(** ** [Run] *)

(** [m_epoller->Poll(m_timeoutSet->GetNeareastTimeGap() + 10)] up to the loop over the events. *)
Definition poll : act pc :=
  ts ← gets cs_timeouts;
  timeGap ← match m_timeoutSet ts with
            | [] => mret (-1)
            | _ => now ← sys sys_gettimeofday; mret (GetNeareastTimeGap now ts)
            end;
  size ← gets m_events;
  r ← on_world (Poll_wait size (to_int (timeGap + 10)));
  match r with
  | Some l => mret (Main (AtEvents l (length l)))
  | None => halt ExitPoll
  end.

Definition step_main (l : loc) : act pc :=
  match l with
  | AtMain [] => mret (Main (AtNew 0))
  | AtMain (func :: fs) => new_coroutine OfCaller func (AtMain fs)
  | AtNew i =>
      fs ← gets m_coFuncList;
      match fs !! i with
      | Some func => new_coroutine InFuncList func (AtNew (S i))
      | None => upd (set_funcList []);; mret (Main (AtWait 0))
      end
  | AtWait i =>
      ids ← gets m_waitResumeList;
      match ids !! i with
      | Some coId => resume coId (AtWait (S i))
      | None => upd (set_waitResume []);; mret (Main AtPoll)
      end
  | AtPoll => poll
  | AtEvents ((fd, events) :: l) n => EventHandler_read fd events l n
  | AtWrite fd events l n => EventHandler_write fd events l n
  | AtEvents [] n =>
      upd (fun s => set_events (Poll_resize (m_events s) n) s);;
      upd (set_handling true);;
      now ← sys sys_gettimeofday;
      mret (Main (AtTimeout now))
  | AtTimeout now =>
      ts ← gets cs_timeouts;
      let coId := GetExpired ts now in
      if coId =? -1 then upd (set_handling false);; mret (Main (AtNew 0))
      else resume coId (AtTimeout now)
  end.

(** One call of the running coroutine, or its return. *)
Definition step_co (p : prog F Hp) (back : loc) : act pc :=
  match observe p with
  | RetF _ => upd (fun s => set_schedule (mainfunc_end (m_schedule s)) s);; mret (Main back)
  | TauF p' => mret (InCo p' back)
  | VisF e k =>
      r ← start_op e;
      match r with
      | inl a => mret (InCo (k a) back)
      | inr w => yield (CtxWait w k);; mret (Main back)
      end
  end.

Definition step_pc (q : pc) : act pc :=
  match q with
  | Main l => step_main l
  | InCo p back => step_co p back
  end.

(** ** Runs *)

Abbreviation sys_state := (pc * st W F Hp)%type.

Definition step (x : sys_state) : sys_state + stop := step_pc (fst x) (snd x).

Inductive steps : sys_state -> sys_state -> Prop :=
  | steps_refl x : steps x x
  | steps_step x y z : step x = inl y -> steps y z -> steps x z.

Fixpoint run (n : nat) (x : sys_state) : sys_state + stop :=
  match n with
  | O => inl x
  | Datatypes.S n' => match step x with inl y => run n' y | inr e => inr e end
  end.

Lemma run_steps n x y : run n x = inl y -> steps x y.
Proof.
  revert x. induction n as [|n IH]; intros x; simpl; [intros [= <-]; constructor|].
  destruct (step x) as [z|e] eqn:E; [|done]. intros Hr. econstructor; [exact E|by apply IH].
Qed.

(** The constructor, and the start of a program whose main function creates the coroutines [fs] and
    calls [Run]; [junk] is the content of the fresh shared stack. *)
Definition CoSocket_init (junk : bytes) : CoSocket (ctx F Hp) F :=
  mkCoSocket 0 ∅ [] false [] TimeoutSet_empty ∅ (coroutine_open junk) kInitEventListSize.

Definition initial (junk : bytes) (fs : list F) (h : Hp) (w : W) : sys_state :=
  (Main (AtMain fs), mkSt (CoSocket_init junk) h w).
End Loop.
Arguments loc : clear implicits.
Arguments pc : clear implicits.
Arguments InCo {F Hp}. Arguments Main {F Hp}.
