(* ===== verification/LoopSafe.v ===== *)
(** * The invariant of the event loop

    What holds whenever control is between two calls: the coroutine table is well formed, every
    suspended coroutine is blocked in a call of the interface, and whatever can wake it (a
    deadline, the entry of its descriptor in [m_coIdMap], a condition, the resume list) points at
    a coroutine that waits for exactly that. *)

From S2P Require Import Prelude OrdMap Coroutine Timestamp TimeoutSet Os Epoller CoSocket EventLoop.
From ITree Require Import ITree.

Open Scope Z_scope.

(** ** What a coroutine waits for *)

(** Blocked on a descriptor with a deadline (none when [tmo <= 0]), or on a condition. *)
Inductive info := IoInfo (fd ev coId tmo : Z) | CondInfo (condition : Z).

Definition waiting_info {A} (w : waiting A) : info :=
  match w with
  | WConnect fd coId t => IoInfo fd EPOLLOUT coId t
  | WAccept fd coId t => IoInfo fd EPOLLIN coId t
  | WRead fd _ coId t => IoInfo fd EPOLLIN coId t
  | WWrite fd _ coId t => IoInfo fd EPOLLOUT coId t
  | WCondition c => CondInfo c
  end.

Definition ctx_info {F Hp} (k : ctx F Hp) : option info :=
  match k with
  | CtxStart _ _ => None
  | CtxWait w _ => Some (waiting_info w)
  end.

(** What the coroutine in slot [i] waits for. *)
Definition wait_of {F Hp} (S : schedule (ctx F Hp)) (i : Z) : option info :=
  if 0 <=? i then
    match sch_co S !! Z.to_nat i with
    | Some (Some co) =>
        if decide (co_status co = COROUTINE_SUSPEND) then co_ctx co ≫= ctx_info else None
    | _ => None
    end
  else None.

Definition upd_wait (wo : Z -> option info) (c : Z) (o : option info) : Z -> option info :=
  fun i => if decide (i = c) then o else wo i.

Lemma upd_wait_eq wo c o : upd_wait wo c o c = o.
Proof. unfold upd_wait. by rewrite decide_True. Qed.
Lemma upd_wait_ne wo c o i : i <> c -> upd_wait wo c o i = wo i.
Proof. intros. unfold upd_wait. by rewrite decide_False. Qed.

Section WaitOf.
Context {F Hp : Type} (stack_size : nat).
Implicit Types (S : schedule (ctx F Hp)).

(** Every suspended coroutine is blocked in a call, and none is waiting for its first run. *)
Definition blocked S : Prop :=
  forall (i : nat) co, sch_co S !! i = Some (Some co) ->
    co_status co <> COROUTINE_READY /\
    (co_status co = COROUTINE_SUSPEND -> exists o, co_ctx co ≫= ctx_info = Some o).

Lemma wait_of_slot S (i : nat) :
  wait_of S (Z.of_nat i) =
    match sch_co S !! i with
    | Some (Some co) =>
        if decide (co_status co = COROUTINE_SUSPEND) then co_ctx co ≫= ctx_info else None
    | _ => None
    end.
Proof. unfold wait_of. rewrite (proj2 (Z.leb_le _ _)) by lia. by rewrite Nat2Z.id. Qed.

Lemma wait_of_nonneg S i o : wait_of S i = Some o -> 0 <= i.
Proof. unfold wait_of. destruct (0 <=? i) eqn:E; [by apply Z.leb_le in E|done]. Qed.

(** Replacing one slot changes what that coroutine waits for. *)
Lemma wait_of_insert S S' (i : nat) x o :
  (i < length (sch_co S))%nat -> sch_co S' = <[i := x]> (sch_co S) ->
  o = match x with
      | Some co =>
          if decide (co_status co = COROUTINE_SUSPEND) then co_ctx co ≫= ctx_info else None
      | None => None
      end ->
  forall j, wait_of S' j = upd_wait (wait_of S) (Z.of_nat i) o j.
Proof.
  intros Hi HS' -> j. unfold upd_wait. destruct (decide (j = Z.of_nat i)) as [->|Hj].
  - rewrite wait_of_slot, HS', list_lookup_insert_eq by done. by destruct x.
  - unfold wait_of. destruct (0 <=? j) eqn:E; [|done]. breflect.
    rewrite HS', list_lookup_insert_ne; [done|lia].
Qed.

Lemma slot_lt S (i : nat) x : sch_co S !! i = Some x -> (i < length (sch_co S))%nat.
Proof. apply lookup_lt_Some. Qed.
#[local] Hint Resolve slot_lt : core.

Lemma enter_wait S id S' k :
  sched_wf stack_size S -> blocked S -> resume_enter stack_size S id = EnterRun S' k ->
  sch_running S' = id /\ 0 <= id /\ blocked S' /\ wait_of S id = ctx_info k /\
  forall j, wait_of S' j = upd_wait (wait_of S) id None j.
Proof.
  intros Hwf Hb He.
  destruct (enter_spec _ _ _ _ _ Hwf He)
    as (i & co & co' & st & -> & _ & Hi & HS' & Hst & _ & _ & _ & _ & Hor).
  destruct (Hb _ _ Hi) as [Hready Hsusp].
  destruct Hor as [[? _]|(Hco & Hctx & _)]; [done|]. split_and!.
  - by rewrite HS'.
  - lia.
  - intros j co0. rewrite HS'. simpl. intros [(<- & [= <-] & _)|[? ?]]%list_lookup_insert_Some; [|by eapply Hb].
    rewrite Hst. by split.
  - rewrite wait_of_slot, Hi, decide_True by done. by rewrite Hctx.
  - apply (wait_of_insert _ _ _ (Some co')); [eauto|by rewrite HS'|]. by rewrite Hst.
Qed.

Lemma yield_wait S k depth S' :
  sched_wf stack_size S -> blocked S -> coroutine_yield stack_size S k depth = Some S' ->
  is_Some (ctx_info k) ->
  blocked S' /\ sch_running S' = -1 /\
  forall j, wait_of S' j = upd_wait (wait_of S) (sch_running S) (ctx_info k) j.
Proof.
  intros Hwf Hb Hy [o Ho].
  destruct (yield_spec _ _ _ _ _ Hwf Hy) as (i & co & co' & Hr & Hi & _ & HS' & Hst & Hctx & _).
  split_and!.
  - intros j co0. rewrite HS'. simpl. intros [(<- & [= <-] & _)|[? ?]]%list_lookup_insert_Some; [|by eapply Hb].
    rewrite Hst, Hctx. simpl. split; [done|eauto].
  - by rewrite HS'.
  - rewrite Hr. apply (wait_of_insert _ _ _ (Some co')); [eauto|by rewrite HS'|].
    by rewrite Hst, Hctx.
Qed.

Lemma return_wait S :
  sched_wf stack_size S -> blocked S -> 0 <= sch_running S ->
  blocked (mainfunc_end S) /\ (forall j, wait_of (mainfunc_end S) j = wait_of S j).
Proof.
  intros Hwf Hb Hr.
  destruct (wf_running _ _ Hwf) as [?|(i & co & Hi & Hco)]; [lia|]. split.
  - intros j co0. unfold mainfunc_end. simpl. rewrite Hi, Nat2Z.id.
    intros [(<- & ? & _)|[? ?]]%list_lookup_insert_Some; [done|by eapply Hb].
  - intros j. rewrite (wait_of_insert S _ i None None); [|eauto| |done].
    + unfold upd_wait. destruct (decide (j = Z.of_nat i)) as [->|]; [|done].
      rewrite wait_of_slot, Hco. rewrite decide_False; [done|].
      destruct (wf_co _ _ Hwf _ _ Hco) as (Hrun & _). rewrite (proj2 Hrun); done.
    + simpl. by rewrite Hi, Nat2Z.id.
Qed.
End WaitOf.

(** ** The rest of the object *)

(** The coroutine registered for one direction. *)
Definition side (ev : Z) (x : FdWatcher) : Z :=
  if ev =? EPOLLIN then m_readCoId x else m_writeCoId x.
Definition direction (ev : Z) : Prop := ev = EPOLLIN \/ ev = EPOLLOUT.

(** The wake-up sources agree with what the coroutines wait for ([wo]); [pend] is the part of
    [m_waitResumeList] that is still to be resumed. *)
Record core {F Hp} (wo : Z -> option info) (s : CoSocket (ctx F Hp) F) (pend : list Z) : Prop := {
  c_timeouts : timeout_wf (cs_timeouts s);
  c_pending c : c ∈ pending (cs_timeouts s) <->
    exists fd ev t, wo c = Some (IoInfo fd ev c t) /\ 0 < t;
  c_io c fd ev c' t : wo c = Some (IoInfo fd ev c' t) -> c' = c /\ direction ev;
  c_watch fd x ev : direction ev -> m_coIdMap s !! fd = Some x ->
    side ev x = -1 \/ exists t, wo (side ev x) = Some (IoInfo fd ev (side ev x) t);
  c_cond key l : m_conditionMap s !! key = Some l ->
    oset_wf l /\ forall c, c ∈ l -> exists c0, wo c = Some (CondInfo c0) /\ to_int c0 = key;
  c_nodup : NoDup pend;
  c_pend c : c ∈ pend ->
    exists c0, wo c = Some (CondInfo c0) /\ c ∉ default [] (m_conditionMap s !! to_int c0);
  c_kept c c0 : wo c = Some (CondInfo c0) ->
    c ∈ pend \/ c ∈ default [] (m_conditionMap s !! to_int c0)
}.

(** The ways a run may end: everything but an assertion of coroutine.c other than the depth of the
    stack, and a dangling iterator. *)
Definition allowed (e : stop) : Prop :=
  match e with
  | AbortUpdate | AbortCondition | ExitPoll | StackOverflow => True
  | AssertSchedule | BadIterator => False
  end.

Section Safe.
Context {W F Hp : Type} `{OS W}.
#[local] Abbreviation st := (st W F Hp).
#[local] Abbreviation act := (act W F Hp).
Implicit Types (s : st) (wo : Z -> option info).

Definition safe {A} (m : act A) s (Q : A -> st -> Prop) : Prop :=
  match m s with
  | inl (a, s') => Q a s'
  | inr e => allowed e
  end.

Lemma safe_mono {A} (m : act A) s (Q Q' : A -> st -> Prop) :
  safe m s Q -> (forall a s', Q a s' -> Q' a s') -> safe m s Q'.
Proof. unfold safe. destruct (m s) as [[a s']|e]; auto. Qed.

Lemma safe_bind {A B} (m : act A) (f : A -> act B) s Q :
  safe m s (fun a s' => safe (f a) s' Q) -> safe (m ≫= f) s Q.
Proof. unfold safe, mbind, act_bind. by destruct (m s) as [[a s']|e]. Qed.

Lemma safe_ret {A} (a : A) s (Q : A -> st -> Prop) : Q a s -> safe (mret a) s Q.
Proof. done. Qed.
Lemma safe_gets {A} (f : _ -> A) s (Q : A -> st -> Prop) : Q (f (cs s)) s -> safe (gets f) s Q.
Proof. done. Qed.
Lemma safe_upd f s (Q : unit -> st -> Prop) :
  Q tt (mkSt (f (cs s)) (heap s) (world s)) -> safe (upd f) s Q.
Proof. done. Qed.
Lemma safe_world {A} (f : W -> A * W) s (Q : A -> st -> Prop) :
  (forall a w, f (world s) = (a, w) -> Q a (mkSt (cs s) (heap s) w)) -> safe (on_world f) s Q.
Proof. unfold safe, on_world. destruct (f (world s)) as [a w]. auto. Qed.
Lemma safe_sys {A} (e : sysE A) s (Q : A -> st -> Prop) :
  (forall a w, Q a (mkSt (cs s) (heap s) w)) -> safe (sys e) s Q.
Proof. intros HQ. apply safe_world. auto. Qed.
Lemma safe_halt {A} e s (Q : A -> st -> Prop) : allowed e -> safe (halt e) s Q.
Proof. done. Qed.

(** ** [m_coIdMap] *)

Definition map_frame (a b : CoSocket (ctx F Hp) F) : Prop := b = set_coIdMap (m_coIdMap b) a.

Lemma map_frame_refl a : map_frame a a.
Proof. by destruct a. Qed.
Lemma map_frame_trans a b c : map_frame a b -> map_frame b c -> map_frame a c.
Proof. unfold map_frame. intros -> ->. done. Qed.
Lemma map_frame_set a m : map_frame a (set_coIdMap m a).
Proof. done. Qed.

(** Registrations may change as long as each is of a coroutine that waits for it. *)
Lemma core_set_watcher wo (a : CoSocket (ctx F Hp) F) pend fd x :
  core wo a pend ->
  (forall ev, direction ev ->
     side ev x = -1 \/ exists t, wo (side ev x) = Some (IoInfo fd ev (side ev x) t)) ->
  core wo (set_coIdMap (<[fd := x]> (m_coIdMap a)) a) pend.
Proof.
  intros [] Hx. split; try done. simpl. intros fd' x' ev Hev.
  intros [[<- <-]|[Hne Hl]]%lookup_insert_Some; eauto.
Qed.

Lemma side_init ev : side ev FdWatcher_init = -1.
Proof. unfold side. by destruct (ev =? EPOLLIN). Qed.

Lemma safe_watcher wo s pend fd (Q : FdWatcher -> st -> Prop) :
  core wo (cs s) pend ->
  (forall x s', core wo (cs s') pend -> map_frame (cs s) (cs s') ->
     m_coIdMap (cs s') !! fd = Some x -> Q x s') ->
  safe (watcher fd) s Q.
Proof.
  intros Hc HQ. apply safe_bind, safe_gets. destruct (m_coIdMap (cs s) !! fd) as [x|] eqn:E.
  - apply safe_ret, HQ; [done|apply map_frame_refl|done].
  - apply safe_bind, safe_upd, safe_ret, HQ; simpl; [|apply map_frame_set|apply lookup_insert_eq].
    apply core_set_watcher; [done|]. intros ev _. left. apply side_init.
Qed.

Lemma safe_put_watcher wo s pend fd x (Q : unit -> st -> Prop) :
  core wo (cs s) pend ->
  (forall ev, direction ev ->
     side ev x = -1 \/ exists t, wo (side ev x) = Some (IoInfo fd ev (side ev x) t)) ->
  (forall s', core wo (cs s') pend -> map_frame (cs s) (cs s') ->
     m_coIdMap (cs s') !! fd = Some x -> Q tt s') ->
  safe (put_watcher fd x) s Q.
Proof.
  intros Hc Hx HQ. apply safe_upd, HQ; simpl; [|apply map_frame_set|apply lookup_insert_eq].
  by apply core_set_watcher.
Qed.

(** The running coroutine registers for what it is about to wait for. *)
Lemma safe_Save wo s pend fd ev t (Q : bool -> st -> Prop) :
  core wo (cs s) pend -> direction ev ->
  wo (sch_running (m_schedule (cs s))) =
    Some (IoInfo fd ev (sch_running (m_schedule (cs s))) t) ->
  (forall b s', core wo (cs s') pend -> map_frame (cs s) (cs s') -> Q b s') ->
  safe (SaveToCoIdMap fd ev) s Q.
Proof.
  intros Hc Hev Hwo HQ. set (c := sch_running (m_schedule (cs s))) in *.
  unfold SaveToCoIdMap. apply safe_bind, safe_gets.
  change (coroutine_running (m_schedule (cs s))) with c.
  apply safe_bind, (safe_watcher wo s pend); [done|]. intros x s1 Hc1 Hf1 Hx.
  apply safe_bind. destruct Hev as [-> | ->]; simpl has_bit; cbv iota.
  - destruct (HasReadCoroutine x) eqn:Er.
    { apply safe_ret. by apply safe_ret, HQ. }
    apply safe_bind, (safe_put_watcher wo s1 pend); [done| |].
    + intros ev' Hev'. unfold SetReadCoId. unfold HasReadCoroutine in Er. rewrite Er. simpl.
      destruct Hev' as [-> | ->]; [right; by exists t|]. exact (c_watch _ _ _ Hc1 fd x EPOLLOUT (or_intror eq_refl) Hx).
    + intros s2 Hc2 Hf2 Hx2. apply safe_ret. simpl negb. cbv iota.
      apply safe_bind, (safe_watcher wo s2 pend); [done|]. intros y s3 Hc3 Hf3 _.
      apply safe_ret, HQ; eauto using map_frame_trans.
  - apply safe_ret. simpl negb. cbv iota. apply safe_bind, (safe_watcher wo s1 pend); [done|].
    intros y s2 Hc2 Hf2 Hy. pose proof (map_frame_trans _ _ _ Hf1 Hf2) as Hf.
    destruct (HasWriteCoroutine y) eqn:Er; [by apply safe_ret, HQ|].
    apply safe_bind, (safe_put_watcher wo s2 pend); [done| |].
    + intros ev' Hev'. unfold SetWriteCoId. unfold HasWriteCoroutine in Er. rewrite Er. simpl.
      destruct Hev' as [-> | ->]; [exact (c_watch _ _ _ Hc2 fd y EPOLLIN (or_introl eq_refl) Hy)|right; by exists t].
    + intros s3 Hc3 Hf3 _. apply safe_ret, HQ; eauto using map_frame_trans.
Qed.

Lemma map_frame_running a b : map_frame a b -> m_schedule b = m_schedule a.
Proof. by intros ->. Qed.

Lemma safe_GetEvents wo s pend fd (Q : Z -> st -> Prop) :
  core wo (cs s) pend ->
  (forall v s', core wo (cs s') pend -> map_frame (cs s) (cs s') -> Q v s') ->
  safe (GetEvents fd) s Q.
Proof.
  intros Hc HQ. apply safe_bind, (safe_watcher wo s pend); [done|]. intros x s' Hc' Hf _.
  by apply safe_ret, HQ.
Qed.

Lemma safe_AddEvent wo s pend fd ev t (Q : bool -> st -> Prop) :
  core wo (cs s) pend -> direction ev ->
  wo (sch_running (m_schedule (cs s))) =
    Some (IoInfo fd ev (sch_running (m_schedule (cs s))) t) ->
  (forall b s', core wo (cs s') pend -> map_frame (cs s) (cs s') -> Q b s') ->
  safe (AddEvent fd ev) s Q.
Proof.
  intros Hc Hev Hwo HQ. apply safe_bind, (safe_Save wo s pend fd ev t); [done..|].
  intros b s1 Hc1 Hf1. destruct b; simpl; [|by apply safe_ret, HQ].
  apply safe_bind, (safe_GetEvents wo s1 pend); [done|]. intros v s2 Hc2 Hf2.
  apply safe_bind, safe_world. intros r w _. case_match; [by apply safe_halt|].
  apply safe_ret, HQ; [done|]. by eapply map_frame_trans.
Qed.

(** A deregistered direction has no coroutine. *)
Lemma safe_reset wo s pend fd ev (Q : unit -> st -> Prop) :
  core wo (cs s) pend -> direction ev ->
  (forall s', core wo (cs s') pend -> map_frame (cs s) (cs s') ->
     (forall x, m_coIdMap (cs s') !! fd = Some x -> side ev x = -1) -> Q tt s') ->
  safe (ResetInCoIdMap fd ev) s Q.
Proof.
  intros Hc Hev HQ. unfold ResetInCoIdMap. apply safe_bind.
  destruct Hev as [-> | ->]; simpl has_bit; cbv iota.
  - apply safe_bind, (safe_watcher wo s pend); [done|]. intros x s1 Hc1 Hf1 Hx.
    apply (safe_put_watcher wo s1 pend); [done| |].
    + intros ev [-> | ->]; [by left|].
      exact (c_watch _ _ _ Hc1 fd x EPOLLOUT (or_intror eq_refl) Hx).
    + intros s2 Hc2 Hf2 Hx2. apply safe_ret, HQ; [done|by eapply map_frame_trans|].
      intros y. rewrite Hx2. by intros [= <-].
  - apply safe_ret, safe_bind, (safe_watcher wo s pend); [done|]. intros x s1 Hc1 Hf1 Hx.
    apply (safe_put_watcher wo s1 pend); [done| |].
    + intros ev [-> | ->]; [|by left].
      exact (c_watch _ _ _ Hc1 fd x EPOLLIN (or_introl eq_refl) Hx).
    + intros s2 Hc2 Hf2 Hx2. apply HQ; [done|by eapply map_frame_trans|].
      intros y. rewrite Hx2. by intros [= <-].
Qed.

Lemma safe_DeleteEvent wo s pend fd ev (Q : unit -> st -> Prop) :
  core wo (cs s) pend -> direction ev ->
  (forall s', core wo (cs s') pend -> map_frame (cs s) (cs s') ->
     (forall x, m_coIdMap (cs s') !! fd = Some x -> side ev x = -1) -> Q tt s') ->
  safe (DeleteEvent fd ev) s Q.
Proof.
  intros Hc Hev HQ. apply safe_bind, (safe_GetEvents wo s pend); [done|]. intros v s1 Hc1 Hf1.
  apply safe_bind, safe_world. intros r w _. case_match; [by apply safe_halt|].
  apply (safe_reset wo _ pend); [done..|]. intros s2 Hc2 Hf2 Hx.
  apply HQ; [done|by eapply map_frame_trans|done].
Qed.

(** ** A call that blocks *)

(** What the calls leave alone: all but the deadlines and the registrations. *)
Definition io_frame (a b : CoSocket (ctx F Hp) F) : Prop :=
  b = set_coIdMap (m_coIdMap b) (set_timeouts (cs_timeouts b) a).

Lemma io_frame_map a b c : io_frame a b -> map_frame b c -> io_frame a c.
Proof. unfold io_frame, map_frame. intros -> ->. done. Qed.
Lemma io_frame_timeouts a b ts : io_frame a b -> io_frame a (set_timeouts ts b).
Proof. unfold io_frame. intros ->. done. Qed.
Lemma io_frame_refl a : io_frame a a.
Proof. by destruct a. Qed.
Lemma io_frame_trans a b c : io_frame a b -> io_frame b c -> io_frame a c.
Proof. unfold io_frame. intros -> ->. done. Qed.

(** The running coroutine is about to wait on a descriptor. *)
Lemma core_enter wo (a : CoSocket (ctx F Hp) F) pend fd ev c t now :
  core wo a pend -> wo c = None -> direction ev ->
  core (upd_wait wo c (Some (IoInfo fd ev c t)))
    (set_timeouts (guard_enter now (cs_timeouts a) c t) a) pend.
Proof.
  intros [Hts Hpe Hio Hw Hcond Hnd Hpd Hkept] Hc Hev.
  assert (c ∉ pending (cs_timeouts a)) as Hnp.
  { rewrite Hpe. intros (? & ? & ? & ? & _). congruence. }
  assert (forall i o, wo i = Some o -> upd_wait wo c (Some (IoInfo fd ev c t)) i = Some o) as Hup.
  { intros i o Hi. rewrite upd_wait_ne; [done|]. intros ->. congruence. }
  split; simpl.
  - unfold guard_enter. case_match; [|done]. by apply Insert_wf.
  - intros i. destruct (decide (i = c)) as [->|Hne].
    + rewrite upd_wait_eq. unfold guard_enter. rewrite Z.gtb_ltb.
      destruct (0 <? t) eqn:E; breflect.
      * rewrite (proj2 (Insert_wf _ now c t Hts Hnp)). split; [intros _; eauto|set_solver].
      * split; [done|]. intros (? & ? & ? & [= <- <- <-] & ?). lia.
    + rewrite upd_wait_ne by done. rewrite <- Hpe. unfold guard_enter. case_match; [|done].
      rewrite (proj2 (Insert_wf _ now c t Hts Hnp)). set_solver.
  - intros i fd' ev' c' t'. unfold upd_wait. case_decide; [|eauto]. by intros [= <- <- <- <-].
  - intros fd' x ev' Hev' Hx. destruct (Hw fd' x ev' Hev' Hx) as [?|(t' & ?)]; [by left|].
    right. exists t'. by apply Hup.
  - intros key l Hl. destruct (Hcond key l Hl) as [? Hall]. split; [done|]. intros i Hi.
    destruct (Hall i Hi) as (c0 & ? & ?). exists c0. split; [by apply Hup|done].
  - done.
  - intros i Hi. destruct (Hpd i Hi) as (c0 & ? & ?). exists c0. split; [by apply Hup|done].
  - intros i c0. unfold upd_wait. case_decide; [done|eauto].
Qed.

(** It has come back: its registration and its deadline are gone. *)
Lemma core_leave wo (a : CoSocket (ctx F Hp) F) pend fd ev c t :
  core wo a pend -> wo c = Some (IoInfo fd ev c t) -> direction ev -> 0 <= c ->
  (forall x, m_coIdMap a !! fd = Some x -> side ev x = -1) ->
  exists ts', guard_leave (cs_timeouts a) c t = Some ts' /\
    core (upd_wait wo c None) (set_timeouts ts' a) pend.
Proof.
  intros [Hts Hpe Hio Hw Hcond Hnd Hpd Hkept] Hc Hev H0 Hreset.
  assert (forall i c0, wo i = Some (CondInfo c0) -> upd_wait wo c None i = Some (CondInfo c0)) as Hup.
  { intros i o Hi. rewrite upd_wait_ne; [done|]. intros ->. congruence. }
  assert (forall ts', timeout_wf ts' -> pending ts' = pending (cs_timeouts a) ∖ {[c]} ->
            core (upd_wait wo c None) (set_timeouts ts' a) pend) as Hcore.
  { intros ts' Hwf' Hp'. split; simpl.
    - done.
    - intros i. rewrite Hp', elem_of_difference, elem_of_singleton, Hpe. unfold upd_wait.
      case_decide; naive_solver.
    - intros i fd' ev' c' t'. unfold upd_wait. case_decide; [done|eauto].
    - intros fd' x ev' Hev' Hx. destruct (Hw fd' x ev' Hev' Hx) as [?|(t' & Ht')]; [by left|].
      destruct (decide (side ev' x = c)) as [E|E].
      + rewrite E, Hc in Ht'. injection Ht' as <- <- <-. left. by apply Hreset.
      + right. exists t'. by rewrite upd_wait_ne.
    - intros key l Hl. destruct (Hcond key l Hl) as [? Hall]. split; [done|]. intros i Hi.
      destruct (Hall i Hi) as (c0 & ? & ?). exists c0. split; [by apply Hup|done].
    - done.
    - intros i Hi. destruct (Hpd i Hi) as (c0 & ? & ?). exists c0. split; [by apply Hup|done].
    - intros i c0. unfold upd_wait. case_decide; [done|eauto]. }
  unfold guard_leave. rewrite Z.gtb_ltb. destruct (0 <? t) eqn:E; breflect.
  - destruct (Delete_wf _ c Hts) as (ts' & -> & Hwf' & Hp'). exists ts'. split; [done|].
    by apply Hcore.
  - exists (cs_timeouts a). split; [done|]. apply Hcore; [done|].
    assert (c ∉ pending (cs_timeouts a)); [|set_solver].
    rewrite Hpe. intros (? & ? & ? & Hc' & ?). rewrite Hc in Hc'. simplify_eq. lia.
Qed.

Lemma core_ext wo wo' (a : CoSocket (ctx F Hp) F) pend :
  core wo a pend -> (forall i, wo' i = wo i) -> core wo' a pend.
Proof.
  intros [Hts Hpe Hio Hw Hcond Hnd Hpd Hkept] He. split; try done.
  - intros c. rewrite He. apply Hpe.
  - intros c. rewrite He. apply Hio.
  - intros fd x ev ? ?. rewrite He. by apply Hw.
  - intros key l Hl. destruct (Hcond key l Hl) as [? Hall]. split; [done|].
    intros c Hc. rewrite He. by apply Hall.
  - intros c Hc. rewrite He. by apply Hpd.
  - intros c c0. rewrite He. apply Hkept.
Qed.

Lemma safe_unblock {A} wo s pend fd ev c t (timed_out : A) (retry : act A) (Q : A -> st -> Prop) :
  core wo (cs s) pend -> wo c = Some (IoInfo fd ev c t) -> direction ev -> 0 <= c ->
  (forall s1 (Q1 : A -> st -> Prop),
     (forall a w, Q1 a (mkSt (cs s1) (heap s1) w)) -> safe retry s1 Q1) ->
  (forall a s', core (upd_wait wo c None) (cs s') pend -> io_frame (cs s) (cs s') -> Q a s') ->
  safe (unblock fd ev c t timed_out retry) s Q.
Proof.
  intros Hc Hwo Hev H0 Hretry HQ. apply safe_bind, safe_gets.
  assert (forall a w, safe (DeleteEvent fd ev;; guard_end c t;; mret a)
            (mkSt (cs s) (heap s) w) Q) as Hrest.
  { intros a w. apply safe_bind, (safe_DeleteEvent wo _ pend); [done..|].
    intros s1 Hc1 Hf1 Hx. apply safe_bind, safe_bind, safe_gets.
    destruct (core_leave wo _ pend fd ev c t Hc1 Hwo Hev H0 Hx) as (ts' & -> & Hc2).
    apply safe_upd, safe_ret, HQ; [done|]. simpl.
    eapply io_frame_timeouts, io_frame_map; [apply io_frame_refl|done]. }
  apply safe_bind. destruct (m_handlingTimeout (cs s)).
  - apply safe_ret. destruct s. apply Hrest.
  - apply Hretry. intros a w. apply Hrest.
Qed.

Lemma safe_block {A} wo s pend fd ev t (frame : Z -> waiting A) (finish : Z -> act A)
    (Q : A + waiting A -> st -> Prop) :
  let c := sch_running (m_schedule (cs s)) in
  core wo (cs s) pend -> wo c = None -> direction ev -> 0 <= c ->
  (forall s1 wo1 (Q1 : A -> st -> Prop), core wo1 (cs s1) pend ->
     wo1 c = Some (IoInfo fd ev c t) ->
     (forall a s', core (upd_wait wo1 c None) (cs s') pend -> io_frame (cs s1) (cs s') ->
        Q1 a s') ->
     safe (finish c) s1 Q1) ->
  (forall a s', core wo (cs s') pend -> io_frame (cs s) (cs s') -> Q (inl a) s') ->
  (forall s', core (upd_wait wo c (Some (IoInfo fd ev c t))) (cs s') pend ->
     io_frame (cs s) (cs s') -> Q (inr (frame c)) s') ->
  safe (block fd ev t frame finish) s Q.
Proof.
  intros c Hc Hwo Hev H0 Hfin HQl HQr. apply safe_bind, safe_gets.
  change (coroutine_running (m_schedule (cs s))) with c.
  set (wo1 := upd_wait wo c (Some (IoInfo fd ev c t))) in *.
  assert (wo1 c = Some (IoInfo fd ev c t)) as Hwo1 by apply upd_wait_eq.
  assert (forall s1, core wo1 (cs s1) pend -> io_frame (cs s) (cs s1) ->
            safe (yields ← AddEvent fd ev;
                  if (yields : bool) then mret (inr (frame c)) else a ← finish c; mret (inl a))
              s1 Q) as Hrest.
  { intros s1 Hc1 Hf1.
    assert (sch_running (m_schedule (cs s1)) = c) as Hrun by by rewrite Hf1.
    apply safe_bind, (safe_AddEvent wo1 s1 pend fd ev t); [done..|by rewrite Hrun|].
    intros b s2 Hc2 Hf2. pose proof (io_frame_map _ _ _ Hf1 Hf2) as Hf. destruct b.
    - by apply safe_ret, HQr.
    - apply safe_bind, (Hfin s2 wo1); [done..|]. intros a s3 Hc3 Hf3. apply safe_ret, HQl.
      + eapply core_ext; [exact Hc3|]. intros i. unfold wo1, upd_wait. by case_decide; subst.
      + by eapply io_frame_trans. }
  apply safe_bind. unfold guard_begin. destruct (t >? 0) eqn:Et.
  - apply safe_bind, safe_sys. intros now w. apply safe_upd, Hrest; simpl.
    + by apply core_enter.
    + apply io_frame_timeouts, io_frame_refl.
  - apply safe_ret, Hrest; [|apply io_frame_refl].
    pose proof (core_enter wo (cs s) pend fd ev c t (mkTimeval 0 0) Hc Hwo Hev) as Hc'.
    unfold guard_enter in Hc'. rewrite Et in Hc'. by destruct (cs s).
Qed.

(** ** Conditions *)

Lemma core_condition_wait wo (a : CoSocket (ctx F Hp) F) pend c cond :
  core wo a pend -> wo c = None ->
  core (upd_wait wo c (Some (CondInfo cond)))
    (set_conditionMap
       (<[to_int cond := (oset_insert c (default [] (m_conditionMap a !! to_int cond))).1]>
          (m_conditionMap a)) a) pend.
Proof.
  intros [Hts Hpe Hio Hw Hcond Hnd Hpd Hkept] Hc.
  assert (forall i o, wo i = Some o -> upd_wait wo c (Some (CondInfo cond)) i = Some o) as Hup.
  { intros i o Hi. rewrite upd_wait_ne; [done|]. intros ->. congruence. }
  assert (oset_wf (default [] (m_conditionMap a !! to_int cond))) as Hs.
  { destruct (m_conditionMap a !! to_int cond) as [l|] eqn:E; [|constructor].
    by destruct (Hcond _ _ E). }
  split; simpl; try done.
  - intros i. rewrite Hpe. unfold upd_wait. case_decide as Hi; [|done]. subst. rewrite Hc. naive_solver.
  - intros i fd ev c' t. unfold upd_wait. case_decide; [done|eauto].
  - intros fd x ev ? Hx. destruct (Hw fd x ev) as [?|(t & ?)]; [done|done|by left|].
    right. exists t. by apply Hup.
  - intros key l [[<- <-]|[Hne Hl]]%lookup_insert_Some.
    + split; [by apply oset_insert_wf|]. intros i [->|Hi]%oset_insert_elem.
      * exists cond. by rewrite upd_wait_eq.
      * destruct (m_conditionMap a !! to_int cond) as [l|] eqn:E; [|set_solver].
        destruct (Hcond _ _ E) as [_ Hall]. destruct (Hall i Hi) as (c0 & ? & ?). eauto.
    + destruct (Hcond _ _ Hl) as [? Hall]. split; [done|]. intros i Hi.
      destruct (Hall i Hi) as (c0 & ? & ?). eauto.
  - intros i Hi. destruct (Hpd i Hi) as (c0 & Hwo & Hni). exists c0. split; [by apply Hup|].
    destruct (decide (to_int cond = to_int c0)) as [E|E].
    + rewrite E, lookup_insert_eq. simpl. rewrite oset_insert_elem. intros [->|?]; [congruence|done].
    + by rewrite lookup_insert_ne.
  - intros i c0. unfold upd_wait. case_decide as Hi; intros Hwo; subst.
    + injection Hwo as ->. right. rewrite lookup_insert_eq. simpl. apply oset_insert_elem. by left.
    + destruct (Hkept i c0 Hwo) as [?|Hin]; [by left|right].
      destruct (decide (to_int cond = to_int c0)) as [E|E]; [|by rewrite lookup_insert_ne].
      rewrite E, lookup_insert_eq. simpl. apply oset_insert_elem. by right.
Qed.

Lemma core_notify wo (a : CoSocket (ctx F Hp) F) pend cond :
  core wo a pend ->
  let l := default [] (m_conditionMap a !! to_int cond) in
  core wo (set_conditionMap (<[to_int cond := []]> (m_conditionMap a)) a) (pend ++ l).
Proof.
  intros [Hts Hpe Hio Hw Hcond Hnd Hpd Hkept] l.
  assert (oset_wf l /\ forall c, c ∈ l -> exists c0, wo c = Some (CondInfo c0) /\
            to_int c0 = to_int cond) as [Hs Hl].
  { unfold l. destruct (m_conditionMap a !! to_int cond) as [l0|] eqn:E; [by apply Hcond|].
    split; [constructor|set_solver]. }
  split; simpl; try done.
  - intros key l0 [[<- <-]|[Hne ?]]%lookup_insert_Some; [|by apply Hcond].
    split; [constructor|set_solver].
  - apply NoDup_app. split_and!; [done| |by apply oset_nodup]. intros c Hc Hc'.
    destruct (Hpd c Hc) as (c0 & Hwo & Hni). destruct (Hl c Hc') as (c1 & Hwo' & E).
    rewrite Hwo in Hwo'. injection Hwo' as ->. by rewrite E in Hni.
  - intros c [Hc|Hc]%elem_of_app.
    + destruct (Hpd c Hc) as (c0 & ? & ?). exists c0. split; [done|].
      destruct (decide (to_int cond = to_int c0)) as [E|E].
      * rewrite E, lookup_insert_eq. simpl. set_solver.
      * by rewrite lookup_insert_ne.
    + destruct (Hl c Hc) as (c0 & ? & E). exists c0. split; [done|].
      rewrite E, lookup_insert_eq. simpl. set_solver.
  - intros c c0 Hwo. rewrite elem_of_app. destruct (Hkept c c0 Hwo) as [?|Hin]; [by do 2 left|].
    destruct (decide (to_int cond = to_int c0)) as [E|E].
    + left. right. unfold l. by rewrite E.
    + right. by rewrite lookup_insert_ne.
Qed.

(** The first of the coroutines to resume is resumed. *)
Lemma core_wake wo (a : CoSocket (ctx F Hp) F) c pend :
  core wo a (c :: pend) ->
  (exists c0, wo c = Some (CondInfo c0)) /\ core (upd_wait wo c None) a pend.
Proof.
  intros [Hts Hpe Hio Hw Hcond Hnd Hpd Hkept]. apply NoDup_cons in Hnd as [Hnew Hnd].
  destruct (Hpd c) as (c0 & Hwo & Hni); [by left|]. split; [eauto|].
  split; try done.
  - intros i. rewrite Hpe. unfold upd_wait. case_decide as Hi; [|done]. subst. naive_solver.
  - intros i fd ev c' t. unfold upd_wait. case_decide; [done|eauto].
  - intros fd x ev ? Hx. destruct (Hw fd x ev) as [?|(t & Ht)]; [done|done|by left|].
    right. exists t. rewrite upd_wait_ne; [done|]. intros E. rewrite E in Ht. congruence.
  - intros key l Hl. destruct (Hcond _ _ Hl) as [? Hall]. split; [done|]. intros i Hi.
    destruct (Hall i Hi) as (c1 & Hi' & E). exists c1. split; [|done].
    rewrite upd_wait_ne; [done|]. intros ->. rewrite Hwo in Hi'. injection Hi' as ->.
    rewrite E, Hl in Hni. done.
  - intros i Hi. destruct (Hpd i) as (c1 & ? & ?); [by right|]. exists c1. split; [|done].
    rewrite upd_wait_ne; [done|]. by intros ->.
  - intros i c1. unfold upd_wait. case_decide as Hi; [done|]. intros Hwoi.
    destruct (Hkept i c1 Hwoi) as [Hin|?]; [left|by right]. by apply elem_of_cons in Hin as [->|?].
Qed.
End Safe.
