(* ===== verification/LoopInvariant.v ===== *)
(** * The invariant of the event loop is kept by every step

    [step_safe]: a step from a state with the invariant leads to one, or ends the run in one of
    the ways the sources intend.  The theorems say what that means for the library's clients. *)

From S2P Require Import Prelude OrdMap Coroutine Timestamp TimeoutSet Os Epoller CoSocket EventLoop.
From S2P Require Import LoopSafe.
From ITree Require Import ITree.

Open Scope Z_scope.

Section Operations.
Context {W F Hp : Type} `{OS W}.
#[local] Abbreviation st := (st W F Hp).
#[local] Abbreviation act := (act W F Hp).
Implicit Types (s : st) (wo : Z -> option info).

(** The coroutines of the resume list from position [i] on. *)
Definition rest_of (i : nat) (a : CoSocket (ctx F Hp) F) : list Z := drop i (m_waitResumeList a).

(** What a call leaves alone; it may append to the resume list. *)
Definition op_frame (a b : CoSocket (ctx F Hp) F) : Prop :=
  m_schedule b = m_schedule a /\ m_handlingTimeout b = m_handlingTimeout a /\
  exists l, m_waitResumeList b = m_waitResumeList a ++ l.

Lemma io_op_frame a b : io_frame a b -> op_frame a b.
Proof. intros ->. split_and!; [done..|]. exists []. by rewrite app_nil_r. Qed.

Lemma op_frame_refl a : op_frame a a.
Proof. apply io_op_frame, io_frame_refl. Qed.

Lemma io_frame_rest i a b : io_frame a b -> rest_of i b = rest_of i a.
Proof. by intros ->. Qed.

(** The result of the first half of a call made by the running coroutine. *)
Definition started wo s i {A} (r : A + waiting A) (s' : st) : Prop :=
  op_frame (cs s) (cs s') /\
  match r with
  | inl _ => core wo (cs s') (rest_of i (cs s'))
  | inr w => core (upd_wait wo (sch_running (m_schedule (cs s))) (Some (waiting_info w))) (cs s')
               (rest_of i (cs s'))
  end.

Lemma started_io wo s i {A} (r : A + waiting A) (s' : st) :
  io_frame (cs s) (cs s') ->
  match r with
  | inl _ => core wo (cs s') (rest_of i (cs s))
  | inr w => core (upd_wait wo (sch_running (m_schedule (cs s))) (Some (waiting_info w))) (cs s')
               (rest_of i (cs s))
  end -> started wo s i r s'.
Proof.
  intros Hf Hr. split; [by apply io_op_frame|]. by rewrite (io_frame_rest i _ _ Hf).
Qed.

(** A system call and what is made of its result. *)
Lemma safe_retry {A B} (e : sysE A) (f : A -> B) s (Q : B -> st -> Prop) :
  (forall b w, Q b (mkSt (cs s) (heap s) w)) -> safe (r ← sys e; mret (f r)) s Q.
Proof. intros HQ. apply safe_bind, safe_sys. intros a w. apply safe_ret, HQ. Qed.
#[local] Hint Resolve safe_retry : core.

Ltac start_io :=
  lazymatch goal with
  | Hc : core ?wo _ (rest_of ?i _) |- safe (block _ _ _ _ ?fin) ?s _ =>
      eapply (safe_block wo s (rest_of i (cs s)));
      [exact Hc|done|by (left + right)|done| | |];
      [ intros s1 wo1 Q1 Hc1 Hwo1 HQ1; eapply (safe_unblock wo1); eauto; by (left + right)
      | intros a s' Hc' Hf'; by apply started_io
      | intros s' Hc' Hf'; by apply started_io ]
  end.

Lemma safe_start_op {A} (e : apiE F Hp A) wo s i :
  core wo (cs s) (rest_of i (cs s)) -> (i <= length (m_waitResumeList (cs s)))%nat ->
  wo (sch_running (m_schedule (cs s))) = None -> 0 <= sch_running (m_schedule (cs s)) ->
  safe (start_op e) s (started wo s i).
Proof.
  intros Hc Hi Hwo H0.
  assert (forall B (r : B) w, started wo s i (A := B) (inl r) (mkSt (cs s) (heap s) w)) as Hdone.
  { intros B r w. apply started_io; [apply io_frame_refl|done]. }
  assert (forall B (r : B), started wo s i (A := B) (inl r) s) as Hnow.
  { intros B r. apply started_io; [apply io_frame_refl|done]. }
  destruct e; simpl.
  - apply safe_bind, safe_sys. intros [] w; [apply safe_ret, Hdone|].
    destruct (_ =? _); [apply safe_ret, Hdone|]. destruct (negb _); [apply safe_ret, Hdone|].
    start_io.
  - apply safe_bind, safe_sys. intros [] w; [apply safe_ret, Hdone|].
    destruct (negb _); [apply safe_ret, Hdone|].
    start_io.
  - apply safe_bind, safe_sys. intros [] w; [apply safe_ret, Hdone|].
    destruct (negb _); [apply safe_ret, Hdone|].
    start_io.
  - unfold Write_start. destruct buffer as [d|]; [|exact (Hnow _ _)].
    destruct (size =? 0)%nat; [exact (Hnow _ _)|].
    apply safe_bind, safe_sys. intros [] w; [apply safe_ret, Hdone|].
    destruct (negb _); [apply safe_ret, Hdone|].
    start_io.
  - apply safe_bind, safe_bind, safe_gets. destruct (_ =? _); [by apply safe_halt|].
    apply safe_bind, safe_upd, safe_ret, safe_ret. split.
    + split_and!; [done..|]. exists []. by rewrite app_nil_r.
    + by destruct Hc.
  - apply safe_bind, safe_gets, safe_bind, safe_upd, safe_ret. split.
    + split_and!; [done..|]. exists []. by rewrite app_nil_r.
    + by apply core_condition_wait.
  - apply safe_bind, safe_bind, safe_gets, safe_bind, safe_upd, safe_upd, safe_ret. split.
    + split_and!; [done..|]. simpl. eauto.
    + simpl. unfold rest_of. simpl. rewrite drop_app_le by done.
      pose proof (core_notify wo _ _ condition Hc) as [].
      split; try done.
  - apply safe_bind, safe_upd, safe_ret. split.
    + split_and!; [done..|]. exists []. by rewrite app_nil_r.
    + by destruct Hc.
  - apply safe_bind, safe_sys. intros r w. apply safe_ret, Hdone.
  - apply safe_bind. unfold safe, on_heap. destruct (op (heap s)) as [r h].
    apply started_io; [apply io_frame_refl|done].
Qed.
End Operations.

(** ** Resuming a blocked coroutine *)

Section Machine.
Context {W F Hp : Type} `{OS W} (stack_size : nat) (body : F -> prog F Hp).
#[local] Abbreviation st := (st W F Hp).
#[local] Abbreviation act := (act W F Hp).
Implicit Types (s : st) (l back : loc F) (q : pc F Hp).

(** The position in [m_waitResumeList] up to which [RunWaitResumeCo] has come. *)
Definition resumed l : nat := match l with AtWait i => i | _ => 0 end.
Definition in_timeouts l : bool := match l with AtTimeout _ => true | _ => false end.
Definition loc_of q : loc F := match q with Main l => l | InCo _ back => back end.
Definition in_main q : bool := match q with Main _ => true | InCo _ _ => false end.

(** The invariant at the control point [l] of [Run], for a main context or a running coroutine. *)
Record inv_at (main : bool) l (a : CoSocket (ctx F Hp) F) : Prop := {
  i_sched : sched_wf stack_size (m_schedule a);
  i_blocked : blocked (m_schedule a);
  i_core : core (wait_of (m_schedule a)) a (rest_of (resumed l) a);
  i_position : (resumed l <= length (m_waitResumeList a))%nat;
  i_handling : m_handlingTimeout a = in_timeouts l;
  i_running : if main then sch_running (m_schedule a) = -1 else 0 <= sch_running (m_schedule a)
}.

Definition inv (x : pc F Hp * st) : Prop := inv_at (in_main (fst x)) (loc_of (fst x)) (cs (snd x)).

Lemma core_schedule wo (a : CoSocket (ctx F Hp) F) pend S :
  core wo a pend -> core wo (set_schedule S a) pend.
Proof. by intros []. Qed.

Lemma op_frame_position (a b : CoSocket (ctx F Hp) F) n :
  op_frame a b -> (n <= length (m_waitResumeList a))%nat -> (n <= length (m_waitResumeList b))%nat.
Proof. intros (_ & _ & l & ->). rewrite length_app. lia. Qed.

(** What the running coroutine leaves as it goes on. *)
Lemma inv_started {A} (r : A) s s' l :
  inv_at false l (cs s) ->
  started (W := W) (wait_of (m_schedule (cs s))) s (resumed l) (inl r) s' ->
  inv_at false l (cs s').
Proof.
  intros [Hs Hb Hc Hpos Hh Hr] [(Es & Eh & l0 & El) Hc'].
  split; rewrite ?Es; try done.
  - rewrite El, length_app. lia.
  - by rewrite Eh.
Qed.

(** The second half of a call: the coroutine [c] no longer waits. *)
Lemma safe_resume_op {A} (w : waiting A) wo s pend c (Q : A -> st -> Prop) :
  0 <= c -> wo c = Some (waiting_info w) ->
  match waiting_info w with
  | IoInfo _ _ _ _ => core wo (cs s) pend
  | CondInfo _ => core wo (cs s) (c :: pend)
  end ->
  (forall a s', core (upd_wait wo c None) (cs s') pend -> io_frame (cs s) (cs s') -> Q a s') ->
  safe (resume_op w) s Q.
Proof.
  intros H0 Hwo Hc HQ. destruct w; simpl in *.
  1-4: destruct (c_io _ _ _ Hc _ _ _ _ _ Hwo) as [-> Hev];
    eapply safe_unblock; eauto using safe_retry.
  apply HQ; [|apply io_frame_refl]. by apply core_wake in Hc as [_ ?].
Qed.

(** [resume] of a coroutine that waits for [o]. *)
Lemma safe_resume_entered c o l back s (pend : list Z) :
  inv_at true l (cs s) -> wait_of (m_schedule (cs s)) c = Some o ->
  in_timeouts back = in_timeouts l ->
  rest_of (resumed back) (cs s) = pend -> (resumed back <= length (m_waitResumeList (cs s)))%nat ->
  match o with
  | IoInfo _ _ _ _ => rest_of (resumed l) (cs s) = pend
  | CondInfo _ => rest_of (resumed l) (cs s) = c :: pend
  end ->
  safe (resume stack_size body c back) s
    (fun q s' => inv (q, s') /\ wait_of (m_schedule (cs s')) c = None).
Proof.
  intros [Hs Hb Hc Hpos Hh Hr] Hwo Htm Hback Hpos' Hpend. unfold resume.
  apply safe_bind, safe_gets. set (S := m_schedule (cs s)) in *.
  pose proof (wait_of_nonneg _ _ _ Hwo) as H0.
  assert (exists S' k, resume_enter stack_size S c = EnterRun S' k) as (S' & k & He).
  { unfold resume_enter. rewrite Hr. simpl.
    unfold wait_of in Hwo. rewrite (proj2 (Z.leb_le 0 c) H0) in Hwo.
    destruct (sch_co S !! Z.to_nat c) as [[co|]|] eqn:Hco; try done.
    case_decide as Hst; [|done].
    assert (Z.to_nat c < sch_cap S)%nat as Hlt.
    { rewrite <- (wf_len _ _ Hs). by eapply lookup_lt_Some. }
    rewrite (proj2 (Z.leb_le 0 c) H0), (proj2 (Z.ltb_lt c _)) by lia. simpl. rewrite Hst.
    destruct (co_ctx co); [eauto|done]. }
  rewrite He.
  destruct (enter_wait stack_size S c S' k Hs Hb He) as (Hrun & _ & Hb' & Hk & Hw').
  pose proof (enter_wf _ _ _ _ _ Hs He) as Hs'.
  rewrite Hwo in Hk. destruct k as [ud f|A w k]; [done|]. injection Hk as ->.
  apply safe_bind, safe_upd, safe_bind.
  apply (safe_resume_op w (wait_of S) _ pend c); [done|done| |].
  - destruct w; simpl in *; apply core_schedule; congruence.
  - intros a s' Hc' Hf. apply safe_ret.
    assert (m_schedule (cs s') = S') as Es by by rewrite Hf.
    split; [|by rewrite Es, Hw', upd_wait_eq]. unfold inv. simpl.
    assert (m_waitResumeList (cs s') = m_waitResumeList (cs s)) as El by by rewrite Hf.
    split; rewrite ?Es; try done.
    + unfold rest_of in *. rewrite El, Hback. eapply core_ext; [exact Hc'|]. apply Hw'.
    + by rewrite El.
    + rewrite Htm, <- Hh. by rewrite Hf.
    + by rewrite Hrun.
Qed.

Lemma safe_resume c o l back s (pend : list Z) :
  inv_at true l (cs s) -> wait_of (m_schedule (cs s)) c = Some o ->
  in_timeouts back = in_timeouts l ->
  rest_of (resumed back) (cs s) = pend -> (resumed back <= length (m_waitResumeList (cs s)))%nat ->
  match o with
  | IoInfo _ _ _ _ => rest_of (resumed l) (cs s) = pend
  | CondInfo _ => rest_of (resumed l) (cs s) = c :: pend
  end ->
  safe (resume stack_size body c back) s (fun q s' => inv (q, s')).
Proof.
  intros. eapply safe_mono; [by eapply safe_resume_entered|]. by intros q s' [? _].
Qed.

(** A new coroutine starts at once. *)
Lemma safe_new_coroutine ud f l back s :
  inv_at true l (cs s) -> resumed back = resumed l -> in_timeouts back = in_timeouts l ->
  safe (new_coroutine stack_size body ud f back) s
    (fun q s' => q = InCo (body f) back /\ inv (q, s')).
Proof.
  intros [Hs Hb Hc Hpos Hh Hr] Hres Htm. unfold new_coroutine.
  apply safe_bind, safe_gets. unfold coroutine_running. rewrite Hr. simpl.
  apply safe_bind, safe_gets. set (S := m_schedule (cs s)) in *.
  destruct (new_spec stack_size S (CtxStart ud f) Hs)
    as (S1 & id & -> & Hs1 & Hr1 & _ & Hfree & Hid & Hsame).
  apply safe_bind, safe_upd. unfold resume. apply safe_bind, safe_gets. simpl m_schedule.
  assert (exists S2 co2, resume_enter stack_size S1 (Z.of_nat id) = EnterRun S2 (CtxStart ud f) /\
            sch_co S2 = <[id := Some co2]> (sch_co S1) /\ co_status co2 = COROUTINE_RUNNING /\
            sch_running S2 = Z.of_nat id) as (S2 & co2 & He & Eco & Est & Er).
  { unfold resume_enter. rewrite Hr1, Hr. simpl. rewrite Nat2Z.id, Hid.
    assert (id < sch_cap S1)%nat as Hlt.
    { rewrite <- (wf_len _ _ Hs1). by eapply lookup_lt_Some. }
    rewrite (proj2 (Z.leb_le 0 _)), (proj2 (Z.ltb_lt _ _)) by lia. simpl. by do 2 eexists. }
  rewrite He. pose proof (enter_wf _ _ _ _ _ Hs1 He) as Hs2.
  apply safe_bind, safe_upd, safe_ret. split; [done|]. unfold inv. simpl.
  assert (forall i, sch_co S2 !! i = if decide (i = id) then Some (Some co2) else sch_co S1 !! i)
    as Hslot.
  { intros i. rewrite Eco. case_decide as E; [subst i|by apply list_lookup_insert_ne].
    apply list_lookup_insert_eq. by eapply lookup_lt_Some. }
  split; simpl; try done.
  - intros i co. rewrite Hslot. case_decide as E; [intros [= <-]; by rewrite Est|].
    intros Hi. apply (Hb i co). by apply Hsame.
  - unfold rest_of. simpl. rewrite Hres. apply core_schedule, core_schedule.
    eapply core_ext; [exact Hc|]. intros c. unfold wait_of. destruct (0 <=? c) eqn:E0; [|done].
    rewrite Hslot. case_decide as E.
    + rewrite Est, decide_False by done. rewrite E.
      destruct (sch_co S !! id) as [[co|]|] eqn:Eid; [by destruct (Hfree co)|done|done].
    + destruct (sch_co S1 !! Z.to_nat c) as [[co|]|] eqn:E1.
      * apply Hsame in E1; [|done]. by rewrite E1.
      * destruct (sch_co S !! Z.to_nat c) as [[co|]|] eqn:E2; [|done|done].
        apply Hsame in E2; congruence.
      * destruct (sch_co S !! Z.to_nat c) as [[co|]|] eqn:E2; [|done|done].
        apply Hsame in E2; congruence.
  - by rewrite Hres.
  - by rewrite Htm.
  - rewrite Er. lia.
Qed.

(** ** Every step *)

Lemma running_waits_not (S : schedule (ctx F Hp)) :
  sched_wf stack_size S -> wait_of S (sch_running S) = None.
Proof.
  intros Hs. destruct (wf_running _ _ Hs) as [Hr|(i & co & Hr & Hco)]; rewrite Hr; [done|].
  rewrite wait_of_slot, Hco, decide_False; [done|].
  destruct (wf_co _ _ Hs _ _ Hco) as (Hrun & _). rewrite (proj2 Hrun); done.
Qed.

Lemma inv_map_frame main l (a b : CoSocket (ctx F Hp) F) :
  inv_at main l a -> map_frame a b -> core (wait_of (m_schedule a)) b (rest_of (resumed l) a) ->
  inv_at main l b.
Proof. intros [] -> Hc. by split. Qed.

(** Moving to another point of the main context. *)
Lemma inv_move l l' (a b : CoSocket (ctx F Hp) F) :
  inv_at true l a -> m_schedule b = m_schedule a -> cs_timeouts b = cs_timeouts a ->
  m_coIdMap b = m_coIdMap a -> m_conditionMap b = m_conditionMap a ->
  rest_of (resumed l') b = rest_of (resumed l) a ->
  (resumed l' <= length (m_waitResumeList b))%nat -> m_handlingTimeout b = in_timeouts l' ->
  inv_at true l' b.
Proof.
  intros [Hs Hb [] Hpos Hh Hr] E1 E2 E3 E4 E5 Hpos' Hh'.
  split; rewrite ?E1; try done.
  rewrite E5. split; rewrite ?E2, ?E3, ?E4; done.
Qed.

Lemma safe_EventHandler_read fd ev evs n s :
  inv_at true (AtEvents ((fd, ev) :: evs) n) (cs s) ->
  safe (EventHandler_read stack_size body fd ev evs n) s (fun q s' => inv (q, s')).
Proof.
  intros Hinv. pose proof (i_core _ _ _ Hinv) as Hc. unfold EventHandler_read.
  apply safe_bind, (safe_watcher _ _ _ _ _ Hc). intros x s' Hc' Hf Hx.
  pose proof (inv_map_frame _ _ _ _ Hinv Hf Hc') as Hinv'.
  assert (m_schedule (cs s') = m_schedule (cs s)) as Es by by rewrite Hf.
  destruct (negb _ && negb _); [by apply safe_ret; destruct Hinv'|].
  destruct (_ && HasReadCoroutine x) eqn:E; [|by apply safe_ret; destruct Hinv'].
  apply andb_true_iff in E as [_ E]. unfold HasReadCoroutine in E. breflect.
  destruct (c_watch _ _ _ Hc' fd x EPOLLIN (or_introl eq_refl) Hx) as [?|[t Ht]]; [done|].
  eapply (safe_resume _ _ (AtEvents ((fd, ev) :: evs) n)); try done.
  - rewrite Es. exact Ht.
  - by destruct Hinv'.
  - done.
Qed.

Lemma safe_EventHandler_write fd ev evs n s :
  inv_at true (AtWrite fd ev evs n) (cs s) ->
  safe (EventHandler_write stack_size body fd ev evs n) s (fun q s' => inv (q, s')).
Proof.
  intros Hinv. pose proof (i_core _ _ _ Hinv) as Hc. unfold EventHandler_write.
  apply safe_bind, (safe_watcher _ _ _ _ _ Hc). intros x s' Hc' Hf Hx.
  pose proof (inv_map_frame _ _ _ _ Hinv Hf Hc') as Hinv'.
  assert (m_schedule (cs s') = m_schedule (cs s)) as Es by by rewrite Hf.
  destruct (_ && HasWriteCoroutine x) eqn:E; [|by apply safe_ret; destruct Hinv'].
  apply andb_true_iff in E as [_ E]. unfold HasWriteCoroutine in E. breflect.
  destruct (c_watch _ _ _ Hc' fd x EPOLLOUT (or_intror eq_refl) Hx) as [?|[t Ht]]; [done|].
  eapply (safe_resume _ _ (AtWrite fd ev evs n)); try done.
  - rewrite Es. exact Ht.
  - by destruct Hinv'.
  - done.
Qed.

Lemma safe_timeout now s :
  inv_at true (AtTimeout now) (cs s) ->
  safe (step_main stack_size body (AtTimeout now)) s (fun q s' => inv (q, s')).
Proof.
  intros Hinv. pose proof (i_core _ _ _ Hinv) as Hc. apply safe_bind, safe_gets. cbv zeta.
  destruct (GetExpired (cs_timeouts (cs s)) now =? -1) eqn:E; breflect.
  - apply safe_bind, safe_upd, safe_ret. apply (inv_move _ (AtNew 0) _ _ Hinv); try done. simpl. lia.
  - destruct (GetExpired_some _ _ _ (c_timeouts _ _ _ Hc) E eq_refl) as (e & He & _).
    assert (GetExpired (cs_timeouts (cs s)) now ∈ pending (cs_timeouts (cs s))) as Hpe.
    { apply elem_of_dom. eauto. }
    apply (c_pending _ _ _ Hc) in Hpe as (fd & ev & t & Hwo & _).
    eapply (safe_resume _ _ (AtTimeout now)); try done. simpl. lia.
Qed.

Lemma safe_wait i s :
  inv_at true (AtWait i) (cs s) ->
  safe (step_main stack_size body (AtWait i)) s (fun q s' => inv (q, s')).
Proof.
  intros Hinv. pose proof (i_core _ _ _ Hinv) as Hc. apply safe_bind, safe_gets.
  destruct (m_waitResumeList (cs s) !! i) as [c|] eqn:E.
  - assert (rest_of i (cs s) = c :: rest_of (S i) (cs s)) as Er by by apply drop_S.
    simpl in Hc. rewrite Er in Hc. destruct (core_wake _ _ _ _ Hc) as [[c0 Hwo] _].
    eapply (safe_resume _ _ (AtWait i)); try done.
    simpl. apply lookup_lt_Some in E. lia.
  - apply safe_bind, safe_upd, safe_ret. apply (inv_move _ AtPoll _ _ Hinv); try done.
    + unfold rest_of. simpl. apply lookup_ge_None in E. by rewrite drop_ge.
    + by destruct Hinv.
Qed.

Lemma safe_poll s :
  inv_at true AtPoll (cs s) -> safe (poll (F := F)) s (fun q s' => inv (q, s')).
Proof.
  intros Hinv. unfold poll. apply safe_bind, safe_gets.
  assert (forall g w, safe
            (size ← gets m_events;
             r ← on_world (Poll_wait size (to_int (g + 10)));
             match r with
             | Some l => mret (Main (AtEvents l (length l)))
             | None => halt ExitPoll
             end) (mkSt (cs s) (heap s) w) (fun q s' => inv (q, s'))) as Hrest.
  { intros g w. apply safe_bind, safe_gets, safe_bind, safe_world. intros [l|] w' _.
    - apply safe_ret. by destruct Hinv.
    - by apply safe_halt. }
  destruct (m_timeoutSet (cs_timeouts (cs s))).
  - apply safe_bind, safe_ret. destruct s. apply Hrest.
  - apply safe_bind, safe_bind, safe_sys. intros now w. apply safe_ret, Hrest.
Qed.

Lemma safe_step_main l s :
  inv_at true l (cs s) -> safe (step_main stack_size body l) s (fun q s' => inv (q, s')).
Proof.
  intros Hinv.
  destruct l as [[|f fs]|i|i| |[|[fd ev] l] n|fd ev l n|now].
  - apply safe_ret. by destruct Hinv.
  - eapply safe_mono; [by apply (safe_new_coroutine _ _ (AtMain (f :: fs)))|]. by intros q s' [_ ?].
  - apply safe_bind, safe_gets. destruct (m_coFuncList (cs s) !! i) as [f|].
    + eapply safe_mono; [by apply (safe_new_coroutine _ _ (AtNew i))|]. by intros q s' [_ ?].
    + apply safe_bind, safe_upd, safe_ret.
      apply (inv_move _ (AtWait 0) _ _ Hinv); try done; [simpl; lia|by destruct Hinv].
  - by apply safe_wait.
  - by apply safe_poll.
  - apply safe_bind, safe_upd, safe_bind, safe_upd, safe_bind, safe_sys. intros now w.
    apply safe_ret, (inv_move _ (AtTimeout now) _ _ Hinv); try done. simpl. lia.
  - by apply safe_EventHandler_read.
  - by apply safe_EventHandler_write.
  - by apply safe_timeout.
Qed.

Lemma safe_yield {A} (w : waiting A) (k : A -> prog F Hp) l s :
  sched_wf stack_size (m_schedule (cs s)) -> blocked (m_schedule (cs s)) ->
  0 <= sch_running (m_schedule (cs s)) ->
  (resumed l <= length (m_waitResumeList (cs s)))%nat ->
  m_handlingTimeout (cs s) = in_timeouts l ->
  core (upd_wait (wait_of (m_schedule (cs s))) (sch_running (m_schedule (cs s)))
          (Some (waiting_info w))) (cs s) (rest_of (resumed l) (cs s)) ->
  safe (yield stack_size (CtxWait w k)) s (fun _ s' => inv_at true l (cs s')).
Proof.
  intros Hs Hb H0 Hpos Hh Hc. apply safe_bind, safe_sys. intros depth w0.
  destruct (stack_size <? depth)%nat eqn:Ed; [by apply safe_halt|]. apply Nat.ltb_ge in Ed.
  apply safe_bind, safe_gets. set (S := m_schedule (cs s)) in *.
  change (m_schedule (cs (mkSt (cs s) (heap s) w0))) with S.
  destruct (coroutine_yield stack_size S (CtxWait w k) depth) as [S'|] eqn:Ey.
  - apply safe_upd. destruct (yield_wait stack_size S _ _ _ Hs Hb Ey) as (Hb' & Hr' & Hw'); [eauto|].
    pose proof (yield_wf _ _ _ _ _ Hs Ey) as Hs'. split; simpl; try done.
    apply core_schedule. eapply core_ext; [exact Hc|]. exact Hw'.
  - exfalso. unfold coroutine_yield in Ey.
    destruct (wf_running _ _ Hs) as [Hr|(i & co & Hr & Hco)]; [lia|].
    rewrite (proj2 (Z.leb_le 0 _) H0), Hr, Nat2Z.id, Hco in Ey.
    unfold save_stack in Ey. rewrite (proj2 (Nat.leb_le _ _) Ed) in Ey. by destruct (_ <? _)%nat.
Qed.

Lemma safe_step_co p back s :
  inv_at false back (cs s) -> safe (step_co stack_size p back) s (fun q s' => inv (q, s')).
Proof.
  intros Hinv. unfold step_co. pose proof Hinv as [Hs Hb Hc Hpos Hh Hr].
  destruct (observe p) as [[]|p'|A e k].
  - apply safe_bind, safe_upd, safe_ret. unfold inv. simpl.
    destruct (return_wait stack_size _ Hs Hb Hr) as [Hb' Hw].
    split; simpl; try done; [by apply return_wf|]. apply core_schedule. by eapply core_ext.
  - by apply safe_ret.
  - apply safe_bind. eapply safe_mono.
    { apply (safe_start_op e (wait_of (m_schedule (cs s))) s (resumed back)); try done.
      by apply running_waits_not. }
    intros [a|w] s' Hst.
    + apply safe_ret. by eapply inv_started.
    + destruct Hst as [(Es & Eh & l & El) Hc'].
      apply safe_bind. eapply safe_mono.
      * apply (safe_yield w k back); rewrite ?Es; try done; [|by rewrite Eh].
        rewrite El, length_app. lia.
      * intros [] s'' Hinv''. by apply safe_ret.
Qed.
End Machine.
