(* ===== verification/LoopProps.v ===== *)
(** * What the event loop promises to its clients

    Theorems about every run of [Run] with any kernel, any coroutines and any interleaving of
    events; then the places where a run does not do what it is meant to do. *)

From S2P Require Import Prelude OrdMap Coroutine Timestamp TimeoutSet Os Epoller CoSocket EventLoop.
From S2P Require Import LoopSafe LoopInvariant.
From ITree Require Import ITree.

Open Scope Z_scope.

Section Reachable.
Context {W F Hp : Type} `{OS W} (stack_size : nat) (body : F -> prog F Hp).
#[local] Abbreviation sys_state := (pc F Hp * st W F Hp)%type.
Implicit Types (x y : sys_state).

Lemma loop_initial_inv junk fs h w :
  length junk = stack_size -> inv stack_size (initial junk fs h w : sys_state).
Proof.
  intros Hj. unfold inv, initial. simpl. split; simpl; try done.
  - by apply open_wf.
  - intros i co Hco. by apply lookup_replicate in Hco as [? _].
  - assert (forall i, wait_of (coroutine_open (C := ctx F Hp) junk) i = None) as Hn.
    { intros i. unfold wait_of. destruct (0 <=? i); [|done]. unfold coroutine_open. cbn [sch_co].
      destruct (replicate _ _ !! _) as [o|] eqn:E; [|done].
      by apply lookup_replicate in E as [-> _]. }
    eapply (core_ext (fun _ => None)); [|done]. unfold rest_of. simpl.
    split; simpl; try done.
    + apply timeout_empty_wf.
    + intros c. unfold pending. simpl. rewrite dom_empty. set_solver.
    + apply NoDup_nil_2.
    + intros c Hc. by apply elem_of_nil in Hc.
Qed.

Lemma step_inv x :
  inv stack_size x ->
  match step stack_size body x with
  | inl y => inv stack_size y
  | inr e => allowed e
  end.
Proof.
  destruct x as [q s]. intros Hinv. unfold step, step_pc. simpl. destruct q as [l|p back].
  - pose proof (safe_step_main stack_size body l s Hinv) as Hs. unfold safe in Hs.
    by destruct (step_main _ _ _ _) as [[q' s']|e].
  - pose proof (safe_step_co stack_size p back s Hinv) as Hs. unfold safe in Hs.
    by destruct (step_co _ _ _ _) as [[q' s']|e].
Qed.

Lemma steps_inv x y : steps stack_size body x y -> inv stack_size x -> inv stack_size y.
Proof.
  induction 1 as [x|x y z Hxy _ IH]; [done|]. intros Hx. apply IH.
  pose proof (step_inv x Hx) as Hs. by rewrite Hxy in Hs.
Qed.

(** ** Stacks that are too deep *)

(** [m] does not stop with [StackOverflow]. *)
Definition shallow {A} (m : act W F Hp A) : Prop := forall s, m s <> inr StackOverflow.

Lemma shallow_bind {A B} (m : act W F Hp A) (f : A -> act W F Hp B) :
  shallow m -> (forall a, shallow (f a)) -> shallow (m ≫= f).
Proof.
  intros Hm Hf s. unfold mbind, act_bind. specialize (Hm s).
  destruct (m s) as [[a s']|e]; [apply Hf|congruence].
Qed.

Lemma shallow_world {A} (f : W -> A * W) : shallow (on_world f).
Proof. intros s. unfold on_world. by destruct (f (world s)). Qed.
Lemma shallow_heap {A} (f : Hp -> A * Hp) : shallow (on_heap f).
Proof. intros s. unfold on_heap. by destruct (f (heap s)). Qed.

Ltac shallow_step :=
  lazymatch goal with
  | |- shallow (_ ≫= _) => apply shallow_bind; [|intros ?]
  | |- shallow (halt _) => by intros ? [=]
  | |- shallow (on_world _) => apply shallow_world
  | |- shallow (on_heap _) => apply shallow_heap
  | |- shallow (mret _) => by intros ? [=]
  | |- shallow (gets _) => by intros ? [=]
  | |- shallow (upd _) => by intros ? [=]
  | |- shallow (if ?b then _ else _) => destruct b
  | |- shallow (match ?x with _ => _ end) => destruct x
  | |- shallow (let _ := _ in _) => cbv zeta
  | |- shallow ?m => let h := head_of m in unfold h
  end.

Lemma shallow_step_main l : shallow (step_main (W := W) stack_size body l).
Proof. destruct l as [[|]| | | |[|[]]| |]; repeat shallow_step. Qed.

Lemma shallow_start_op {A} (e : apiE F Hp A) : shallow (start_op (W := W) e).
Proof. destruct e; simpl; repeat shallow_step. Qed.

(** The stack overflows when a coroutine yields with more bytes in use than the shared stack has. *)
Lemma overflow_deep x :
  step stack_size body x = inr StackOverflow -> exists w : W, (stack_size < (os_call sys_stack_depth w).1)%nat.
Proof.
  destruct x as [[l|p back] s]; unfold step, step_pc; simpl; [by intros ?%shallow_step_main|].
  unfold step_co. destruct (observe p) as [r|p'|A e k]; [done..|].
  unfold mbind, act_bind. destruct (start_op e s) as [[r s1]|e1] eqn:E.
  2: { intros [= ->]. by apply shallow_start_op in E. }
  destruct r as [a|w]; [done|]. unfold yield, mbind, act_bind, sys, on_world.
  destruct (os_call sys_stack_depth (world s1)) as [d w1] eqn:Ed.
  destruct (stack_size <? d)%nat eqn:El; [|simpl; by destruct (coroutine_yield _ _ _ _)].
  intros _. exists (world s1). rewrite Ed. by apply Nat.ltb_lt.
Qed.

(** C4.  Whatever the kernel answers and the coroutines do, a run of the event loop uses no dangling
    iterator of the timeout set and fails no assertion of coroutine.c (it never resumes a running or
    a foreign coroutine, never resumes from inside a coroutine, never yields outside one) but one:
    that of [_save_stack], and this only when the stack of a coroutine is in use beyond the size of
    the shared stack; never if all coroutines stay within it.  Otherwise a run ends only when an
    epoll call fails for good or the conditions run out.  Every state keeps the invariant: each
    registration, deadline and notification is of a coroutine that waits for it. *)
Theorem event_loop_safe junk fs h w y :
  length junk = stack_size -> steps stack_size body (initial junk fs h w) y ->
  inv stack_size y /\ forall e, step stack_size body y = inr e ->
    e <> AssertSchedule /\ e <> BadIterator /\
    (e = StackOverflow -> exists w' : W, (stack_size < (os_call sys_stack_depth w').1)%nat).
Proof.
  intros Hj Hsteps. pose proof (steps_inv _ _ Hsteps (loop_initial_inv junk fs h w Hj)) as Hy.
  split; [done|]. intros e He. pose proof (step_inv y Hy) as Hs. rewrite He in Hs.
  split_and!; [by intros ->..|]. intros ->. by eapply overflow_deep.
Qed.

(** ** Wake-ups *)

(** What a blocked call returns when it timed out, and when it is retried. *)
Definition timed_out {A} (w : waiting A) : A :=
  match w in waiting T return T with
  | WConnect _ _ _ | WAccept _ _ _ | WWrite _ _ _ _ => - ETIME
  | WRead _ _ _ _ => (- ETIME, [])
  | WCondition _ => tt
  end.

Definition retried {A} (w : waiting A) (wd : W) : A :=
  match w in waiting T return T with
  | WConnect fd _ _ =>
      match fst (os_call (sys_so_error fd) wd) with Succ v => - v | Errno e => - e end
  | WAccept fd _ _ => as_ret (fst (os_call (sys_accept fd) wd))
  | WRead fd size _ _ => as_read (fst (os_call (sys_read fd size) wd))
  | WWrite fd d _ _ => as_ret (fst (os_call (sys_write fd d) wd))
  | WCondition _ => tt
  end.

Lemma bind_inl {A B} (m : act W F Hp A) (f : A -> act W F Hp B) s b s2 :
  (m ≫= f) s = inl (b, s2) -> exists a s1, m s = inl (a, s1) /\ f a s1 = inl (b, s2).
Proof. unfold mbind, act_bind. destruct (m s) as [[a s1]|e]; [eauto|done]. Qed.

Lemma unblock_result {A} fd ev c t (tmo : A) (retry : act W F Hp A) s a s' :
  unblock fd ev c t tmo retry s = inl (a, s') ->
  if m_handlingTimeout (cs s) then a = tmo else exists s1, retry s = inl (a, s1).
Proof.
  intros (h & s0 & [= <- <-] & Hu)%bind_inl. apply bind_inl in Hu as (r & s1 & Hr & Hu).
  apply bind_inl in Hu as (? & s2 & _ & Hu). apply bind_inl in Hu as (? & s3 & _ & [= <- _]).
  destruct (m_handlingTimeout (cs s)); [by injection Hr|eauto].
Qed.

Lemma retry_result {A B} (e : sysE A) (f : A -> B) (s : st W F Hp) b s' :
  (r ← sys e; mret (f r)) s = inl (b, s') -> b = f (fst (os_call e (world s))).
Proof.
  intros (r & s1 & Hr & [= <- <-])%bind_inl. unfold sys, on_world in Hr.
  destruct (os_call e (world s)) as [r' w']. simpl. by injection Hr as <- _.
Qed.

Lemma resume_op_result {A} (w : waiting A) (s s' : st W F Hp) a :
  resume_op w s = inl (a, s') ->
  a = if m_handlingTimeout (cs s) then timed_out w else retried w (world s).
Proof.
  destruct w; simpl; try intros Hu%unblock_result; try by destruct a, (m_handlingTimeout (cs s)).
  all: destruct (m_handlingTimeout (cs s)); [done|].
  all: destruct Hu as [s1 ->%retry_result]; done.
Qed.

(** The coroutine [c] is suspended in the call [w], to go on with [k] on its result. *)
Definition suspended_in (a : CoSocket (ctx F Hp) F) (c : Z) {A} (w : waiting A)
    (k : A -> prog F Hp) : Prop :=
  0 <= c /\ exists co, sch_co (m_schedule a) !! Z.to_nat c = Some (Some co) /\
    co_status co = COROUTINE_SUSPEND /\ co_ctx co = Some (CtxWait w k).

(** What at the control point [l] makes the loop wake a coroutine that waits for [o]. *)
Definition cause (l : loc F) (a : CoSocket (ctx F Hp) F) (c : Z) (o : info) : Prop :=
  match l with
  | AtEvents ((fd, ev) :: _) _ =>
      (exists t, o = IoInfo fd EPOLLIN c t) /\ (is_error ev || has_bit ev EPOLLIN) = true
  | AtWrite fd ev _ _ =>
      (exists t, o = IoInfo fd EPOLLOUT c t) /\ (is_error ev || has_bit ev EPOLLOUT) = true
  | AtTimeout now =>
      exists fd ev t e, o = IoInfo fd ev c t /\ 0 < t /\
        m_timeoutPtrMap (cs_timeouts a) !! c = Some e /\ ts_gt (cit_timestamp e) now = false
  | AtWait i => (exists cond, o = CondInfo cond) /\ m_waitResumeList a !! i = Some c
  | _ => False
  end.

(** [resume] of a coroutine does nothing, or continues its call with the entered schedule. *)
Lemma resume_inl c back (s s' : st W F Hp) q :
  sched_wf stack_size (m_schedule (cs s)) -> blocked (m_schedule (cs s)) ->
  resume stack_size body c back s = inl (q, s') ->
  (q = Main back /\ s' = s /\ wait_of (m_schedule (cs s)) c = None) \/
  exists A (w : waiting A) (k : A -> prog F Hp) a S,
    suspended_in (cs s) c w k /\ resume_enter stack_size (m_schedule (cs s)) c = EnterRun S (CtxWait w k) /\
    resume_op w (mkSt (set_schedule S (cs s)) (heap s) (world s)) = inl (a, s') /\ q = InCo (k a) back.
Proof.
  intros Hs Hb (S & s0 & [= <- <-] & Hr)%bind_inl.
  destruct (resume_enter stack_size (m_schedule (cs s)) c) as [| |S' k] eqn:He; [done| |].
  - left. injection Hr as <- <-. split_and!; [done..|]. unfold resume_enter in He.
    unfold wait_of. repeat case_match; try done.
  - right. destruct (enter_spec _ _ _ _ _ Hs He)
      as (i & co & co' & stk & -> & _ & Hi & _ & _ & _ & _ & _ & _ & Hor).
    destruct (Hb _ _ Hi) as [Hready Hsusp].
    destruct Hor as [[? _]|(Hco & Hctx & _)]; [done|].
    destruct (Hsusp Hco) as [o Ho]. rewrite Hctx in Ho.
    destruct k as [ud f|A w k]; [done|].
    apply bind_inl in Hr as (? & s1 & [= _ <-] & Hr). apply bind_inl in Hr as (a & s2 & Ha & Hr).
    injection Hr as <- <-. exists A, w, k, a, S'. split_and!; [|done|exact Ha|done].
    split; [lia|]. exists co. by rewrite Nat2Z.id.
Qed.

(** The coroutine that starts at [l]. *)
Definition starts (l : loc F) (a : CoSocket (ctx F Hp) F) (f : F) : Prop :=
  match l with
  | AtMain fs => head fs = Some f
  | AtNew i => m_coFuncList a !! i = Some f
  | _ => False
  end.

Lemma new_coroutine_inl ud f l back (s s' : st W F Hp) q :
  inv_at stack_size true l (cs s) -> resumed back = resumed l -> in_timeouts back = in_timeouts l ->
  new_coroutine stack_size body ud f back s = inl (q, s') -> q = InCo (body f) back.
Proof.
  intros Hinv Hr Ht Hn. pose proof (safe_new_coroutine stack_size body ud f l back s Hinv Hr Ht) as Hs.
  unfold safe in Hs. rewrite Hn in Hs. by destruct Hs.
Qed.

Lemma watcher_inl fd (s s1 : st W F Hp) (x : FdWatcher) :
  watcher fd s = inl (x, s1) ->
  m_schedule (cs s1) = m_schedule (cs s) /\ world s1 = world s /\
  m_handlingTimeout (cs s1) = m_handlingTimeout (cs s) /\
  (m_coIdMap (cs s) !! fd = Some x \/ x = FdWatcher_init).
Proof.
  intros (m & s0 & [= <- <-] & Hw)%bind_inl.
  destruct (m_coIdMap (cs s) !! fd) as [y|] eqn:E.
  - injection Hw as <- <-. eauto.
  - apply bind_inl in Hw as (? & s2 & [= _ <-] & [= <- <-]). eauto.
Qed.

(** [p] is the rest of a coroutine that the loop has woken at [l], with the result of its call. *)
Definition woken (l : loc F) (s : st W F Hp) (p : prog F Hp) : Prop :=
  exists c A (w : waiting A) k,
    suspended_in (cs s) c w k /\ cause l (cs s) c (waiting_info w) /\
    p = k (if in_timeouts l then timed_out w else retried w (world s)).

Lemma woken_resume l (s s0 s' : st W F Hp) c o back p back' :
  inv_at stack_size true l (cs s) ->
  m_schedule (cs s0) = m_schedule (cs s) -> world s0 = world s ->
  m_handlingTimeout (cs s0) = m_handlingTimeout (cs s) ->
  wait_of (m_schedule (cs s)) c = Some o -> cause l (cs s) c o ->
  resume stack_size body c back' s0 = inl (InCo p back, s') -> woken l s p.
Proof.
  intros [Hs Hb _ _ Hh _] Es Ew Eh Ho Hcause Hr. apply resume_inl in Hr; rewrite ?Es; try done.
  destruct Hr as [[? _]|(A & w & k & a & S & Hsus & _ & Ha & Eq)]; [done|].
  injection Eq as -> _. unfold suspended_in in Hsus. rewrite Es in Hsus.
  exists c, A, w, k. split; [done|].
  destruct Hsus as (H0 & co & Hco & Hst & Hctx). split.
  - unfold wait_of in Ho. rewrite (proj2 (Z.leb_le 0 c) H0), Hco, Hst, Hctx in Ho.
    simpl in Ho. by injection Ho as <-.
  - rewrite (resume_op_result _ _ _ _ Ha). simpl. by rewrite Eh, Hh, Ew.
Qed.

(** Either half of [EventHandler] resumes a coroutine registered for that direction. *)
Lemma woken_event l (s s1 s' : st W F Hp) fd (x : FdWatcher) ev p back back' :
  inv_at stack_size true l (cs s) -> direction ev -> side ev x <> -1 ->
  watcher fd s = inl (x, s1) ->
  (forall t, cause l (cs s) (side ev x) (IoInfo fd ev (side ev x) t)) ->
  resume stack_size body (side ev x) back' s1 = inl (InCo p back, s') -> woken l s p.
Proof.
  intros Hinv Hev Hne (Es & Ew & Eh & Hx)%watcher_inl Hcause Hr.
  destruct Hx as [Hx| ->]; [|by rewrite side_init in Hne].
  destruct (c_watch _ _ _ (i_core _ _ _ _ Hinv) fd x ev Hev Hx) as [?|[t Ht]]; [done|].
  by eapply (woken_resume l s s1).
Qed.

Lemma woken_timeout now (s s' : st W F Hp) p back back' :
  inv_at stack_size true (AtTimeout now) (cs s) -> GetExpired (cs_timeouts (cs s)) now <> -1 ->
  resume stack_size body (GetExpired (cs_timeouts (cs s)) now) back' s = inl (InCo p back, s') ->
  woken (AtTimeout now) s p.
Proof.
  intros Hinv Hne Hr. pose proof (i_core _ _ _ _ Hinv) as Hc.
  destruct (GetExpired_some _ _ _ (c_timeouts _ _ _ Hc) Hne eq_refl) as (e & He & Hgt & _).
  assert (GetExpired (cs_timeouts (cs s)) now ∈ pending (cs_timeouts (cs s))) as Hpe.
  { apply elem_of_dom. eauto. }
  apply (c_pending _ _ _ Hc) in Hpe as (fd & ev & t & Hwo & Ht).
  eapply (woken_resume _ s s); try done. simpl. do 4 eexists. split_and!; done.
Qed.

Lemma woken_condition i c (s s' : st W F Hp) p back back' :
  inv_at stack_size true (AtWait i) (cs s) -> m_waitResumeList (cs s) !! i = Some c ->
  resume stack_size body c back' s = inl (InCo p back, s') -> woken (AtWait i) s p.
Proof.
  intros Hinv Ec Hr. pose proof (i_core _ _ _ _ Hinv) as Hc. simpl in Hc.
  unfold rest_of in Hc. rewrite (drop_S _ _ _ Ec) in Hc.
  destruct (core_wake _ _ _ _ Hc) as [[c0 Hwo] _].
  eapply (woken_resume _ s s); try done. simpl. eauto.
Qed.

(** C5.  A coroutine runs only for a reason: it is new; or the descriptor it waits for was reported
    ready (or in error) in the direction it waits for; or its deadline has passed; or its condition
    was notified.  The blocked call returns -ETIME when the reason is the deadline, and what the
    retried system call returns otherwise. *)
Theorem woken_for_cause junk fs h w0 l (s : st W F Hp) p back s' :
  length junk = stack_size -> steps stack_size body (initial junk fs h w0) (Main l, s) ->
  step stack_size body (Main l, s) = inl (InCo p back, s') ->
  (exists f, starts l (cs s) f /\ p = body f) \/ woken l s p.
Proof.
  intros Hj Hsteps Hstep.
  pose proof (steps_inv _ _ Hsteps (loop_initial_inv junk fs h w0 Hj)) as Hinv. unfold inv in Hinv.
  simpl in Hinv. unfold step, step_pc in Hstep. simpl in Hstep.
  destruct l as [[|f fs']|i|i| |[|[fd ev] evs] n|fd ev evs n|now]; simpl in Hstep.
  - done.
  - left. exists f. split; [done|].
    apply (new_coroutine_inl _ _ (AtMain (f :: fs'))) in Hstep; [|done..]. by injection Hstep.
  - apply bind_inl in Hstep as (? & s1 & [= <- <-] & Hstep).
    destruct (m_coFuncList (cs s) !! i) as [f|] eqn:Ef.
    + left. exists f. split; [done|].
      apply (new_coroutine_inl _ _ (AtNew i)) in Hstep; [|done..]. by injection Hstep.
    + by apply bind_inl in Hstep as (? & s2 & _ & [=]).
  - apply bind_inl in Hstep as (? & s1 & [= <- <-] & Hstep).
    destruct (m_waitResumeList (cs s) !! i) as [c|] eqn:Ec; [right; by eapply woken_condition|].
    by apply bind_inl in Hstep as (? & s2 & _ & [=]).
  - repeat (apply bind_inl in Hstep as (? & ? & _ & Hstep)). by case_match.
  - by repeat (apply bind_inl in Hstep as (? & ? & _ & Hstep)).
  - right. apply bind_inl in Hstep as (x & s1 & Hx & Hstep).
    destruct (negb _ && negb _); [done|]. destruct (_ && HasReadCoroutine x) eqn:E; [|done].
    apply andb_true_iff in E as [Ee E]. unfold HasReadCoroutine in E. breflect.
    eapply (woken_event _ s s1 s' fd x EPOLLIN); try done; [by left|]. simpl. eauto.
  - right. apply bind_inl in Hstep as (x & s1 & Hx & Hstep).
    destruct (_ && HasWriteCoroutine x) eqn:E; [|done].
    apply andb_true_iff in E as [Ee E]. unfold HasWriteCoroutine in E. breflect.
    eapply (woken_event _ s s1 s' fd x EPOLLOUT); try done; [by right|]. simpl. eauto.
  - right. apply bind_inl in Hstep as (ts & s1 & [= <- <-] & Hstep).
    destruct (GetExpired _ _ =? -1) eqn:E; breflect; [|by eapply woken_timeout].
    by apply bind_inl in Hstep as (? & s2 & _ & [=]).
Qed.

(** ** No cause is ignored *)

(** The coroutine that [Run] must resume next at [l]: the one registered for the direction that was
    reported, the owner of the earliest deadline if it has passed, the next one that was notified. *)
Definition due (l : loc F) (a : CoSocket (ctx F Hp) F) (c : Z) : Prop :=
  match l with
  | AtEvents ((fd, ev) :: _) _ =>
      exists fw : FdWatcher, m_coIdMap a !! fd = Some fw /\ side EPOLLIN fw = c /\ c <> -1 /\
        (is_error ev || has_bit ev EPOLLIN) = true
  | AtWrite fd ev _ _ =>
      exists fw : FdWatcher, m_coIdMap a !! fd = Some fw /\ side EPOLLOUT fw = c /\ c <> -1 /\
        (is_error ev || has_bit ev EPOLLOUT) = true
  | AtTimeout now => GetExpired (cs_timeouts a) now = c /\ c <> -1
  | AtWait i => m_waitResumeList a !! i = Some c
  | _ => False
  end.

(** The control point after it. *)
Definition after (l : loc F) : loc F :=
  match l with
  | AtEvents ((fd, ev) :: evs) n => AtWrite fd ev evs n
  | AtWrite _ _ evs n => AtEvents evs n
  | AtWait i => AtWait (S i)
  | _ => l
  end.

(** What [c] waits for when it is due, and what is left of the resume list after it. *)
Lemma due_waits l a c :
  inv_at stack_size true l a -> due l a c -> exists o, wait_of (m_schedule a) c = Some o /\
    (resumed (after l) <= length (m_waitResumeList a))%nat /\
    match o with
    | IoInfo _ _ _ _ => rest_of (resumed l) a = rest_of (resumed (after l)) a
    | CondInfo _ => rest_of (resumed l) a = c :: rest_of (resumed (after l)) a
    end.
Proof.
  intros Hinv Hd. pose proof (i_core _ _ _ _ Hinv) as Hc.
  destruct l as [fs|i|i| |[|[fd ev] evs] n|fd ev evs n|now]; simpl in Hd; try done.
  - simpl in Hc. unfold rest_of in Hc. rewrite (drop_S _ _ _ Hd) in Hc.
    destruct (core_wake _ _ _ _ Hc) as [[c0 Hwo] _]. eexists. split_and!; [exact Hwo| |by apply drop_S].
    simpl. apply lookup_lt_Some in Hd. lia.
  - destruct Hd as (x & Hx & <- & Hne & _).
    destruct (c_watch _ _ _ Hc fd x EPOLLIN (or_introl eq_refl) Hx) as [?|[t Ht]]; [done|].
    eexists. split_and!; [exact Ht|simpl; lia|done].
  - destruct Hd as (x & Hx & <- & Hne & _).
    destruct (c_watch _ _ _ Hc fd x EPOLLOUT (or_intror eq_refl) Hx) as [?|[t Ht]]; [done|].
    eexists. split_and!; [exact Ht|simpl; lia|done].
  - destruct Hd as [Hg Hne].
    destruct (GetExpired_some _ _ _ (c_timeouts _ _ _ Hc) Hne Hg) as (e & He & _).
    assert (c ∈ pending (cs_timeouts a)) as (fd & ev & t & Hwo & _)%(c_pending _ _ _ Hc)
      by (apply elem_of_dom; eauto).
    eexists. split_and!; [exact Hwo|simpl; lia|done].
Qed.

(** The step of [Run] is to resume it. *)
Lemma due_step l (s : st W F Hp) c :
  due l (cs s) c -> step_main stack_size body l s = resume stack_size body c (after l) s.
Proof.
  intros Hd. destruct l as [fs|i|i| |[|[fd ev] evs] n|fd ev evs n|now]; simpl in Hd; try done.
  - simpl. unfold mbind at 1, act_bind at 1. simpl. by rewrite Hd.
  - destruct Hd as (x & Hx & <- & Hne & He). simpl. unfold EventHandler_read, watcher, mbind, act_bind.
    simpl. rewrite Hx. simpl. unfold HasReadCoroutine.
    change (m_readCoId x <> -1) in Hne. rewrite (proj2 (Z.eqb_neq _ _) Hne), He. done.
  - destruct Hd as (x & Hx & <- & Hne & He). simpl. unfold EventHandler_write, watcher, mbind, act_bind.
    simpl. rewrite Hx. simpl. unfold HasWriteCoroutine.
    change (m_writeCoId x <> -1) in Hne. rewrite (proj2 (Z.eqb_neq _ _) Hne), He. done.
  - destruct Hd as [Hg Hne]. simpl. unfold mbind at 1, act_bind at 1. simpl.
    by rewrite Hg, (proj2 (Z.eqb_neq _ _) Hne).
Qed.

(** C6.  A reason to run is never passed over: in every reachable state in which a coroutine is due
    (its descriptor was reported in its direction, or in error; its deadline is the earliest and has
    passed; it was notified and is next) the next step of [Run] resumes it in the call that blocked
    it, with the result that belongs to the reason, and it is no longer registered as waiting; unless
    the step ends the process. *)
Theorem cause_wakes junk fs h w0 l (s : st W F Hp) c :
  length junk = stack_size -> steps stack_size body (initial junk fs h w0) (Main l, s) ->
  due l (cs s) c ->
  exists A (w : waiting A) k, suspended_in (cs s) c w k /\
    match step stack_size body (Main l, s) with
    | inl (q, s') =>
        q = InCo (k (if in_timeouts l then timed_out w else retried w (world s))) (after l) /\
        wait_of (m_schedule (cs s')) c = None
    | inr e => allowed e
    end.
Proof.
  intros Hj Hsteps Hd.
  pose proof (steps_inv _ _ Hsteps (loop_initial_inv junk fs h w0 Hj)) as Hinv. unfold inv in Hinv. simpl in Hinv.
  destruct (due_waits _ _ _ Hinv Hd) as (o & Hwo & Hpos & Hpend).
  unfold step, step_pc. simpl. rewrite (due_step _ _ _ Hd).
  assert (in_timeouts (after l) = in_timeouts l) as Htm by (by destruct l as [| | | |[|[]]| |]).
  pose proof (safe_resume_entered stack_size body c o l (after l) s _ Hinv Hwo Htm eq_refl Hpos Hpend) as Hs.
  unfold safe in Hs.
  destruct (resume stack_size body c (after l) s) as [[q s']|e] eqn:Er.
  - destruct Hs as [_ Hn]. pose proof Hinv as [Hsw Hb _ _ Hh _].
    destruct (resume_inl _ _ _ _ _ Hsw Hb Er) as [(_ & _ & E)|(A & w & k & a & S & Hsus & _ & Ha & ->)];
      [by rewrite Hwo in E|].
    exists A, w, k. split_and!; [exact Hsus| |exact Hn]. rewrite (resume_op_result _ _ _ _ Ha). simpl.
    by rewrite Hh.
  - unfold wait_of in Hwo. destruct (0 <=? c) eqn:E0; [|done]. breflect.
    destruct (sch_co _ !! _) as [[co|]|] eqn:Eco; try done. case_decide as Hst; [|done].
    destruct (co_ctx co) as [[ud f|A w k]|] eqn:Ectx; try done.
    exists A, w, k. split; [|exact Hs]. split; [done|]. by exists co.
Qed.

(** ** Notifications *)

(** The coroutines waiting for a condition with the key of [cond] that were not notified yet. *)
Definition waits_for (back : loc F) (s : st W F Hp) (cond c : Z) : Prop :=
  (exists c0, wait_of (m_schedule (cs s)) c = Some (CondInfo c0) /\ to_int c0 = to_int cond) /\
  c ∉ rest_of (resumed back) (cs s).

Lemma notified_iff back (s : st W F Hp) cond c :
  inv_at stack_size false back (cs s) ->
  c ∈ default [] (m_conditionMap (cs s) !! to_int cond) <-> waits_for back s cond c.
Proof.
  intros [_ _ Hc _ _ _]. unfold waits_for. split.
  - intros Hin. destruct (m_conditionMap (cs s) !! to_int cond) as [l|] eqn:E; [|set_solver].
    simpl in Hin. destruct (c_cond _ _ _ Hc _ _ E) as [_ Hall]. destruct (Hall c Hin) as (c0 & Hwo & Ek).
    split; [eauto|]. intros Hrest. destruct (c_pend _ _ _ Hc c Hrest) as (c1 & Hwo' & Hni).
    rewrite Hwo in Hwo'. injection Hwo' as <-. apply Hni. by rewrite Ek, E.
  - intros [(c0 & Hwo & Ek) Hrest]. destruct (c_kept _ _ _ Hc _ _ Hwo) as [?|Hin]; [done|].
    by rewrite <- Ek.
Qed.

(** C8.  In every reachable state, [ConditionNotify] schedules exactly once each of the coroutines
    that wait for the condition and were not notified before, and no other: no notification is
    lost or repeated.  "The condition" means every condition with the same low 32 bits, because
    the keys of [m_conditionMap] are [int]s. *)
Theorem ConditionNotify_wakes junk fs h w p back (s s' : st W F Hp) cond r :
  length junk = stack_size ->
  steps stack_size body (initial junk fs h w) (InCo p back, s) ->
  start_op (ConditionNotify cond) s = inl (r, s') ->
  exists l, m_waitResumeList (cs s') = m_waitResumeList (cs s) ++ l /\ NoDup l /\
    (forall c, c ∈ l <-> waits_for back s cond c) /\
    (forall c, ~ waits_for back s' cond c).
Proof.
  intros Hj Hsteps Hop. pose proof (steps_inv _ _ Hsteps (loop_initial_inv junk fs h w Hj)) as Hinv.
  unfold inv in Hinv. simpl in Hinv. set (l := default [] (m_conditionMap (cs s) !! to_int cond)).
  assert (inv_at stack_size false back (cs s')) as Hinv'.
  { pose proof Hinv as [Hs0 _ Hc Hpos _ Hr].
    pose proof (safe_start_op (ConditionNotify cond) _ s (resumed back) Hc Hpos
      (running_waits_not stack_size _ Hs0) Hr) as Hs.
    unfold safe in Hs. rewrite Hop in Hs. destruct r as [r|r]; [by eapply inv_started|].
    cbv [start_op done] in Hop. by apply bind_inl in Hop as (? & ? & _ & [=]). }
  apply bind_inl in Hop as (? & s1 & Hop & [= _ <-]).
  apply bind_inl in Hop as (? & s2 & [= <- <-] & Hop).
  apply bind_inl in Hop as (? & s3 & [= _ <-] & [= _ <-]). exists l. split_and!.
  - done.
  - unfold l. destruct (m_conditionMap (cs s) !! to_int cond) as [l0|] eqn:E; [|apply NoDup_nil_2].
    by apply oset_nodup, (c_cond _ _ _ (i_core _ _ _ _ Hinv) _ _ E).
  - intros c. by apply notified_iff.
  - intros c Hc. apply (notified_iff back _ cond c Hinv') in Hc. revert Hc. simpl.
    rewrite lookup_insert_eq. set_solver.
Qed.
End Reachable.
