(* ===== verification/LoopFrame.v ===== *)
(** * What the calls of the event loop leave alone

    The statements of the four blocking calls only make system calls and change the deadlines and
    the registrations.  A relation between states that allows these ([IoFrame]) is therefore
    respected by every call on a descriptor; each invariant of the loop picks its own relation. *)

From S2P Require Import Prelude OrdMap Coroutine Timestamp TimeoutSet Os Epoller CoSocket EventLoop LoopProps.

Open Scope Z_scope.

Section Frame.
Context {W F Hp : Type}.
#[local] Abbreviation st := (st W F Hp).
#[local] Abbreviation act := (act W F Hp).
Implicit Types (s : st) (R : st -> st -> Prop).

(** Every run of [m] relates its first state to its last. *)
Definition respects R {A} (m : act A) : Prop := forall s a s', m s = inl (a, s') -> R s s'.

Context R `{!PreOrder R}.

Lemma respects_ret {A} (a : A) : respects R (mret a).
Proof. by intros s b s' [= _ <-]. Qed.

Lemma respects_bind {A B} (m : act A) (f : A -> act B) :
  respects R m -> (forall a, respects R (f a)) -> respects R (m ≫= f).
Proof. intros Hm Hf s b s' (a & s1 & H1 & H2)%bind_inl. etransitivity; [by eapply Hm|by eapply Hf]. Qed.

Lemma respects_gets {A} (f : _ -> A) : respects R (gets f).
Proof. by intros s b s' [= _ <-]. Qed.
Lemma respects_halt {A} e : respects R (halt (A := A) e).
Proof. by intros s b s' [=]. Qed.

Lemma respects_upd f :
  (forall s, R s (mkSt (f (cs s)) (heap s) (world s))) -> respects R (upd f).
Proof. intros Hf s b s' [= _ <-]. apply Hf. Qed.

Lemma respects_heap {A} (op : Hp -> A * Hp) :
  (forall s, R s (mkSt (cs s) (op (heap s)).2 (world s))) -> respects R (on_heap op).
Proof. intros Hf s b s'. unfold on_heap. specialize (Hf s). destruct (op (heap s)). by intros [= _ <-]. Qed.

Lemma respects_world {A} (f : W -> A * W) :
  (forall s, R s (mkSt (cs s) (heap s) (f (world s)).2)) -> respects R (on_world f).
Proof. intros Hf s b s'. unfold on_world. specialize (Hf s). destruct (f (world s)). by intros [= _ <-]. Qed.

End Frame.

Section IoFrame.
Context {W F Hp : Type} `{OS W}.
#[local] Abbreviation st := (st W F Hp).
Implicit Types (s : st) (R : st -> st -> Prop).

Class IoFrame R := {
  #[global] frame_preorder :: PreOrder R;
  frame_sys A (e : sysE A) s : R s (mkSt (cs s) (heap s) (os_call e (world s)).2);
  frame_coIdMap m s : R s (mkSt (set_coIdMap m (cs s)) (heap s) (world s));
  frame_guard_begin c t : respects R (guard_begin c t);
  frame_guard_end c t : respects R (guard_end c t)
}.

Context R `{!IoFrame R}.

Lemma respects_sys {A} (e : sysE A) : respects R (sys e).
Proof. apply respects_world, frame_sys. Qed.

Lemma respects_Update fd ev : respects R (on_world (Update fd ev)).
Proof.
  assert (forall op s, R s (mkSt (cs s) (heap s) (EpollCtl op fd ev (world s)).2)) as Hctl.
  { intros op s. unfold EpollCtl. pose proof (frame_sys _ (sys_epoll_ctl op fd ev) s) as Hs.
    by destruct (os_call _ (world s)) as [[] w']. }
  apply respects_world. intros s. unfold Update. set (op := if ev =? 0 then _ else _).
  pose proof (Hctl op s) as H1. destruct (EpollCtl op fd ev (world s)) as [r w1].
  pose proof (Hctl EPOLL_CTL_MOD (mkSt (cs s) (heap s) w1)) as H2. cbn [world cs heap] in H2.
  destruct (EpollCtl EPOLL_CTL_MOD fd ev w1) as [r2 w2]. simpl in *.
  repeat case_match; simpl; try done. by etransitivity.
Qed.
End IoFrame.

(** Proves [respects] for compositions of the statements above. *)
Ltac respects_step :=
  lazymatch goal with
  | |- respects ?R (mret _) => apply (respects_ret R)
  | |- respects ?R (_ ≫= _) => apply (respects_bind R); [|intros ?]
  | |- respects ?R (gets _) => apply (respects_gets R)
  | |- respects ?R (halt _) => apply (respects_halt R)
  | |- respects ?R (upd _) => apply (respects_upd R); intros ?; apply frame_coIdMap
  | |- respects ?R (on_world (Update _ _)) => apply (respects_Update R)
  | |- respects ?R (sys _) => apply (respects_sys R)
  | |- respects ?R (guard_begin _ _) => apply frame_guard_begin
  | |- respects ?R (guard_end _ _) => apply frame_guard_end
  | |- respects _ (if ?b then _ else _) => destruct b
  | |- respects _ (match ?x with _ => _ end) => destruct x
  | |- respects _ (let _ := _ in _) => cbv zeta
  | |- respects _ ?m => let h := head_of m in unfold h
  end.

Section Calls.
Context {W F Hp : Type} `{OS W} (R : st W F Hp -> st W F Hp -> Prop) `{!IoFrame R}.

Lemma respects_DeleteEvent fd ev : respects R (DeleteEvent fd ev).
Proof. repeat respects_step. Qed.

Lemma respects_AddEvent fd ev : respects R (AddEvent fd ev).
Proof. repeat respects_step. Qed.

Lemma respects_unblock {A} fd ev c t (tmo : A) retry :
  respects R retry -> respects R (unblock fd ev c t tmo retry).
Proof.
  intros Hr. unfold unblock. repeat first [exact Hr | apply respects_DeleteEvent | respects_step].
Qed.

Lemma respects_block {A} fd ev t (frame : Z -> waiting A) finish :
  (forall c, respects R (finish c)) -> respects R (block fd ev t frame finish).
Proof.
  intros Hf. unfold block. repeat first [apply Hf | apply respects_AddEvent | respects_step].
Qed.

Lemma respects_resume_op {A} (w : waiting A) : respects R (resume_op w).
Proof. destruct w; simpl; try apply respects_unblock; repeat respects_step. Qed.

(** The calls that do not touch the conditions, the new coroutines or the heap. *)
Definition on_descriptor {A} (e : apiE F Hp A) : bool :=
  match e with
  | Connect _ _ _ | Accept _ _ | Read _ _ _ | Write _ _ _ _ | Sys _ => true
  | _ => false
  end.

Lemma respects_start_op {A} (e : apiE F Hp A) :
  (on_descriptor e = false -> respects R (start_op e)) -> respects R (start_op e).
Proof.
  intros He. destruct e; try by apply He.
  all: clear He; simpl; unfold Connect_start, Accept_start, Read_start, Write_start;
    repeat first [apply respects_block; intros ?; apply respects_unblock | respects_step].
Qed.
End Calls.
