(* ===== verification/LoopInterest.v ===== *)
(** * What epoll is asked to watch

    The interest list of epoll and the registrations of [m_coIdMap] say the same at every point of a
    run where control is between two calls, as long as no coroutine calls epoll itself or closes a
    descriptor that is registered.  With [LoopProps.cause_wakes] this is the way from a ready
    descriptor to the coroutine that waits for it. *)

From S2P Require Import Prelude OrdMap Coroutine Timestamp TimeoutSet Os Epoller CoSocket EventLoop LoopSafe LoopProps LoopFrame.
From ITree Require Import ITree.

Open Scope Z_scope.

(** ** The interest list, for every outcome of a call *)

Definition leaves_interest {A} (e : sysE A) : bool :=
  match e with sys_epoll_ctl _ _ _ | sys_close _ => false | _ => true end.

(** What the calls do to the list.  Closing a descriptor takes it off the list only if no other
    descriptor (a duplicate, or one of a forked process) refers to the same open file. *)
Class InterestLaws (W : Type) `{EpollLaws W} := {
  ctl_done op fd ev w w' : os_call (sys_epoll_ctl op fd ev) w = (Succ tt, w') ->
    interest w' = match op with EPOLL_CTL_DEL => delete fd (interest w) | _ => <[fd := ev]> (interest w) end;
  ctl_failed op fd ev e w w' : os_call (sys_epoll_ctl op fd ev) w = (Errno e, w') ->
    0 < e /\ interest w' = interest w /\ (op = EPOLL_CTL_DEL -> e = ENOENT -> interest w !! fd = None);
  close_interest fd w : let n := interest (os_call (sys_close fd) w).2 in
    n = delete fd (interest w) \/ n = interest w;
  call_keeps A (e : sysE A) w : leaves_interest e = true -> interest (os_call e w).2 = interest w
}.

(** An [Update] that reports no error has set the events of its descriptor. *)
Lemma Update_done {W} `{InterestLaws W} fd ev (w w' : W) :
  Update fd ev w = (0, w') -> interest w' = set_interest fd ev (interest w).
Proof.
  unfold Update, EpollCtl, set_interest. set (op := if ev =? 0 then EPOLL_CTL_DEL else EPOLL_CTL_ADD).
  destruct (os_call (sys_epoll_ctl op fd ev) w) as [[[]|e] w1] eqn:E1.
  - apply ctl_done in E1. simpl. intros [= <-]. rewrite E1. unfold op. by destruct (ev =? 0).
  - apply ctl_failed in E1 as (He & E1 & Hn). unfold op in *. destruct (ev =? 0); simpl.
    + destruct (e =? ENOENT) eqn:Ee; rewrite ?andb_false_r; simpl; breflect;
        intros ?; simplify_eq; [|lia].
      by rewrite E1, delete_id by by apply Hn.
    + rewrite andb_false_r. destruct (e =? EEXIST) eqn:Ee; simpl; [|intros ?; simplify_eq; lia].
      destruct (os_call (sys_epoll_ctl EPOLL_CTL_MOD fd ev) w1) as [[[]|e2] w2] eqn:E2; intros ?; simplify_eq.
      * apply ctl_done in E2. by rewrite E2, E1.
      * apply ctl_failed in E2 as (He2 & _). lia.
Qed.

Section Interest.
Context {W F Hp : Type} `{InterestLaws W} (stack_size : nat) (body : F -> prog F Hp).
#[local] Abbreviation st := (st W F Hp).
#[local] Abbreviation sys_state := (pc F Hp * st)%type.
Implicit Types (s : st).

(** ** The two views agree *)

(** The events [GetEvents] asks for, and the entry of the interest list they make. *)
Definition watched (x : FdWatcher) : Z :=
  Z.lor (if HasReadCoroutine x then EPOLLIN else 0) (if HasWriteCoroutine x then EPOLLOUT else 0).
Definition entry (ev : Z) : option Z := if ev =? 0 then None else Some ev.
Definition polled (o : option FdWatcher) : option Z := entry (default 0 (watched <$> o)).

Definition agree (m : gmap Z FdWatcher) (n : gmap Z Z) : Prop := forall fd, n !! fd = polled (m !! fd).
Definition in_step s : Prop := agree (m_coIdMap (cs s)) (interest (world s)).

Definition keeps_step s s' : Prop := in_step s -> in_step s'.
#[local] Instance keeps_preorder : PreOrder keeps_step.
Proof. split; unfold keeps_step; auto. Qed.

Lemma agree_new m n fd : m !! fd = None -> agree m n -> agree (<[fd := FdWatcher_init]> m) n.
Proof.
  intros Hm Ha fd'. destruct (decide (fd' = fd)) as [->|Hne].
  - by rewrite lookup_insert_eq, Ha, Hm.
  - by rewrite lookup_insert_ne.
Qed.

Lemma agree_set m n fd x :
  agree m n -> agree (<[fd := x]> m) (set_interest fd (watched x) n).
Proof.
  intros Ha fd'. unfold set_interest. destruct (decide (fd' = fd)) as [->|Hne].
  - rewrite lookup_insert_eq. unfold polled, entry. simpl.
    destruct (watched x =? 0); [apply lookup_delete_eq|apply lookup_insert_eq].
  - rewrite lookup_insert_ne by done. rewrite <- Ha.
    destruct (watched x =? 0); [by rewrite lookup_delete_ne|by rewrite lookup_insert_ne].
Qed.

(** ** The statements that change both *)

Lemma watcher_step fd s x s1 :
  watcher fd s = inl (x, s1) -> in_step s ->
  m_coIdMap (cs s1) !! fd = Some x /\ world s1 = world s /\ in_step s1.
Proof.
  intros (m & s0 & [= <- <-] & Hw)%bind_inl Hs. destruct (m_coIdMap (cs s) !! fd) as [y|] eqn:E.
  - by injection Hw as <- <-.
  - apply bind_inl in Hw as (? & s2 & [= _ <-] & [= <- <-]). split_and!; [apply lookup_insert_eq|done|].
    by apply agree_new.
Qed.

Lemma Save_step fd ev s b s1 :
  direction ev -> SaveToCoIdMap fd ev s = inl (b, s1) -> in_step s ->
  world s1 = world s /\
  if b : bool then exists x m, m_coIdMap (cs s1) = <[fd := x]> m /\ agree m (interest (world s)) else in_step s1.
Proof.
  intros Hev (c & s2 & [= <- <-] & Hb)%bind_inl Hs.
  apply bind_inl in Hb as (x & s3 & Hx & Hb). destruct (watcher_step _ _ _ _ Hx Hs) as (Hl & Hw & Hs3).
  destruct Hev as [-> | ->].
  - change (has_bit EPOLLIN EPOLLIN) with true in Hb. change (has_bit EPOLLIN EPOLLOUT) with false in Hb.
    unfold watcher, mbind, act_bind in Hb. destruct (HasReadCoroutine x); simpl in Hb;
      [by injection Hb as <- <-|].
    rewrite lookup_insert_eq in Hb. injection Hb as <- <-. split; [done|].
    simpl. eexists _, _. split; [done|]. by rewrite <- Hw.
  - change (has_bit EPOLLOUT EPOLLIN) with false in Hb. change (has_bit EPOLLOUT EPOLLOUT) with true in Hb.
    unfold watcher, mbind, act_bind, mret, act_ret in Hb. simpl in Hb. rewrite Hl in Hb.
    destruct (HasWriteCoroutine x); simpl in Hb; [by injection Hb as <- <-|].
    injection Hb as <- <-. split; [done|].
    simpl. eexists _, _. split; [done|]. by rewrite <- Hw.
Qed.

Lemma GetEvents_eq fd x s :
  m_coIdMap (cs s) !! fd = Some x -> GetEvents fd s = inl (watched x, s).
Proof. intros Hx. unfold GetEvents, watcher, mbind, act_bind. simpl. by rewrite Hx. Qed.

Lemma Update_step fd ev s :
  match (on_world (Update fd ev) s : Z * st + stop) with
  | inl (ret, s1) => cs s1 = cs s /\
      (ret = 0 -> interest (world s1) = set_interest fd ev (interest (world s)))
  | inr _ => True
  end.
Proof.
  unfold on_world. destruct (Update fd ev (world s)) as [r w'] eqn:E. split; [done|].
  intros ->. by apply Update_done in E.
Qed.

Lemma AddEvent_step fd ev : direction ev -> respects keeps_step (AddEvent fd ev).
Proof.
  intros Hev s b s' (saved & s1 & Hsave & Hb)%bind_inl Hs.
  apply (Save_step _ _ _ _ _ Hev) in Hsave as [Hw Hsave]; [|done].
  destruct saved; simpl in Hb; [|by injection Hb as <- <-].
  destruct Hsave as (x & m & Hm & Ha).
  assert (m_coIdMap (cs s1) !! fd = Some x) as Hx by (rewrite Hm; apply lookup_insert_eq).
  unfold mbind at 1, act_bind at 1 in Hb. rewrite (GetEvents_eq _ _ _ Hx) in Hb.
  apply bind_inl in Hb as (ret & s2 & Hu & Hb). pose proof (Update_step fd (watched x) s1) as Hu2.
  rewrite Hu in Hu2. destruct Hu2 as [Hcs Hi].
  destruct (ret =? 0) eqn:Er; simpl in Hb; [|done]. breflect. injection Hb as _ <-.
  unfold in_step. rewrite Hcs, Hm, Hi, Hw by done. by apply agree_set.
Qed.

Definition reset_side (ev : Z) (x : FdWatcher) : FdWatcher :=
  if ev =? EPOLLIN then ResetReadCoId x else ResetWriteCoId x.

Lemma watched_reset ev x : direction ev -> watched (reset_side ev x) = Z.ldiff (watched x) ev.
Proof.
  intros [-> | ->]; unfold watched, reset_side, HasReadCoroutine, HasWriteCoroutine; simpl;
    by destruct (m_readCoId x =? -1), (m_writeCoId x =? -1).
Qed.

Lemma Reset_eq fd ev x s :
  direction ev -> m_coIdMap (cs s) !! fd = Some x ->
  ResetInCoIdMap fd ev s =
    inl (tt, mkSt (set_coIdMap (<[fd := reset_side ev x]> (m_coIdMap (cs s))) (cs s)) (heap s) (world s)).
Proof.
  intros Hev Hx. unfold ResetInCoIdMap, watcher, mbind, act_bind, mret, act_ret.
  destruct Hev as [-> | ->].
  - change (has_bit EPOLLIN EPOLLIN) with true. change (has_bit EPOLLIN EPOLLOUT) with false. simpl.
    by rewrite Hx.
  - change (has_bit EPOLLOUT EPOLLIN) with false. change (has_bit EPOLLOUT EPOLLOUT) with true. simpl.
    by rewrite Hx.
Qed.

Lemma DeleteEvent_step fd ev : direction ev -> respects keeps_step (DeleteEvent fd ev).
Proof.
  intros Hev s b s' (old & s1 & Hg & Hb)%bind_inl Hs.
  apply bind_inl in Hg as (x & s0 & Hx & Hg). destruct (watcher_step _ _ _ _ Hx Hs) as (Hl & _ & Hs1).
  injection Hg as <- <-. fold (watched x) in Hb. cbv zeta in Hb.
  apply bind_inl in Hb as (ret & s2 & Hu & Hb). pose proof (Update_step fd (Z.ldiff (watched x) ev) s0) as Hu2.
  rewrite Hu in Hu2. destruct Hu2 as [Hcs Hi].
  destruct (ret =? 0) eqn:Er; simpl in Hb; [|done]. breflect.
  rewrite (Reset_eq _ _ x) in Hb by (done || by rewrite Hcs). injection Hb as _ <-.
  unfold in_step. simpl. rewrite Hcs, Hi, <- watched_reset by done. by apply agree_set.
Qed.

(** ** The rest of the loop *)

Lemma sys_step {A} (e : sysE A) : leaves_interest e = true -> respects keeps_step (sys e).
Proof.
  intros He. apply respects_world. intros s Hs. unfold in_step in *. simpl. by rewrite call_keeps.
Qed.

Lemma upd_step f : (forall a, m_coIdMap (f a) = m_coIdMap a) -> respects keeps_step (upd f).
Proof. intros Hf. apply respects_upd. intros s Hs. unfold in_step in *. simpl. by rewrite Hf. Qed.

Lemma heap_step {A} (op : Hp -> A * Hp) : respects keeps_step (on_heap op).
Proof. apply respects_heap. by intros s Hs. Qed.

Lemma watcher_respects fd : respects keeps_step (watcher fd).
Proof. intros s x s1 Hx Hs. by apply (watcher_step _ _ _ _ Hx Hs). Qed.
End Interest.

Ltac step_step :=
  lazymatch goal with
  | |- respects _ (mret _) => apply respects_ret; exact _
  | |- respects _ (_ ≫= _) => apply respects_bind; [exact _| |intros ?]
  | |- respects _ (gets _) => apply respects_gets; exact _
  | |- respects _ (halt _) => apply respects_halt; exact _
  | |- respects _ (upd _) => apply upd_step; intros ?; reflexivity
  | |- respects _ (sys _) => apply sys_step; reflexivity
  | |- respects _ (on_heap _) => apply heap_step
  | |- respects _ (watcher _) => apply watcher_respects
  | |- respects _ (AddEvent _ _) => apply AddEvent_step; first [by left|by right|done]
  | |- respects _ (DeleteEvent _ _) => apply DeleteEvent_step; first [by left|by right|done]
  | |- respects _ (if ?b then _ else _) => destruct b
  | |- respects _ (match ?x with _ => _ end) => destruct x
  | |- respects _ (let _ := _ in _) => cbv zeta
  | |- respects _ ?m => let h := head_of m in unfold h
  end.

Section Runs.
Context {W F Hp : Type} `{InterestLaws W} (stack_size : nat) (body : F -> prog F Hp).
#[local] Abbreviation st := (st W F Hp).
#[local] Abbreviation sys_state := (pc F Hp * st)%type.
Implicit Types (s : st) (x y : sys_state).
#[local] Existing Instance keeps_preorder.

(** The system calls of a coroutine that do not touch the interest list. *)
Definition harmless {A} (e : sysE A) (w : W) : bool :=
  match e with
  | sys_epoll_ctl _ _ _ => false
  | sys_close fd => bool_decide (interest w !! fd = None)
  | _ => true
  end.

(** The running coroutine is about to make another one. *)
Definition meddles x : bool :=
  match fst x with
  | InCo p _ =>
      match observe p with
      | VisF e _ => match e with Sys e => negb (harmless e (world (snd x))) | _ => false end
      | _ => false
      end
  | Main _ => false
  end.

Lemma guard_begin_step c t : respects keeps_step (guard_begin (W := W) (F := F) (Hp := Hp) c t).
Proof. repeat step_step. Qed.
Lemma guard_end_step c t : respects keeps_step (guard_end (W := W) (F := F) (Hp := Hp) c t).
Proof. repeat step_step. Qed.

Lemma unblock_step {A} fd ev c t (tmo : A) retry :
  direction ev -> respects keeps_step retry ->
  respects (keeps_step (F := F) (Hp := Hp)) (unblock fd ev c t tmo retry).
Proof. intros Hev Hr. unfold unblock. repeat first [exact Hr|apply guard_end_step|step_step]. Qed.

Lemma block_step {A} fd ev t (frame : Z -> waiting A) finish :
  direction ev -> (forall c, respects keeps_step (finish c)) ->
  respects (keeps_step (F := F) (Hp := Hp)) (block fd ev t frame finish).
Proof. intros Hev Hf. unfold block. repeat first [apply Hf|apply guard_begin_step|step_step]. Qed.

Ltac call_step :=
  first [ apply block_step; [by (left + right)|intros ?] | apply unblock_step; [by (left + right)|] | step_step ].

Lemma resume_op_step {A} (w : waiting A) : respects (keeps_step (F := F) (Hp := Hp)) (resume_op w).
Proof. destruct w; simpl; repeat call_step. Qed.

Definition is_sys {A} (e : apiE F Hp A) : bool := match e with Sys _ => true | _ => false end.

Lemma start_op_respects {A} (e : apiE F Hp A) : is_sys e = false -> respects keeps_step (start_op e).
Proof.
  intros He. destruct e; try done; simpl; unfold Connect_finish, Accept_finish, Read_finish, Write_finish;
    repeat call_step.
Qed.

Lemma Sys_step {A} (e : sysE A) s r s' :
  harmless e (world s) = true -> start_op (F := F) (Hp := Hp) (Sys e) s = inl (r, s') ->
  in_step s -> in_step s'.
Proof.
  intros He Hr Hs. apply bind_inl in Hr as (a & s1 & Hr & Hd).
  assert (s1 = s') as -> by (by injection Hd). unfold sys, on_world in Hr.
  destruct (os_call e (world s)) as [a' w'] eqn:E. injection Hr as _ <-. unfold in_step in *. simpl.
  assert (interest w' = interest (world s)) as ->; [|done].
  replace w' with (os_call e (world s)).2 by (by rewrite E).
  destruct e; try done; try by apply call_keeps.
  apply bool_decide_eq_true in He. destruct (close_interest fd (world s)) as [-> | ->]; [|done].
  by apply delete_id.
Qed.

Lemma respects_run {A} (m : act W F Hp A) s a s' :
  respects keeps_step m -> m s = inl (a, s') -> keeps_step s s'.
Proof. intros Hm. apply Hm. Qed.

Lemma resume_step c back : respects keeps_step (resume (W := W) stack_size body c back).
Proof. unfold resume. repeat first [apply resume_op_step|step_step]. Qed.

Lemma new_coroutine_step ud f back :
  respects keeps_step (new_coroutine (W := W) stack_size body ud f back).
Proof. unfold new_coroutine. repeat first [apply resume_step|step_step]. Qed.

Lemma yield_step (k : ctx F Hp) : respects keeps_step (yield (W := W) stack_size k).
Proof. unfold yield. repeat step_step. Qed.

Lemma epoll_wait_step n t : respects (keeps_step (F := F) (Hp := Hp)) (on_world (Poll_wait n t)).
Proof.
  apply respects_world. intros s Hs. unfold in_step in *. simpl.
  assert (interest (Poll_wait n t (world s)).2 = interest (world s)) as ->; [|done].
  rewrite <- (call_keeps _ (sys_epoll_wait n t) (world s)) by done. unfold Poll_wait.
  by destruct (os_call _ _) as [[] w'].
Qed.

Lemma step_main_step l : respects keeps_step (step_main (W := W) stack_size body l).
Proof.
  unfold step_main.
  repeat first [apply resume_step|apply new_coroutine_step|apply epoll_wait_step|step_step].
Qed.

(** One step of the system. *)
Lemma step_in_step x y :
  meddles x = false -> step stack_size body x = inl y -> in_step (snd x) -> in_step (snd y).
Proof.
  destruct x as [[l|p back] s], y as [q s']; unfold step, step_pc; simpl; intros Hm Hstep.
  - exact (step_main_step l _ _ _ Hstep).
  - unfold meddles in Hm. unfold step_co in Hstep. simpl in Hm.
    destruct (observe p) as [r|p'|A e k].
    + revert Hstep. by apply respects_run; repeat step_step.
    + by injection Hstep as _ <-.
    + apply bind_inl in Hstep as (r & s1 & Hop & Hstep). intros Hs.
      assert (in_step s1) as Hs1.
      { destruct (is_sys e) eqn:He; [|by apply (start_op_respects e He _ _ _ Hop)].
        destruct e; try done. eapply Sys_step; [|exact Hop|exact Hs]. by destruct (harmless _ _). }
      destruct r as [a|w]; [by injection Hstep as _ <-|].
      revert Hstep Hs1. apply respects_run. repeat first [apply yield_step|step_step].
Qed.

(** The runs in which no coroutine meddles. *)
Inductive tame : sys_state -> sys_state -> Prop :=
  | tame_refl x : tame x x
  | tame_step x y z : meddles x = false -> step stack_size body x = inl y -> tame y z -> tame x z.

(** C7.  Epoll watches what the coroutines wait for: whatever the kernel answers, at every control
    point of a run in which no coroutine calls epoll itself or closes a registered descriptor, the
    interest list has exactly the descriptors with a registered coroutine, each with [EPOLLIN] iff a
    reader is registered and [EPOLLOUT] iff a writer is.  So no readiness a coroutine is registered
    for can be missed, and no other is reported. *)
Theorem interest_in_step junk fs h w x fd :
  interest w = ∅ -> tame (initial junk fs h w) x ->
  interest (world (snd x)) !! fd = polled (m_coIdMap (cs (snd x)) !! fd).
Proof.
  intros Hw Ht. assert (in_step (snd x)) as Hx; [|apply Hx].
  assert (in_step (snd (initial (F := F) (Hp := Hp) junk fs h w))) as Hinit.
  { intros fd'. simpl. by rewrite Hw, !lookup_empty. }
  revert Hinit. induction Ht as [x|x y z Hm Hstep _ IH]; [done|]. intros Hs.
  by apply IH, (step_in_step x).
Qed.
End Runs.
