(* ===== verification/LoopTimeout.v ===== *)
(** * [RunTimeoutCo] comes to an end

    Each round of its loop resumes a coroutine whose deadline has passed, and that deadline is gone
    when the coroutine gives the control back; the deadlines set meanwhile are later than the
    instant the loop compares with, unless the clock has been set back.  So there are at most as
    many rounds as deadlines have passed when it starts, and one more for each reading of the clock
    that lies before that instant, whatever the coroutines do in between. *)

From S2P Require Import Prelude OrdMap Coroutine Timestamp TimeoutSet Os Epoller CoSocket EventLoop.
From S2P Require Import LoopSafe LoopInvariant LoopProps LoopFrame.
From ITree Require Import ITree.

Open Scope Z_scope.

(** Not earlier. *)
Definition ts_le (a b : timeval) : Prop := ts_lt b a = false.

(** A kernel whose worlds remember what [gettimeofday] has answered.  Nothing is assumed of the
    answers: the clock may be set back. *)
Class ClockLog (W : Type) `{OS W} := {
  readings : W -> list timeval;
  readings_clock w : readings (os_call sys_gettimeofday w).2 = readings w ++ [(os_call sys_gettimeofday w).1];
  readings_other A (e : sysE A) w : (match e with sys_gettimeofday => False | _ => True end) ->
    readings (os_call e w).2 = readings w
}.

(** Every kernel can be observed in this way. *)
Section Observed.
Context {W : Type} `{OS W}.

#[export] Instance logged_os : OS (W * list timeval) := fun A e x =>
  let '(a, w) := os_call e x.1 in
  (a, (w, x.2 ++ match e in sysE T return T -> list timeval with
                 | sys_gettimeofday => fun t => [t]
                 | _ => fun _ => []
                 end a)).

#[export] Program Instance logged_clock : ClockLog (W * list timeval) := {| readings := snd |}.
Next Obligation. intros [w l]. unfold os_call, logged_os. simpl. by destruct (os_call _ w). Qed.
Next Obligation.
  intros A e [w l] He. unfold os_call, logged_os. simpl.
  destruct e; try done; destruct (os_call _ w); simpl; by rewrite app_nil_r.
Qed.
End Observed.

(** The readings that lie before [now]. *)
Definition set_back (now : timeval) (rs : list timeval) : nat :=
  length (List.filter (fun t => ts_lt t now) rs).

Lemma set_back_app now a b : set_back now (a ++ b) = (set_back now a + set_back now b)%nat.
Proof. unfold set_back. by rewrite List.filter_app, length_app. Qed.

Lemma AddMillisecond_later now t ms : ts_le now t -> 0 < ms -> ts_gt (AddMillisecond t ms) now = true.
Proof.
  unfold ts_le. intros Hle Hms. rewrite ts_gt_lt. apply ts_lt_spec.
  assert (~ ts_lt t now = true) as Hn by congruence. rewrite ts_lt_spec in Hn.
  unfold AddMillisecond. simpl. Z.to_euclidean_division_equations. lia.
Qed.

(** ** Deadlines that have passed *)

Definition passed (now : timeval) (e : CoIdTimeout) : bool :=
  negb (ts_gt (cit_timestamp e) now).

Definition expired (now : timeval) (ts : TimeoutSet) : nat :=
  length (List.filter (passed now) (m_timeoutSet ts)).

(** The deadlines of [ts'] that have passed are among those of [ts] and [extra]. *)
Definition more (now : timeval) (extra : list CoIdTimeout) (ts ts' : TimeoutSet) : Prop :=
  forall e, e ∈ m_timeoutSet ts' -> passed now e = true -> e ∈ m_timeoutSet ts \/ e ∈ extra.

Lemma filter_elem (P : CoIdTimeout -> bool) l e : e ∈ List.filter P l <-> e ∈ l /\ P e = true.
Proof. rewrite !list_elem_of_In. apply List.filter_In. Qed.

Lemma expired_NoDup now ts : oset_wf (m_timeoutSet ts) -> NoDup (List.filter (passed now) (m_timeoutSet ts)).
Proof. intros Hw. apply NoDup_ListNoDup, List.NoDup_filter, NoDup_ListNoDup. by apply oset_nodup. Qed.

Lemma expired_more now extra ts ts' :
  oset_wf (m_timeoutSet ts') -> more now extra ts ts' -> (expired now ts' <= expired now ts + length extra)%nat.
Proof.
  intros Hw Hm. unfold expired. rewrite <- length_app. apply submseteq_length, NoDup_submseteq.
  - by apply expired_NoDup.
  - intros x [Hx Hp]%filter_elem. apply elem_of_app. destruct (Hm x Hx Hp); [left|by right]. by apply filter_elem.
Qed.

(** One of them less. *)
Lemma expired_less now extra ts ts' e :
  oset_wf (m_timeoutSet ts') -> more now extra ts ts' ->
  e ∈ m_timeoutSet ts -> passed now e = true -> e ∉ m_timeoutSet ts' ->
  (expired now ts' < expired now ts + length extra)%nat.
Proof.
  intros Hw Hm He Hp Hne. unfold expired. rewrite <- length_app.
  apply (submseteq_length (e :: List.filter (passed now) (m_timeoutSet ts'))), NoDup_submseteq.
  - apply NoDup_cons. split; [by intros [? _]%filter_elem|by apply expired_NoDup].
  - intros x [-> | [Hx Hpx]%filter_elem]%elem_of_cons; apply elem_of_app; [left; by apply filter_elem|].
    destruct (Hm x Hx Hpx); [left|by right]. by apply filter_elem.
Qed.

Section Keeps.
Context {W F Hp : Type} `{ClockLog W}.
#[local] Abbreviation st := (st W F Hp).
#[local] Abbreviation act := (act W F Hp).
Implicit Types (s : st) (now : timeval).

(** No deadlines before [now] come up, but one for each reading of the clock that lies before it. *)
Definition later now s s' : Prop :=
  exists rs extra, readings (world s') = readings (world s) ++ rs /\
    (length extra <= set_back now rs)%nat /\ more now extra (cs_timeouts (cs s)) (cs_timeouts (cs s')).

Definition keeps now {A} (m : act A) : Prop := respects (later now) m.

(** Nothing was read, no deadline was added. *)
Lemma later_same now s s' :
  readings (world s') = readings (world s) ->
  (forall e, e ∈ m_timeoutSet (cs_timeouts (cs s')) -> e ∈ m_timeoutSet (cs_timeouts (cs s))) -> later now s s'.
Proof. intros Hr Hm. exists [], []. rewrite app_nil_r. split_and!; [done..|]. intros e He _. left. by apply Hm. Qed.

Lemma later_sys now {A} (e : sysE A) s : later now s (mkSt (cs s) (heap s) (os_call e (world s)).2).
Proof.
  assert (more now [] (cs_timeouts (cs s)) (cs_timeouts (cs s))) as Hm by by left.
  assert ((match e with sys_gettimeofday => False | _ => True end) -> later now s (mkSt (cs s) (heap s) (os_call e (world s)).2))
    as Ho. { intros He. apply later_same; [by apply readings_other|done]. }
  destruct e; try by apply Ho. exists [(os_call sys_gettimeofday (world s)).1], []. simpl.
  split_and!; [apply readings_clock|lia|done].
Qed.

Lemma later_cs now (f : CoSocket (ctx F Hp) F -> CoSocket (ctx F Hp) F) h s :
  cs_timeouts (f (cs s)) = cs_timeouts (cs s) -> later now s (mkSt (f (cs s)) h (world s)).
Proof. intros Hf. apply later_same; [done|]. simpl. by rewrite Hf. Qed.

#[export] Instance later_preorder now : PreOrder (later now).
Proof.
  split; [intros s; by apply later_same|]. intros s s1 s2 (r1 & x1 & E1 & L1 & M1) (r2 & x2 & E2 & L2 & M2).
  exists (r1 ++ r2), (x1 ++ x2). rewrite E2, E1, app_assoc, length_app, set_back_app.
  split_and!; [done|lia|]. intros e He Hpe. rewrite elem_of_app.
  destruct (M2 e He Hpe) as [He1|]; [|by auto]. destruct (M1 e He1 Hpe); auto.
Qed.

Lemma keeps_guard_begin now c t : keeps now (guard_begin c t).
Proof.
  unfold guard_begin. rewrite Z.gtb_ltb. destruct (0 <? t) eqn:E; [|apply (respects_ret (later now))].
  breflect.
  intros s b s' (u & s1 & Hs & [= _ <-])%bind_inl. unfold sys, on_world in Hs.
  pose proof (readings_clock (world s)) as Hr.
  destruct (os_call sys_gettimeofday (world s)) as [u' w1]. injection Hs as <- <-. simpl in *.
  set (e := mkCoIdTimeout c (AddMillisecond u' t)).
  exists [u'], (if ts_lt u' now then [e] else []). split_and!; [done| |].
  { unfold set_back. simpl. by destruct (ts_lt u' now). }
  simpl. unfold guard_enter. rewrite Z.gtb_ltb, (proj2 (Z.ltb_lt 0 t)) by done. unfold Insert. fold e.
  intros x Hx Hpx. pose proof (oset_insert_elem e (m_timeoutSet (cs_timeouts (cs s))) x) as Hi.
  destruct (oset_insert e _) as [r fresh]. simpl in *. destruct fresh; simpl in *; [|by left].
  apply Hi in Hx as [-> |]; [|by left]. right. destruct (ts_lt u' now) eqn:El; [by left|].
  unfold passed, e in Hpx. cbn [cit_timestamp] in Hpx. by rewrite (AddMillisecond_later now u' t El E) in Hpx.
Qed.

Lemma keeps_guard_end now c t : keeps now (guard_end c t).
Proof.
  intros s b s' (ts & s1 & [= <- <-] & Hd)%bind_inl.
  destruct (guard_leave _ _ _) as [ts'|] eqn:E; [|done]. injection Hd as _ <-.
  apply later_same; [done|]. simpl. unfold guard_leave, Delete in E. intros x Hx.
  repeat case_match; simplify_eq/=; try done. by eapply oset_erase_sub.
Qed.

#[export] Instance later_frame now : IoFrame (later now).
Proof.
  split.
  - apply _.
  - intros A e s. apply later_sys.
  - intros m s. by apply later_cs.
  - apply keeps_guard_begin.
  - apply keeps_guard_end.
Qed.

Lemma keeps_upd now f : (forall a, cs_timeouts (f a) = cs_timeouts a) -> keeps now (upd f).
Proof. intros Hf. apply (respects_upd (later now)). intros s. apply later_cs, Hf. Qed.

Ltac keeps_step :=
  lazymatch goal with
  | |- respects _ (upd _) => apply keeps_upd; intros ?; done
  | |- respects ?R (on_heap _) => apply (respects_heap R); intros ?; by apply (later_cs _ id)
  | |- keeps _ _ => unfold keeps
  | _ => respects_step
  end.

Lemma keeps_resume_op now {A} (w : waiting A) : keeps now (resume_op w).
Proof. apply (respects_resume_op (later now)). Qed.

Lemma keeps_start_op now {A} (e : apiE F Hp A) : keeps now (start_op e).
Proof.
  apply (respects_start_op (later now)). intros He. destruct e; try done; simpl; repeat keeps_step.
Qed.

(** ** Rounds *)

Context (stack_size : nat) (body : F -> prog F Hp).
#[local] Abbreviation sys_state := (pc F Hp * st)%type.
Implicit Types (x y z : sys_state).

(** The coroutine that [x] is in runs until it gives the control back. *)
Inductive in_co : sys_state -> sys_state -> Prop :=
  | in_co_back l (s : st) : in_co (Main l, s) (Main l, s)
  | in_co_step p back (s : st) y z :
      step stack_size body (InCo p back, s) = inl y -> in_co y z -> in_co (InCo p back, s) z.

(** One round of the loop of [RunTimeoutCo], and [n] of them. *)
Definition round now x z : Prop :=
  exists s y s', x = (Main (AtTimeout now), s) /\ step stack_size body x = inl y /\
    in_co y z /\ z = (Main (AtTimeout now), s').

Inductive rounds now : nat -> sys_state -> sys_state -> Prop :=
  | rounds_O x : rounds now 0 x x
  | rounds_S n x y z : round now x y -> rounds now n y z -> rounds now (S n) x z.

Lemma step_co_keeps now p back : keeps now (step_co stack_size p back).
Proof.
  unfold step_co. destruct (observe p) as [r|p'|A e k].
  - repeat keeps_step.
  - repeat keeps_step.
  - apply (respects_bind (later now)); [apply keeps_start_op|]. intros [a|w]; [repeat keeps_step|].
    apply (respects_bind (later now)); [repeat keeps_step|intros ?; apply (respects_ret (later now))].
Qed.

Lemma step_co_back p back (s s' : st) q :
  step_co stack_size p back s = inl (q, s') -> loc_of q = back.
Proof.
  unfold step_co. destruct (observe p) as [r|p'|A e k].
  - by intros (? & ? & _ & [= <- _])%bind_inl.
  - by intros [= <- _].
  - intros (r & s1 & _ & Hr)%bind_inl. destruct r as [a|w]; [by injection Hr as <- _|].
    by apply bind_inl in Hr as (? & ? & _ & [= <- _]).
Qed.

Lemma in_co_keeps now x z :
  in_co x z -> loc_of (fst z) = loc_of (fst x) /\ later now (snd x) (snd z).
Proof.
  induction 1 as [l s|p back s [q s1] z Hst Hin IH]; [by split|].
  unfold step, step_pc in Hst. simpl in *. pose proof (step_co_keeps now p back _ _ _ Hst) as He.
  apply step_co_back in Hst as <-. destruct IH as [-> Hl]. split; [done|]. by etransitivity.
Qed.

Lemma resume_keeps now c back : keeps now (resume stack_size body c back).
Proof.
  unfold resume. apply (respects_bind (later now)); [apply (respects_gets (later now))|]. intros S.
  destruct (resume_enter stack_size S c) as [| |S' [ud f|A w k]]; repeat keeps_step.
Qed.

Lemma resume_loc c back (s s' : st) q :
  resume stack_size body c back s = inl (q, s') -> loc_of q = back.
Proof.
  intros (S & s1 & _ & Hr)%bind_inl.
  destruct (resume_enter stack_size S c) as [| |S' [ud f|A w k]]; [done|by injection Hr as <- _| |].
  - by apply bind_inl in Hr as (? & ? & _ & [= <- _]).
  - apply bind_inl in Hr as (? & ? & _ & Hr). by apply bind_inl in Hr as (? & ? & _ & [= <- _]).
Qed.

Lemma in_co_steps x z : in_co x z -> steps stack_size body x z.
Proof. induction 1; eauto using steps_refl, steps_step. Qed.

(** The deadline of the coroutine that is resumed is gone. *)
Lemma resumed_gone now (s s1 : st) q e :
  let c := GetExpired (cs_timeouts (cs s)) now in
  inv stack_size (Main (AtTimeout now), s) -> inv stack_size (q, s1) ->
  m_timeoutPtrMap (cs_timeouts (cs s)) !! c = Some e ->
  resume stack_size body c (AtTimeout now) s = inl (q, s1) -> e ∉ m_timeoutSet (cs_timeouts (cs s1)).
Proof.
  intros c Hinv Hinv1 He Hst Hin1. pose proof Hinv as [_ _ Hc _ _ _]. simpl in Hc.
  assert (c ∈ pending (cs_timeouts (cs s))) as Hpe by (apply elem_of_dom; eauto).
  apply (c_pending _ _ _ Hc) in Hpe as (fd & ev & t & Hwo & Ht).
  pose proof (safe_resume_entered stack_size body c _ (AtTimeout now) (AtTimeout now) s _ Hinv Hwo
                eq_refl eq_refl (Nat.le_0_l _) eq_refl) as Hsafe.
  unfold safe in Hsafe. rewrite Hst in Hsafe. destruct Hsafe as [_ Hnone].
  pose proof Hinv1 as [_ _ Hcore1 _ _ _]. simpl in Hcore1.
  assert (c ∈ pending (cs_timeouts (cs s1))) as Hpe.
  { apply elem_of_dom. exists e. apply (tw_map _ (c_timeouts _ _ _ Hcore1)). split; [done|].
    by apply (tw_map _ (c_timeouts _ _ _ Hc)) in He as [_ ?]. }
  apply (c_pending _ _ _ Hcore1) in Hpe as (? & ? & ? & Hwo1 & _). by rewrite Hnone in Hwo1.
Qed.

(** One round uses up a deadline. *)
Lemma round_expired now x z :
  round now x z -> inv stack_size x ->
  inv stack_size z /\ exists rs, readings (world (snd z)) = readings (world (snd x)) ++ rs /\
  (expired now (cs_timeouts (cs (snd z))) < expired now (cs_timeouts (cs (snd x))) + set_back now rs)%nat.
Proof.
  intros (s & y & s' & -> & Hst & Hin & ->) Hinv. simpl in *.
  pose proof Hinv as [_ _ Hc _ _ _]. simpl in Hc.
  pose proof (step_inv stack_size body _ Hinv) as Hy. rewrite Hst in Hy.
  pose proof (steps_inv stack_size body _ _ (in_co_steps _ _ Hin) Hy) as Hz. split; [done|].
  unfold step, step_pc in Hst. simpl in Hst. destruct y as [q s1].
  apply bind_inl in Hst as (ts & s0 & [= <- <-] & Hst).
  destruct (GetExpired (cs_timeouts (cs s)) now =? -1) eqn:E; breflect.
  { apply bind_inl in Hst as (? & ? & [= _ <-] & [= <- <-]). by inversion Hin. }
  destruct (GetExpired_some _ _ _ (c_timeouts _ _ _ Hc) E eq_refl) as (e & He & Hgt & _).
  set (c := GetExpired (cs_timeouts (cs s)) now) in *.
  pose proof (c_timeouts _ _ _ Hc) as Hwf.
  assert (e ∉ m_timeoutSet (cs_timeouts (cs s1))) as Hgone
    by exact (resumed_gone now s s1 q e Hinv Hy He Hst).
  destruct (in_co_keeps now _ _ Hin) as (_ & r2 & x2 & E2 & L2 & M2).
  destruct (resume_keeps now _ _ _ _ _ Hst) as (r1 & x1 & E1 & L1 & M1). simpl in *.
  exists (r1 ++ r2). rewrite E2, E1, app_assoc, set_back_app. split; [done|].
  assert (passed now e = true) as Hpass by by unfold passed; rewrite Hgt.
  apply (tw_map _ Hwf) in He as [He _].
  destruct Hy as [_ _ Hcy _ _ _], Hz as [_ _ Hcz _ _ _].
  pose proof (expired_less now _ _ _ e (tw_sorted _ (c_timeouts _ _ _ Hcy)) M1 He Hpass Hgone).
  pose proof (expired_more now _ _ _ (tw_sorted _ (c_timeouts _ _ _ Hcz)) M2). simpl in *. lia.
Qed.

(** C9.  [RunTimeoutCo] ends: from any reachable state at its loop, the number of rounds (each a
    coroutine resumed and run until it gives the control back) is at most the number of deadlines
    that have passed, plus the number of times the clock, in the calls made meanwhile, was found
    set back to before the instant the loop compares with; however many deadlines, coroutines and
    notifications the coroutines make on the way.  So with a clock that is not set back only a
    coroutine that never gives the control back could keep the loop from ending. *)
Theorem RunTimeoutCo_bounded junk fs h w now (s : st) n z :
  length junk = stack_size ->
  steps stack_size body (initial junk fs h w) (Main (AtTimeout now), s) ->
  rounds now n (Main (AtTimeout now), s) z ->
  exists rs, readings (world (snd z)) = readings (world s) ++ rs /\
  (n + expired now (cs_timeouts (cs (snd z))) <= expired now (cs_timeouts (cs s)) + set_back now rs)%nat.
Proof.
  intros Hj Hsteps Hr.
  pose proof (steps_inv stack_size body _ _ Hsteps (loop_initial_inv stack_size junk fs h w Hj)) as Hinv.
  change (world s) with (world (snd (Main (F := F) (Hp := Hp) (AtTimeout now), s))).
  change (cs s) with (cs (snd (Main (F := F) (Hp := Hp) (AtTimeout now), s))).
  clear Hsteps. revert Hinv. generalize (Main (F := F) (Hp := Hp) (AtTimeout now), s) as x, Hr.
  clear. intros x Hr. induction Hr as [x|n x y z Hxy Hyz IH]; intros Hinv.
  - exists []. rewrite app_nil_r. split; [done|simpl; lia].
  - destruct (round_expired _ _ _ Hxy Hinv) as (Hinv' & r1 & E1 & Hlt).
    destruct (IH Hinv') as (r2 & E2 & Hle). exists (r1 ++ r2).
    rewrite E2, E1, app_assoc, set_back_app. split; [done|lia].
Qed.
End Keeps.
