(* ===== verification/CoStream.v ===== *)
(** * net/CoSocket.cpp: [ReadFull] and [WriteAll]

    The two methods that only call [Read] and [Write], as programs over the public interface, with
    the loops of the source; what they return for every sequence of answers of [Read] and [Write];
    and a call of [WriteAll] that never returns. *)

From S2P Require Import Prelude OrdMap Coroutine Timestamp TimeoutSet Os Epoller CoSocket EventLoop.
From ITree Require Import ITree.

Open Scope Z_scope.

(** Programs in the order of their statements. *)
Notation "'let*' x ':=' m 'in' k" := (ITree.bind m (fun x => k))
  (at level 200, x name, m at level 100, k at level 200, right associativity).

Section Stream.
Context {F Hp : Type}.
#[local] Abbreviation io := (itree (apiE F Hp)).

Definition call {A} (e : apiE F Hp A) : io A := ITree.trigger e.

(** The body of the loop of [ReadFull]: [readBytes] and what was stored in the buffer. *)
Definition ReadFull_body (fd : Z) (size : nat) (timeoutMs : Z) (x : nat * bytes)
    : io ((nat * bytes) + (Z * bytes)) :=
  let '(readBytes, buffer) := x in
  if (readBytes <? size)%nat then
    let* r := call (Read fd (size - readBytes) timeoutMs) in
    if fst r <? 0 then Ret (inr (fst r, buffer))
    else if fst r =? 0 then Ret (inr (Z.of_nat readBytes, buffer))
    else Ret (inl ((readBytes + Z.to_nat (fst r))%nat, buffer ++ snd r))
  else Ret (inr (Z.of_nat readBytes, buffer)).

Definition ReadFull (fd : Z) (size : nat) (timeoutMs : Z) : io (Z * bytes) :=
  ITree.iter (ReadFull_body fd size timeoutMs) (0%nat, []).

Definition WriteAll_body (fd : Z) (buffer : option bytes) (size : nat) (timeoutMs : Z)
    (writeBytes : nat) : io (nat + Z) :=
  if (writeBytes <? size)%nat then
    let* ret := call (Write fd (drop writeBytes <$> buffer) (size - writeBytes) timeoutMs) in
    if ret <? 0 then Ret (inr ret)
    else Ret (inl (writeBytes + Z.to_nat ret)%nat)
  else Ret (inr (Z.of_nat writeBytes)).

Definition WriteAll (fd : Z) (buffer : option bytes) (size : nat) (timeoutMs : Z) : io Z :=
  ITree.iter (WriteAll_body fd buffer size timeoutMs) 0%nat.

Lemma observe_bind_eq {A B} (p : io A) (k : A -> io B) :
  observe (ITree.bind p k) =
    match observe p with
    | RetF a => observe (k a)
    | TauF p' => TauF (ITree.bind p' k)
    | VisF e j => VisF e (fun x => ITree.bind (j x) k)
    end.
Proof.
  transitivity (observe (match observe p with
                         | RetF a => k a
                         | TauF p' => Tau (ITree.bind p' k)
                         | VisF e j => Vis e (fun x => ITree.bind (j x) k)
                         end)); [reflexivity|].
  by destruct (observe p).
Qed.

(** ** Answers

    A program that only reads (or only writes) on one descriptor, served with a list of answers;
    [None] when the answers do not suffice (or another call is made). *)
Fixpoint serve_reads {R} (fuel : nat) (fd : Z) (l : list (Z * bytes)) (p : io R)
    : option (R * list (Z * bytes)) :=
  match fuel with
  | O => None
  | S fuel' =>
      match observe p with
      | RetF r => Some (r, l)
      | TauF p' => serve_reads fuel' fd l p'
      | VisF e k =>
          match e in apiE _ _ A return (A -> io R) -> option (R * list (Z * bytes)) with
          | Read fd' _ _ => fun k =>
              match l with
              | a :: l' => if fd' =? fd then serve_reads fuel' fd l' (k a) else None
              | [] => None
              end
          | _ => fun _ => None
          end k
      end
  end.

(** The same for writes, with the bytes that were accepted. *)
Fixpoint serve_writes {R} (fuel : nat) (fd : Z) (l : list Z) (sent : bytes) (p : io R)
    : option (R * bytes) :=
  match fuel with
  | O => None
  | S fuel' =>
      match observe p with
      | RetF r => Some (r, sent)
      | TauF p' => serve_writes fuel' fd l sent p'
      | VisF e k =>
          match e in apiE _ _ A return (A -> io R) -> option (R * bytes) with
          | Write fd' (Some d) size _ => fun k =>
              match l with
              | a :: l' =>
                  if fd' =? fd then
                    serve_writes fuel' fd l' (sent ++ take (Z.to_nat a) (take size d)) (k a)
                  else None
              | [] => None
              end
          | _ => fun _ => None
          end k
      end
  end.

(** What [ReadFull] should make of the answers of [Read]: gather data until there is enough, the
    other end has closed, or there is an error (then the data read so far is in the buffer, but
    only the error is returned). *)
Fixpoint read_full (size : nat) (l : list (Z * bytes)) (got : bytes)
    : option ((Z * bytes) * list (Z * bytes)) :=
  if (length got <? size)%nat then
    match l with
    | [] => None
    | (ret, d) :: l' =>
        if ret <? 0 then Some ((ret, got), l')
        else if ret =? 0 then Some ((Z.of_nat (length got), got), l')
        else read_full size l' (got ++ d)
    end
  else Some ((Z.of_nat (length got), got), l).

(** The answers [Read] gives: an error, or the data and its length. *)
Definition read_answer (a : Z * bytes) : Prop := fst a < 0 \/ fst a = Z.of_nat (length (snd a)).

(** One turn of the loop. *)
Definition ReadFull_turn fd size t (readBytes : nat) (buffer : bytes) (r : Z * bytes)
    : io (Z * bytes) :=
  ITree.bind
    (ITree.bind (Ret r) (fun r =>
       if fst r <? 0 then Ret (inr (fst r, buffer))
       else if fst r =? 0 then Ret (inr (Z.of_nat readBytes, buffer))
       else Ret (inl ((readBytes + Z.to_nat (fst r))%nat, buffer ++ snd r))))
    (fun lr => match lr with
               | inl x => Tau (ITree.iter (ReadFull_body fd size t) x)
               | inr r => Ret r
               end).

Lemma observe_ReadFull fd size t n got :
  observe (ITree.iter (ReadFull_body fd size t) (n, got)) =
    if (n <? size)%nat then VisF (Read fd (size - n) t) (ReadFull_turn fd size t n got)
    else RetF (Z.of_nat n, got).
Proof.
  transitivity (observe (ITree.bind (ReadFull_body fd size t (n, got))
    (fun lr => match lr with
               | inl x => Tau (ITree.iter (ReadFull_body fd size t) x)
               | inr r => Ret r
               end))); [reflexivity|].
  unfold ReadFull_body at 1. destruct (n <? size)%nat; reflexivity.
Qed.

Lemma observe_ReadFull_turn fd size t n got r :
  observe (ReadFull_turn fd size t n got r) =
    if fst r <? 0 then RetF (fst r, got)
    else if fst r =? 0 then RetF (Z.of_nat n, got)
    else TauF (ITree.iter (ReadFull_body fd size t) ((n + Z.to_nat (fst r))%nat, got ++ snd r)).
Proof.
  unfold ReadFull_turn. destruct r as [ret d]. cbn [fst snd].
  transitivity (observe (ITree.bind
    (if ret <? 0 then Ret (inr (ret, got))
     else if ret =? 0 then Ret (inr (Z.of_nat n, got))
     else Ret (inl ((n + Z.to_nat ret)%nat, got ++ d)))
    (fun lr => match lr with
               | inl x => Tau (ITree.iter (ReadFull_body fd size t) x)
               | inr r => Ret r
               end))); [reflexivity|].
  destruct (ret <? 0); [reflexivity|]. destruct (ret =? 0); reflexivity.
Qed.

Lemma serve_ReadFull fd size t l : forall got fuel,
  Forall read_answer l -> (3 * length l + 3 <= fuel)%nat ->
  serve_reads fuel fd l (ITree.iter (ReadFull_body fd size t) (length got, got)) =
    read_full size l got.
Proof.
  induction l as [|[ret d] l IH]; intros got fuel Hl Hf;
    (destruct fuel as [|fuel]; [simpl in Hf; lia|]);
    cbn [serve_reads read_full]; rewrite observe_ReadFull;
    destruct (length got <? size)%nat; try done.
  apply Forall_cons in Hl as [Ha Hl]. unfold read_answer in Ha. simpl in Ha, Hf.
  rewrite Z.eqb_refl. do 2 (destruct fuel as [|fuel]; [lia|]). cbn [serve_reads].
  rewrite observe_ReadFull_turn. cbn [fst snd].
  destruct (ret <? 0) eqn:E1; [done|]. destruct (ret =? 0) eqn:E2; [done|]. breflect.
  destruct Ha as [?|Ha]; [lia|].
  replace (length got + Z.to_nat ret)%nat with (length (got ++ d)) by (rewrite length_app; lia).
  exact (IH (got ++ d) (S fuel) Hl ltac:(lia)).
Qed.

Lemma read_full_result size l : forall got r buffer rest,
  read_full size l got = Some ((r, buffer), rest) ->
  (exists used, l = used ++ rest /\ buffer `prefix_of` got ++ concat (snd <$> used)) /\
  (0 <= r -> r = Z.of_nat (length buffer) /\
     ((size <= length buffer)%nat \/ exists used d, l = used ++ (0, d) :: rest)).
Proof.
  induction l as [|[ret d] l IH]; intros got r buffer rest; cbn [read_full];
    destruct (length got <? size)%nat eqn:E; try done.
  1, 3: intros [= <- <- <-]; apply Nat.ltb_ge in E; split; [|by auto];
    exists []; split; [done|by apply prefix_app_r].
  destruct (ret <? 0) eqn:E1; [|destruct (ret =? 0) eqn:E2]; breflect.
  - intros [= <- <- <-]. split; [|lia].
    exists [(ret, d)]. split; [done|by apply prefix_app_r].
  - intros [= <- <- <-]. subst ret. split.
    + exists [(0, d)]. split; [done|by apply prefix_app_r].
    + intros _. split; [done|]. right. by exists [], d.
  - intros Hr. destruct (IH _ _ _ _ Hr) as [(used & -> & Hpre) Hres]. split.
    + exists ((ret, d) :: used). split; [done|]. simpl. by rewrite app_assoc.
    + intros H0. destruct (Hres H0) as [? [?|(used' & d' & ->)]]; split; auto.
      right. by exists ((ret, d) :: used'), d'.
Qed.

(** C29.  [ReadFull] computes [read_full]: served with the answers of [Read], whatever their number
    and sizes, it returns after finitely many calls (at most one per answer), with exactly the
    bytes of the answers in their order, and reports the size asked for unless the other end
    closed or an error came first. *)
Theorem ReadFull_refines fd size t l :
  Forall read_answer l ->
  serve_reads (3 * length l + 3) fd l (ReadFull fd size t) = read_full size l [] /\
  (forall r buffer rest, read_full size l [] = Some ((r, buffer), rest) ->
     (exists used, l = used ++ rest /\ buffer `prefix_of` concat (snd <$> used)) /\
     (0 <= r -> r = Z.of_nat (length buffer) /\
        ((size <= length buffer)%nat \/ exists used d, l = used ++ (0, d) :: rest))).
Proof.
  intros Hl. split; [by apply (serve_ReadFull fd size t l []); [|lia]|].
  intros r buffer rest Hr. by apply read_full_result in Hr.
Qed.

(** ** WriteAll *)

(** What [WriteAll] should make of the answers of [Write]: its result, and the number of bytes
    sent. *)
Fixpoint write_all (size : nat) (l : list Z) (sent : nat) : option (Z * nat) :=
  if (sent <? size)%nat then
    match l with
    | [] => None
    | ret :: l' => if ret <? 0 then Some (ret, sent) else write_all size l' (sent + Z.to_nat ret)
    end
  else Some (Z.of_nat sent, sent).

(** The answers [Write] gives: an error, or a number of bytes that were left to send. *)
Fixpoint write_answers (size : nat) (l : list Z) (sent : nat) : Prop :=
  match l with
  | [] => True
  | ret :: l' =>
      ret < 0 \/ (0 <= ret <= Z.of_nat (size - sent) /\ write_answers size l' (sent + Z.to_nat ret))
  end.

Definition WriteAll_turn fd buffer size t (writeBytes : nat) (ret : Z) : io Z :=
  ITree.bind
    (ITree.bind (Ret ret) (fun ret =>
       if ret <? 0 then Ret (inr ret) else Ret (inl (writeBytes + Z.to_nat ret)%nat)))
    (fun lr => match lr with
               | inl x => Tau (ITree.iter (WriteAll_body fd buffer size t) x)
               | inr r => Ret r
               end).

Lemma observe_WriteAll fd buffer size t n :
  observe (ITree.iter (WriteAll_body fd buffer size t) n) =
    if (n <? size)%nat then
      VisF (Write fd (drop n <$> buffer) (size - n) t) (WriteAll_turn fd buffer size t n)
    else RetF (Z.of_nat n).
Proof.
  transitivity (observe (ITree.bind (WriteAll_body fd buffer size t n)
    (fun lr => match lr with
               | inl x => Tau (ITree.iter (WriteAll_body fd buffer size t) x)
               | inr r => Ret r
               end))); [reflexivity|].
  unfold WriteAll_body at 1. destruct (n <? size)%nat; reflexivity.
Qed.

Lemma observe_WriteAll_turn fd buffer size t n ret :
  observe (WriteAll_turn fd buffer size t n ret) =
    if ret <? 0 then RetF ret
    else TauF (ITree.iter (WriteAll_body fd buffer size t) (n + Z.to_nat ret)%nat).
Proof.
  transitivity (observe (ITree.bind
    (if ret <? 0 then Ret (inr ret) else Ret (inl (n + Z.to_nat ret)%nat))
    (fun lr => match lr with
               | inl x => Tau (ITree.iter (WriteAll_body fd buffer size t) x)
               | inr r => Ret r
               end))); [reflexivity|].
  destruct (ret <? 0); reflexivity.
Qed.

Lemma serve_WriteAll fd d t l : forall n fuel,
  (n <= length d)%nat -> write_answers (length d) l n -> (3 * length l + 3 <= fuel)%nat ->
  serve_writes fuel fd l (take n d) (ITree.iter (WriteAll_body fd (Some d) (length d) t) n) =
    (fun r => (fst r, take (snd r) d)) <$> write_all (length d) l n.
Proof.
  induction l as [|ret l IH]; intros n fuel Hn Hl Hf;
    (destruct fuel as [|fuel]; [simpl in Hf; lia|]);
    cbn [serve_writes write_all]; rewrite observe_WriteAll;
    destruct (n <? length d)%nat eqn:En; try done.
  cbn [fmap option_fmap option_map]. simpl in Hl, Hf. rewrite Z.eqb_refl.
  do 2 (destruct fuel as [|fuel]; [lia|]). cbn [serve_writes]. rewrite observe_WriteAll_turn.
  destruct (ret <? 0) eqn:Er; breflect.
  - simpl. rewrite Z2Nat.nonpos by lia. by rewrite take_0, app_nil_r.
  - destruct Hl as [?|[Hret Hl]]; [lia|].
    rewrite <- (IH (n + Z.to_nat ret)%nat (S fuel)) by (done || lia).
    cbn [serve_writes]. rewrite take_take, Nat.min_l, take_take_drop by lia. done.
Qed.

(** C30.  [WriteAll] computes [write_all]: served with answers of [Write], it sends the bytes of the
    buffer in their order without gap or repetition, all of them unless an error comes first, and
    reports their number (or the error). *)
Theorem WriteAll_refines fd d t l :
  write_answers (length d) l 0 ->
  serve_writes (3 * length l + 3) fd l [] (WriteAll fd (Some d) (length d) t) =
    (fun r => (fst r, take (snd r) d)) <$> write_all (length d) l 0 /\
  (forall r n, write_all (length d) l 0 = Some (r, n) -> r = Z.of_nat (length d) /\ n = length d \/ r < 0).
Proof.
  intros Hl. split; [apply (serve_WriteAll fd d t l 0); [lia|done|lia]|].
  assert (forall l s, (s <= length d)%nat -> write_answers (length d) l s -> forall r n,
            write_all (length d) l s = Some (r, n) ->
            r = Z.of_nat (length d) /\ n = length d \/ r < 0) as Hgen; [|by apply Hgen; [lia|]].
  clear l Hl. induction l as [|ret l IH]; intros s Hs Hl r n; simpl write_all;
    destruct (s <? length d)%nat eqn:E; try done.
  1, 3: intros [= <- <-]; apply Nat.ltb_ge in E; left; by assert (s = length d) as -> by lia.
  destruct (ret <? 0) eqn:Er; breflect; [intros [= <- <-]; by right|].
  simpl in Hl. destruct Hl as [?|[? Hl]]; [lia|]. apply IH; [lia|done].
Qed.
End Stream.

(** ** What the calls of a coroutine do *)

(** Compute the head of the left side of an equation. *)
Ltac head_step :=
  lazymatch goal with |- ?l = ?r => let v := eval hnf in l in change (v = r) end.

Section Running.
Context {W F Hp : Type} `{OS W} (stack_size : nat) (body : F -> prog F Hp).
Implicit Types (s : st W F Hp).

Lemma Sys_ok {A} (e : sysE A) s a w' :
  os_call e (world s) = (a, w') -> start_op (Sys e) s = inl (inl a, mkSt (cs s) (heap s) w').
Proof. intros Ho. unfold start_op, CoSocket.done, mbind, act_bind, sys, on_world. by rewrite Ho. Qed.

Lemma Heap_ok {A} (op : Hp -> A * Hp) s a h :
  op (heap s) = (a, h) -> start_op (Heap op) s = inl (inl a, mkSt (cs s) h (world s)).
Proof. intros Ho. unfold start_op, CoSocket.done, mbind, act_bind, on_heap. by rewrite Ho. Qed.

(** A call that returns at once, and a silent step. *)
Lemma run_call n p {A} (e : apiE F Hp A) k back s s' a x :
  observe p = VisF e k -> start_op e s = inl (inl a, s') ->
  run stack_size body n (InCo (k a) back, s') = x ->
  run stack_size body (S n) (InCo p back, s) = x.
Proof.
  intros Ho Hs Hr. cbn [run]. unfold step, step_pc, step_co. cbn [fst snd]. rewrite Ho.
  unfold mbind, act_bind. rewrite Hs. exact Hr.
Qed.

Lemma run_tau n p p' back s x :
  observe p = TauF p' -> run stack_size body n (InCo p' back, s) = x ->
  run stack_size body (S n) (InCo p back, s) = x.
Proof. intros Ho Hr. cbn [run]. unfold step, step_pc, step_co. cbn [fst snd]. by rewrite Ho. Qed.
End Running.

(** ** A call that never returns *)

(** [WriteAll] with a null buffer: [Write] returns 0 without a system call, the loop makes no
    progress, and the coroutine never gives the control back, so neither does the event loop. *)
Theorem WriteAll_null_spins {W F Hp : Type} `{OS W} stack_size (body : F -> prog F Hp)
    fd size t (k : Z -> prog F Hp) back (s : st W F Hp) n :
  (0 < size)%nat ->
  exists p, run stack_size body n (InCo (ITree.bind (WriteAll fd None size t) k) back, s) =
    inl (InCo p back, s).
Proof.
  intros Hsize. unfold WriteAll.
  set (loop := ITree.iter (WriteAll_body fd None size t) 0%nat).
  assert (forall n, (exists p, run stack_size body n (InCo (ITree.bind loop k) back, s) =
                       inl (InCo p back, s)) /\
                    (exists p, run stack_size body n
                       (InCo (ITree.bind (WriteAll_turn fd None size t 0 0) k) back, s) =
                       inl (InCo p back, s))) as Hgen; [|apply Hgen].
  clear n. induction n as [|n [IH1 IH2]]; [split; by eexists|]. split.
  - assert (step stack_size body (InCo (ITree.bind loop k) back, s) =
              inl (InCo (ITree.bind (WriteAll_turn fd None size t 0 0) k) back, s)) as Hs.
    { unfold step, step_pc, step_co. cbn [fst snd]. unfold loop.
      rewrite observe_bind_eq, observe_WriteAll, (proj2 (Nat.ltb_lt 0 size)) by done. done. }
    cbn [run]. by rewrite Hs.
  - assert (step stack_size body (InCo (ITree.bind (WriteAll_turn fd None size t 0 0) k) back, s) =
              inl (InCo (ITree.bind loop k) back, s)) as Hs.
    { unfold step, step_pc, step_co. cbn [fst snd].
      by rewrite observe_bind_eq, observe_WriteAll_turn. }
    cbn [run]. by rewrite Hs.
Qed.
