(* ===== verification/LoopDemo.v ===== *)
(** * Runs of the event loop on a concrete kernel, and where they go wrong

    A small program over the concrete kernel of Epoller.v instantiates the theorems about the event
    loop; the other theorems show what a second reader of a descriptor, the 32-bit keys of
    the conditions, and the storage of the function objects do. *)

From ITree Require Import ITree.
From S2P Require Import Prelude OrdMap Coroutine Timestamp TimeoutSet Os Epoller CoSocket EventLoop.
From S2P Require Import LoopSafe LoopInvariant LoopProps LoopFrame LoopInterest LoopTimeout CoStream.

Open Scope Z_scope.

(** ** The demonstration *)

Module Demo.
Import ToyOS.

(** The shared log of the coroutines: who, what [Read] returned, and the data. *)
Definition log : Type := list (nat * Z * bytes).

Definition reader (who : nat) (fd timeoutMs : Z) : prog nat log :=
  let* r := call (Read fd 10 timeoutMs) in
  call (Heap (fun l => (tt, l ++ [(who, fst r, snd r)]))).

(** 0 and 1 read descriptor 5, 2 reads descriptor 6 with a deadline, 3 starts a 1; 4 waits for
    condition 0, and 5 notifies condition 2^32. *)
Definition body (f : nat) : prog nat log :=
  match f with
  | 0%nat | 1%nat => reader f 5 0
  | 2%nat => reader f 6 1000
  | 4%nat => call (ConditionWait 0)
  | 5%nat => call (ConditionNotify (2 ^ 32))
  | _ => call (NewCoroutine 1%nat)
  end.

(** Descriptor 5 has data at the third read, 6 never; the first poll reports 5. *)
Definition kernel : world :=
  mkWorld ∅ {[5 := [Errno EAGAIN; Succ [65; 66]]]} [[(5, EPOLLIN)]] (mkTimeval 100 0) [].

Definition stack_size : nat := 8.
Definition start (fs : list nat) : pc nat log * st world nat log :=
  initial (replicate stack_size 0) fs [] kernel.

(** The state after [n] steps of a program. *)
Definition after_on (k : world) (fs : list nat) (n : nat) : pc nat log * st world nat log :=
  match run stack_size body n (initial (replicate stack_size 0) fs [] k) with
  | inl y => y
  | inr _ => start fs
  end.
Definition after := after_on kernel.

(** 0 and 2 are blocked when the first poll reports 5; then the deadline of 2 has passed. *)
Definition at_event := after [0%nat; 2%nat] 8.

Lemma event_loop_safe_witness :
  snd (after [0%nat; 2%nat] 20) = snd (after [0%nat; 2%nat] 20) /\
  inv stack_size (after [0%nat; 2%nat] 20).
Proof.
  split; [reflexivity|].
  apply (event_loop_safe stack_size body (replicate stack_size 0) [0%nat; 2%nat] [] kernel);
    [reflexivity|]. apply (run_steps _ _ 20). vm_compute. reflexivity.
Defined.

Lemma woken_for_cause_witness :
  exists c A (w : waiting A) (k : A -> prog nat log),
    suspended_in (cs (snd at_event)) c w k /\
    cause (AtEvents [(5, EPOLLIN)] 1) (cs (snd at_event)) c (waiting_info w).
Proof.
  assert (steps stack_size body (start [0%nat; 2%nat])
            (Main (AtEvents [(5, EPOLLIN)] 1), snd at_event)) as Hsteps.
  { apply (run_steps _ _ 8). vm_compute. reflexivity. }
  assert (step stack_size body (Main (AtEvents [(5, EPOLLIN)] 1), snd at_event) =
            inl (after [0%nat; 2%nat] 9)) as Hstep by (vm_compute; reflexivity).
  assert (if fst (after [0%nat; 2%nat] 9) then False else True) as Hin by (vm_compute; exact I).
  destruct (after [0%nat; 2%nat] 9) as [[l|p back] s']; [destruct Hin|].
  generalize dependent (snd at_event). intros s Hsteps Hstep.
  destruct (woken_for_cause stack_size body (replicate stack_size 0) [0%nat; 2%nat] [] kernel
    _ s p back s' eq_refl Hsteps Hstep)
    as [(f & [] & _)|(c & A & w & k & H1 & H2 & _)].
  exists c, A, w, k. exact (conj H1 H2).
Defined.

Lemma cause_wakes_witness :
  due (AtEvents [(5, EPOLLIN)] 1) (cs (snd at_event)) 0 /\
  exists A (w : waiting A) (k : A -> prog nat log), suspended_in (cs (snd at_event)) 0 w k.
Proof.
  assert (steps stack_size body (start [0%nat; 2%nat])
            (Main (AtEvents [(5, EPOLLIN)] 1), snd at_event)) as Hsteps.
  { apply (run_steps _ _ 8). vm_compute. reflexivity. }
  assert (due (AtEvents [(5, EPOLLIN)] 1) (cs (snd at_event)) 0) as Hd.
  { exists (default FdWatcher_init (m_coIdMap (cs (snd at_event)) !! 5)).
    split; [vm_compute; reflexivity|]. split; [vm_compute; reflexivity|]. split; [done|reflexivity]. }
  split; [exact Hd|].
  destruct (cause_wakes stack_size body (replicate stack_size 0) [0%nat; 2%nat] [] kernel
    _ (snd at_event) 0 eq_refl Hsteps Hd) as (A & w & k & Hsus & _).
  exists A, w, k. exact Hsus.
Defined.

(** The same program on the kernel with a log of its clock. *)
Definition after_logged (n : nat) : pc nat log * st (world * list timeval) nat log :=
  let x := initial (replicate stack_size 0) [0%nat; 2%nat] [] (kernel, []) in
  match run stack_size body n x with inl y => y | inr _ => x end.
Definition at_timeout := after_logged 13.
Definition after_timeout := after_logged 16.

Lemma in_co_one (x y z : pc nat log * st (world * list timeval) nat log) :
  (if fst x then False else True) -> step stack_size body x = inl y ->
  in_co stack_size body y z -> in_co stack_size body x z.
Proof. destruct x as [[l|p back] s]; [done|]. intros _. apply in_co_step. Qed.

(** One round of [RunTimeoutCo]: coroutine 2 is resumed, logs -ETIME and returns. *)
Lemma timeout_round now :
  fst at_timeout = Main (AtTimeout now) ->
  rounds stack_size body now 1 (Main (AtTimeout now), snd at_timeout) after_timeout.
Proof.
  intros Hnow. apply (rounds_S _ _ _ _ _ after_timeout); [|constructor].
  exists (snd at_timeout), (after_logged 14), (snd after_timeout).
  split; [reflexivity|]. split; [rewrite <- Hnow; vm_compute; reflexivity|].
  assert (after_timeout = (Main (AtTimeout now), snd after_timeout)) as E.
  { rewrite <- Hnow. vm_compute. reflexivity. }
  split; [|exact E].
  apply (in_co_one _ (after_logged 15)); [vm_compute; exact I|vm_compute; reflexivity|].
  apply (in_co_one _ after_timeout); [vm_compute; exact I|vm_compute; reflexivity|].
  rewrite E. constructor.
Qed.

Lemma RunTimeoutCo_bounded_witness :
  exists rs, readings (CoSocket.world (snd after_timeout)) = readings (CoSocket.world (snd at_timeout)) ++ rs /\
  (1 + expired (mkTimeval 102 0) (cs_timeouts (cs (snd after_timeout))) <=
     expired (mkTimeval 102 0) (cs_timeouts (cs (snd at_timeout))) + set_back (mkTimeval 102 0) rs)%nat.
Proof.
  apply (RunTimeoutCo_bounded stack_size body (replicate stack_size 0) [0%nat; 2%nat] [] (kernel, [])
    (mkTimeval 102 0) (snd at_timeout) 1 after_timeout); [reflexivity| |].
  - apply (run_steps _ _ 13). vm_compute. reflexivity.
  - apply timeout_round. vm_compute. reflexivity.
Defined.

#[export] Program Instance toy_interest : InterestLaws world.
Next Obligation.
  intros op fd ev w w'. unfold os_call, toy_os, toy_call, toy_epoll_ctl.
  destruct op, (t_interest w !! fd); intros ?; by simplify_eq.
Qed.
Next Obligation.
  intros op fd ev e w w'. unfold os_call, toy_os, toy_call, toy_epoll_ctl.
  destruct op, (t_interest w !! fd) eqn:E; intros ?; by simplify_eq.
Qed.
Next Obligation. intros fd w. by left. Qed.
Next Obligation.
  intros A e w. destruct e; try done; intros _; unfold os_call, toy_os; simpl; unfold toy_read;
    repeat case_match; by simplify_eq.
Qed.

(** [n] steps in which nobody meddles. *)
Fixpoint tame_run (n : nat) (x : pc nat log * st world nat log) : option (pc nat log * st world nat log) :=
  match n with
  | O => Some x
  | S n' =>
      if meddles x then None
      else match step stack_size body x with inl y => tame_run n' y | inr _ => None end
  end.

Lemma tame_run_tame n : forall x y, tame_run n x = Some y -> tame stack_size body x y.
Proof.
  induction n as [|n IH]; intros x y; simpl; [intros [= ->]; constructor|].
  destruct (meddles x) eqn:Em; [done|]. destruct (step stack_size body x) as [z|e] eqn:Es; [|done].
  intros Hr. econstructor; [exact Em|exact Es|by apply IH].
Qed.

Lemma interest_in_step_witness :
  exists y, tame_run 8 (start [0%nat; 2%nat]) = Some y /\
    interest (CoSocket.world (snd y)) !! 5 = polled (m_coIdMap (cs (snd y)) !! 5) /\
    polled (m_coIdMap (cs (snd y)) !! 5) = Some EPOLLIN.
Proof.
  destruct (tame_run 8 (start [0%nat; 2%nat])) as [y|] eqn:E; [|vm_compute in E; done].
  exists y. split; [reflexivity|]. split.
  - apply (interest_in_step stack_size body (replicate stack_size 0) [0%nat; 2%nat] [] kernel y 5);
      [reflexivity|]. apply (tame_run_tame 8). exact E.
  - assert (polled (m_coIdMap (cs (snd (default y (tame_run 8 (start [0%nat; 2%nat]))))) !! 5) = Some EPOLLIN)
      as Hp by (vm_compute; reflexivity).
    rewrite E in Hp. exact Hp.
Defined.

(** Coroutine 0 waits for condition 0 when coroutine 1 notifies condition 2^32, and is scheduled. *)
Definition at_notify := after [4%nat; 5%nat] 3.

Lemma ConditionNotify_wakes_witness :
  exists s', start_op (ConditionNotify (2 ^ 32)) (snd at_notify) = inl (inl tt, s') /\
    m_waitResumeList (cs s') = [0] /\ waits_for (AtMain []) (snd at_notify) (2 ^ 32) 0.
Proof.
  assert (steps stack_size body (start [4%nat; 5%nat]) at_notify) as Hsteps.
  { apply (run_steps _ _ 3). vm_compute. reflexivity. }
  assert (exists s', start_op (ConditionNotify (2 ^ 32)) (snd at_notify) = inl (inl tt, s') /\
            m_waitResumeList (cs s') = [0]) as (s' & Hop & Hl).
  { eexists. split; [vm_compute; reflexivity|reflexivity]. }
  exists s'. split; [exact Hop|split; [exact Hl|]].
  assert (m_waitResumeList (cs (snd at_notify)) = []) as Hnil by (vm_compute; reflexivity).
  assert (match fst at_notify with InCo _ (AtMain []) => True | _ => False end) as Hin
    by (vm_compute; exact I).
  destruct at_notify as [[l|p [[|f fs]| | | | | |]] s]; try destruct Hin.
  destruct (ConditionNotify_wakes stack_size body (replicate stack_size 0) [4%nat; 5%nat] [] kernel
    p (AtMain []) s s' (2 ^ 32) (inl tt) eq_refl Hsteps Hop) as (l & El & _ & Hin' & _).
  apply Hin'. simpl in Hl, Hnil. rewrite Hnil in El. simpl in El. rewrite <- El, Hl. by left.
Defined.

End Demo.

(** ** Function objects *)

Section FunctionObjects.
Context {W F Hp : Type} `{OS W} (stack_size : nat) (body : F -> prog F Hp).
#[local] Abbreviation st := (st W F Hp).
Implicit Types (s : st).

(** The coroutine [c] runs in the function object [ud], or has blocked or returned in it. *)
Definition runs_in (c : nat) (ud : ctx F Hp) s : Prop :=
  sch_running (m_schedule (cs s)) = Z.of_nat c /\
  exists co, sch_co (m_schedule (cs s)) !! c = Some (Some co) /\ co_func co = ud.
Definition left_in (c : nat) (ud : ctx F Hp) s : Prop :=
  sch_co (m_schedule (cs s)) !! c = Some None \/
  exists co k, sch_co (m_schedule (cs s)) !! c = Some (Some co) /\ co_func co = ud /\
    co_status co = COROUTINE_SUSPEND /\ co_ctx co = Some k.

Lemma yield_func (S S' : schedule (ctx F Hp)) k depth c co :
  sch_running S = Z.of_nat c -> sch_co S !! c = Some (Some co) ->
  coroutine_yield stack_size S k depth = Some S' ->
  exists co', sch_co S' !! c = Some (Some co') /\ co_func co' = co_func co /\
    co_status co' = COROUTINE_SUSPEND /\ co_ctx co' = Some k.
Proof.
  intros Hr Hc. unfold coroutine_yield, save_stack. rewrite Hr, (proj2 (Z.leb_le _ _)), Nat2Z.id, Hc by lia.
  destruct (depth <=? stack_size)%nat; [|done]. destruct (co_cap co <? depth)%nat; intros [= <-];
    (eexists; split; [apply list_lookup_insert_eq; by eapply lookup_lt_Some|done]).
Qed.

(** The calls of a coroutine do not touch the schedule. *)
Lemma start_op_schedule {A} (e : apiE F Hp A) s r s' back :
  inv_at stack_size false back (cs s) -> start_op e s = inl (r, s') -> m_schedule (cs s') = m_schedule (cs s).
Proof.
  intros [Hs _ Hc Hpos _ Hrun] Ho.
  pose proof (safe_start_op e _ s (resumed back) Hc Hpos (running_waits_not stack_size _ Hs) Hrun) as Hop.
  unfold safe in Hop. rewrite Ho in Hop. by destruct Hop as [[? _] _].
Qed.

(** A coroutine stays in its function object until it gives the control back. *)
Lemma in_co_left c ud p back s l s' :
  in_co stack_size body (InCo p back, s) (Main l, s') -> inv stack_size (InCo p back, s) ->
  runs_in c ud s -> left_in c ud s'.
Proof.
  intros Hin. remember (InCo p back, s) as x eqn:Ex. remember (Main l, s') as z eqn:Ez.
  revert p back s Ex l s' Ez. induction Hin as [|p0 back0 s0 y z Hst Hin IH];
    intros p1 back1 s1 Ex l1 s2 Ez Hinv Hr; [done|].
  injection Ex as <- <- <-. subst z. rename p0 into p, back0 into back, s0 into s, s2 into s', l1 into l.
  pose proof (step_inv stack_size body _ Hinv) as Hinv'. rewrite Hst in Hinv'.
  destruct Hr as (Hrun & co & Hco & Hud). unfold step, step_pc in Hst. simpl in Hst. unfold step_co in Hst.
  destruct y as [q y]. assert (forall s1, (Main back, s1) = (q, y) -> left_in c ud s1 -> left_in c ud s') as Hmain.
  { intros s1 [= <- <-] Hl. inversion Hin. by subst. }
  assert (forall p1 s1, (InCo p1 back, s1) = (q, y) -> m_schedule (cs s1) = m_schedule (cs s) -> left_in c ud s') as Hgo.
  { intros p1 s1 [= <- <-] Es. eapply IH; [done..|]. unfold runs_in. rewrite Es. eauto. }
  destruct (observe p) as [r|p'|A e k].
  - apply bind_inl in Hst as (u & s1 & [= _ <-] & [= <- <-]). apply (Hmain _ eq_refl). left. simpl.
    rewrite Hrun, Nat2Z.id. apply list_lookup_insert_eq. by eapply lookup_lt_Some.
  - injection Hst as <- <-. by apply (Hgo _ _ eq_refl).
  - apply bind_inl in Hst as (r & s1 & Ho & Hst). pose proof (start_op_schedule e s r s1 back Hinv Ho) as Es.
    destruct r as [a|wt]; [injection Hst as <- <-; by apply (Hgo _ _ eq_refl)|].
    apply bind_inl in Hst as (u & s2 & Hyd & [= <- <-]). apply (Hmain _ eq_refl). right.
    apply bind_inl in Hyd as (depth & s3 & Ho3 & Hyd). unfold sys, on_world in Ho3.
    destruct (os_call _ _) as [d wd]. injection Ho3 as <- <-. destruct (stack_size <? d)%nat; [done|].
    apply bind_inl in Hyd as (S & s4 & [= <- <-] & Hyd). simpl in Hyd. rewrite Es in Hyd.
    destruct (coroutine_yield _ _ _ _) as [S'|] eqn:E; [|done]. injection Hyd as _ <-. simpl.
    destruct (yield_func _ _ _ _ c co Hrun Hco E) as (co' & ? & Hf & ? & ?).
    eexists co', _. split_and!; [done|by rewrite Hf|done..].
Qed.

(** A coroutine of [m_coFuncList] runs in the object of the list. *)
Lemma new_runs_in i f s p s1 :
  inv stack_size (Main (AtNew i), s) -> m_coFuncList (cs s) !! i = Some f ->
  step stack_size body (Main (AtNew i), s) = inl (InCo p (AtNew (S i)), s1) ->
  exists c, runs_in c (CtxStart InFuncList f) s1.
Proof.
  intros [Hs Hb _ _ _ Hrun] Hf Hst. simpl in Hs, Hrun. unfold step, step_pc in Hst. simpl in Hst.
  apply bind_inl in Hst as (fs & s0 & [= <- <-] & Hst). rewrite Hf in Hst.
  apply bind_inl in Hst as (c & s0 & [= <- <-] & Hst). unfold coroutine_running in Hst.
  rewrite Hrun in Hst. simpl in Hst. apply bind_inl in Hst as (S0 & s0 & [= <- <-] & Hst).
  destruct (new_spec stack_size _ (CtxStart InFuncList f) Hs) as (S1 & id & E & Hs1 & _ & _ & _ & Hid & _).
  rewrite E in Hst. apply bind_inl in Hst as (? & s0 & [= _ <-] & Hst).
  apply bind_inl in Hst as (? & s2 & [= <- <-] & Hst). simpl in Hst.
  unfold resume_enter in Hst. rewrite Nat2Z.id, Hid in Hst.
  repeat case_match; try done. simplify_eq.
  apply bind_inl in Hst as (? & s2 & [= _ <-] & [= _ <-]). exists id. split; [done|]. simpl.
  eexists. split; [apply list_lookup_insert_eq; by eapply lookup_lt_Some|done].
Qed.

(** C32.  A function object handed to [NewCoroutine] by a coroutine lives in [m_coFuncList], and
    [RunNewCoFunc] clears the list when the last of its coroutines has given the control back for
    the first time.  So in every run, with any kernel, a coroutine of the list that has not returned
    by then is left suspended inside a function object that is destroyed, and its next resume goes
    on in it. *)
Theorem function_object_destroyed_in_use junk fs h w i f s p s1 s2 :
  length junk = stack_size -> steps stack_size body (initial junk fs h w) (Main (AtNew i), s) ->
  m_coFuncList (cs s) !! i = Some f ->
  step stack_size body (Main (AtNew i), s) = inl (InCo p (AtNew (S i)), s1) ->
  in_co stack_size body (InCo p (AtNew (S i)), s1) (Main (AtNew (S i)), s2) ->
  m_coFuncList (cs s2) !! S i = None ->
  exists c s3, sch_running (m_schedule (cs s1)) = Z.of_nat c /\
    step stack_size body (Main (AtNew (S i)), s2) = inl (Main (AtWait 0), s3) /\
    m_coFuncList (cs s3) = [] /\
    (sch_co (m_schedule (cs s3)) !! c = Some None \/
     exists co k S, sch_co (m_schedule (cs s3)) !! c = Some (Some co) /\
       co_func co = CtxStart InFuncList f /\ co_status co = COROUTINE_SUSPEND /\
       resume_enter stack_size (m_schedule (cs s3)) (Z.of_nat c) = EnterRun S k).
Proof.
  intros Hj Hsteps Hf Hst Hin Hend.
  pose proof (steps_inv stack_size body _ _ Hsteps (loop_initial_inv stack_size junk fs h w Hj)) as Hinv.
  destruct (new_runs_in i f s p s1 Hinv Hf Hst) as (c & Hc).
  pose proof (step_inv stack_size body _ Hinv) as Hinv1. rewrite Hst in Hinv1.
  pose proof (steps_inv stack_size body _ _ (in_co_steps stack_size body _ _ Hin) Hinv1) as [Hs2 _ _ _ _ Hrun2].
  pose proof (in_co_left c _ _ _ _ _ _ Hin Hinv1 Hc) as Hleft.
  exists c, (mkSt (set_funcList [] (cs s2)) (heap s2) (world s2)). split_and!.
  - apply Hc.
  - unfold step, step_pc. simpl. unfold mbind, act_bind. simpl. by rewrite Hend.
  - done.
  - destruct Hleft as [|(co & k & Hco & Hud & Hsus & Hk)]; [by left|right].
    destruct (resume_suspended stack_size _ c co k Hs2 Hrun2 Hco Hsus Hk) as (S & HS & _). eauto 10.
Qed.
End FunctionObjects.

(** Coroutine 1, started by coroutine 3, blocks in its first call. *)
Lemma function_object_destroyed_in_use_witness :
  exists c s3, sch_running (m_schedule (cs (snd (Demo.after [3%nat] 5)))) = Z.of_nat c /\
    step Demo.stack_size Demo.body (Main (AtNew 1), snd (Demo.after [3%nat] 6)) = inl (Main (AtWait 0), s3) /\
    m_coFuncList (cs s3) = [].
Proof.
  assert (steps Demo.stack_size Demo.body (Demo.start [3%nat]) (Main (AtNew 0), snd (Demo.after [3%nat] 4)))
    as Hsteps by (apply (run_steps _ _ 4); vm_compute; reflexivity).
  assert (m_coFuncList (cs (snd (Demo.after [3%nat] 4))) !! 0%nat = Some 1%nat) as Hf by (vm_compute; reflexivity).
  assert (step Demo.stack_size Demo.body (Main (AtNew 0), snd (Demo.after [3%nat] 4)) =
            inl (InCo (Demo.body 1) (AtNew 1), snd (Demo.after [3%nat] 5))) as Hst by (vm_compute; reflexivity).
  assert (step Demo.stack_size Demo.body (InCo (Demo.body 1) (AtNew 1), snd (Demo.after [3%nat] 5)) =
            inl (Main (AtNew 1), snd (Demo.after [3%nat] 6))) as Hco by (vm_compute; reflexivity).
  assert (m_coFuncList (cs (snd (Demo.after [3%nat] 6))) !! 1%nat = None) as Hend by (vm_compute; reflexivity).
  pose proof (in_co_step Demo.stack_size Demo.body _ _ _ _ _ Hco (in_co_back _ _ _ _)) as Hin.
  destruct (function_object_destroyed_in_use Demo.stack_size Demo.body (replicate Demo.stack_size 0) [3%nat] []
    Demo.kernel 0 1%nat _ _ _ _ eq_refl Hsteps Hf Hst Hin Hend) as (c & s3 & Hc & H3 & Hl & _).
  exists c, s3. exact (conj Hc (conj H3 Hl)).
Defined.

(** ** A second reader of a descriptor *)

Section SecondReader.
Context {W F Hp : Type} `{EpollLaws W}.

Lemma bind_run {A B} (m : act W F Hp A) (f : A -> act W F Hp B) s a s' :
  m s = inl (a, s') -> (m ≫= f) s = f a s'.
Proof. unfold mbind, act_bind. by intros ->. Qed.

Lemma watcher_hit fd x (s : st W F Hp) :
  m_coIdMap (cs s) !! fd = Some x -> watcher fd s = inl (x, s).
Proof. intros Hx. unfold watcher. erewrite bind_run by done. by rewrite Hx. Qed.

(** The registration of a second reader is refused, and nothing changes. *)
Lemma AddEvent_refused fd x (s : st W F Hp) :
  m_coIdMap (cs s) !! fd = Some x -> m_readCoId x <> -1 ->
  AddEvent fd EPOLLIN s = inl (false, s).
Proof.
  intros Hx Hr%Z.eqb_neq. unfold AddEvent, SaveToCoIdMap. rewrite (bind_run _ _ s false s); [done|].
  erewrite bind_run by done. erewrite bind_run by by apply watcher_hit.
  rewrite (bind_run _ _ s false s); [done|]. unfold HasReadCoroutine. by rewrite Hr.
Qed.

(** [DeleteEvent] removes a read registration, whoever made it. *)
Lemma DeleteEvent_read fd r (s : st W F Hp) w' :
  m_coIdMap (cs s) !! fd = Some (mkWatcher r (-1)) -> r <> -1 ->
  Update fd 0 (world s) = (0, w') ->
  DeleteEvent fd EPOLLIN s =
    inl (tt, mkSt (set_coIdMap (<[fd := FdWatcher_init]> (m_coIdMap (cs s))) (cs s)) (heap s) w').
Proof.
  intros Hx Hr%Z.eqb_neq Hu. unfold DeleteEvent. rewrite (bind_run _ _ s EPOLLIN s).
  2:{ unfold GetEvents. erewrite bind_run by by apply watcher_hit.
      unfold HasReadCoroutine. simpl. by rewrite Hr. }
  erewrite (bind_run (on_world _)) by by (unfold on_world; simpl; rewrite Hu).
  simpl. unfold ResetInCoIdMap. simpl. rewrite (bind_run _ _ _ tt
    (mkSt (set_coIdMap (<[fd := FdWatcher_init]> (m_coIdMap (cs s))) (cs s)) (heap s) w')); [done|].
  by erewrite bind_run by by apply watcher_hit.
Qed.

(** C31.  [Read] of a descriptor that another coroutine is blocked on: the registration is refused
    with -1, which [Read] ignores; it retries at once, returns -EAGAIN to its caller, and on its
    way out removes the registration of the first coroutine from [m_coIdMap] and from epoll, so
    that data on the descriptor will never wake it. *)
Theorem second_reader_unregisters_first (s : st W F Hp) fd size x w1 w2 :
  m_handlingTimeout (cs s) = false -> m_coIdMap (cs s) !! fd = Some x ->
  m_readCoId x <> -1 -> m_writeCoId x = -1 ->
  os_call (sys_read fd size) (world s) = (Errno EAGAIN, w1) ->
  os_call (sys_read fd size) w1 = (Errno EAGAIN, w2) -> pollable w2 fd ->
  exists s', start_op (Read fd size 0) s = inl (inl (- EAGAIN, []), s') /\
    m_coIdMap (cs s') !! fd = Some FdWatcher_init /\ interest (world s') !! fd = None.
Proof.
  intros Hh Hx Hr Hw Hread1 Hread2 Hpoll. destruct x as [r w]. simpl in Hr, Hw. subst w.
  destruct (Update_reaches w2 fd 0 Hpoll) as (w3 & Hu & Hi & _).
  eexists. split_and!.
  - unfold start_op, Read_start, sys. erewrite (bind_run (on_world _)) by by (unfold on_world; rewrite Hread1).
    unfold block. simpl. erewrite bind_run by done. erewrite bind_run by done.
    erewrite (bind_run (AddEvent _ _)) by (eapply AddEvent_refused; [exact Hx|done]).
    unfold Read_finish, unblock. rewrite (bind_run _ _ _ (- EAGAIN, []) 
      (mkSt (set_coIdMap (<[fd := FdWatcher_init]> (m_coIdMap (cs s))) (cs s)) (heap s) w3)); [done|].
    erewrite bind_run by done. cbn [cs]. rewrite Hh.
    erewrite bind_run by (erewrite bind_run by (unfold sys, on_world; simpl; by rewrite Hread2); done).
    by erewrite bind_run by (eapply (DeleteEvent_read _ _ (mkSt (cs s) (heap s) w2)); done).
  - simpl. apply lookup_insert_eq.
  - simpl. rewrite Hi. apply lookup_delete_eq.
Qed.
End SecondReader.

(** Coroutine 0 is blocked on descriptor 5 when coroutine 1 reads it. *)
Definition two_readers : st ToyOS.world nat Demo.log :=
  snd (Demo.after_on
    (ToyOS.mkWorld ∅ {[5 := replicate 3 (Errno EAGAIN)]} [] (mkTimeval 100 0) []) [0%nat; 1%nat] 3).

Lemma second_reader_unregisters_first_witness :
  m_coIdMap (cs two_readers) !! 5 = Some (mkWatcher 0 (-1)) /\
  exists s', start_op (Read 5 10 0) two_readers = inl (inl (- EAGAIN, []), s') /\
    m_coIdMap (cs s') !! 5 = Some FdWatcher_init /\ interest (world s') !! 5 = None.
Proof.
  assert (m_coIdMap (cs two_readers) !! 5 = Some (mkWatcher 0 (-1))) as Hx by (vm_compute; reflexivity).
  split; [exact Hx|].
  apply (second_reader_unregisters_first two_readers 5 10 (mkWatcher 0 (-1))
    (snd (os_call (sys_read 5 10) (world two_readers)))
    (snd (os_call (sys_read 5 10) (snd (os_call (sys_read 5 10) (world two_readers))))));
    [vm_compute; reflexivity|exact Hx|discriminate|reflexivity|vm_compute; reflexivity|
     vm_compute; reflexivity|exact I].
Defined.

(** ** Streams *)

Lemma ReadFull_refines_witness :
  serve_reads 9 5 [(2, [65; 66]); (1, [67])] (ReadFull (F := nat) (Hp := Demo.log) 5 3 0) =
    Some ((3, [65; 66; 67]), []).
Proof.
  destruct (ReadFull_refines (F := nat) (Hp := Demo.log) 5 3 0 [(2, [65; 66]); (1, [67])])
    as [E _]; [repeat constructor; right; reflexivity|exact E].
Defined.

Lemma WriteAll_refines_witness :
  serve_writes 9 5 [2; 1] [] (WriteAll (F := nat) (Hp := Demo.log) 5 (Some [65; 66; 67]) 3 0) =
    Some (3, [65; 66; 67]).
Proof.
  destruct (WriteAll_refines (F := nat) (Hp := Demo.log) 5 [65; 66; 67] 0 [2; 1]) as [E _].
  - simpl. right. split; [lia|]. right. split; [lia|exact I].
  - exact E.
Defined.

Lemma WriteAll_null_spins_witness :
  exists p, run Demo.stack_size Demo.body 100
    (InCo (ITree.bind (WriteAll 5 None 4 0) (fun _ => Ret tt)) AtPoll, two_readers) =
    inl (InCo p AtPoll, two_readers).
Proof. apply (WriteAll_null_spins Demo.stack_size Demo.body 5 4 0 _ AtPoll two_readers 100). lia. Defined.
