(* ===== verification/UrlCodec.v ===== *)
(** * base/UrlCodec: percent encoding

    The functions of namespace [url_codec], on bytes.  [isalnum] is the standard library's, in the
    "C" locale; the loops over an index become recursions on the remaining characters. *)

From S2P Require Import Prelude.

Open Scope Z_scope.

Definition ToHex (x : Z) : Z := u8 (if x >? 9 then x + 55 else x + 48).

Definition FromHex (x : Z) : Z :=
  if (x >=? chr "A") && (x <=? chr "Z") then u8 (x - chr "A" + 10)
  else if (x >=? chr "a") && (x <=? chr "z") then u8 (x - chr "a" + 10)
  else if (x >=? chr "0") && (x <=? chr "9") then u8 (x - chr "0")
  else 0.

Definition isalnum (c : Z) : bool :=
  ((chr "A" <=? c) && (c <=? chr "Z")) || ((chr "a" <=? c) && (c <=? chr "z")) ||
  ((chr "0" <=? c) && (c <=? chr "9")).

(** The characters [UrlEncode] keeps. *)
Definition url_unreserved (c : Z) : bool :=
  isalnum c || (c =? chr "-") || (c =? chr "_") || (c =? chr ".") || (c =? chr "~").

(** What one turn of the loop of [UrlEncode] appends. *)
Definition UrlEncode_char (c : Z) : bytes :=
  if url_unreserved c then [c]
  else if c =? chr " " then bs "+"
  else [chr "%"; ToHex (Z.shiftr c 4); ToHex (c mod 16)].

Fixpoint UrlEncode (str : bytes) : bytes :=
  match str with
  | [] => []
  | c :: rest => UrlEncode_char c ++ UrlEncode rest
  end.

(** [i + 2 >= str.size()] holds when fewer than two characters follow the '%'. *)
Fixpoint UrlDecode (str : bytes) : bytes :=
  match str with
  | [] => []
  | c :: rest =>
      if c =? chr "+" then chr " " :: UrlDecode rest
      else if c =? chr "%" then
        match rest with
        | h :: l :: rest' => u8 (FromHex h * 16 + FromHex l) :: UrlDecode rest'
        | _ => UrlDecode rest
        end
      else c :: UrlDecode rest
  end.

(** ** Round trip *)

Lemma FromHex_ToHex x : 0 <= x < 16 -> FromHex (ToHex x) = x.
Proof.
  intros Hx. assert (x ∈ seqZ 0 16) as Hin by (apply elem_of_seqZ; lia).
  clear Hx. revert x Hin. apply Forall_forall. repeat constructor.
Qed.

Lemma UrlDecode_Encode_char c rest :
  is_byte c -> UrlDecode (UrlEncode_char c ++ rest) = c :: UrlDecode rest.
Proof.
  intros [H1 H2]. unfold UrlEncode_char. destruct (url_unreserved c) eqn:E.
  - simpl. assert (c <> chr "+" /\ c <> chr "%") as [Hp Hq].
    { split; intros ->; by vm_compute in E. }
    by rewrite (proj2 (Z.eqb_neq _ _) Hp), (proj2 (Z.eqb_neq _ _) Hq).
  - destruct (c =? chr " ") eqn:E2; breflect; [by subst|].
    cbn -[ToHex FromHex u8]. rewrite Z.shiftr_div_pow2 by lia. change (2 ^ 4) with 16.
    rewrite !FromHex_ToHex by divlia.
    rewrite u8_small by (unfold is_byte; divlia). f_equal. divlia.
Qed.

Lemma decode_encode str : Forall is_byte str -> UrlDecode (UrlEncode str) = str.
Proof.
  induction 1 as [|c str Hc Hs IH]; [done|].
  cbn [UrlEncode]. by rewrite UrlDecode_Encode_char, IH.
Qed.

(** C33.  Decoding inverts encoding on every byte string. *)
Theorem UrlDecode_UrlEncode str : Forall is_byte str -> UrlDecode (UrlEncode str) = str.
Proof. apply decode_encode. Qed.

(** The characters an encoded string is made of. *)
Definition url_safe (c : Z) : bool := url_unreserved c || (c =? chr "+") || (c =? chr "%").

Lemma ToHex_safe x : 0 <= x < 16 -> url_safe (ToHex x) = true.
Proof.
  intros Hx. assert (x ∈ seqZ 0 16) as Hin by (apply elem_of_seqZ; lia).
  clear Hx. revert x Hin. apply Forall_forall. repeat constructor.
Qed.

Lemma encode_safe s : Forall is_byte s -> Forall (fun c => url_safe c = true) (UrlEncode s).
Proof.
  induction 1 as [|c s Hc Hs IH]; [constructor|]. cbn [UrlEncode]. apply Forall_app.
  split; [|done]. unfold UrlEncode_char. destruct (url_unreserved c) eqn:E.
  - repeat constructor. unfold url_safe. by rewrite E.
  - unfold is_byte in Hc. destruct (c =? chr " "); [by repeat constructor|].
    rewrite Z.shiftr_div_pow2 by lia. change (2 ^ 4) with 16.
    repeat constructor; try apply ToHex_safe; divlia.
Qed.

(** An encoded string consists of unreserved characters, '+' and '%' only (so it can stand
    in a query string), is at most three times as long, and distinct strings stay distinct. *)
Theorem UrlEncode_safe s1 s2 : Forall is_byte s1 -> Forall is_byte s2 ->
  Forall (fun c => url_safe c = true) (UrlEncode s1) /\
  (length (UrlEncode s1) <= 3 * length s1)%nat /\
  (UrlEncode s1 = UrlEncode s2 -> s1 = s2).
Proof.
  intros H1 H2. split_and!.
  - by apply encode_safe.
  - clear H1. induction s1 as [|c s IH]; [simpl; lia|]. cbn [UrlEncode].
    rewrite length_app. unfold UrlEncode_char. repeat case_match; simpl in *; lia.
  - intros Heq. rewrite <-(decode_encode s1), <-(decode_encode s2) by done.
    by rewrite Heq.
Qed.

(** A decoded string is never longer, and consists of bytes. *)
Lemma UrlDecode_spec str : Forall is_byte str ->
  Forall is_byte (UrlDecode str) /\ (length (UrlDecode str) <= length str)%nat.
Proof.
  remember (length str) as n eqn:Hn. revert str Hn.
  induction n as [n IH] using lt_wf_ind. intros str -> Hs.
  destruct str as [|c rest]; [by split|]. apply Forall_cons in Hs as [Hc Hr].
  destruct (IH (length rest) ltac:(simpl; lia) rest eq_refl Hr) as [IH1 IH2].
  cbn [UrlDecode length]. destruct (c =? chr "+"); [split; [by constructor|simpl; lia]|].
  destruct (c =? chr "%"); [|split; [by constructor|simpl; lia]].
  destruct rest as [|h [|l rest']]; [split; [done|simpl in *; lia]..|].
  apply Forall_cons in Hr as [_ [_ Hr]%Forall_cons].
  destruct (IH (length rest') ltac:(simpl; lia) rest' eq_refl Hr) as [IH3 IH4].
  split; [constructor; [apply u8_byte|done]|simpl; lia].
Qed.

Lemma UrlDecode_UrlEncode_witness :
  UrlEncode (bs "a b/c?d=%") = bs "a+b%2Fc%3Fd%3D%25" /\
  UrlDecode (UrlEncode (bs "a b/c?d=%")) = bs "a b/c?d=%".
Proof. split; [reflexivity|]. apply UrlDecode_UrlEncode. by_compute. Defined.

Lemma UrlEncode_safe_witness :
  Forall (fun c => url_safe c = true) (UrlEncode (bs "x&y")) /\
  (length (UrlEncode (bs "x&y")) <= 3 * length (bs "x&y"))%nat /\
  (UrlEncode (bs "x&y") = UrlEncode (bs "x+y") -> bs "x&y" = bs "x+y").
Proof. apply UrlEncode_safe; by_compute. Defined.
