(* ===== verification/Base64.v ===== *)
(** * 3rd/base64: RFC 4648 encoding

    [base64_encode] and [base64_decode] with their 32-bit accumulators, and the encoding of
    RFC 4648 as their specification.  [ndebug] says whether the build defines [NDEBUG], which
    removes the assertions (the build script does, the bare CMake project does not). *)

From S2P Require Import Prelude.

Open Scope Z_scope.

Definition b64_table : bytes :=
  bs "ABCDEFGHIJKLMNOPQRSTUVWXYZabcdefghijklmnopqrstuvwxyz0123456789+/".

Definition reverse_table : list Z := [
   64; 64; 64; 64; 64; 64; 64; 64; 64; 64; 64; 64; 64; 64; 64; 64;
   64; 64; 64; 64; 64; 64; 64; 64; 64; 64; 64; 64; 64; 64; 64; 64;
   64; 64; 64; 64; 64; 64; 64; 64; 64; 64; 64; 62; 64; 64; 64; 63;
   52; 53; 54; 55; 56; 57; 58; 59; 60; 61; 64; 64; 64; 64; 64; 64;
   64;  0;  1;  2;  3;  4;  5;  6;  7;  8;  9; 10; 11; 12; 13; 14;
   15; 16; 17; 18; 19; 20; 21; 22; 23; 24; 25; 64; 64; 64; 64; 64;
   64; 26; 27; 28; 29; 30; 31; 32; 33; 34; 35; 36; 37; 38; 39; 40;
   41; 42; 43; 44; 45; 46; 47; 48; 49; 50; 51; 64; 64; 64; 64; 64].

(** The result of [base64_encode]: a value, [std::length_error], or a failed assertion. *)
Inductive b64_result := B64Ok (s : bytes) | B64LengthError | B64Assert.

Definition size_max : Z := 2 ^ 64 - 1.

(** [b64_table[i]] and [reverse_table[c]] *)
Definition b64_char (i : Z) : Z := nth (Z.to_nat i) b64_table 0.
Definition b64_rev (c : Z) : Z := nth (Z.to_nat c) reverse_table 64.

(** The inner [while (bits_collected >= 6)]; [Z.to_nat bits] turns are more than enough. *)
Fixpoint encode_while (fuel : nat) (accumulator bits : Z) (outpos : nat) (retval : bytes)
    : Z * nat * bytes :=
  match fuel with
  | O => (bits, outpos, retval)
  | S fuel' =>
      if bits >=? 6 then
        let bits := bits - 6 in
        encode_while fuel' accumulator bits (S outpos)
          (<[outpos := b64_char (Z.land (Z.shiftr accumulator bits) 0x3f)]> retval)
      else (bits, outpos, retval)
  end.

(** The outer [for] over the input. *)
Fixpoint encode_loop (bindata : bytes) (accumulator bits : Z) (outpos : nat) (retval : bytes)
    : Z * Z * nat * bytes :=
  match bindata with
  | [] => (accumulator, bits, outpos, retval)
  | i :: rest =>
      let accumulator := Z.lor (u32 (Z.shiftl accumulator 8)) (Z.land i 0xff) in
      let bits := bits + 8 in
      let '(bits, outpos, retval) :=
        encode_while (Z.to_nat bits) accumulator bits outpos retval in
      encode_loop rest accumulator bits outpos retval
  end.

Definition base64_encode (ndebug : bool) (bindata : bytes) : b64_result :=
  let binlen := Z.of_nat (length bindata) in
  if binlen >? size_max / 4 * 3 then B64LengthError
  else
    let retval := replicate (Z.to_nat ((binlen + 2) / 3 * 4)) (chr "=") in
    let '(accumulator, bits, outpos, retval) := encode_loop bindata 0 0 0 retval in
    let '(outpos, retval) :=
      if bits >? 0 then
        let accumulator := u32 (Z.shiftl accumulator (6 - bits)) in
        (S outpos, <[outpos := b64_char (Z.land accumulator 0x3f)]> retval)
      else (outpos, retval) in
    if ndebug then B64Ok retval
    else if negb ((bits <=? 0) || (bits <? 6)) then B64Assert
    else if negb (Z.of_nat outpos >=? u64 (Z.of_nat (length retval) - 2)) then B64Assert
    else if negb (outpos <=? length retval)%nat then B64Assert
    else B64Ok retval.

(** [std::isspace] in the "C" locale *)
Definition isspace (c : Z) : bool := (c =? 32) || ((9 <=? c) && (c <=? 13)).

(** [base64_decode]; [None] is [std::invalid_argument]. *)
Fixpoint decode_loop (ascdata : bytes) (accumulator bits : Z) (retval : bytes) : option bytes :=
  match ascdata with
  | [] => Some retval
  | i :: rest =>
      let c := schar i in
      if isspace c || (c =? chr "=") then decode_loop rest accumulator bits retval
      else if (c >? 127) || (c <? 0) || (b64_rev c >? 63) then None
      else
        let accumulator := Z.lor (u32 (Z.shiftl accumulator 6)) (b64_rev c) in
        let bits := bits + 6 in
        if bits >=? 8 then
          let bits := bits - 8 in
          decode_loop rest accumulator bits
            (retval ++ [Z.land (Z.shiftr accumulator bits) 0xff])
        else decode_loop rest accumulator bits retval
  end.

Definition base64_decode (ascdata : bytes) : option bytes := decode_loop ascdata 0 0 [].

(** ** The text, group by group *)

Fixpoint b64_groups (s : bytes) : bytes :=
  match s with
  | [] => []
  | [a] => [b64_char (a / 4); b64_char (a mod 4 * 16); chr "="; chr "="]
  | [a; b] =>
      [b64_char (a / 4); b64_char (a mod 4 * 16 + b / 16); b64_char (b mod 16 * 4); chr "="]
  | a :: b :: c :: rest =>
      b64_char (a / 4) :: b64_char (a mod 4 * 16 + b / 16) ::
      b64_char (b mod 16 * 4 + c / 64) :: b64_char (c mod 64) :: b64_groups rest
  end.

(** The characters the decoder does not throw on. *)
Definition b64_legal (i : Z) : bool :=
  let c := schar i in
  isspace c || (c =? chr "=") || negb ((c >? 127) || (c <? 0) || (b64_rev c >? 63)).

(** ** Bits *)

Lemma lor_shift_add x y n : 0 <= n -> 0 <= y < 2 ^ n -> Z.lor (Z.shiftl x n) y = x * 2 ^ n + y.
Proof.
  intros Hn Hy. rewrite <-Z.shiftl_mul_pow2 by done. symmetry. apply Z.add_nocarry_lor.
  apply Z.bits_inj'. intros i Hi. rewrite Z.land_spec, Z.bits_0.
  destruct (decide (i < n)); [by rewrite Z.shiftl_spec_low|].
  assert (y mod 2 ^ n = y) as <- by (by apply Z.mod_small).
  rewrite Z.mod_pow2_bits_high by lia. apply andb_false_r.
Qed.

Lemma land_ff i : Z.land i 0xff = i mod 256.
Proof. change 0xff with (Z.ones 8). by rewrite Z.land_ones. Qed.

Lemma land_3f i : Z.land i 0x3f = i mod 64.
Proof. change 0x3f with (Z.ones 6). by rewrite Z.land_ones. Qed.

(** One shift of the accumulator, as arithmetic: the bits above the 32nd are lost. *)
Lemma accum_shift acc n y : 0 <= n <= 8 -> 0 <= y < 2 ^ n ->
  exists h, Z.lor (u32 (Z.shiftl acc n)) y = h * 2 ^ 32 + acc * 2 ^ n + y.
Proof.
  intros Hn Hy. unfold u32. rewrite Z.shiftl_mul_pow2 by lia.
  assert ((acc * 2 ^ n) mod 2 ^ 32 = Z.shiftl (acc mod 2 ^ (32 - n)) n) as ->.
  { rewrite Z.shiftl_mul_pow2 by lia. replace 32 with ((32 - n) + n) at 1 by lia.
    rewrite Z.pow_add_r by lia. rewrite Z.mul_mod_distr_r; [done|..]; apply Z.pow_nonzero; lia. }
  rewrite lor_shift_add by lia. exists (- (acc / 2 ^ (32 - n))).
  pose proof (Z.div_mod acc (2 ^ (32 - n)) ltac:(apply Z.pow_nonzero; lia)) as Hdm.
  replace (2 ^ 32) with (2 ^ (32 - n) * 2 ^ n) by (rewrite <-Z.pow_add_r by lia; f_equal; lia).
  set (q := acc / 2 ^ (32 - n)) in *. set (r := acc mod 2 ^ (32 - n)) in *.
  clearbody q r. rewrite Hdm. ring.
Qed.

(** ** The encoder, three bytes at a time *)

Lemma write_at (pre post : bytes) y x n :
  length pre = n -> <[n := x]> (pre ++ y :: post) = (pre ++ [x]) ++ post.
Proof.
  intros <-. rewrite insert_app_r_alt by lia. rewrite Nat.sub_diag. simpl. by rewrite <-app_assoc.
Qed.

(** The turns of the inner loop, by the number of bits collected. *)
Lemma encode_while_step f A bits o r : 6 <= bits ->
  encode_while (S f) A bits o r =
  encode_while f A (bits - 6) (S o) (<[o := b64_char ((A / 2 ^ (bits - 6)) mod 64)]> r).
Proof.
  intros Hb. cbn [encode_while]. rewrite Z.geb_leb, (proj2 (Z.leb_le 6 bits)) by done.
  by rewrite land_3f, Z.shiftr_div_pow2 by lia.
Qed.

Lemma encode_while_stop f A bits o r : bits < 6 -> encode_while f A bits o r = (bits, o, r).
Proof.
  intros Hb. destruct f as [|f]; [done|]. cbn [encode_while].
  by rewrite Z.geb_leb, (proj2 (Z.leb_gt 6 bits)).
Qed.

Lemma encode_while_8 A o r :
  encode_while 8 A 8 o r = (2, S o, <[o := b64_char ((A / 4) mod 64)]> r).
Proof. by rewrite encode_while_step, encode_while_stop. Qed.

Lemma encode_while_10 A o r :
  encode_while 10 A 10 o r = (4, S o, <[o := b64_char ((A / 16) mod 64)]> r).
Proof. by rewrite encode_while_step, encode_while_stop. Qed.

Lemma encode_while_12 A o r :
  encode_while 12 A 12 o r =
    (0, S (S o), <[S o := b64_char (A mod 64)]> (<[o := b64_char ((A / 64) mod 64)]> r)).
Proof.
  rewrite !encode_while_step, encode_while_stop by lia. change (12 - 6 - 6) with 0.
  by rewrite Z.pow_0_r, Z.div_1_r.
Qed.

Section Groups.
Context (acc : Z) (pre : bytes) (n : nat) (Hpre : length pre = n).

Lemma encode_1 a y tail : is_byte a -> forall rest, exists acc' h,
  acc' = h * 2 ^ 32 + acc * 256 + a /\
  encode_loop (a :: rest) acc 0 n (pre ++ y :: tail) =
  encode_loop rest acc' 2 (S n) ((pre ++ [b64_char (a / 4)]) ++ tail).
Proof.
  intros Ha rest. unfold is_byte in Ha. cbn [encode_loop]. rewrite land_ff.
  rewrite (Z.mod_small a) by lia.
  destruct (accum_shift acc 8 a ltac:(lia) ltac:(lia)) as [h Hh]. rewrite Hh.
  change (Z.to_nat (0 + 8)) with 8%nat. change (0 + 8) with 8. rewrite encode_while_8.
  set (A := h * 2 ^ 32 + acc * 2 ^ 8 + a). assert (A / 4 mod 64 = a / 4) as -> by divlia.
  exists A, h. split; [done|]. by rewrite (write_at _ _ _ _ _ Hpre).
Qed.

Lemma encode_2 a b y0 y1 tail : is_byte a -> is_byte b -> forall rest, exists acc' h h',
  acc' = h' * 2 ^ 32 + (h * 2 ^ 32 + acc * 256 + a) * 256 + b /\
  encode_loop (a :: b :: rest) acc 0 n (pre ++ y0 :: y1 :: tail) =
  encode_loop rest acc' 4 (S (S n))
    ((pre ++ [b64_char (a / 4); b64_char (a mod 4 * 16 + b / 16)]) ++ tail).
Proof.
  intros Ha Hb rest. unfold is_byte in *.
  destruct (encode_1 a y0 (y1 :: tail) Ha (b :: rest)) as (acc1 & h & Hacc1 & ->).
  cbn [encode_loop]. rewrite land_ff, (Z.mod_small b) by lia.
  destruct (accum_shift acc1 8 b ltac:(lia) ltac:(lia)) as [h' Hh]. rewrite Hh.
  change (Z.to_nat (2 + 8)) with 10%nat. change (2 + 8) with 10. rewrite encode_while_10.
  set (A := h' * 2 ^ 32 + acc1 * 2 ^ 8 + b).
  assert (A / 16 mod 64 = a mod 4 * 16 + b / 16) as -> by (subst acc1; divlia).
  exists A, h, h'. split; [by rewrite <-Hacc1|].
  rewrite (write_at _ _ _ _ (S n)) by (rewrite length_app; simpl; lia).
  by rewrite <-(app_assoc pre).
Qed.

Lemma encode_3 a b c y0 y1 y2 y3 tail : is_byte a -> is_byte b -> is_byte c ->
  forall rest, exists acc',
  encode_loop (a :: b :: c :: rest) acc 0 n (pre ++ y0 :: y1 :: y2 :: y3 :: tail) =
  encode_loop rest acc' 0 (n + 4)
    ((pre ++ [b64_char (a / 4); b64_char (a mod 4 * 16 + b / 16);
              b64_char (b mod 16 * 4 + c / 64); b64_char (c mod 64)]) ++ tail).
Proof.
  intros Ha Hb Hc rest. unfold is_byte in *.
  destruct (encode_2 a b y0 y1 (y2 :: y3 :: tail) Ha Hb (c :: rest))
    as (acc2 & h & h' & Hacc2 & ->).
  cbn [encode_loop]. rewrite land_ff, (Z.mod_small c) by lia.
  destruct (accum_shift acc2 8 c ltac:(lia) ltac:(lia)) as [h'' Hh]. rewrite Hh.
  change (Z.to_nat (4 + 8)) with 12%nat. change (4 + 8) with 12. rewrite encode_while_12.
  set (A := h'' * 2 ^ 32 + acc2 * 2 ^ 8 + c).
  assert (A / 64 mod 64 = b mod 16 * 4 + c / 64) as -> by (subst acc2; divlia).
  assert (A mod 64 = c mod 64) as -> by divlia.
  exists A. rewrite (write_at _ _ _ _ (S (S n))) by (rewrite length_app; simpl; lia).
  rewrite (write_at _ _ _ _ (S (S (S n)))) by (rewrite !length_app; simpl; lia).
  rewrite <-!(app_assoc pre). by replace (n + 4)%nat with (S (S (S (S n)))) by lia.
Qed.
End Groups.

(** What the loop leaves: the groups written, and the state of the last group. *)
Lemma encode_loop_spec s : Forall is_byte s -> forall acc pre n,
  length pre = n ->
  let '(acc', bits, outpos, retval) :=
    encode_loop s acc 0 n (pre ++ replicate ((length s + 2) / 3 * 4) (chr "=")) in
  (bits = 0 /\ outpos = (n + (length s + 2) / 3 * 4)%nat /\ retval = pre ++ b64_groups s) \/
  (bits > 0 /\ bits < 6 /\ (S outpos <= n + (length s + 2) / 3 * 4 <= outpos + 3)%nat /\
   <[outpos := b64_char (Z.land (u32 (Z.shiftl acc' (6 - bits))) 0x3f)]> retval =
     pre ++ b64_groups s).
Proof.
  remember (length s) as len eqn:Hlen. revert s Hlen.
  induction len as [len IH] using lt_wf_ind. intros s -> Hs acc pre n Hpre.
  destruct s as [|a [|b [|c rest]]].
  - simpl. left. rewrite !app_nil_r. split_and!; [done|lia|done].
  - apply Forall_cons in Hs as [Ha _].
    destruct (encode_1 acc pre n Hpre a (chr "=") [61; 61; 61] Ha [])
      as (acc' & h & Hacc' & Heq). cbn [replicate length Nat.add Nat.div Nat.divmod fst Nat.mul].
    simpl replicate. rewrite Heq. cbn [encode_loop]. right. unfold is_byte in Ha.
    rewrite (write_at _ _ _ _ (S n)) by (rewrite length_app; simpl; lia).
    split_and!; [lia..|simpl; lia|simpl; lia|]. rewrite <-!app_assoc. simpl app.
    rewrite land_3f. unfold u32. rewrite Z.shiftl_mul_pow2 by lia. simpl b64_groups.
    do 3 f_equal. f_equal. subst acc'. change (2 ^ (6 - 2)) with 16. divlia.
  - apply Forall_cons in Hs as [Ha [Hb _]%Forall_cons].
    destruct (encode_2 acc pre n Hpre a b (chr "=") (chr "=") [61; 61] Ha Hb [])
      as (acc' & h & h' & Hacc' & Heq). simpl replicate. rewrite Heq. cbn [encode_loop]. right.
    unfold is_byte in *.
    rewrite (write_at _ _ _ _ (S (S n))) by (rewrite length_app; simpl; lia).
    split_and!; [lia..|simpl; lia|simpl; lia|]. rewrite <-!app_assoc. simpl app.
    rewrite land_3f. unfold u32. rewrite Z.shiftl_mul_pow2 by lia. simpl b64_groups.
    do 4 f_equal. f_equal. subst acc'. change (2 ^ (6 - 4)) with 4. divlia.
  - apply Forall_cons in Hs as [Ha [Hb [Hc Hr]%Forall_cons]%Forall_cons].
    replace ((length (a :: b :: c :: rest) + 2) / 3 * 4)%nat
      with (4 + (length rest + 2) / 3 * 4)%nat.
    2:{ simpl length. replace (S (S (S (length rest))) + 2)%nat
          with (length rest + 2 + 1 * 3)%nat by lia. rewrite Nat.div_add by lia. lia. }
    destruct (encode_3 acc pre n Hpre a b c (chr "=") (chr "=") (chr "=") (chr "=")
      (replicate ((length rest + 2) / 3 * 4) (chr "=")) Ha Hb Hc rest) as (acc' & Heq).
    change (replicate (4 + ?k) ?x) with (x :: x :: x :: x :: replicate k x). rewrite Heq.
    specialize (IH (length rest) ltac:(simpl; lia) rest eq_refl Hr acc'
      (pre ++ [b64_char (a / 4); b64_char (a mod 4 * 16 + b / 16);
               b64_char (b mod 16 * 4 + c / 64); b64_char (c mod 64)]) (n + 4)%nat
      ltac:(rewrite length_app; simpl; lia)).
    destruct (encode_loop rest acc' 0 (n + 4) _) as [[[acc2 bits] outpos] retval].
    simpl b64_groups. rewrite <-app_assoc in IH. simpl app in IH.
    destruct IH as [(-> & -> & ->)|(H1 & H2 & H3 & H4)]; [left|right].
    + split_and!; [done|lia|done].
    + split_and!; [lia..|done].
Qed.

(** ** The decoder *)

(** Each of the 64 characters reads back as its index, and is neither padding nor a space. *)
Lemma b64_char_decodes v : 0 <= v < 64 ->
  let c := b64_char v in
  schar c = c /\ isspace c = false /\ (c =? chr "=") = false /\
  ((c >? 127) || (c <? 0) || (b64_rev c >? 63)) = false /\ b64_rev c = v.
Proof.
  intros Hv c. subst c. assert (v ∈ seqZ 0 64) as Hin by (apply elem_of_seqZ; lia).
  clear Hv. revert v Hin. apply Forall_forall. by_compute.
Qed.

(** One turn of the loop on such a character, when it completes a byte and when it does not. *)
Lemma decode_char_out v rest acc bits bits' out : 0 <= v < 64 -> bits' = bits + 6 - 8 -> 0 <= bits' ->
  exists acc' h, acc' = h * 2 ^ 32 + acc * 64 + v /\
  decode_loop (b64_char v :: rest) acc bits out =
    decode_loop rest acc' bits' (out ++ [(acc' / 2 ^ bits') mod 256]).
Proof.
  intros Hv -> Hb. destruct (b64_char_decodes v Hv) as (H1 & H2 & H3 & H4 & H5).
  cbn [decode_loop]. rewrite H1, H2, H3, H4, H5, Z.geb_leb. cbn [orb]. decide_cmp.
  destruct (accum_shift acc 6 v ltac:(lia) ltac:(lia)) as [h Hh].
  exists (h * 2 ^ 32 + acc * 2 ^ 6 + v), h. split; [done|].
  by rewrite Hh, land_ff, Z.shiftr_div_pow2.
Qed.

Lemma decode_char_in v rest acc bits bits' out : 0 <= v < 64 -> bits' = bits + 6 -> bits' < 8 ->
  exists acc' h, acc' = h * 2 ^ 32 + acc * 64 + v /\
  decode_loop (b64_char v :: rest) acc bits out = decode_loop rest acc' bits' out.
Proof.
  intros Hv -> Hb. destruct (b64_char_decodes v Hv) as (H1 & H2 & H3 & H4 & H5).
  cbn [decode_loop]. rewrite H1, H2, H3, H4, H5, Z.geb_leb. cbn [orb]. decide_cmp.
  destruct (accum_shift acc 6 v ltac:(lia) ltac:(lia)) as [h Hh].
  exists (h * 2 ^ 32 + acc * 2 ^ 6 + v), h. split; [done|]. by rewrite Hh.
Qed.

(** Run the decoder over the next character of the goal. *)
Ltac decode_step :=
  match goal with
  | |- context [decode_loop (b64_char ?v :: ?rest) ?acc ?bits ?out] =>
      let acc' := fresh "acc" in let h := fresh "h" in
      let Hacc := fresh "Hacc" in let Heq := fresh "Heq" in
      let b := eval vm_compute in (bits + 6) in
      let b' := eval vm_compute in (bits + 6 - 8) in
      first [ destruct (decode_char_in v rest acc bits b out) as (acc' & h & Hacc & Heq);
                [divlia|reflexivity|lia|]
            | destruct (decode_char_out v rest acc bits b' out) as (acc' & h & Hacc & Heq);
                [divlia|reflexivity|lia|] ];
      rewrite Heq; clear Heq
  end.

Lemma decode_group a b c rest acc out : is_byte a -> is_byte b -> is_byte c ->
  exists acc', decode_loop (b64_groups (a :: b :: c :: rest)) acc 0 out =
    decode_loop (b64_groups rest) acc' 0 (out ++ [a; b; c]).
Proof.
  intros Ha Hb Hc. unfold is_byte in *. cbn [b64_groups].
  do 4 decode_step. exists acc3. rewrite <-!app_assoc. simpl app.
  assert (acc1 / 2 ^ 4 mod 256 = a) as -> by divlia.
  assert (acc2 / 2 ^ 2 mod 256 = b) as -> by divlia.
  by assert (acc3 / 2 ^ 0 mod 256 = c) as -> by divlia.
Qed.

Lemma decode_groups s : Forall is_byte s -> forall acc out,
  decode_loop (b64_groups s) acc 0 out = Some (out ++ s).
Proof.
  remember (length s) as len eqn:Hlen. revert s Hlen.
  induction len as [len IH] using lt_wf_ind. intros s -> Hs acc out.
  destruct s as [|a [|b [|c rest]]].
  - simpl. by rewrite app_nil_r.
  - apply Forall_cons in Hs as [Ha _]. unfold is_byte in Ha. cbn [b64_groups].
    do 2 decode_step. change (decode_loop [61; 61] ?x ?y ?z) with (Some z).
    by assert (acc1 / 2 ^ 4 mod 256 = a) as -> by divlia.
  - apply Forall_cons in Hs as [Ha [Hb _]%Forall_cons]. unfold is_byte in *. cbn [b64_groups].
    do 3 decode_step. change (decode_loop [61] ?x ?y ?z) with (Some z).
    rewrite <-app_assoc. simpl app.
    assert (acc1 / 2 ^ 4 mod 256 = a) as -> by divlia.
    by assert (acc2 / 2 ^ 2 mod 256 = b) as -> by divlia.
  - apply Forall_cons in Hs as [Ha [Hb [Hc Hr]%Forall_cons]%Forall_cons].
    destruct (decode_group a b c rest acc out Ha Hb Hc) as [acc' ->].
    rewrite (IH (length rest)); [|simpl; lia|done|done]. by rewrite <-app_assoc.
Qed.

Lemma length_groups s : length (b64_groups s) = ((length s + 2) / 3 * 4)%nat.
Proof.
  remember (length s) as n eqn:Hn. revert s Hn. induction n as [n IH] using lt_wf_ind.
  intros s ->. destruct s as [|a [|b [|c rest]]]; try done. cbn [b64_groups length].
  rewrite (IH (length rest)) by (simpl; lia).
  replace (S (S (S (length rest))) + 2)%nat with (length rest + 2 + 1 * 3)%nat by lia.
  rewrite Nat.div_add by lia. lia.
Qed.

(** The size of [retval], as the code computes it, and its bounds. *)
Lemma padded_size n : Z.of_nat n <= size_max / 4 * 3 ->
  let k := ((n + 2) / 3 * 4)%nat in
  Z.to_nat ((Z.of_nat n + 2) / 3 * 4) = k /\ Z.of_nat k <= size_max /\
  (n <> 0%nat -> (4 <= k)%nat).
Proof.
  intros Hn k. assert (Z.of_nat k = (Z.of_nat n + 2) / 3 * 4) as Hk.
  { unfold k. rewrite Nat2Z.inj_mul, Nat2Z.inj_div, Nat2Z.inj_add. done. }
  rewrite <-Hk, Nat2Z.id. unfold size_max in *. split_and!; [done|divlia|].
  intros Hne. apply Nat2Z.inj_le. rewrite Hk. divlia.
Qed.

Lemma encode_groups ndebug s : Forall is_byte s ->
  Z.of_nat (length s) <= size_max / 4 * 3 -> (ndebug = true \/ s <> []) ->
  base64_encode ndebug s = B64Ok (b64_groups s).
Proof.
  intros Hs Hlen Hne. unfold base64_encode.
  rewrite Z.gtb_ltb, (proj2 (Z.ltb_ge _ _) Hlen).
  destruct (padded_size _ Hlen) as (Hk & Hmax & H4). rewrite Hk.
  pose proof (encode_loop_spec s Hs 0 [] 0 eq_refl) as Hl. rewrite app_nil_l in Hl.
  pose proof (length_groups s) as Hrl.
  destruct (encode_loop _ _ _ _ _) as [[[acc bits] outpos] retval].
  set (k := ((length s + 2) / 3 * 4)%nat) in *. clearbody k.
  assert (ndebug = false -> (4 <= k)%nat) as H4'.
  { intros ->. destruct Hne as [|Hne]; [done|]. apply H4. by destruct s. }
  rewrite Z.gtb_ltb.
  destruct Hl as [(-> & -> & ->)|(Hb1 & Hb2 & Ho & Hr)].
  - rewrite app_nil_l. decide_cmp. destruct ndebug; [done|]. specialize (H4' eq_refl).
    rewrite Hrl, u64_small by (unfold size_max in *; lia).
    rewrite Z.geb_leb. decide_cmp. rewrite (proj2 (Nat.leb_le _ _)) by lia. done.
  - decide_cmp. rewrite Hr, app_nil_l. destruct ndebug; [done|]. specialize (H4' eq_refl).
    rewrite Hrl, u64_small by (unfold size_max in *; lia).
    rewrite Z.geb_leb. decide_cmp. rewrite (proj2 (Nat.leb_le _ _)) by lia. done.
Qed.

(** ** RFC 4648, section 4 *)

(** Table 1: the base 64 alphabet, by ASCII code. *)
Definition rfc4648_char (value : Z) : Z :=
  if value <=? 25 then 65 + value            (* A to Z *)
  else if value <=? 51 then 97 + (value - 26) (* a to z *)
  else if value <=? 61 then 48 + (value - 52) (* 0 to 9 *)
  else if value =? 62 then 43                 (* + *)
  else 47.                                    (* / *)

(** The value of the six bits of a 24-bit group from bit [18 - 6 * i]. *)
Definition sextet (group i : Z) : Z := group / 2 ^ (18 - 6 * i) mod 64.

(** Groups of 24 bits are four characters; a final group of 8 or 16 bits is filled with zeros to
    two or three characters and padded with [=] (61). *)
Fixpoint rfc4648 (s : bytes) : bytes :=
  let group a b c := a * 2 ^ 16 + b * 2 ^ 8 + c in
  let char g i := rfc4648_char (sextet g i) in
  match s with
  | [] => []
  | [a] => let g := group a 0 0 in [char g 0; char g 1; 61; 61]
  | [a; b] => let g := group a b 0 in [char g 0; char g 1; char g 2; 61]
  | a :: b :: c :: rest => let g := group a b c in char g 0 :: char g 1 :: char g 2 :: char g 3 :: rfc4648 rest
  end.

(** [b64_table] is that alphabet. *)
Lemma b64_char_rfc i : 0 <= i < 64 -> b64_char i = rfc4648_char i.
Proof.
  intros Hi. assert (Forall (fun n => b64_char (Z.of_nat n) = rfc4648_char (Z.of_nat n)) (seq 0 64)) as H
    by by_compute.
  rewrite Forall_forall in H. specialize (H (Z.to_nat i)). rewrite Z2Nat.id in H by lia.
  apply H, elem_of_seq. lia.
Qed.

Lemma sextet_range g i : 0 <= sextet g i < 64.
Proof. apply Z.mod_pos_bound. lia. Qed.

Ltac eval_pow :=
  repeat match goal with
  | |- context [2 ^ ?e] => let v := eval vm_compute in (2 ^ e) in change (2 ^ e) with v
  end.

Lemma groups_rfc4648 s : Forall is_byte s -> b64_groups s = rfc4648 s.
Proof.
  remember (length s) as len eqn:Hlen. revert s Hlen.
  induction len as [len IH] using lt_wf_ind. intros s -> Hs.
  assert (forall i g j, i = sextet g j -> b64_char i = rfc4648_char (sextet g j)) as Hc.
  { intros i g j ->. apply b64_char_rfc, sextet_range. }
  destruct s as [|a [|b [|c rest]]]; [done|..]; repeat rewrite Forall_cons in Hs; unfold is_byte in Hs;
    cbn [b64_groups rfc4648]; repeat (f_equal; try (apply Hc; unfold sextet; eval_pow; divlia)).
  apply (IH (length rest)); [simpl; lia|done|by destruct Hs as (_ & _ & _ & ?)].
Qed.

Lemma encode_spec ndebug s : Forall is_byte s ->
  Z.of_nat (length s) <= size_max / 4 * 3 -> (ndebug = true \/ s <> []) ->
  base64_encode ndebug s = B64Ok (rfc4648 s).
Proof. intros Hs Hlen Hne. rewrite <- groups_rfc4648 by done. by apply encode_groups. Qed.

Lemma decode_rfc4648 s acc out : Forall is_byte s -> decode_loop (rfc4648 s) acc 0 out = Some (out ++ s).
Proof. intros Hs. rewrite <- groups_rfc4648 by done. by apply decode_groups. Qed.

(** C34.  The encoder implements RFC 4648 (the alphabet of its Table 1, padding included) on every
    byte string that is not too long for its [size_t] (then it throws), but for the empty string: in
    builds with assertions that fails one, for [retval.size() - 2] wraps around. *)
Theorem base64_encode_rfc4648 ndebug s : Forall is_byte s ->
  base64_encode ndebug s =
    if Z.of_nat (length s) >? size_max / 4 * 3 then B64LengthError
    else match s with
         | [] => if ndebug then B64Ok [] else B64Assert
         | _ => B64Ok (rfc4648 s)
         end.
Proof.
  intros Hs. destruct (Z.of_nat (length s) >? size_max / 4 * 3) eqn:E.
  - unfold base64_encode. by rewrite E.
  - breflect. destruct s as [|a s]; [by destruct ndebug; vm_compute|]. apply encode_spec; [done..|by right].
Qed.

(** C35.  [base64_decode] inverts [base64_encode] on every byte string. *)
Theorem base64_roundtrip ndebug s t : Forall is_byte s -> base64_encode ndebug s = B64Ok t ->
  base64_decode t = Some s.
Proof.
  intros Hs He.
  assert (t = rfc4648 s) as ->; [|by apply (decode_rfc4648 s 0 [])].
  assert (ndebug = true \/ s <> []) as Hne.
  { destruct ndebug; [by left|right]. intros ->. by vm_compute in He. }
  assert (Z.of_nat (length s) <= size_max / 4 * 3) as Hlen.
  { unfold base64_encode in He. rewrite Z.gtb_ltb in He.
    destruct (size_max / 4 * 3 <? Z.of_nat (length s)) eqn:E; [done|]. by breflect. }
  rewrite (encode_spec ndebug s) in He by done. by injection He.
Qed.

Lemma decode_loop_legal s : forall acc bits out,
  is_Some (decode_loop s acc bits out) <-> Forall (fun i => b64_legal i = true) s.
Proof.
  induction s as [|i s IH]; intros acc bits out; [split; [constructor|by eexists]|].
  rewrite Forall_cons. cbn [decode_loop]. unfold b64_legal at 1.
  destruct (isspace (schar i) || (schar i =? chr "=")) eqn:E1; simpl; [rewrite IH; naive_solver|].
  destruct ((schar i >? 127) || (schar i <? 0) || (b64_rev (schar i) >? 63)) eqn:E2; simpl.
  - split; [by intros []|by intros []].
  - case_if; rewrite IH; naive_solver.
Qed.

(** The decoder accepts exactly the texts whose characters are of the alphabet, padding or
    white space; anything else is [std::invalid_argument]. *)
Theorem base64_decode_legal s :
  is_Some (base64_decode s) <-> Forall (fun i => b64_legal i = true) s.
Proof. apply decode_loop_legal. Qed.

Lemma base64_encode_rfc4648_witness :
  base64_encode false (bs "Many") = B64Ok (bs "TWFueQ==").
Proof. apply (base64_encode_rfc4648 false (bs "Many")). by_compute. Defined.

Lemma base64_roundtrip_witness : base64_decode (bs "Q28gU29ja2V0") = Some (bs "Co Socket").
Proof. apply (base64_roundtrip true); [by_compute|vm_compute; reflexivity]. Defined.
