(* ===== verification/WebSocket.v ===== *)
(** * net/http/WebSocketParser.h, WebSocketDecoder.h, WebSocketEncoder.h

    The frame parser and the frame encoder of the WebSocket protocol, with their 64-bit counters,
    on the little-endian machine of the build.  [random()] is the argument [rnd] of [GetFrame]. *)

From S2P Require Import Prelude.

Open Scope Z_scope.

(** ** Memory and byte order *)

(** The value of the little-endian integer stored in the bytes, and back. *)
Fixpoint le_load (bs : bytes) : Z :=
  match bs with [] => 0 | b :: bs' => b + 256 * le_load bs' end.

Fixpoint le_bytes (n : nat) (z : Z) : bytes :=
  match n with O => [] | S n' => z mod 256 :: le_bytes n' (z / 256) end.

(** [ntohs], [ntohl] (and [htons], [htonl]) on a little-endian host: swap the bytes. *)
Definition ntohs (x : Z) : Z := le_load (rev (le_bytes 2 x)).
Definition ntohl (x : Z) : Z := le_load (rev (le_bytes 4 x)).

(** The macros [ntohll] and [htonll]. *)
Definition ntohll (x : Z) : Z :=
  u64 (u64 (Z.shiftl (ntohl (Z.land x 0xFFFFFFFF)) 32) + ntohl (u32 (Z.shiftr x 32))).
Definition htons (x : Z) : Z := ntohs x.
Definition htonll (x : Z) : Z := ntohll x.

(** ** WebSocketParser *)

Inductive OpCodeType :=
  | OpCodeType_Continue | OpCodeType_Text | OpCodeType_Binary
  | OpCodeType_Close | OpCodeType_Ping | OpCodeType_Pong.

Definition opcode_num (c : OpCodeType) : Z :=
  match c with
  | OpCodeType_Continue => 0 | OpCodeType_Text => 1 | OpCodeType_Binary => 2
  | OpCodeType_Close => 8 | OpCodeType_Ping => 9 | OpCodeType_Pong => 10
  end.

Record ws_parser := mkWsParser {
  ws_complete : bool;
  ws_headerComplete : bool;
  ws_fin : bool;
  ws_opCode : Z;
  ws_payloadLen : Z;
  ws_offset : Z;
  ws_maskKey : bytes;
  ws_inputCache : bytes;
  ws_payload : bytes
}.

Definition kMaxLength : Z := 10 * 1024 * 1024.

Definition WebSocketParser_init : ws_parser := mkWsParser false false false 0 0 0 [] [] [].

(** [GetDataPtr]: what is left of the cache from [m_offset] on. *)
Definition GetDataPtr (p : ws_parser) : bytes := drop (Z.to_nat (ws_offset p)) (ws_inputCache p).

(** [*GetDataPtr()] *)
Definition data_byte (p : ws_parser) : Z := nth 0 (GetDataPtr p) 0.

Definition HaveBytes (p : ws_parser) (len : Z) : bool :=
  u64 (Z.of_nat (length (ws_inputCache p)) - ws_offset p) >=? len.

(** Assignments to one member. *)
Definition set_offset p o := mkWsParser (ws_complete p) (ws_headerComplete p) (ws_fin p)
  (ws_opCode p) (ws_payloadLen p) o (ws_maskKey p) (ws_inputCache p) (ws_payload p).
Definition set_payloadLen p l := mkWsParser (ws_complete p) (ws_headerComplete p) (ws_fin p)
  (ws_opCode p) l (ws_offset p) (ws_maskKey p) (ws_inputCache p) (ws_payload p).
Definition set_finOpCode p f c := mkWsParser (ws_complete p) (ws_headerComplete p) f
  c (ws_payloadLen p) (ws_offset p) (ws_maskKey p) (ws_inputCache p) (ws_payload p).
Definition set_maskKey p k := mkWsParser (ws_complete p) (ws_headerComplete p) (ws_fin p)
  (ws_opCode p) (ws_payloadLen p) (ws_offset p) k (ws_inputCache p) (ws_payload p).
Definition set_headerComplete p h := mkWsParser (ws_complete p) h (ws_fin p)
  (ws_opCode p) (ws_payloadLen p) (ws_offset p) (ws_maskKey p) (ws_inputCache p) (ws_payload p).
Definition set_inputCache p c := mkWsParser (ws_complete p) (ws_headerComplete p) (ws_fin p)
  (ws_opCode p) (ws_payloadLen p) (ws_offset p) (ws_maskKey p) c (ws_payload p).

(** [ParseHeader]: each early [return false] leaves the members assigned so far. *)
Definition ParseHeader_mask (p : ws_parser) (mask : bool) : ws_parser * bool :=
  let p := set_maskKey p [] in
  if mask then
    if negb (HaveBytes p 4) then (p, false)
    else (set_offset (set_maskKey p (take 4 (GetDataPtr p))) (u64 (ws_offset p + 4)), true)
  else (p, true).

Definition ParseHeader_len (p : ws_parser) (mask : bool) : ws_parser * bool :=
  if ws_payloadLen p =? 126 then
    if negb (HaveBytes p 2) then (p, false)
    else
      let p := set_payloadLen p (ntohs (le_load (take 2 (GetDataPtr p)))) in
      ParseHeader_mask (set_offset p (u64 (ws_offset p + 2))) mask
  else if ws_payloadLen p =? 127 then
    if negb (HaveBytes p 8) then (p, false)
    else
      let p := set_payloadLen p (ntohll (le_load (take 8 (GetDataPtr p)))) in
      ParseHeader_mask (set_offset p (u64 (ws_offset p + 8))) mask
  else ParseHeader_mask p mask.

Definition ParseHeader (p : ws_parser) : ws_parser * bool :=
  let p := set_offset p 0 in
  if negb (HaveBytes p 1) then (p, false)
  else
    let p := set_finOpCode p (negb (Z.land 0x80 (data_byte p) =? 0)) (Z.land 0x0F (data_byte p)) in
    let p := set_offset p (u64 (ws_offset p + 1)) in
    if negb (HaveBytes p 1) then (p, false)
    else
      let mask := negb (Z.land 0x80 (data_byte p) =? 0) in
      let p := set_payloadLen p (Z.land 0x7F (data_byte p)) in
      let p := set_offset p (u64 (ws_offset p + 1)) in
      ParseHeader_len p mask.

Definition CheckOpCode (p : ws_parser) : bool :=
  let c := ws_opCode p in
  if c =? opcode_num OpCodeType_Continue then negb (bool_decide (ws_payload p = []))
  else (c =? opcode_num OpCodeType_Text) || (c =? opcode_num OpCodeType_Binary) ||
       (c =? opcode_num OpCodeType_Close) || (c =? opcode_num OpCodeType_Ping) ||
       (c =? opcode_num OpCodeType_Pong).

Definition IsValidFrame (p : ws_parser) : bool :=
  if bool_decide (ws_maskKey p = []) then false
  else if negb (CheckOpCode p) then false
  else if u64 (Z.of_nat (length (ws_payload p)) + ws_payloadLen p) >? kMaxLength then false
  else true.

Definition ResetCurrentFrame (p : ws_parser) : ws_parser :=
  mkWsParser (ws_complete p) false false (ws_opCode p) 0 0 (ws_maskKey p) [] (ws_payload p).

(** The loop of [ProcessPayload] over [n] bytes of [data], from index [i]. *)
Fixpoint unmask (data key : bytes) (i n : nat) : bytes :=
  match n with
  | O => []
  | S n' => Z.lxor (nth 0 data 0) (nth (i mod length key) key 0) :: unmask (tail data) key (S i) n'
  end.

Definition ProcessPayload (p : ws_parser) : ws_parser :=
  if negb (HaveBytes p (ws_payloadLen p)) then p
  else
    let decoded := unmask (GetDataPtr p) (ws_maskKey p) 0 (Z.to_nat (ws_payloadLen p)) in
    ResetCurrentFrame
      (mkWsParser (ws_fin p) (ws_headerComplete p) (ws_fin p) (ws_opCode p) (ws_payloadLen p)
         (u64 (ws_offset p + ws_payloadLen p)) (ws_maskKey p) (ws_inputCache p)
         (ws_payload p ++ decoded)).

(** [WebSocketParser::Parse] *)
Definition Parse (p : ws_parser) (data : bytes) : ws_parser * bool :=
  if bool_decide (data = []) then (p, true)
  else
    let p := set_inputCache p (ws_inputCache p ++ data) in
    let p :=
      if negb (ws_headerComplete p) then
        let '(p, ok) := ParseHeader p in set_headerComplete p ok
      else p in
    if negb (ws_headerComplete p) then (p, true)
    else if negb (IsValidFrame p) then (p, false)
    else (ProcessPayload p, true).

Definition ws_IsComplete (p : ws_parser) : bool := ws_complete p.
Definition GetPayLoad (p : ws_parser) : bytes := ws_payload p.
Definition GetPayloadLen (p : ws_parser) : Z := Z.of_nat (length (ws_payload p)).

(** [WebSocketParser::Reset] *)
Definition ws_Reset (p : ws_parser) : ws_parser :=
  let p := ResetCurrentFrame p in
  mkWsParser false (ws_headerComplete p) (ws_fin p) (ws_opCode p) (ws_payloadLen p)
    (ws_offset p) (ws_maskKey p) (ws_inputCache p) [].

(** ** WebSocketEncoder *)

Record ws_encoder := mkWsEncoder {
  we_isClient : bool;
  we_opCode : Z;
  we_frameSize : Z;
  we_data : bytes;        (* what [m_data] points at *)
  we_len : Z;
  we_offset : Z;
  we_outputBuf : bytes
}.

Definition kFrameSize : Z := 1446.

Definition WebSocketEncoder_init (isClient : bool) : ws_encoder :=
  mkWsEncoder isClient (opcode_num OpCodeType_Binary) kFrameSize [] 0 0 [].

Definition SetPayload (e : ws_encoder) (data : bytes) : ws_encoder :=
  mkWsEncoder (we_isClient e) (we_opCode e) (we_frameSize e) data (Z.of_nat (length data))
    (we_offset e) (we_outputBuf e).
Definition SetOpCode (e : ws_encoder) (code : OpCodeType) : ws_encoder :=
  mkWsEncoder (we_isClient e) (opcode_num code) (we_frameSize e) (we_data e) (we_len e)
    (we_offset e) (we_outputBuf e).
Definition SetFrameSize (e : ws_encoder) (frameSize : Z) : ws_encoder :=
  mkWsEncoder (we_isClient e) (we_opCode e) frameSize (we_data e) (we_len e)
    (we_offset e) (we_outputBuf e).

Definition we_IsComplete (e : ws_encoder) : bool := we_offset e =? we_len e.

(** The length bytes of the header. *)
Definition encode_len (isClient : bool) (frameSize : Z) : bytes :=
  let client := if isClient then 1 else 0 in
  if frameSize >? 0xFFFF then
    u8 (Z.lor (Z.shiftl client 7) 127) :: take 4 (le_bytes 8 (htonll frameSize))
  else if frameSize >? 126 then
    u8 (Z.lor (Z.shiftl client 7) 126) :: le_bytes 2 (htons (u16 frameSize))
  else [u8 (Z.lor (Z.shiftl client 7) frameSize)].

(** The masking loop of [Encode]. *)
Fixpoint apply_mask (data key : bytes) (i n : nat) : bytes :=
  match n with
  | O => []
  | S n' =>
      Z.lxor (nth 0 data 0) (nth (i mod 4) key 0) :: apply_mask (tail data) key (S i) n'
  end.

(** [Encode], as the new state; [rnd] is what [random()] returns when it is called. *)
Definition Encode (e : ws_encoder) (rnd : Z) : ws_encoder :=
  let opCode := if negb (we_offset e =? 0) then opcode_num OpCodeType_Continue else we_opCode e in
  let left := u64 (we_len e - we_offset e) in
  let '(frameSize, fin) :=
    if we_frameSize e >? left then (left, 0x80) else (we_frameSize e, 0x00) in
  let header := u8 (Z.lor fin opCode) :: encode_len (we_isClient e) frameSize in
  let body :=
    if negb (we_isClient e) then take (Z.to_nat frameSize) (we_data e)
    else
      let mask := le_bytes 4 (u32 rnd) in
      mask ++ apply_mask (we_data e) mask 0 (Z.to_nat frameSize) in
  mkWsEncoder (we_isClient e) opCode (we_frameSize e) (drop (Z.to_nat frameSize) (we_data e))
    (we_len e) (u64 (we_offset e + frameSize)) (header ++ body).

(** [GetFrame] *)
Definition GetFrame (e : ws_encoder) (rnd : Z) : ws_encoder * bytes :=
  let e' := Encode e rnd in (e', we_outputBuf e').
