(* ===== verification/WebSocketProps.v ===== *)
(** * WebSocket framing: what the encoder writes and what the parser reads

    The frames of a client encoder, cut in any way, are reassembled by the parser; and the
    frames for which this fails. *)

From S2P Require Import Prelude WebSocket.

Open Scope Z_scope.

(** ** Frames on the wire *)

(** The length bytes of a masked frame of [n] bytes, the header, and the frame. *)
Definition len_bytes (n : nat) : bytes :=
  if (n <? 126)%nat then [128 + Z.of_nat n]
  else [254; Z.of_nat n / 256; Z.of_nat n mod 256].
Definition wire_header (b0 : Z) (n : nat) (key : bytes) : bytes := b0 :: len_bytes n ++ key.
Definition wire (b0 : Z) (key data : bytes) : bytes :=
  wire_header b0 (length data) key ++ apply_mask data key 0 (length data).

(** The first byte of a frame. *)
Definition byte0 (fin : bool) (c : OpCodeType) : Z := (if fin then 128 else 0) + opcode_num c.

Lemma byte0_encode (fin : bool) c : u8 (Z.lor (if fin then 0x80 else 0x00) (opcode_num c)) = byte0 fin c.
Proof. by destruct fin, c. Qed.
Lemma byte0_fin fin c : negb (Z.land 0x80 (byte0 fin c) =? 0) = fin.
Proof. by destruct fin, c. Qed.
Lemma byte0_opcode fin c : Z.land 0x0F (byte0 fin c) = opcode_num c.
Proof. by destruct fin, c. Qed.

(** Facts on one byte, by going through its values. *)
Lemma small_byte (P : Z -> bool) (n : nat) :
  forallb P (seqZ 0 (Z.of_nat n)) = true -> forall i : nat, (i < n)%nat -> P (Z.of_nat i) = true.
Proof.
  intros H i Hi. rewrite forallb_forall in H. apply H, list_elem_of_In, elem_of_seqZ. lia.
Qed.

Lemma mask_bit (n : nat) : (n < 128)%nat ->
  u8 (Z.lor 128 (Z.of_nat n)) = 128 + Z.of_nat n /\ Z.land 0x80 (128 + Z.of_nat n) = 128 /\
  Z.land 0x7F (128 + Z.of_nat n) = Z.of_nat n.
Proof.
  intros Hn.
  pose proof (small_byte (fun i => (u8 (Z.lor 128 i) =? 128 + i) && (Z.land 0x80 (128 + i) =? 128) &&
    (Z.land 0x7F (128 + i) =? i)) 128 ltac:(vm_compute; reflexivity) n Hn) as H.
  cbv beta in H. by breflect.
Qed.

Lemma htons_bytes (n : nat) : Z.of_nat n < 65536 ->
  le_bytes 2 (htons (u16 (Z.of_nat n))) = [Z.of_nat n / 256; Z.of_nat n mod 256].
Proof.
  intros Hn. unfold u16. rewrite Z.mod_small by lia. cbn -[Z.div Z.modulo]. f_equal; [|f_equal]; divlia.
Qed.

Lemma ntohs_bytes (n : nat) : Z.of_nat n < 65536 ->
  ntohs (le_load [Z.of_nat n / 256; Z.of_nat n mod 256]) = Z.of_nat n.
Proof. intros Hn. cbn -[Z.div Z.modulo]. divlia. Qed.

Lemma encode_len_bytes (n : nat) : Z.of_nat n < 65536 -> n <> 126%nat ->
  encode_len true (Z.of_nat n) = len_bytes n.
Proof.
  intros Hn Hne. unfold encode_len, len_bytes. rewrite !Z.gtb_ltb. change (Z.shiftl 1 7) with 128.
  destruct (n <? 126)%nat eqn:E; [apply Nat.ltb_lt in E|apply Nat.ltb_ge in E]; decide_cmp.
  - by rewrite (proj1 (mask_bit n ltac:(lia))).
  - by rewrite htons_bytes.
Qed.

(** ** Masking *)

Lemma length_apply_mask d key n : forall i, length (apply_mask d key i n) = n.
Proof. revert d. induction n as [|n IH]; intros d i; simpl; [done|]. by rewrite IH. Qed.

Lemma unmask_apply_mask key rest n : length key = 4%nat ->
  forall d i, (n <= length d)%nat -> unmask (apply_mask d key i n ++ rest) key i n = take n d.
Proof.
  intros Hk. induction n as [|n IH]; intros d i Hd; [done|]. destruct d as [|x d]; [simpl in Hd; lia|].
  cbn [apply_mask unmask tail app nth take]. rewrite Hk.
  rewrite IH by (simpl in Hd; lia). f_equal. simpl.
  rewrite Z.lxor_assoc, Z.lxor_nilpotent, Z.lxor_0_r. done.
Qed.

Lemma length_le_bytes n : forall z, length (le_bytes n z) = n.
Proof. induction n as [|n IH]; intros z; simpl; [done|]. by rewrite IH. Qed.

(** ** The parser on a header *)

Lemma have_bytes p len :
  0 <= ws_offset p <= Z.of_nat (length (ws_inputCache p)) ->
  Z.of_nat (length (ws_inputCache p)) < 2 ^ 64 ->
  HaveBytes p len = (ws_offset p + len <=? Z.of_nat (length (ws_inputCache p))).
Proof.
  intros Ho Hc. unfold HaveBytes. rewrite u64_small by lia. rewrite Z.geb_leb.
  destruct (Z.leb_spec (ws_offset p + len) (Z.of_nat (length (ws_inputCache p))));
    [apply Z.leb_le|apply Z.leb_gt]; lia.
Qed.

(** [ParseHeader] by what is in the cache. *)
Lemma ParseHeader_eq cm hc f op pl o mk cache pay :
  Z.of_nat (length cache) < 2 ^ 64 ->
  ParseHeader (mkWsParser cm hc f op pl o mk cache pay) =
    match cache with
    | [] => (mkWsParser cm hc f op pl 0 mk cache pay, false)
    | x :: t =>
        let fin := negb (Z.land 0x80 x =? 0) in
        let code := Z.land 0x0F x in
        match t with
        | [] => (mkWsParser cm hc fin code pl 1 mk cache pay, false)
        | y :: _ =>
            ParseHeader_len (mkWsParser cm hc fin code (Z.land 0x7F y) 2 mk cache pay)
              (negb (Z.land 0x80 y =? 0))
        end
    end.
Proof.
  intros Hlen. unfold ParseHeader. rewrite have_bytes by (simpl; lia).
  destruct cache as [|x [|y t]]; [reflexivity| |];
    rewrite (proj2 (Z.leb_le _ _)) by (simpl in *; lia); cbv beta iota zeta delta [negb];
    rewrite have_bytes by (simpl in *; rewrite ?u64_small by lia; lia); [reflexivity|].
  rewrite (proj2 (Z.leb_le _ _)) by (simpl in *; rewrite ?u64_small by lia; lia). reflexivity.
Qed.

Lemma ParseHeader_mask_eq cm hc f op pl (o : nat) mk cache pay :
  (o <= length cache)%nat -> Z.of_nat (length cache) < 2 ^ 64 ->
  ParseHeader_mask (mkWsParser cm hc f op pl (Z.of_nat o) mk cache pay) true =
    if (o + 4 <=? length cache)%nat then
      (mkWsParser cm hc f op pl (Z.of_nat (o + 4)) (take 4 (drop o cache)) cache pay, true)
    else (mkWsParser cm hc f op pl (Z.of_nat o) [] cache pay, false).
Proof.
  intros Ho Hlen. unfold ParseHeader_mask. rewrite have_bytes by (simpl; lia). simpl.
  destruct (Nat.leb_spec (o + 4) (length cache)).
  - rewrite (proj2 (Z.leb_le _ _)) by lia. simpl. unfold GetDataPtr, set_offset, set_maskKey. simpl.
    rewrite Nat2Z.id, u64_small by lia. by rewrite Nat2Z.inj_add.
  - by rewrite (proj2 (Z.leb_gt _ _)) by lia.
Qed.

Lemma ParseHeader_len_eq cm hc f op pl mk cache pay :
  (2 <= length cache)%nat -> Z.of_nat (length cache) < 2 ^ 64 ->
  ParseHeader_len (mkWsParser cm hc f op pl 2 mk cache pay) true =
    if pl =? 126 then
      if (4 <=? length cache)%nat then
        ParseHeader_mask (mkWsParser cm hc f op (ntohs (le_load (take 2 (drop 2 cache)))) (Z.of_nat 4) mk
          cache pay) true
      else (mkWsParser cm hc f op pl 2 mk cache pay, false)
    else if pl =? 127 then
      if (10 <=? length cache)%nat then
        ParseHeader_mask (mkWsParser cm hc f op (ntohll (le_load (take 8 (drop 2 cache)))) (Z.of_nat 10) mk
          cache pay) true
      else (mkWsParser cm hc f op pl 2 mk cache pay, false)
    else ParseHeader_mask (mkWsParser cm hc f op pl (Z.of_nat 2) mk cache pay) true.
Proof.
  intros Ho Hlen. unfold ParseHeader_len. simpl ws_payloadLen.
  destruct (pl =? 126); [|destruct (pl =? 127); [|reflexivity]];
    rewrite have_bytes by (simpl; lia); simpl ws_offset; simpl ws_inputCache.
  - destruct (Nat.leb_spec 4 (length cache)); [rewrite (proj2 (Z.leb_le _ _)) by lia; reflexivity|].
    by rewrite (proj2 (Z.leb_gt _ _)) by lia.
  - destruct (Nat.leb_spec 10 (length cache)); [rewrite (proj2 (Z.leb_le _ _)) by lia; reflexivity|].
    by rewrite (proj2 (Z.leb_gt _ _)) by lia.
Qed.

Section Header.
Context (fin : bool) (c : OpCodeType) (n : nat) (key : bytes).
Hypothesis (Hn : Z.of_nat n < 65536) (Hkey : length key = 4%nat).

Abbreviation b0 := (byte0 fin c).
Abbreviation header := (wire_header b0 n key).

Lemma length_header : length header = (if n <? 126 then 6 else 8)%nat.
Proof. unfold wire_header, len_bytes. simpl. rewrite length_app, Hkey. by destruct (n <? 126)%nat. Qed.

(** The parser when the header is read: its fields, and [m_offset] behind it. *)
Definition header_read (p : ws_parser) (hc : bool) (cache : bytes) : ws_parser :=
  mkWsParser (ws_complete p) hc fin (opcode_num c) (Z.of_nat n) (Z.of_nat (length header)) key cache
    (ws_payload p).

(** Two bytes of the header are enough to know where it ends. *)
Lemma ParseHeader_two cm hc f op pl o mk cache pay t :
  cache = header ++ t \/ ((2 <= length cache)%nat /\ header = cache ++ t) ->
  Z.of_nat (length cache) < 2 ^ 64 ->
  ParseHeader (mkWsParser cm hc f op pl o mk cache pay) =
    if (n <? 126)%nat then
      ParseHeader_mask (mkWsParser cm hc fin (opcode_num c) (Z.of_nat n) (Z.of_nat 2) mk cache pay) true
    else if (4 <=? length cache)%nat then
      ParseHeader_mask (mkWsParser cm hc fin (opcode_num c) (Z.of_nat n) (Z.of_nat 4) mk cache pay) true
    else (mkWsParser cm hc fin (opcode_num c) 126 2 mk cache pay, false).
Proof.
  intros Hc Hlen. rewrite ParseHeader_eq by done. unfold wire_header, len_bytes in Hc.
  destruct (n <? 126)%nat eqn:E; [apply Nat.ltb_lt in E|apply Nat.ltb_ge in E].
  - assert (exists t', cache = b0 :: 128 + Z.of_nat n :: t') as [t' ->].
    { destruct Hc as [->|[H2 Hc]]; [by eexists|]. destruct cache as [|x [|y t']]; simpl in H2; try lia.
      injection Hc as <- <- _. by eexists. }
    rewrite byte0_fin, byte0_opcode. destruct (mask_bit n ltac:(lia)) as (_ & -> & ->). simpl negb.
    rewrite ParseHeader_len_eq by (done || (simpl; lia)). decide_cmp. done.
  - assert (exists t', cache = b0 :: 254 :: t') as [t' Ec].
    { destruct Hc as [->|[H2 Hc]]; [by eexists|]. destruct cache as [|x [|y t']]; simpl in H2; try lia.
      injection Hc as <- <- _. by eexists. }
    assert ((4 <= length cache)%nat -> take 2 (drop 2 cache) = [Z.of_nat n / 256; Z.of_nat n mod 256]) as Ht.
    { intros H4. destruct Hc as [->|[_ Hc]]; [done|].
      destruct cache as [|x [|y [|z [|w t2]]]]; simpl in H4; try lia.
      simpl in Hc. injection Hc as _ _ <- <- _. done. }
    clear Hc. rewrite Ec at 1. rewrite byte0_fin, byte0_opcode.
    rewrite ParseHeader_len_eq by (done || (rewrite Ec; simpl; lia)). simpl Z.land. simpl (_ =? 126).
    destruct (4 <=? length cache)%nat eqn:E4; [|done]. apply Nat.leb_le in E4.
    by rewrite Ht, ntohs_bytes.
Qed.

Lemma ParseHeader_full p rest :
  ws_inputCache p = header ++ rest -> Z.of_nat (length (ws_inputCache p)) < 2 ^ 64 ->
  ParseHeader p = (header_read p (ws_headerComplete p) (ws_inputCache p), true).
Proof.
  intros Hc Hlen. pose proof length_header as Hh.
  destruct p as [cm hc f op pl off mk cache pay]. cbn [ws_inputCache] in Hc, Hlen.
  rewrite (ParseHeader_two _ _ _ _ _ _ _ _ _ rest) by eauto.
  assert (length cache = (length header + length rest)%nat) as Hl by by rewrite Hc, length_app.
  unfold header_read. rewrite Hh in *. cbn [ws_inputCache ws_complete ws_headerComplete ws_payload].
  assert (take 4 (drop (if n <? 126 then 2 else 4) cache)%nat = key) as Hk.
  { rewrite Hc. unfold wire_header, len_bytes. destruct (n <? 126)%nat;
      cbn [drop app]; by apply take_app_length'. }
  destruct (n <? 126)%nat.
  - rewrite ParseHeader_mask_eq by (done || lia). rewrite (proj2 (Nat.leb_le _ _)) by lia. by rewrite Hk.
  - rewrite (proj2 (Nat.leb_le 4 _)) by lia.
    rewrite ParseHeader_mask_eq by (done || lia). rewrite (proj2 (Nat.leb_le _ _)) by lia. by rewrite Hk.
Qed.

(** On a strict prefix of a header, nothing but the fields of the header changes. *)
Lemma ParseHeader_short p t :
  header = ws_inputCache p ++ t -> t <> [] ->
  exists f op pl o k, ParseHeader p =
    (mkWsParser (ws_complete p) (ws_headerComplete p) f op pl o k (ws_inputCache p) (ws_payload p), false).
Proof.
  intros Hc Ht. pose proof length_header as Hh.
  assert (length (ws_inputCache p) < length header)%nat as Hl.
  { rewrite Hc, length_app. destruct t; [done|simpl; lia]. }
  assert (Z.of_nat (length (ws_inputCache p)) < 2 ^ 64) as Hlen by (destruct (n <? 126)%nat; lia).
  destruct p as [cm hc f op pl off mk cache pay].
  cbn [ws_inputCache ws_complete ws_headerComplete ws_payload] in *.
  destruct (decide (2 <= length cache)%nat) as [H2|H2].
  - rewrite (ParseHeader_two _ _ _ _ _ _ _ _ _ t) by eauto. destruct (n <? 126)%nat.
    + rewrite ParseHeader_mask_eq by (done || lia). rewrite (proj2 (Nat.leb_gt _ _)) by lia. eauto 6.
    + destruct (4 <=? length cache)%nat eqn:E4; [apply Nat.leb_le in E4|eauto 6].
      rewrite ParseHeader_mask_eq by (done || lia). rewrite (proj2 (Nat.leb_gt _ _)) by lia. eauto 6.
  - rewrite ParseHeader_eq by done. destruct cache as [|x [|y t']]; simpl in H2; [eauto 6|eauto 6|lia].
Qed.
End Header.

(** ** The parser on a frame that arrives in pieces *)

Section Frame.
Context (fin : bool) (c : OpCodeType) (key data : bytes) (p0 : ws_parser).
Hypothesis (Hn : Z.of_nat (length data) < 65536) (Hkey : length key = 4%nat).
(** A continuation needs something to continue, and the message must not be too long. *)
Hypothesis (Hcont : c = OpCodeType_Continue -> ws_payload p0 <> []).
Hypothesis (Hmax : Z.of_nat (length (ws_payload p0) + length data) <= kMaxLength).

Abbreviation frame := (wire (byte0 fin c) key data).
Abbreviation header := (wire_header (byte0 fin c) (length data) key).
Abbreviation read := (header_read fin c (length data) key).

(** Between two frames. *)
Definition idle (p : ws_parser) : Prop := ws_headerComplete p = false /\ ws_inputCache p = [].

(** [p] has got [u], a part of the frame, since it was [p0]. *)
Definition mid (u : bytes) (p : ws_parser) : Prop :=
  ws_complete p = ws_complete p0 /\ ws_payload p = ws_payload p0 /\ ws_inputCache p = u /\
  if (length u <? length header)%nat then ws_headerComplete p = false else p = read p0 true u.

(** After the frame. *)
Definition frame_done : ws_parser :=
  mkWsParser fin false false (opcode_num c) 0 0 key [] (ws_payload p0 ++ data).

Lemma length_frame : length frame = (length header + length data)%nat.
Proof. unfold wire. by rewrite length_app, length_apply_mask. Qed.

(** What [Parse] does once the header is in the cache. *)
Lemma Parse_header u p d t :
  mid u p -> d <> [] -> u ++ d = header ++ t -> Z.of_nat (length (u ++ d)) < 2 ^ 64 ->
  Parse p d = (ProcessPayload (read p0 true (u ++ d)), true).
Proof.
  intros (Hc & Hp & Hu & Hm) Hd E Hlen. unfold Parse. rewrite bool_decide_eq_false_2 by done.
  set (p1 := set_inputCache p (ws_inputCache p ++ d)).
  assert ((if negb (ws_headerComplete p1)
           then let '(p, ok) := ParseHeader p1 in set_headerComplete p ok else p1)
          = read p0 true (u ++ d)) as ->.
  { destruct (length u <? length header)%nat eqn:El.
    - assert (ws_headerComplete p1 = false) as -> by done. simpl negb. cbv iota.
      rewrite (ParseHeader_full fin c (length data) key Hn Hkey p1 t)
        by (subst p1; simpl; rewrite Hu; done).
      subst p1. unfold header_read. simpl. by rewrite Hu, Hc, Hp.
    - subst p1. rewrite Hm. by destruct p0. }
  simpl negb. cbv iota. unfold IsValidFrame. simpl ws_maskKey.
  rewrite bool_decide_eq_false_2 by (intros ->; done).
  assert (CheckOpCode (read p0 true (u ++ d)) = true) as ->.
  { unfold CheckOpCode. simpl. destruct c; try reflexivity. simpl.
    rewrite bool_decide_eq_false_2 by auto. done. }
  simpl negb. cbv iota. simpl ws_payload. simpl ws_payloadLen.
  rewrite Z.gtb_ltb, u64_small by (unfold kMaxLength in Hmax; lia).
  by rewrite (proj2 (Z.ltb_ge _ _)) by lia.
Qed.

Lemma Parse_mid u p d t :
  mid u p -> d <> [] -> frame = (u ++ d) ++ t -> t <> [] ->
  exists p', Parse p d = (p', true) /\ mid (u ++ d) p'.
Proof.
  intros Hmid Hd E Ht.
  assert (length (u ++ d) < length frame)%nat as Hl.
  { rewrite E, (length_app (u ++ d)). destruct t; [done|simpl; lia]. }
  pose proof (length_header fin c (length data) key Hkey) as Hh. rewrite length_frame in Hl.
  assert (length header <= 8)%nat as H8 by (rewrite Hh; case_match; lia).
  assert (Z.of_nat (length (u ++ d)) < 2 ^ 64) as Hlen by lia.
  destruct (decide (length header <= length (u ++ d))%nat) as [Hge|Hlt].
  - assert (exists t', u ++ d = header ++ t') as [t' Et].
    { exists (drop (length header) (u ++ d)). rewrite <- (take_drop (length header) (u ++ d)) at 1.
      f_equal. transitivity (take (length header) frame).
      - rewrite E. by rewrite (take_app_le (u ++ d)).
      - unfold wire. by rewrite take_app_length. }
    rewrite (Parse_header u p d t') by done. eexists. split; [done|].
    unfold ProcessPayload, header_read. rewrite have_bytes by (cbn [ws_offset ws_inputCache]; lia).
    cbn [ws_offset ws_payloadLen ws_inputCache]. rewrite (proj2 (Z.leb_gt _ _)) by lia.
    cbn [negb]. unfold mid. cbn [ws_complete ws_payload ws_inputCache]. by rewrite (proj2 (Nat.ltb_ge _ _)) by lia.
  - destruct Hmid as (Hc & Hp & Hu & Hm). rewrite length_app in Hlt.
    rewrite (proj2 (Nat.ltb_lt _ _)) in Hm by lia.
    assert (exists t', header = (u ++ d) ++ t' /\ t' <> []) as (t' & Et & Ht').
    { exists (drop (length (u ++ d)) header). split.
      - rewrite <- (take_drop (length (u ++ d)) header) at 1. f_equal.
        transitivity (take (length (u ++ d)) frame).
        + unfold wire. rewrite take_app_le; [done|rewrite length_app; lia].
        + by rewrite E, take_app_length.
      - intros Hnil. apply (f_equal length) in Hnil. rewrite length_drop, length_app in Hnil.
        cbn [length] in Hnil. lia. }
    unfold Parse. rewrite bool_decide_eq_false_2 by done.
    set (p1 := set_inputCache p (ws_inputCache p ++ d)).
    assert (ws_headerComplete p1 = false) as -> by done. simpl negb. cbv iota.
    destruct (ParseHeader_short fin c (length data) key Hn Hkey p1 t')
      as (f & op & pl & o & k & ->); [subst p1; simpl; by rewrite Hu|done|].
    eexists. split; [reflexivity|]. subst p1. unfold mid, set_headerComplete, set_inputCache.
    cbn [negb ws_complete ws_payload ws_inputCache ws_headerComplete].
    rewrite Hu, Hc, Hp, (proj2 (Nat.ltb_lt _ _)) by (rewrite length_app; lia). done.
Qed.

Lemma Parse_end u p d t :
  mid u p -> d <> [] -> u ++ d = frame ++ t -> Z.of_nat (length (u ++ d)) < 2 ^ 64 ->
  Parse p d = (frame_done, true).
Proof.
  intros Hmid Hd E Hlen. unfold wire in E. rewrite <- app_assoc in E.
  rewrite (Parse_header u p d _ Hmid Hd E Hlen). f_equal.
  assert (length (u ++ d) = length header + length data + length t)%nat as Hl.
  { rewrite E, !length_app, length_apply_mask. lia. }
  unfold ProcessPayload, header_read. rewrite have_bytes by (cbn [ws_offset ws_inputCache]; lia).
  cbn [ws_offset ws_payloadLen ws_inputCache]. rewrite (proj2 (Z.leb_le _ _)) by lia.
  cbn [negb]. unfold ResetCurrentFrame, frame_done, GetDataPtr.
  cbn [ws_offset ws_inputCache ws_payload ws_maskKey ws_fin ws_opCode ws_complete].
  rewrite !Nat2Z.id, E, drop_app_length, unmask_apply_mask, take_ge by lia.
  reflexivity.
Qed.
End Frame.

(** ** Messages *)

(** The pieces of a stream, one [Parse] each, until one fails. *)
Fixpoint feed (p : ws_parser) (pieces : list bytes) : ws_parser * bool :=
  match pieces with
  | [] => (p, true)
  | d :: ds => let '(p', ok) := Parse p d in if ok then feed p' ds else (p', false)
  end.

Lemma feed_app p l1 l2 p1 : feed p l1 = (p1, true) -> feed p (l1 ++ l2) = feed p1 l2.
Proof.
  revert p. induction l1 as [|d l1 IH]; intros p; simpl; [by intros [= <-]|].
  destruct (Parse p d) as [p' [|]]; [apply IH|done].
Qed.

Lemma Parse_nil p : Parse p [] = (p, true).
Proof. done. Qed.

Lemma feed_nil p pieces : concat pieces = [] -> feed p pieces = (p, true).
Proof.
  induction pieces as [|d ds IH]; [done|]. simpl. intros [-> Hds]%app_nil. rewrite Parse_nil. by apply IH.
Qed.

Lemma feed_frame fin c key data p0 pieces :
  Z.of_nat (length data) < 65536 -> length key = 4%nat ->
  (c = OpCodeType_Continue -> ws_payload p0 <> []) ->
  Z.of_nat (length (ws_payload p0) + length data) <= kMaxLength ->
  idle p0 -> concat pieces = wire (byte0 fin c) key data ->
  feed p0 pieces = (frame_done fin c key data p0, true).
Proof.
  intros Hn Hkey Hcont Hmax [Hh Hi] Hcut.
  pose proof (length_frame fin c key data) as Hlen.
  pose proof (length_header fin c (length data) key Hkey) as Hhd.
  assert (forall u p, mid fin c key data p0 u p -> (length u < length (wire (byte0 fin c) key data))%nat ->
            u ++ concat pieces = wire (byte0 fin c) key data ->
            feed p pieces = (frame_done fin c key data p0, true)) as Hgen.
  2:{ apply (Hgen [] p0); [|rewrite Hlen, Hhd; destruct (_ <? _)%nat; simpl; lia|done].
      unfold mid. rewrite Hhd. destruct (_ <? 126)%nat; simpl; by rewrite Hi. }
  clear Hcut. induction pieces as [|d ds IH]; intros u p Hmid Hl E.
  { simpl in E. rewrite app_nil_r in E. subst u. lia. }
  simpl in E. rewrite app_assoc in E. simpl feed.
  destruct (decide (d = [])) as [->|Hd].
  { rewrite Parse_nil. rewrite app_nil_r in E. by apply (IH u). }
  destruct (decide (concat ds = [])) as [Hds|Hds].
  - rewrite Hds, app_nil_r in E. rewrite (Parse_end fin c key data p0 Hn Hkey Hcont Hmax u p d []).
    + by apply feed_nil.
    + done.
    + done.
    + by rewrite app_nil_r.
    + rewrite E, Hlen, Hhd. destruct (_ <? _)%nat; lia.
  - destruct (Parse_mid fin c key data p0 Hn Hkey Hcont Hmax u p d (concat ds)) as (p' & -> & Hmid');
      [done..|]. apply (IH (u ++ d)); [done| |done].
    rewrite <- E, !length_app. destruct (concat ds); [done|simpl; lia].
Qed.

(** The loop of a sender: [while (!IsComplete()) send(GetFrame())], with the values of [random()]. *)
Fixpoint send (e : ws_encoder) (rnds : list Z) : list bytes :=
  match rnds with
  | [] => []
  | r :: rs =>
      if we_IsComplete e then [] else let '(e', f) := GetFrame e r in f :: send e' rs
  end.

Lemma apply_mask_take key n : forall d i, apply_mask (take n d) key i n = apply_mask d key i n.
Proof.
  induction n as [|n IH]; intros d i; [done|]. destruct d as [|x d]; simpl; [done|]. by rewrite IH.
Qed.

(** One frame of a client that has [o] of the bytes of [D] behind it. *)
Lemma GetFrame_client D c op fs o out rnd :
  0 < fs < 65536 -> (o < length D)%nat -> Z.of_nat (length D) < 2 ^ 63 ->
  (o = 0%nat -> op = opcode_num c) ->
  let left := (length D - o)%nat in
  let fin := fs >? Z.of_nat left in
  let n := if fin then left else Z.to_nat fs in
  n <> 126%nat ->
  let c' := if (o =? 0)%nat then c else OpCodeType_Continue in
  let frame := wire (byte0 fin c') (le_bytes 4 (u32 rnd)) (take n (drop o D)) in
  GetFrame (mkWsEncoder true op fs (drop o D) (Z.of_nat (length D)) (Z.of_nat o) out) rnd =
    (mkWsEncoder true (opcode_num c') fs (drop (o + n) D) (Z.of_nat (length D)) (Z.of_nat (o + n)) frame,
     frame).
Proof.
  intros Hfs Ho HD Hop left fin n Hne c' frame. unfold GetFrame, Encode.
  cbn [we_isClient we_opCode we_frameSize we_data we_len we_offset].
  rewrite u64_small by lia. replace (Z.of_nat (length D) - Z.of_nat o) with (Z.of_nat left) by lia.
  assert ((if negb (Z.of_nat o =? 0) then opcode_num OpCodeType_Continue else op) = opcode_num c') as ->.
  { subst c'. destruct o; [by rewrite Hop|done]. }
  assert ((if fs >? Z.of_nat left then (Z.of_nat left, 0x80) else (fs, 0x00)) =
          (Z.of_nat n, if fin then 0x80 else 0x00)) as ->.
  { subst n fin. destruct (fs >? Z.of_nat left); [done|]. by rewrite Z2Nat.id by lia. }
  assert (n <= left)%nat as Hn.
  { subst n fin. rewrite Z.gtb_ltb. destruct (Z.ltb_spec (Z.of_nat left) fs); lia. }
  assert (Z.of_nat n < 65536) as Hn'.
  { subst n fin. rewrite Z.gtb_ltb. destruct (Z.ltb_spec (Z.of_nat left) fs); lia. }
  rewrite byte0_encode, encode_len_bytes by done. cbn [negb].
  rewrite u64_small, drop_drop, Nat2Z.id by lia. rewrite <- Nat2Z.inj_add.
  assert (length (take n (drop o D)) = n) as El by (rewrite length_take, length_drop; lia).
  assert ((byte0 fin c' :: len_bytes n) ++ le_bytes 4 (u32 rnd) ++
            apply_mask (drop o D) (le_bytes 4 (u32 rnd)) 0 n = frame) as ->; [|done].
  subst frame. unfold wire, wire_header. rewrite El, apply_mask_take. simpl. by rewrite <- app_assoc.
Qed.

(** The rest of a message arrives at a parser that has its beginning. *)
Lemma send_feed D c op fs : forall rnds o out p cuts,
  0 < fs < 65536 -> fs <> 126 -> Z.of_nat (length D) mod fs <> 126 ->
  Z.of_nat (length D) <= kMaxLength -> c <> OpCodeType_Continue ->
  (o < length D)%nat -> Z.of_nat o mod fs = 0 -> (o = 0%nat -> op = opcode_num c) ->
  (length D - o <= length rnds)%nat ->
  idle p -> ws_payload p = take o D ->
  Forall2 (fun f pieces => concat pieces = f)
    (send (mkWsEncoder true op fs (drop o D) (Z.of_nat (length D)) (Z.of_nat o) out) rnds) cuts ->
  exists p', feed p (concat cuts) = (p', true) /\ idle p' /\ ws_payload p' = D /\
    ws_complete p' = negb (Z.of_nat (length D) mod fs =? 0).
Proof.
  intros rnds. revert op. induction rnds as [|r rs IH];
    intros op o out p cuts Hfs Hfs1 Hmod HD Hc Ho Hof Hop Hr Hp Hpay Hcuts; [simpl in Hr; lia|].
  assert (Z.of_nat (length D) < 2 ^ 63) as HD' by (unfold kMaxLength in HD; lia).
  set (left := (length D - o)%nat). set (fin := fs >? Z.of_nat left).
  set (n := if fin then left else Z.to_nat fs). set (c' := if (o =? 0)%nat then c else OpCodeType_Continue).
  assert (Z.of_nat (length D) = fs * (Z.of_nat o / fs) + Z.of_nat left) as Hdiv.
  { pose proof (Z.div_mod (Z.of_nat o) fs ltac:(lia)). subst left. lia. }
  assert (fin = true -> Z.of_nat (length D) mod fs = Z.of_nat left) as Hlast.
  { intros Hf. subst fin. rewrite Z.gtb_ltb in Hf. apply Z.ltb_lt in Hf. rewrite Hdiv.
    rewrite Z.add_comm, Z.mul_comm, Z.mod_add by lia. apply Z.mod_small. lia. }
  assert (n <> 126%nat /\ (0 < n <= left)%nat /\ Z.of_nat n <= fs) as (Hn126 & Hnl & Hnf).
  { subst n. destruct fin eqn:Ef.
    - specialize (Hlast eq_refl). subst fin. rewrite Z.gtb_ltb in Ef. apply Z.ltb_lt in Ef. lia.
    - subst fin. rewrite Z.gtb_ltb in Ef. apply Z.ltb_ge in Ef. lia. }
  cbn [send] in Hcuts. unfold we_IsComplete in Hcuts. cbn [we_offset we_len] in Hcuts.
  rewrite (proj2 (Z.eqb_neq _ _)) in Hcuts by lia.
  rewrite (GetFrame_client D c op fs o out r Hfs Ho HD' Hop Hn126) in Hcuts.
  fold left fin n c' in Hcuts. set (key := le_bytes 4 (u32 r)) in *. set (d := take n (drop o D)) in *.
  assert (length d = n) as Hd by (subst d; rewrite length_take, length_drop; lia).
  apply Forall2_cons_inv_l in Hcuts as (pieces & cuts' & Hcut & Hcuts & ->).
  assert (take o D ++ d = take (o + n) D) as Htake by apply take_take_drop.
  cbn [concat]. rewrite (feed_app _ _ _ (frame_done fin c' key d p)).
  2:{ apply feed_frame; try done.
      - rewrite Hd. lia.
      - intros Hcc. rewrite Hpay. subst c'. destruct o as [|o]; [by destruct (Hc Hcc)|].
        destruct D; [simpl in Ho; lia|done].
      - rewrite Hpay, length_take, Hd. lia. }
  destruct (decide (o + n = length D)%nat) as [Hend|Hend].
  - (* the last frame *)
    assert (Forall2 (fun f pieces => concat pieces = f) [] cuts') as Hnil.
    { destruct rs as [|r' rs]; [done|]. cbn [send] in Hcuts. unfold we_IsComplete in Hcuts.
      cbn [we_offset we_len] in Hcuts. by rewrite Hend, Z.eqb_refl in Hcuts. }
    apply Forall2_nil_inv_l in Hnil as ->. eexists. split; [reflexivity|]. split; [done|].
    cbn [frame_done ws_payload ws_complete]. rewrite Hpay, Htake, Hend, firstn_all. split; [done|].
    subst n. destruct fin eqn:Ef.
    + rewrite (Hlast eq_refl). by rewrite (proj2 (Z.eqb_neq _ _)) by lia.
    + rewrite <- Hend, Nat2Z.inj_add, Z2Nat.id by lia.
      rewrite <- Z.add_mod_idemp_l, Hof, Z.add_0_l, Z_mod_same_full by lia. done.
  - assert (fin = false) as Ef by (subst n; destruct fin; [lia|done]).
    eapply (IH (opcode_num c') (o + n)%nat); try done; try lia.
    + subst n. rewrite Ef, Nat2Z.inj_add, Z2Nat.id by lia.
      rewrite <- Z.add_mod_idemp_l, Hof, Z.add_0_l, Z_mod_same_full by lia. done.
    + simpl in Hr. lia.
    + cbn [frame_done ws_payload]. by rewrite Hpay.
Qed.

(** C24.  A message sent by a client encoder arrives: when its frames come in any pieces of which none
    spans two frames, the parser accepts every piece and ends with the message as its payload.  It
    takes the message for complete if and only if the frame size does not divide its length, for
    [Encode] compares with [>]: else no frame carries the FIN bit.  The message is not empty, not
    longer than kMaxLength, and its opcode is not Continue; the frame size is from 1 to 65535 and
    not 126, nor is the length of the last frame: for the lengths left out and for pieces that span
    two frames the message need not arrive ([ws_length_lost], [ws_trailing_bytes_lost]). *)
Theorem ws_roundtrip D c fs rnds cuts :
  0 < fs < 65536 -> fs <> 126 -> Z.of_nat (length D) mod fs <> 126 ->
  D <> [] -> Z.of_nat (length D) <= kMaxLength -> c <> OpCodeType_Continue ->
  (length D <= length rnds)%nat ->
  Forall2 (fun f pieces => concat pieces = f)
    (send (SetFrameSize (SetOpCode (SetPayload (WebSocketEncoder_init true) D) c) fs) rnds) cuts ->
  exists p, feed WebSocketParser_init (concat cuts) = (p, true) /\ GetPayLoad p = D /\
    ws_IsComplete p = negb (Z.of_nat (length D) mod fs =? 0).
Proof.
  intros Hfs Hfs1 Hmod HD Hmax Hc Hr Hcuts.
  destruct (send_feed D c (opcode_num c) fs rnds 0 [] WebSocketParser_init cuts)
    as (p & Hf & _ & Hpay & Hfin); try done; try lia.
  - destruct D; [done|simpl; lia].
  - by exists p.
Qed.

(** Bytes behind a frame are lost when they arrive together with its end: [ResetCurrentFrame]
    clears the whole cache, so a second frame in the same piece of the stream is discarded. *)
Theorem ws_trailing_bytes_lost fin c key data p rest :
  Z.of_nat (length data) < 65536 -> length key = 4%nat ->
  (c = OpCodeType_Continue -> ws_payload p <> []) ->
  Z.of_nat (length (ws_payload p) + length data) <= kMaxLength -> idle p ->
  Z.of_nat (length rest) < 2 ^ 63 ->
  Parse p (wire (byte0 fin c) key data ++ rest) = Parse p (wire (byte0 fin c) key data) /\
  ws_inputCache (fst (Parse p (wire (byte0 fin c) key data ++ rest))) = [].
Proof.
  intros Hn Hkey Hcont Hmax [Hh Hi] Hrest.
  pose proof (length_frame fin c key data) as Hlen.
  pose proof (length_header fin c (length data) key Hkey) as Hhd.
  assert (mid fin c key data p [] p) as Hmid.
  { unfold mid. rewrite Hhd. destruct (_ <? 126)%nat; simpl; by rewrite Hi. }
  assert (length (wire (byte0 fin c) key data) <= 8 + length data)%nat as Hl.
  { rewrite Hlen, Hhd. destruct (_ <? _)%nat; lia. }
  assert (forall t, Z.of_nat (length t) < 2 ^ 63 -> Parse p (wire (byte0 fin c) key data ++ t) =
            (frame_done fin c key data p, true)) as Hp.
  { intros t Ht. apply (Parse_end fin c key data p Hn Hkey Hcont Hmax [] p _ t); try done.
    rewrite app_nil_l, length_app. lia. }
  rewrite (Hp rest Hrest). split; [|done]. rewrite <- (app_nil_r (wire _ _ _)) at 1. by rewrite Hp.
Qed.

(** ** Frames that are misread *)

Lemma length_unmask d key n : forall i, length (unmask d key i n) = n.
Proof. revert d. induction n as [|n IH]; intros d i; simpl; [done|]. by rewrite IH. Qed.

(** From a fresh parser, the payload is at most what is behind the header of the cache. *)
Lemma Parse_payload_bound d x y t h :
  d = x :: y :: t -> Z.land 0x80 y <> 0 -> Z.of_nat (length d) < 2 ^ 64 ->
  (Z.land 0x7F y = 126 /\ h = 8%nat) \/ (Z.land 0x7F y = 127 /\ h = 14%nat) ->
  (length (ws_payload (fst (Parse WebSocketParser_init d))) <= length d - h)%nat.
Proof.
  intros Ed Hy Hlen Hh. unfold Parse. rewrite bool_decide_eq_false_2 by (by rewrite Ed).
  unfold set_inputCache, WebSocketParser_init. cbn [negb ws_headerComplete ws_complete ws_fin ws_opCode
    ws_payloadLen ws_offset ws_maskKey ws_payload ws_inputCache app].
  rewrite ParseHeader_eq, Ed, <- Ed by done. rewrite (proj2 (Z.eqb_neq _ _) Hy). cbn [negb].
  assert (2 <= length d)%nat as H2 by (rewrite Ed; simpl; lia).
  rewrite ParseHeader_len_eq by done.
  assert (forall (pl : Z) (o : nat) k (v : ws_parser * bool), (o = h)%nat -> (o <= length d)%nat ->
            (length (ws_payload (fst (if negb (IsValidFrame (mkWsParser false true
               (negb (Z.land 128 x =? 0)%Z) (Z.land 15 x) pl (Z.of_nat o) k d [])) then v
             else (ProcessPayload (mkWsParser false true (negb (Z.land 128 x =? 0)%Z) (Z.land 15 x) pl
               (Z.of_nat o) k d []), true)))) <= Nat.max (length (ws_payload (fst v))) (length d - h))%nat)
    as Hgen.
  { intros pl o k v -> Ho. case_if; [lia|]. cbn [fst]. unfold ProcessPayload.
    rewrite have_bytes by (cbn [ws_offset ws_inputCache]; lia).
    cbn [ws_offset ws_inputCache ws_payloadLen]. destruct (Z.leb_spec (Z.of_nat h + pl) (Z.of_nat (length d)));
      cbn [negb]; [|simpl; lia].
    cbn [ResetCurrentFrame ws_payload app]. rewrite length_unmask. lia. }
  destruct Hh as [[-> ->]|[-> ->]]; cbn [Z.eqb Pos.eqb].
  - destruct (4 <=? length d)%nat eqn:E4; [apply Nat.leb_le in E4|simpl; lia].
    rewrite ParseHeader_mask_eq by (done || lia). simpl (4 + 4)%nat.
    destruct (8 <=? length d)%nat eqn:E8; [apply Nat.leb_le in E8|simpl; lia].
    cbn [set_headerComplete ws_complete ws_fin ws_opCode ws_payloadLen ws_offset ws_maskKey
         ws_inputCache ws_payload ws_headerComplete negb].
    etransitivity; [by apply Hgen|]. simpl. lia.
  - destruct (10 <=? length d)%nat eqn:E4; [apply Nat.leb_le in E4|simpl; lia].
    rewrite ParseHeader_mask_eq by (done || lia). simpl (10 + 4)%nat.
    destruct (14 <=? length d)%nat eqn:E8; [apply Nat.leb_le in E8|simpl; lia].
    cbn [set_headerComplete ws_complete ws_fin ws_opCode ws_payloadLen ws_offset ws_maskKey
         ws_inputCache ws_payload ws_headerComplete negb].
    etransitivity; [by apply Hgen|]. simpl. lia.
Qed.

(** A client message of 126 bytes, or of more than 65535, sent in one frame is never
    understood, whatever the mask: [Encode] writes no length behind the code 126, and only 4 of the 8
    length bytes behind 127 (those that are 0), so that the parser takes the mask for the length. *)
Theorem ws_length_lost D c fs rnd :
  length D = 126%nat \/ 65535 < Z.of_nat (length D) <= kMaxLength -> Z.of_nat (length D) < fs ->
  ws_payload (fst (Parse WebSocketParser_init (snd (GetFrame
    (SetFrameSize (SetOpCode (SetPayload (WebSocketEncoder_init true) D) c) fs) rnd)))) <> D.
Proof.
  intros HD Hfs Hpay.
  set (e := SetFrameSize _ _) in Hpay.
  assert (exists x y t h, snd (GetFrame e rnd) = x :: y :: t /\ Z.land 0x80 y <> 0 /\
            ((Z.land 0x7F y = 126 /\ h = 8%nat) \/ (Z.land 0x7F y = 127 /\ h = 14%nat)) /\
            (length (x :: y :: t) < length D + h)%nat) as (x & y & t & h & Ef & Hy & Hh & Hl).
  { unfold GetFrame, e, Encode. cbn [snd we_outputBuf SetFrameSize SetOpCode SetPayload
      WebSocketEncoder_init we_isClient we_opCode we_frameSize we_data we_len we_offset].
    unfold kMaxLength in HD. rewrite Z.sub_0_r, u64_small by lia.
    rewrite Z.gtb_ltb, (proj2 (Z.ltb_lt _ _) Hfs). cbn [negb Z.eqb]. unfold encode_len.
    rewrite !Z.gtb_ltb. destruct HD as [HD|HD].
    - rewrite HD. cbn -[apply_mask u8 le_bytes u32].
      eexists _, 254, _, 8%nat. split; [reflexivity|]. split; [done|]. split; [by left|].
      cbn [length]. rewrite length_app, length_le_bytes, length_apply_mask. lia.
    - rewrite (proj2 (Z.ltb_lt _ _)) by lia. change (u8 (Z.lor (Z.shiftl 1 7) 127)) with 255.
      cbn [app]. eexists _, 255, _, 14%nat. split; [reflexivity|]. split; [done|]. split; [by right|].
      cbn [length]. rewrite !length_app, length_take, !length_le_bytes, length_apply_mask, Nat2Z.id.
      lia. }
  rewrite Ef in Hpay.
  pose proof (Parse_payload_bound (x :: y :: t) x y t h eq_refl Hy) as Hb.
  rewrite Hpay in Hb. unfold kMaxLength in HD. specialize (Hb ltac:(destruct Hh as [[_ ->]|[_ ->]]; lia) Hh).
  destruct Hh as [[_ ->]|[_ ->]]; cbn [length] in *; lia.
Qed.

(** The header of a continuation that claims to have 2^64 - 1 bytes. *)
Definition huge_header (key : bytes) : bytes := [0x80; 0xFF] ++ replicate 8 0xFF ++ key.

Section Huge.
Context (p : ws_parser) (key : bytes).
Hypothesis (Hpay : ws_payload p <> []) (Hmax : Z.of_nat (length (ws_payload p)) <= kMaxLength).
Hypothesis (Hkey : length key = 4%nat).

(** The parser once it has read that header. *)
Definition huge (cache : bytes) : ws_parser :=
  mkWsParser (ws_complete p) true true 0 (2 ^ 64 - 1) 14 key cache (ws_payload p).

Lemma huge_waits cache :
  (14 <= length cache)%nat -> Z.of_nat (length cache) < 2 ^ 63 ->
  IsValidFrame (huge cache) = true /\ ProcessPayload (huge cache) = huge cache.
Proof.
  intros H14 Hc. split.
  - unfold IsValidFrame, huge. cbn [ws_maskKey ws_payload ws_payloadLen].
    rewrite bool_decide_eq_false_2 by (by intros ->). unfold CheckOpCode.
    cbn [ws_opCode Z.eqb opcode_num ws_payload]. rewrite bool_decide_eq_false_2 by done. cbn [negb].
    assert (length (ws_payload p) <> 0)%nat as H0 by (by destruct (ws_payload p)).
    unfold u64. rewrite Z.gtb_ltb.
    replace (Z.of_nat (length (ws_payload p)) + (2 ^ 64 - 1))
      with (Z.of_nat (length (ws_payload p)) - 1 + 1 * 2 ^ 64) by lia.
    rewrite Z.mod_add, Z.mod_small by (unfold kMaxLength in Hmax; lia).
    by rewrite (proj2 (Z.ltb_ge _ _)) by lia.
  - unfold ProcessPayload, huge. rewrite have_bytes by (cbn [ws_offset ws_inputCache]; lia).
    cbn [ws_offset ws_inputCache ws_payloadLen]. by rewrite (proj2 (Z.leb_gt _ _)) by lia.
Qed.

Lemma length_huge_header : length (huge_header key) = 14%nat.
Proof. unfold huge_header. by rewrite !length_app, length_replicate, Hkey. Qed.

Lemma huge_first : idle p -> Parse p (huge_header key) = (huge (huge_header key), true).
Proof.
  intros [Hh Hi]. pose proof length_huge_header as Hl.
  destruct (huge_waits (huge_header key)) as [Hv Hw]; [lia|lia|].
  revert Hv Hw. unfold huge, Parse. rewrite bool_decide_eq_false_2 by done.
  destruct p as [cm hc f op pl off mk cache pay]. simpl in Hh, Hi. subst hc cache.
  destruct key as [|k0 [|k1 [|k2 [|k3 [|]]]]]; try discriminate Hkey. intros Hv Hw.
  unfold set_inputCache. cbn [negb ws_headerComplete ws_complete ws_fin ws_opCode
    ws_payloadLen ws_offset ws_maskKey ws_payload ws_inputCache app] in *.
  rewrite ParseHeader_eq by (simpl; lia). cbn [huge_header app replicate].
  rewrite ParseHeader_len_eq by (simpl; lia). simpl Z.land. cbn [Z.eqb Pos.eqb].
  cbn [length Nat.leb]. rewrite ParseHeader_mask_eq by (simpl; lia). cbn [length Nat.leb Nat.add].
  change (ntohll _) with (2 ^ 64 - 1). cbn [drop take set_headerComplete negb ws_headerComplete
    ws_complete ws_fin ws_opCode ws_payloadLen ws_offset ws_maskKey ws_payload ws_inputCache].
  match goal with |- context [IsValidFrame ?r] =>
    replace (IsValidFrame r) with true by (symmetry; exact Hv) end.
  cbn [negb]. by f_equal.
Qed.

Lemma huge_next cache d :
  (14 <= length cache)%nat -> Z.of_nat (length (cache ++ d)) < 2 ^ 63 -> d <> [] ->
  Parse (huge cache) d = (huge (cache ++ d), true).
Proof.
  intros H14 Hlen Hd. unfold Parse. rewrite bool_decide_eq_false_2 by done.
  change (set_inputCache (huge cache) (ws_inputCache (huge cache) ++ d)) with (huge (cache ++ d)).
  destruct (huge_waits (cache ++ d)) as [Hv Hw]; [rewrite length_app; lia|done|].
  cbn [huge ws_headerComplete negb] in *. by rewrite Hv, Hw.
Qed.
End Huge.

(** The limit on the size of a message can be passed: the sum in [IsValidFrame] wraps around
    for a continuation of 2^64 - 1 bytes, so the frame is valid and everything that follows is
    accepted and stored in the cache. *)
Theorem ws_size_check_wraps p key pieces :
  idle p -> ws_payload p <> [] -> Z.of_nat (length (ws_payload p)) <= kMaxLength ->
  length key = 4%nat -> Z.of_nat (length (huge_header key ++ concat pieces)) < 2 ^ 63 ->
  exists p', feed p (huge_header key :: pieces) = (p', true) /\
    ws_inputCache p' = huge_header key ++ concat pieces /\ ws_payload p' = ws_payload p.
Proof.
  intros Hidle Hpay Hmax Hkey. cbn [feed]. rewrite (huge_first p key Hpay Hmax Hkey Hidle).
  assert (14 <= length (huge_header key))%nat as H14 by by rewrite length_huge_header.
  revert H14. generalize (huge_header key) as cache. cbv iota.
  induction pieces as [|d ds IH]; intros cache H14 Hlen.
  - exists (huge p key cache). simpl. by rewrite app_nil_r.
  - cbn [feed]. destruct (decide (d = [])) as [->|Hd]; [by apply IH|].
    cbn [concat] in *. rewrite app_assoc in *.
    rewrite huge_next by (done || (rewrite !length_app in *; lia)).
    apply IH; [rewrite length_app; lia|done].
Qed.

(** ** Witnesses *)

Definition hello : ws_encoder :=
  SetFrameSize (SetOpCode (SetPayload (WebSocketEncoder_init true) (bs "Hello")) OpCodeType_Text) 2.
Definition hello_rnds : list Z := [1; 2; 3; 0xABCDEF; 5].

Lemma ws_roundtrip_witness :
  exists p, feed WebSocketParser_init
    (concat ((fun f => [take 3 f; []; drop 3 f]) <$> send hello hello_rnds)) = (p, true) /\
    GetPayLoad p = bs "Hello" /\ ws_IsComplete p = true.
Proof.
  apply (ws_roundtrip (bs "Hello") OpCodeType_Text 2 hello_rnds
    ((fun f => [take 3 f; []; drop 3 f]) <$> send hello hello_rnds));
    [lia|discriminate|discriminate|discriminate|vm_compute; discriminate|discriminate|simpl; lia|].
  vm_compute. repeat constructor.
Defined.

Lemma ws_trailing_bytes_lost_witness :
  ws_inputCache (fst (Parse WebSocketParser_init
    (wire (byte0 true OpCodeType_Text) [1; 2; 3; 4] (bs "one") ++
     wire (byte0 true OpCodeType_Text) [1; 2; 3; 4] (bs "two")))) = [].
Proof.
  apply (ws_trailing_bytes_lost true OpCodeType_Text [1; 2; 3; 4] (bs "one") WebSocketParser_init);
    [simpl; lia|reflexivity|discriminate|vm_compute; discriminate|split; reflexivity|].
  vm_compute. reflexivity.
Defined.

Lemma ws_length_lost_witness :
  ws_payload (fst (Parse WebSocketParser_init (snd (GetFrame (SetFrameSize (SetOpCode (SetPayload
    (WebSocketEncoder_init true) (replicate 126 65)) OpCodeType_Text) 1446) 7)))) <> replicate 126 65.
Proof.
  apply (ws_length_lost (replicate 126 65) OpCodeType_Text 1446 7); [by left|].
  vm_compute. reflexivity.
Defined.

Lemma ws_size_check_wraps_witness :
  exists p', feed (mkWsParser false false false 1 0 0 [] [] [72])
    [huge_header [1; 2; 3; 4]; bs "any"; bs "thing"] = (p', true) /\
    ws_inputCache p' = huge_header [1; 2; 3; 4] ++ bs "anything" /\ ws_payload p' = [72].
Proof.
  apply (ws_size_check_wraps (mkWsParser false false false 1 0 0 [] [] [72]) [1; 2; 3; 4]
    [bs "any"; bs "thing"]);
    [split; reflexivity|discriminate|vm_compute; discriminate|reflexivity|vm_compute; reflexivity].
Defined.
