(* ===== verification/HttpTables.v ===== *)
(** * 3rd/http-parser: the enums, tables and character classes of http_parser.h and http_parser.c

    The constants of a build with [HTTP_PARSER_STRICT] (the default of the header, which the build
    does not change).  A [char] is the [Z] of its byte in [[0,256)]: every test of the file on a
    signed [char] has the same value on it, because the tests that accept it bound it by ASCII. *)

From Stdlib Require Import String.
From S2P Require Import Prelude.

Open Scope Z_scope.

Definition HTTP_MAX_HEADER_SIZE : Z := 80 * 1024.
Definition ULLONG_MAX : Z := 2 ^ 64 - 1.

(** ** Enums *)

Inductive http_method :=
  | HTTP_DELETE | HTTP_GET | HTTP_HEAD | HTTP_POST | HTTP_PUT
  | HTTP_CONNECT | HTTP_OPTIONS | HTTP_TRACE | HTTP_COPY | HTTP_LOCK | HTTP_MKCOL | HTTP_MOVE
  | HTTP_PROPFIND | HTTP_PROPPATCH | HTTP_SEARCH | HTTP_UNLOCK | HTTP_BIND | HTTP_REBIND
  | HTTP_UNBIND | HTTP_ACL | HTTP_REPORT | HTTP_MKACTIVITY | HTTP_CHECKOUT | HTTP_MERGE
  | HTTP_MSEARCH | HTTP_NOTIFY | HTTP_SUBSCRIBE | HTTP_UNSUBSCRIBE | HTTP_PATCH | HTTP_PURGE
  | HTTP_MKCALENDAR | HTTP_LINK | HTTP_UNLINK.

#[export] Instance http_method_eq_dec : EqDecision http_method.
Proof. solve_decision. Defined.

(** The values of the enum, and [method_strings]. *)
Definition method_num (m : http_method) : Z :=
  match m with
  | HTTP_DELETE => 0 | HTTP_GET => 1 | HTTP_HEAD => 2 | HTTP_POST => 3 | HTTP_PUT => 4
  | HTTP_CONNECT => 5 | HTTP_OPTIONS => 6 | HTTP_TRACE => 7 | HTTP_COPY => 8 | HTTP_LOCK => 9
  | HTTP_MKCOL => 10 | HTTP_MOVE => 11 | HTTP_PROPFIND => 12 | HTTP_PROPPATCH => 13
  | HTTP_SEARCH => 14 | HTTP_UNLOCK => 15 | HTTP_BIND => 16 | HTTP_REBIND => 17
  | HTTP_UNBIND => 18 | HTTP_ACL => 19 | HTTP_REPORT => 20 | HTTP_MKACTIVITY => 21
  | HTTP_CHECKOUT => 22 | HTTP_MERGE => 23 | HTTP_MSEARCH => 24 | HTTP_NOTIFY => 25
  | HTTP_SUBSCRIBE => 26 | HTTP_UNSUBSCRIBE => 27 | HTTP_PATCH => 28 | HTTP_PURGE => 29
  | HTTP_MKCALENDAR => 30 | HTTP_LINK => 31 | HTTP_UNLINK => 32
  end.

Definition method_strings (m : http_method) : bytes :=
  match m with
  | HTTP_DELETE => bs "DELETE" | HTTP_GET => bs "GET" | HTTP_HEAD => bs "HEAD"
  | HTTP_POST => bs "POST" | HTTP_PUT => bs "PUT" | HTTP_CONNECT => bs "CONNECT"
  | HTTP_OPTIONS => bs "OPTIONS" | HTTP_TRACE => bs "TRACE" | HTTP_COPY => bs "COPY"
  | HTTP_LOCK => bs "LOCK" | HTTP_MKCOL => bs "MKCOL" | HTTP_MOVE => bs "MOVE"
  | HTTP_PROPFIND => bs "PROPFIND" | HTTP_PROPPATCH => bs "PROPPATCH"
  | HTTP_SEARCH => bs "SEARCH" | HTTP_UNLOCK => bs "UNLOCK" | HTTP_BIND => bs "BIND"
  | HTTP_REBIND => bs "REBIND" | HTTP_UNBIND => bs "UNBIND" | HTTP_ACL => bs "ACL"
  | HTTP_REPORT => bs "REPORT" | HTTP_MKACTIVITY => bs "MKACTIVITY"
  | HTTP_CHECKOUT => bs "CHECKOUT" | HTTP_MERGE => bs "MERGE" | HTTP_MSEARCH => bs "M-SEARCH"
  | HTTP_NOTIFY => bs "NOTIFY" | HTTP_SUBSCRIBE => bs "SUBSCRIBE"
  | HTTP_UNSUBSCRIBE => bs "UNSUBSCRIBE" | HTTP_PATCH => bs "PATCH" | HTTP_PURGE => bs "PURGE"
  | HTTP_MKCALENDAR => bs "MKCALENDAR" | HTTP_LINK => bs "LINK" | HTTP_UNLINK => bs "UNLINK"
  end.

Definition all_methods : list http_method := [
  HTTP_DELETE; HTTP_GET; HTTP_HEAD; HTTP_POST; HTTP_PUT; HTTP_CONNECT; HTTP_OPTIONS; HTTP_TRACE;
  HTTP_COPY; HTTP_LOCK; HTTP_MKCOL; HTTP_MOVE; HTTP_PROPFIND; HTTP_PROPPATCH; HTTP_SEARCH;
  HTTP_UNLOCK; HTTP_BIND; HTTP_REBIND; HTTP_UNBIND; HTTP_ACL; HTTP_REPORT; HTTP_MKACTIVITY;
  HTTP_CHECKOUT; HTTP_MERGE; HTTP_MSEARCH; HTTP_NOTIFY; HTTP_SUBSCRIBE; HTTP_UNSUBSCRIBE;
  HTTP_PATCH; HTTP_PURGE; HTTP_MKCALENDAR; HTTP_LINK; HTTP_UNLINK].

Inductive http_parser_type := HTTP_REQUEST | HTTP_RESPONSE | HTTP_BOTH.

#[export] Instance http_parser_type_eq_dec : EqDecision http_parser_type.
Proof. solve_decision. Defined.

(** [enum flags] *)
Definition F_CHUNKED : Z := 1.
Definition F_CONNECTION_KEEP_ALIVE : Z := 2.
Definition F_CONNECTION_CLOSE : Z := 4.
Definition F_CONNECTION_UPGRADE : Z := 8.
Definition F_TRAILING : Z := 16.
Definition F_UPGRADE : Z := 32.
Definition F_SKIPBODY : Z := 64.
Definition F_CONTENTLENGTH : Z := 128.

Inductive http_errno :=
  | HPE_OK | HPE_CB_message_begin | HPE_CB_url | HPE_CB_header_field
  | HPE_CB_header_value | HPE_CB_headers_complete | HPE_CB_body | HPE_CB_message_complete
  | HPE_CB_status | HPE_CB_chunk_header | HPE_CB_chunk_complete | HPE_INVALID_EOF_STATE
  | HPE_HEADER_OVERFLOW | HPE_CLOSED_CONNECTION | HPE_INVALID_VERSION | HPE_INVALID_STATUS
  | HPE_INVALID_METHOD | HPE_INVALID_URL | HPE_INVALID_HOST | HPE_INVALID_PORT | HPE_INVALID_PATH
  | HPE_INVALID_QUERY_STRING | HPE_INVALID_FRAGMENT | HPE_LF_EXPECTED | HPE_INVALID_HEADER_TOKEN
  | HPE_INVALID_CONTENT_LENGTH | HPE_UNEXPECTED_CONTENT_LENGTH | HPE_INVALID_CHUNK_SIZE
  | HPE_INVALID_CONSTANT | HPE_INVALID_INTERNAL_STATE | HPE_STRICT | HPE_PAUSED | HPE_UNKNOWN.

#[export] Instance http_errno_eq_dec : EqDecision http_errno.
Proof. solve_decision. Defined.

(** [http_strerror_tab], as the two functions that read it. *)
Definition http_errno_name (err : http_errno) : string :=
  match err with
  | HPE_OK => "HPE_OK"
  | HPE_CB_message_begin => "HPE_CB_message_begin"
  | HPE_CB_url => "HPE_CB_url"
  | HPE_CB_header_field => "HPE_CB_header_field"
  | HPE_CB_header_value => "HPE_CB_header_value"
  | HPE_CB_headers_complete => "HPE_CB_headers_complete"
  | HPE_CB_body => "HPE_CB_body"
  | HPE_CB_message_complete => "HPE_CB_message_complete"
  | HPE_CB_status => "HPE_CB_status"
  | HPE_CB_chunk_header => "HPE_CB_chunk_header"
  | HPE_CB_chunk_complete => "HPE_CB_chunk_complete"
  | HPE_INVALID_EOF_STATE => "HPE_INVALID_EOF_STATE"
  | HPE_HEADER_OVERFLOW => "HPE_HEADER_OVERFLOW"
  | HPE_CLOSED_CONNECTION => "HPE_CLOSED_CONNECTION"
  | HPE_INVALID_VERSION => "HPE_INVALID_VERSION"
  | HPE_INVALID_STATUS => "HPE_INVALID_STATUS"
  | HPE_INVALID_METHOD => "HPE_INVALID_METHOD"
  | HPE_INVALID_URL => "HPE_INVALID_URL"
  | HPE_INVALID_HOST => "HPE_INVALID_HOST"
  | HPE_INVALID_PORT => "HPE_INVALID_PORT"
  | HPE_INVALID_PATH => "HPE_INVALID_PATH"
  | HPE_INVALID_QUERY_STRING => "HPE_INVALID_QUERY_STRING"
  | HPE_INVALID_FRAGMENT => "HPE_INVALID_FRAGMENT"
  | HPE_LF_EXPECTED => "HPE_LF_EXPECTED"
  | HPE_INVALID_HEADER_TOKEN => "HPE_INVALID_HEADER_TOKEN"
  | HPE_INVALID_CONTENT_LENGTH => "HPE_INVALID_CONTENT_LENGTH"
  | HPE_UNEXPECTED_CONTENT_LENGTH => "HPE_UNEXPECTED_CONTENT_LENGTH"
  | HPE_INVALID_CHUNK_SIZE => "HPE_INVALID_CHUNK_SIZE"
  | HPE_INVALID_CONSTANT => "HPE_INVALID_CONSTANT"
  | HPE_INVALID_INTERNAL_STATE => "HPE_INVALID_INTERNAL_STATE"
  | HPE_STRICT => "HPE_STRICT"
  | HPE_PAUSED => "HPE_PAUSED"
  | HPE_UNKNOWN => "HPE_UNKNOWN"
  end.

Definition http_errno_description (err : http_errno) : string :=
  match err with
  | HPE_OK => "success"
  | HPE_CB_message_begin => "the on_message_begin callback failed"
  | HPE_CB_url => "the on_url callback failed"
  | HPE_CB_header_field => "the on_header_field callback failed"
  | HPE_CB_header_value => "the on_header_value callback failed"
  | HPE_CB_headers_complete => "the on_headers_complete callback failed"
  | HPE_CB_body => "the on_body callback failed"
  | HPE_CB_message_complete => "the on_message_complete callback failed"
  | HPE_CB_status => "the on_status callback failed"
  | HPE_CB_chunk_header => "the on_chunk_header callback failed"
  | HPE_CB_chunk_complete => "the on_chunk_complete callback failed"
  | HPE_INVALID_EOF_STATE => "stream ended at an unexpected time"
  | HPE_HEADER_OVERFLOW => "too many header bytes seen; overflow detected"
  | HPE_CLOSED_CONNECTION => "data received after completed connection: close message"
  | HPE_INVALID_VERSION => "invalid HTTP version"
  | HPE_INVALID_STATUS => "invalid HTTP status code"
  | HPE_INVALID_METHOD => "invalid HTTP method"
  | HPE_INVALID_URL => "invalid URL"
  | HPE_INVALID_HOST => "invalid host"
  | HPE_INVALID_PORT => "invalid port"
  | HPE_INVALID_PATH => "invalid path"
  | HPE_INVALID_QUERY_STRING => "invalid query string"
  | HPE_INVALID_FRAGMENT => "invalid fragment"
  | HPE_LF_EXPECTED => "LF character expected"
  | HPE_INVALID_HEADER_TOKEN => "invalid character in header"
  | HPE_INVALID_CONTENT_LENGTH => "invalid character in content-length header"
  | HPE_UNEXPECTED_CONTENT_LENGTH => "unexpected content-length header"
  | HPE_INVALID_CHUNK_SIZE => "invalid character in chunk size header"
  | HPE_INVALID_CONSTANT => "invalid constant string"
  | HPE_INVALID_INTERNAL_STATE => "encountered unexpected internal state"
  | HPE_STRICT => "strict mode assertion failed"
  | HPE_PAUSED => "parser is paused"
  | HPE_UNKNOWN => "an unknown error occurred"
  end.

Inductive state :=
  | s_dead | s_start_req_or_res | s_res_or_resp_H | s_start_res | s_res_H
  | s_res_HT | s_res_HTT | s_res_HTTP | s_res_first_http_major | s_res_http_major
  | s_res_first_http_minor | s_res_http_minor | s_res_first_status_code | s_res_status_code
  | s_res_status_start | s_res_status | s_res_line_almost_done | s_start_req | s_req_method
  | s_req_spaces_before_url | s_req_schema | s_req_schema_slash | s_req_schema_slash_slash
  | s_req_server_start | s_req_server | s_req_server_with_at | s_req_path
  | s_req_query_string_start | s_req_query_string | s_req_fragment_start | s_req_fragment
  | s_req_http_start | s_req_http_H | s_req_http_HT | s_req_http_HTT | s_req_http_HTTP
  | s_req_first_http_major | s_req_http_major | s_req_first_http_minor | s_req_http_minor
  | s_req_line_almost_done | s_header_field_start | s_header_field | s_header_value_discard_ws
  | s_header_value_discard_ws_almost_done | s_header_value_discard_lws | s_header_value_start
  | s_header_value | s_header_value_lws | s_header_almost_done | s_chunk_size_start
  | s_chunk_size | s_chunk_parameters | s_chunk_size_almost_done | s_headers_almost_done
  | s_headers_done | s_chunk_data | s_chunk_data_almost_done | s_chunk_data_done
  | s_body_identity | s_body_identity_eof | s_message_done.

#[export] Instance state_eq_dec : EqDecision state.
Proof. solve_decision. Defined.

(** [PARSING_HEADER]: the states up to [s_headers_done]; the others are body states. *)
Definition PARSING_HEADER (s : state) : bool :=
  match s with
  | s_chunk_data | s_chunk_data_almost_done | s_chunk_data_done | s_body_identity
  | s_body_identity_eof | s_message_done => false
  | _ => true
  end.

Inductive header_states :=
  | h_general | h_C | h_CO | h_CON | h_matching_connection
  | h_matching_proxy_connection | h_matching_content_length | h_matching_transfer_encoding
  | h_matching_upgrade | h_connection | h_content_length | h_transfer_encoding | h_upgrade
  | h_matching_transfer_encoding_chunked | h_matching_connection_token_start
  | h_matching_connection_keep_alive | h_matching_connection_close
  | h_matching_connection_upgrade | h_matching_connection_token | h_transfer_encoding_chunked
  | h_connection_keep_alive | h_connection_close | h_connection_upgrade.

#[export] Instance header_states_eq_dec : EqDecision header_states.
Proof. solve_decision. Defined.

Inductive http_host_state :=
  | s_http_host_dead | s_http_userinfo_start | s_http_userinfo
  | s_http_host_start | s_http_host_v6_start | s_http_host | s_http_host_v6 | s_http_host_v6_end
  | s_http_host_v6_zone_start | s_http_host_v6_zone | s_http_host_port_start | s_http_host_port.

#[export] Instance http_host_state_eq_dec : EqDecision http_host_state.
Proof. solve_decision. Defined.

(** ** Tables *)

(** The tables have 256 (32) elements; those that are not written are 0. *)
Definition tokens : list Z := [
  0; 0; 0; 0; 0; 0; 0; 0; 0; 0; 0; 0; 0; 0; 0; 0; 0; 0; 0; 0; 0; 0; 0; 0; 0; 0; 0; 0; 0; 0; 0; 0;
  0; 33; 0; 35; 36; 37; 38; 39; 0; 0; 42; 43; 0; 45; 46; 0; 48; 49; 50; 51; 52; 53; 54; 55; 56;
  57; 0; 0; 0; 0; 0; 0; 0; 97; 98; 99; 100; 101; 102; 103; 104; 105; 106; 107; 108; 109; 110;
  111; 112; 113; 114; 115; 116; 117; 118; 119; 120; 121; 122; 0; 0; 0; 94; 95; 96; 97; 98; 99;
  100; 101; 102; 103; 104; 105; 106; 107; 108; 109; 110; 111; 112; 113; 114; 115; 116; 117; 118;
  119; 120; 121; 122; 0; 124; 0; 126; 0].

Definition unhex_tab : list Z := [
  -1; -1; -1; -1; -1; -1; -1; -1; -1; -1; -1; -1; -1; -1; -1; -1; -1; -1; -1; -1; -1; -1; -1; -1;
  -1; -1; -1; -1; -1; -1; -1; -1; -1; -1; -1; -1; -1; -1; -1; -1; -1; -1; -1; -1; -1; -1; -1; -1;
  0; 1; 2; 3; 4; 5; 6; 7; 8; 9; -1; -1; -1; -1; -1; -1; -1; 10; 11; 12; 13; 14; 15; -1; -1; -1;
  -1; -1; -1; -1; -1; -1; -1; -1; -1; -1; -1; -1; -1; -1; -1; -1; -1; -1; -1; -1; -1; -1; -1; 10;
  11; 12; 13; 14; 15; -1; -1; -1; -1; -1; -1; -1; -1; -1; -1; -1; -1; -1; -1; -1; -1; -1; -1; -1;
  -1; -1; -1; -1; -1; -1].

Definition normal_url_char : list Z := [
  0; 0; 0; 0; 246; 255; 255; 127; 255; 255; 255; 255; 255; 255; 255; 127].

Definition unhex (c : Z) : Z := nth (Z.to_nat c) unhex_tab 0.

(** ** Character classes *)

Definition BIT_AT (a : list Z) (i : Z) : bool :=
  Z.testbit (nth (Z.to_nat (Z.shiftr i 3)) a 0) (Z.land i 7).

Abbreviation CR := 13 (only parsing).
Abbreviation LF := 10 (only parsing).

Definition LOWER (c : Z) : Z := u8 (Z.lor c 0x20).
Definition IS_ALPHA (c : Z) : bool := (chr "a" <=? LOWER c) && (LOWER c <=? chr "z").
Definition IS_NUM (c : Z) : bool := (chr "0" <=? c) && (c <=? chr "9").
Definition IS_ALPHANUM (c : Z) : bool := IS_ALPHA c || IS_NUM c.
Definition IS_HEX (c : Z) : bool :=
  IS_NUM c || ((chr "a" <=? LOWER c) && (LOWER c <=? chr "f")).
Definition IS_MARK (c : Z) : bool :=
  (c =? chr "-") || (c =? chr "_") || (c =? chr ".") || (c =? chr "!") || (c =? chr "~") ||
  (c =? chr "*") || (c =? chr "'") || (c =? chr "(") || (c =? chr ")").
Definition IS_USERINFO_CHAR (c : Z) : bool :=
  IS_ALPHANUM c || IS_MARK c || (c =? chr "%") || (c =? chr ";") || (c =? chr ":") ||
  (c =? chr "&") || (c =? chr "=") || (c =? chr "+") || (c =? chr "$") || (c =? chr ",").
(** [TOKEN] and [STRICT_TOKEN]: the lower-case character, or 0. *)
Definition TOKEN (c : Z) : Z := nth (Z.to_nat c) tokens 0.
Definition IS_URL_CHAR (c : Z) : bool := BIT_AT normal_url_char c.
Definition IS_HOST_CHAR (c : Z) : bool := IS_ALPHANUM c || (c =? chr ".") || (c =? chr "-").
Definition IS_HEADER_CHAR (c : Z) : bool :=
  (c =? CR) || (c =? LF) || (c =? 9) || ((31 <? c) && negb (c =? 127)).

(** [http_method_str]: [ELEM_AT] treats every other number as unknown. *)
Definition http_method_str (m : Z) : bytes :=
  if (0 <=? m) && (m <? 33) then
    match all_methods !! Z.to_nat m with Some me => method_strings me | None => [] end
  else bs "<unknown>".

Definition http_parser_version : Z :=
  Z.lor (Z.lor (2 * 0x10000) (6 * 0x100)) (2 * 0x1).
