(* ===== verification/HttpUrl.v ===== *)
(** * 3rd/http-parser/http_parser.c: the URL parser

    [parse_url_char], the automaton the message parser shares, [http_parse_host] and
    [http_parser_parse_url].  The offsets and lengths of [http_parser_url] are [uint16_t]. *)

From S2P Require Import Prelude HttpTables.

Open Scope Z_scope.

(** ** The automaton *)

Definition parse_url_char (s : state) (ch : Z) : state :=
  if (ch =? 32) || (ch =? CR) || (ch =? LF) then s_dead
  else if (ch =? 9) || (ch =? 12) then s_dead
  else
    match s with
    | s_req_spaces_before_url =>
        if (ch =? chr "/") || (ch =? chr "*") then s_req_path
        else if IS_ALPHA ch then s_req_schema
        else s_dead
    | s_req_schema =>
        if IS_ALPHA ch then s
        else if ch =? chr ":" then s_req_schema_slash
        else s_dead
    | s_req_schema_slash => if ch =? chr "/" then s_req_schema_slash_slash else s_dead
    | s_req_schema_slash_slash => if ch =? chr "/" then s_req_server_start else s_dead
    | s_req_server_with_at | s_req_server_start | s_req_server =>
        if (if decide (s = s_req_server_with_at) then ch =? chr "@" else false) then s_dead
        else if ch =? chr "/" then s_req_path
        else if ch =? chr "?" then s_req_query_string_start
        else if ch =? chr "@" then s_req_server_with_at
        else if IS_USERINFO_CHAR ch || (ch =? chr "[") || (ch =? chr "]") then s_req_server
        else s_dead
    | s_req_path =>
        if IS_URL_CHAR ch then s
        else if ch =? chr "?" then s_req_query_string_start
        else if ch =? chr "#" then s_req_fragment_start
        else s_dead
    | s_req_query_string_start | s_req_query_string =>
        if IS_URL_CHAR ch then s_req_query_string
        else if ch =? chr "?" then s_req_query_string
        else if ch =? chr "#" then s_req_fragment_start
        else s_dead
    | s_req_fragment_start =>
        if IS_URL_CHAR ch then s_req_fragment
        else if ch =? chr "?" then s_req_fragment
        else if ch =? chr "#" then s
        else s_dead
    | s_req_fragment =>
        if IS_URL_CHAR ch then s
        else if (ch =? chr "?") || (ch =? chr "#") then s
        else s_dead
    | _ => s_dead
    end.

(** ** The host *)

Definition http_parse_host_char (s : http_host_state) (ch : Z) : http_host_state :=
  match s with
  | s_http_userinfo | s_http_userinfo_start =>
      if ch =? chr "@" then s_http_host_start
      else if IS_USERINFO_CHAR ch then s_http_userinfo
      else s_http_host_dead
  | s_http_host_start =>
      if ch =? chr "[" then s_http_host_v6_start
      else if IS_HOST_CHAR ch then s_http_host
      else s_http_host_dead
  | s_http_host =>
      if IS_HOST_CHAR ch then s_http_host
      else if ch =? chr ":" then s_http_host_port_start
      else s_http_host_dead
  | s_http_host_v6_end =>
      if ch =? chr ":" then s_http_host_port_start else s_http_host_dead
  | s_http_host_v6 | s_http_host_v6_start =>
      if (if decide (s = s_http_host_v6) then ch =? chr "]" else false) then s_http_host_v6_end
      else if IS_HEX ch || (ch =? chr ":") || (ch =? chr ".") then s_http_host_v6
      else if (if decide (s = s_http_host_v6) then ch =? chr "%" else false)
      then s_http_host_v6_zone_start
      else s_http_host_dead
  | s_http_host_v6_zone | s_http_host_v6_zone_start =>
      if (if decide (s = s_http_host_v6_zone) then ch =? chr "]" else false)
      then s_http_host_v6_end
      else if IS_ALPHANUM ch || (ch =? chr "%") || (ch =? chr ".") || (ch =? chr "-") ||
              (ch =? chr "_") || (ch =? chr "~")
      then s_http_host_v6_zone
      else s_http_host_dead
  | s_http_host_port | s_http_host_port_start =>
      if IS_NUM ch then s_http_host_port else s_http_host_dead
  | s_http_host_dead => s_http_host_dead
  end.

(** [enum http_parser_url_fields] *)
Inductive http_parser_url_fields :=
  | UF_SCHEMA | UF_HOST | UF_PORT | UF_PATH | UF_QUERY | UF_FRAGMENT | UF_USERINFO.

#[export] Instance url_fields_eq_dec : EqDecision http_parser_url_fields.
Proof. solve_decision. Defined.

Definition uf_num (f : http_parser_url_fields) : Z :=
  match f with
  | UF_SCHEMA => 0 | UF_HOST => 1 | UF_PORT => 2 | UF_PATH => 3 | UF_QUERY => 4
  | UF_FRAGMENT => 5 | UF_USERINFO => 6
  end.

Record url_field := mkField { fd_off : Z; fd_len : Z }.

(** [struct http_parser_url]; [field_data] is indexed by the fields of the enum. *)
Record http_parser_url := mkUrl {
  field_set : Z;
  url_port : Z;
  field_data : http_parser_url_fields -> url_field
}.

Definition http_parser_url_init : http_parser_url := mkUrl 0 0 (fun _ => mkField 0 0).

(** [u->field_set & (1 << f)], [u->field_set |= (1 << f)], and the writes to [field_data]. *)
Definition uf_isset (u : http_parser_url) (f : http_parser_url_fields) : bool :=
  negb (Z.land (field_set u) (Z.shiftl 1 (uf_num f)) =? 0).
Definition uf_set (u : http_parser_url) (f : http_parser_url_fields) : http_parser_url :=
  mkUrl (u16 (Z.lor (field_set u) (Z.shiftl 1 (uf_num f)))) (url_port u) (field_data u).
Definition set_field (u : http_parser_url) (f : http_parser_url_fields) (d : url_field)
    : http_parser_url :=
  mkUrl (field_set u) (url_port u) (fun g => if decide (g = f) then d else field_data u g).
Definition set_off (u : http_parser_url) f (off : nat) : http_parser_url :=
  set_field u f (mkField (u16 (Z.of_nat off)) (fd_len (field_data u f))).
Definition set_len (u : http_parser_url) f (len : Z) : http_parser_url :=
  set_field u f (mkField (fd_off (field_data u f)) len).
Definition incr_len (u : http_parser_url) f : http_parser_url :=
  set_len u f (u16 (fd_len (field_data u f) + 1)).

(** What the loop of [http_parse_host] does to [u] in the state [new_s] reached from [s] at the
    offset [i]. *)
Definition host_field (u : http_parser_url) (s new_s : http_host_state) (i : nat)
    : http_parser_url :=
  match new_s with
  | s_http_host | s_http_host_v6 =>
      let u := if decide (s = new_s) then u else set_off u UF_HOST i in
      incr_len u UF_HOST
  | s_http_host_v6_zone_start | s_http_host_v6_zone => incr_len u UF_HOST
  | s_http_host_port =>
      let u :=
        if decide (s = s_http_host_port) then u
        else uf_set (set_len (set_off u UF_PORT i) UF_PORT 0) UF_PORT in
      incr_len u UF_PORT
  | s_http_userinfo =>
      let u :=
        if decide (s = s_http_userinfo) then u
        else uf_set (set_len (set_off u UF_USERINFO i) UF_USERINFO 0) UF_USERINFO in
      incr_len u UF_USERINFO
  | _ => u
  end.

(** The loop over the bytes from the offset [i]; [None] is [return 1]. *)
Fixpoint host_loop (buf : bytes) (i : nat) (s : http_host_state) (u : http_parser_url)
    : option (http_host_state * http_parser_url) :=
  match buf with
  | [] => Some (s, u)
  | ch :: buf' =>
      let new_s := http_parse_host_char s ch in
      if decide (new_s = s_http_host_dead) then None
      else host_loop buf' (S i) new_s (host_field u s new_s i)
  end.

(** The states the host may end in. *)
Definition host_end_ok (s : http_host_state) : bool :=
  match s with
  | s_http_host_start | s_http_host_v6_start | s_http_host_v6 | s_http_host_v6_zone_start
  | s_http_host_v6_zone | s_http_host_port_start | s_http_userinfo | s_http_userinfo_start => false
  | _ => true
  end.

Definition http_parse_host (buf : bytes) (u : http_parser_url) (found_at : bool)
    : option http_parser_url :=
  let off := Z.to_nat (fd_off (field_data u UF_HOST)) in
  let buflen := Z.to_nat (fd_off (field_data u UF_HOST) + fd_len (field_data u UF_HOST)) in
  let u := set_len u UF_HOST 0 in
  let s := if found_at then s_http_userinfo_start else s_http_host_start in
  match host_loop (slice buf off (buflen - off)) off s u with
  | Some (s, u) => if host_end_ok s then Some u else None
  | None => None
  end.

(** ** http_parser_parse_url *)

(** The field of a state of the automaton: [None] to skip a delimiter. *)
Inductive url_step := UrlDead | UrlSkip | UrlField (f : http_parser_url_fields).

Definition url_state_field (s : state) : url_step :=
  match s with
  | s_req_schema_slash | s_req_schema_slash_slash | s_req_server_start
  | s_req_query_string_start | s_req_fragment_start => UrlSkip
  | s_req_schema => UrlField UF_SCHEMA
  | s_req_server_with_at | s_req_server => UrlField UF_HOST
  | s_req_path => UrlField UF_PATH
  | s_req_query_string => UrlField UF_QUERY
  | s_req_fragment => UrlField UF_FRAGMENT
  | _ => UrlDead
  end.

(** The loop of [http_parser_parse_url] over the bytes from the offset [i]; [old_uf = None] is
    [UF_MAX]. *)
Fixpoint url_loop (buf : bytes) (i : nat) (s : state) (old_uf : option http_parser_url_fields)
    (found_at : bool) (u : http_parser_url) : option (http_parser_url * bool) :=
  match buf with
  | [] => Some (u, found_at)
  | ch :: buf' =>
      let s := parse_url_char s ch in
      match url_state_field s with
      | UrlDead => None
      | UrlSkip => url_loop buf' (S i) s old_uf found_at u
      | UrlField uf =>
          let found_at := if decide (s = s_req_server_with_at) then true else found_at in
          if decide (old_uf = Some uf) then
            url_loop buf' (S i) s old_uf found_at (incr_len u uf)
          else
            let u := uf_set (set_len (set_off u uf i) uf 1) uf in
            url_loop buf' (S i) s (Some uf) found_at u
      end
  end.

(** [strtoul(ptr, NULL, 10)] on text that starts with a digit. *)
Fixpoint strtoul (text : bytes) (v : Z) : Z :=
  match text with
  | c :: text' => if IS_NUM c then strtoul text' (Z.min ULLONG_MAX (v * 10 + (c - 48))) else v
  | [] => v
  end.

(** [after] is the memory behind the [buflen] bytes of the buffer: [strtoul] does not stop there.
    The result is [None] when the function returns 1. *)
Definition http_parser_parse_url (buf after : bytes) (is_connect : bool) (u : http_parser_url)
    : option http_parser_url :=
  let u := mkUrl 0 0 (field_data u) in
  let s := if is_connect then s_req_server_start else s_req_spaces_before_url in
  match url_loop buf 0 s None false u with
  | None => None
  | Some (u, found_at) =>
      if uf_isset u UF_SCHEMA && negb (uf_isset u UF_HOST) then None
      else
        match (if uf_isset u UF_HOST then http_parse_host buf u found_at else Some u) with
        | None => None
        | Some u =>
            if is_connect &&
               negb (field_set u =?
                     Z.lor (Z.shiftl 1 (uf_num UF_HOST)) (Z.shiftl 1 (uf_num UF_PORT)))
            then None
            else if uf_isset u UF_PORT then
              let v := strtoul (drop (Z.to_nat (fd_off (field_data u UF_PORT))) (buf ++ after)) 0 in
              if v >? 0xffff then None else Some (mkUrl (field_set u) (u16 v) (field_data u))
            else Some u
        end
  end.

(** ** Bounds *)

(** A single bit of the mask. *)
Lemma land_bit x n : 0 <= n -> negb (Z.land x (Z.shiftl 1 n) =? 0) = Z.testbit x n.
Proof.
  intros Hn. rewrite Z.shiftl_1_l. destruct (Z.testbit x n) eqn:E.
  - apply negb_true_iff, Z.eqb_neq. intros H0.
    assert (Z.testbit (Z.land x (2 ^ n)) n = true) as Hb.
    { by rewrite Z.land_spec, E, Z.pow2_bits_true by done. }
    by rewrite H0, Z.testbit_0_l in Hb.
  - apply negb_false_iff, Z.eqb_eq. apply Z.bits_inj_0. intros m. rewrite Z.land_spec.
    destruct (decide (m = n)) as [->|Hne]; [by rewrite E|].
    by rewrite (Z.pow2_bits_false n m), andb_false_r by done.
Qed.

Lemma uf_isset_bit u f : uf_isset u f = Z.testbit (field_set u) (uf_num f).
Proof. unfold uf_isset. apply land_bit. by destruct f. Qed.

Lemma uf_isset_set u f g : uf_isset (uf_set u f) g = true -> g = f \/ uf_isset u g = true.
Proof.
  rewrite !uf_isset_bit. unfold uf_set, u16. simpl.
  rewrite Z.mod_pow2_bits_low by (by destruct g). rewrite Z.lor_spec, Z.shiftl_1_l.
  intros [?|Hb]%orb_true_iff; [by right|]. left.
  rewrite Z.pow2_bits_eqb in Hb by (by destruct f). breflect. by destruct f, g.
Qed.

(** Every field of [P] that is set lies in the first [n] bytes of the buffer. *)
Definition fields_within (P : http_parser_url_fields -> bool) (n : nat) (u : http_parser_url)
    : Prop :=
  forall f, P f = true -> uf_isset u f = true ->
    0 <= fd_off (field_data u f) /\ 0 <= fd_len (field_data u f) /\
    fd_off (field_data u f) + fd_len (field_data u f) <= Z.of_nat n.

Section Bounds.
Context (n : nat) (Hn : Z.of_nat n < 65536) (P : http_parser_url_fields -> bool).
#[local] Notation within := (fields_within P).

Lemma u16_index i : (i <= n)%nat -> u16 (Z.of_nat i) = Z.of_nat i.
Proof. intros. apply Z.mod_small. lia. Qed.

Lemma u16_le z : 0 <= z -> 0 <= u16 z <= z.
Proof. intros. unfold u16. split; [apply Z.mod_pos_bound; lia|by apply Z.mod_le]. Qed.

Lemma fields_within_mono i j u : (i <= j)%nat -> within i u -> within j u.
Proof. intros Hij Hu f HP Hf. destruct (Hu f HP Hf) as (? & ? & ?). lia. Qed.

(** A field that grows by the byte at [i]. *)
Lemma incr_len_within i u f : within i u -> within (S i) (incr_len u f).
Proof.
  intros Hu g HP Hg. assert (uf_isset u g = true) as Hg' by done.
  destruct (Hu g HP Hg') as (Ho & Hl & Hs). simpl. case_decide; subst; simpl; [|lia].
  pose proof (u16_le (fd_len (field_data u f) + 1)). lia.
Qed.

(** A field that starts at [i]. *)
Lemma start_field_within i u f k : (i <= n)%nat -> 0 <= k -> within i u ->
  within (i + Z.to_nat k) (uf_set (set_len (set_off u f i) f k) f).
Proof.
  intros Hi Hk Hu g HP Hg. apply uf_isset_set in Hg. simpl. repeat case_decide; subst; simpl in *.
  - rewrite u16_index by done. lia.
  - congruence.
  - destruct Hg as [|Hg]; [done|]. destruct (Hu g HP Hg) as (? & ? & ?). lia.
Qed.

Lemma url_loop_within buf i s old found u u' found' :
  url_loop buf i s old found u = Some (u', found') -> (i + length buf <= n)%nat ->
  within i u -> within (i + length buf) u'.
Proof.
  revert i s old found u. induction buf as [|x buf IH]; intros i s old found u; simpl.
  { intros [= <- <-] _ Hu. by rewrite Nat.add_0_r. }
  replace (i + S (length buf))%nat with (S i + length buf)%nat by lia. intros Hl Hn' Hu.
  destruct (url_state_field _) as [| |f]; [done|..].
  - eapply IH; [exact Hl|lia|]. eapply fields_within_mono; [|done]. lia.
  - case_decide.
    + eapply IH; [exact Hl|lia|]. by apply incr_len_within.
    + eapply IH; [exact Hl|lia|].
      replace (S i) with (i + Z.to_nat 1)%nat by lia. apply start_field_within; [lia|done|done].
Qed.

(** The states in which the host has not begun. *)
Definition before_host (s : http_host_state) : bool :=
  match s with
  | s_http_userinfo_start | s_http_userinfo | s_http_host_start | s_http_host_v6_start => true
  | _ => false
  end.

Lemma host_field_within i u s x : (i < n)%nat -> within i u ->
  (before_host s = true -> fd_len (field_data u UF_HOST) = 0) ->
  http_parse_host_char s x <> s_http_host_dead ->
  let new_s := http_parse_host_char s x in
  within (S i) (host_field u s new_s i) /\
  (before_host new_s = true -> fd_len (field_data (host_field u s new_s i) UF_HOST) = 0).
Proof.
  intros Hi Hu Hb Hd new_s.
  assert (within (S i) u) as Hu1 by (eapply fields_within_mono; [|done]; lia).
  assert (forall f, within (S i) (incr_len (uf_set (set_len (set_off u f i) f 0) f) f)) as Hst.
  { intros f. apply incr_len_within. replace i with (i + Z.to_nat 0)%nat at 1 by lia.
    apply start_field_within; [lia|done|done]. }
  assert (before_host s = true -> within (S i) (incr_len (set_off u UF_HOST i) UF_HOST)) as Hh.
  { intros Hs. specialize (Hb Hs). apply incr_len_within. intros g HP Hg. simpl.
    case_decide; [subst; simpl; rewrite u16_index by lia; lia|]. by apply Hu. }
  subst new_s. revert Hd. unfold http_parse_host_char.
  destruct s; simpl; repeat case_match; intros Hd; try done; simpl;
    repeat case_decide; try done; split; try done; auto using incr_len_within.
  all: intros _; simpl; repeat case_decide; try done; by apply Hb.
Qed.

Lemma host_loop_within buf i s u s' u' :
  host_loop buf i s u = Some (s', u') -> (i + length buf <= n)%nat ->
  within i u -> (before_host s = true -> fd_len (field_data u UF_HOST) = 0) ->
  within (i + length buf) u'.
Proof.
  revert i s u. induction buf as [|x buf IH]; intros i s u; simpl.
  { intros [= <- <-] _ Hu _. by rewrite Nat.add_0_r. }
  replace (i + S (length buf))%nat with (S i + length buf)%nat by lia. intros Hl Hn' Hu Hb.
  case_decide; [done|].
  destruct (host_field_within i u s x) as [Hw Hb']; [lia|done|done|done|].
  eapply IH; [exact Hl|lia|done|done].
Qed.
End Bounds.

(** The fields [http_parse_host] writes. *)
Definition host_fields (f : http_parser_url_fields) : bool :=
  match f with UF_HOST | UF_PORT | UF_USERINFO => true | _ => false end.

(** The other fields are untouched. *)
Definition same_others (u u' : http_parser_url) : Prop :=
  forall f, host_fields f = false ->
    field_data u' f = field_data u f /\ (uf_isset u' f = true -> uf_isset u f = true).

Lemma same_others_trans u1 u2 u3 : same_others u1 u2 -> same_others u2 u3 -> same_others u1 u3.
Proof.
  intros H1 H2 f Hf. destruct (H1 f Hf) as [E1 B1], (H2 f Hf) as [E2 B2].
  split; [congruence|auto].
Qed.

Lemma host_field_others u s new_s i : same_others u (host_field u s new_s i).
Proof.
  intros f Hf. destruct new_s; simpl; repeat case_decide; simpl; repeat case_decide;
    subst; try done; split; try done; intros Hs; apply uf_isset_set in Hs as [->|Hs]; done.
Qed.

Lemma host_loop_others buf i s u s' u' : host_loop buf i s u = Some (s', u') -> same_others u u'.
Proof.
  revert i s u. induction buf as [|x buf IH]; intros i s u; simpl.
  { intros [= <- <-] f _. done. }
  case_decide; [done|]. intros Hl. eapply same_others_trans; [apply host_field_others|by eapply IH].
Qed.

(** [url_loop] sets no port and no user info. *)
Lemma url_loop_no_port buf i s old found u u' found' f :
  f = UF_PORT \/ f = UF_USERINFO ->
  url_loop buf i s old found u = Some (u', found') -> uf_isset u f = false -> uf_isset u' f = false.
Proof.
  intros Hf. revert i s old found u. induction buf as [|x buf IH]; intros i s old found u; simpl.
  { by intros [= <- <-]. }
  destruct (url_state_field _) as [| |g] eqn:Eg; [done|by eauto|].
  assert (g <> f) as Hg.
  { intros ->. destruct (parse_url_char s x); destruct Hf; by simplify_eq/=. }
  case_decide; intros Hl Hu; (eapply IH; [done|]); [done|].
  apply not_true_is_false. intros [E|E]%uf_isset_set; [by subst|]. change (uf_isset u f = true) in E. congruence.
Qed.

(** The port is written at the end only. *)
Lemma url_loop_port buf i s old found u u' found' :
  url_loop buf i s old found u = Some (u', found') -> url_port u' = url_port u.
Proof.
  revert i s old found u. induction buf as [|x buf IH]; intros i s old found u; simpl.
  { by intros [= <- <-]. }
  destruct (url_state_field _); [done|by intros ->%IH|]. case_decide; by intros ->%IH.
Qed.

Lemma host_loop_port buf i s u s' u' :
  host_loop buf i s u = Some (s', u') -> url_port u' = url_port u.
Proof.
  revert i s u. induction buf as [|x buf IH]; intros i s u; simpl; [by intros [= <- <-]|].
  case_decide; [done|]. intros ->%IH.
  destruct (http_parse_host_char s x); simpl; by repeat case_decide.
Qed.

Lemma parse_host_port buf u found u' :
  http_parse_host buf u found = Some u' -> url_port u' = url_port u.
Proof.
  unfold http_parse_host. destruct (host_loop _ _ _ _) as [[s u2]|] eqn:Hl; [|done].
  destruct (host_end_ok s); [|done]. intros [= <-]. by apply host_loop_port in Hl.
Qed.

Lemma parse_host_within n buf u found u' : Z.of_nat n < 65536 ->
  http_parse_host buf u found = Some u' -> length buf = n ->
  fields_within (fun _ => true) n u -> uf_isset u UF_HOST = true ->
  uf_isset u UF_PORT = false -> uf_isset u UF_USERINFO = false ->
  fields_within (fun _ => true) n u'.
Proof.
  intros Hn Hp Hbuf Hu Hhost Hport Huser. unfold http_parse_host in Hp.
  destruct (host_loop _ _ _ _) as [[s u2]|] eqn:Hl; [|done].
  destruct (host_end_ok s); simplify_eq.
  destruct (Hu UF_HOST eq_refl Hhost) as (Ho & Hlen & Hsum).
  set (off := Z.to_nat (fd_off (field_data u UF_HOST))) in *.
  intros f _ Hf. destruct (host_fields f) eqn:Ef.
  - assert (fields_within host_fields (length buf) u') as Hw; [|by apply Hw].
    eapply (fields_within_mono (length buf) _ (off + length (slice buf off
      (Z.to_nat (fd_off (field_data u UF_HOST) + fd_len (field_data u UF_HOST)) - off)))%nat).
    { rewrite length_slice; lia. }
    eapply host_loop_within; [exact Hn|exact Hl| | |].
    + rewrite length_slice; lia.
    + intros g Hg Hgs. change (uf_isset u g = true) in Hgs. simpl.
      destruct g; try done; try congruence. simpl. lia.
    + by intros _.
  - destruct (host_loop_others _ _ _ _ _ _ Hl f Ef) as [Ed Eb]. specialize (Eb Hf).
    rewrite Ed. destruct f; try done; by apply (Hu _ eq_refl Eb).
Qed.

Lemma strtoul_pos text v : 0 <= v -> 0 <= strtoul text v.
Proof.
  revert v. induction text as [|c text IH]; intros v Hv; simpl; [done|].
  destruct (IS_NUM c) eqn:E; [|done]. apply IH. unfold IS_NUM, ULLONG_MAX in *. breflect. lia.
Qed.

(** C37.  The fields [http_parser_parse_url] reports for a buffer of at most 65535 bytes are
    substrings of the buffer, and the port is a 16-bit number. *)
Theorem parse_url_within buf after is_connect u u' :
  Z.of_nat (length buf) < 65536 ->
  http_parser_parse_url buf after is_connect u = Some u' ->
  fields_within (fun _ => true) (length buf) u' /\ 0 <= url_port u' <= 65535.
Proof.
  intros Hn. unfold http_parser_parse_url.
  set (u0 := mkUrl 0 0 (field_data u)).
  assert (forall f, uf_isset u0 f = false) as H0 by (by intros []).
  destruct (url_loop _ _ _ _ _ _) as [[u1 found]|] eqn:Hl; [|done].
  destruct (_ && _); [done|].
  assert (fields_within (fun _ => true) (length buf) u1) as Hw1.
  { eapply (url_loop_within (length buf) Hn _ buf 0); [exact Hl|lia|].
    intros f _ Hf. by rewrite H0 in Hf. }
  assert (url_port u1 = 0) as Hp1 by by apply url_loop_port in Hl.
  destruct (if uf_isset u1 UF_HOST then _ else _) as [u2|] eqn:Hh; [|done].
  assert (fields_within (fun _ => true) (length buf) u2) as Hw2.
  { destruct (uf_isset u1 UF_HOST) eqn:Eh; [|by simplify_eq].
    eapply parse_host_within; [exact Hn|exact Hh|done|done|done|..];
      eapply url_loop_no_port; eauto. }
  assert (url_port u2 = 0) as Hp2.
  { destruct (uf_isset u1 UF_HOST); [|by simplify_eq]. apply parse_host_port in Hh. congruence. }
  destruct (_ && _); [done|]. destruct (uf_isset u2 UF_PORT).
  - set (v := strtoul _ 0). destruct (v >? 0xffff) eqn:Ev; [done|]. intros [= <-].
    rewrite Z.gtb_ltb in Ev. breflect. split; [done|]. simpl.
    assert (0 <= v) by by apply strtoul_pos. unfold u16. rewrite Z.mod_small; lia.
  - intros [= <-]. split; [done|lia].
Qed.

(** The port is read with [strtoul], which does not know where the buffer ends: for the
    buffer [host:8] of a CONNECT request the port is 8 or 80, depending on the byte behind it. *)
Theorem parse_url_port_overrun :
  (url_port <$> http_parser_parse_url (bs "host:8") [0] true http_parser_url_init) = Some 8 /\
  (url_port <$> http_parser_parse_url (bs "host:8") (bs "0" ++ [0]) true http_parser_url_init) =
    Some 80.
Proof. split; reflexivity. Qed.

Lemma parse_url_within_witness :
  exists u, http_parser_parse_url (bs "http://me@host.com:8080/p?q#f") [] false
              http_parser_url_init = Some u /\ url_port u = 8080 /\
    fields_within (fun _ => true) 29 u /\ 0 <= url_port u <= 65535.
Proof.
  eexists. split; [vm_compute; reflexivity|]. split; [reflexivity|].
  apply (parse_url_within (bs "http://me@host.com:8080/p?q#f") [] false http_parser_url_init).
  - vm_compute. reflexivity.
  - vm_compute. reflexivity.
Defined.
