(* ===== verification/HttpExecute.v ===== *)
(** * 3rd/http-parser/http_parser.c: the message parser

    [http_parser_execute] as a program over the parser, its local variables and the data [U] of
    the callbacks ([parser->data]).  A [switch] case is a definition of its own; a statement is a
    function on the machine state that ends normally or by one of the jumps of the C code.  The
    assertions are part of the model (the theorems show that none of them fails), and so is the
    strict mode of the build. *)

From S2P Require Import Prelude HttpTables HttpUrl.

Open Scope Z_scope.

(** ** State *)

(** [struct http_parser] without [data], which is the user state of the callbacks. *)
Record http_parser := mkHttpParser {
  hp_type : http_parser_type;
  flags : Z;
  hp_state : state;
  header_state : header_states;
  index : Z;
  lenient_http_headers : bool;
  nread : Z;
  content_length : Z;
  http_major : Z;
  http_minor : Z;
  status_code : Z;
  method : http_method;
  errno : http_errno;
  upgrade : bool
}.

(** Assignments to one member. *)
Definition set_hp_type (v : http_parser_type) (hp : http_parser) : http_parser :=
  mkHttpParser v (flags hp) (hp_state hp) (header_state hp) (index hp) (lenient_http_headers hp)
    (nread hp) (content_length hp) (http_major hp) (http_minor hp) (status_code hp) (method hp)
    (errno hp) (upgrade hp).
Definition set_flags (v : Z) (hp : http_parser) : http_parser :=
  mkHttpParser (hp_type hp) v (hp_state hp) (header_state hp) (index hp) (lenient_http_headers
    hp) (nread hp) (content_length hp) (http_major hp) (http_minor hp) (status_code hp) (method
    hp) (errno hp) (upgrade hp).
Definition set_hp_state (v : state) (hp : http_parser) : http_parser :=
  mkHttpParser (hp_type hp) (flags hp) v (header_state hp) (index hp) (lenient_http_headers hp)
    (nread hp) (content_length hp) (http_major hp) (http_minor hp) (status_code hp) (method hp)
    (errno hp) (upgrade hp).
Definition set_header_state (v : header_states) (hp : http_parser) : http_parser :=
  mkHttpParser (hp_type hp) (flags hp) (hp_state hp) v (index hp) (lenient_http_headers hp)
    (nread hp) (content_length hp) (http_major hp) (http_minor hp) (status_code hp) (method hp)
    (errno hp) (upgrade hp).
Definition set_index (v : Z) (hp : http_parser) : http_parser :=
  mkHttpParser (hp_type hp) (flags hp) (hp_state hp) (header_state hp) v (lenient_http_headers
    hp) (nread hp) (content_length hp) (http_major hp) (http_minor hp) (status_code hp) (method
    hp) (errno hp) (upgrade hp).
Definition set_lenient_http_headers (v : bool) (hp : http_parser) : http_parser :=
  mkHttpParser (hp_type hp) (flags hp) (hp_state hp) (header_state hp) (index hp) v (nread hp)
    (content_length hp) (http_major hp) (http_minor hp) (status_code hp) (method hp) (errno hp)
    (upgrade hp).
Definition set_nread (v : Z) (hp : http_parser) : http_parser :=
  mkHttpParser (hp_type hp) (flags hp) (hp_state hp) (header_state hp) (index hp)
    (lenient_http_headers hp) v (content_length hp) (http_major hp) (http_minor hp) (status_code
    hp) (method hp) (errno hp) (upgrade hp).
Definition set_content_length (v : Z) (hp : http_parser) : http_parser :=
  mkHttpParser (hp_type hp) (flags hp) (hp_state hp) (header_state hp) (index hp)
    (lenient_http_headers hp) (nread hp) v (http_major hp) (http_minor hp) (status_code hp)
    (method hp) (errno hp) (upgrade hp).
Definition set_http_major (v : Z) (hp : http_parser) : http_parser :=
  mkHttpParser (hp_type hp) (flags hp) (hp_state hp) (header_state hp) (index hp)
    (lenient_http_headers hp) (nread hp) (content_length hp) v (http_minor hp) (status_code hp)
    (method hp) (errno hp) (upgrade hp).
Definition set_http_minor (v : Z) (hp : http_parser) : http_parser :=
  mkHttpParser (hp_type hp) (flags hp) (hp_state hp) (header_state hp) (index hp)
    (lenient_http_headers hp) (nread hp) (content_length hp) (http_major hp) v (status_code hp)
    (method hp) (errno hp) (upgrade hp).
Definition set_status_code (v : Z) (hp : http_parser) : http_parser :=
  mkHttpParser (hp_type hp) (flags hp) (hp_state hp) (header_state hp) (index hp)
    (lenient_http_headers hp) (nread hp) (content_length hp) (http_major hp) (http_minor hp) v
    (method hp) (errno hp) (upgrade hp).
Definition set_method (v : http_method) (hp : http_parser) : http_parser :=
  mkHttpParser (hp_type hp) (flags hp) (hp_state hp) (header_state hp) (index hp)
    (lenient_http_headers hp) (nread hp) (content_length hp) (http_major hp) (http_minor hp)
    (status_code hp) v (errno hp) (upgrade hp).
Definition set_errno (v : http_errno) (hp : http_parser) : http_parser :=
  mkHttpParser (hp_type hp) (flags hp) (hp_state hp) (header_state hp) (index hp)
    (lenient_http_headers hp) (nread hp) (content_length hp) (http_major hp) (http_minor hp)
    (status_code hp) (method hp) v (upgrade hp).
Definition set_upgrade (v : bool) (hp : http_parser) : http_parser :=
  mkHttpParser (hp_type hp) (flags hp) (hp_state hp) (header_state hp) (index hp)
    (lenient_http_headers hp) (nread hp) (content_length hp) (http_major hp) (http_minor hp)
    (status_code hp) (method hp) (errno hp) v.

(** Tests and updates of the flags. *)
Definition flag (f : Z) (hp : http_parser) : bool := negb (Z.land (flags hp) f =? 0).
Definition or_flags (f : Z) (hp : http_parser) : http_parser :=
  set_flags (Z.lor (flags hp) f) hp.

(** The callbacks: they get the parser (they may pause it) and return an [int]. *)
Definition http_cb (U : Type) : Type := http_parser -> U -> Z * http_parser * U.
Definition http_data_cb (U : Type) : Type := http_parser -> bytes -> U -> Z * http_parser * U.

(** [struct http_parser_settings]: a null pointer is [None]. *)
Record http_parser_settings (U : Type) := mkSettings {
  on_message_begin : option (http_cb U);
  on_url : option (http_data_cb U);
  on_status : option (http_data_cb U);
  on_header_field : option (http_data_cb U);
  on_header_value : option (http_data_cb U);
  on_headers_complete : option (http_cb U);
  on_body : option (http_data_cb U);
  on_message_complete : option (http_cb U);
  on_chunk_header : option (http_cb U);
  on_chunk_complete : option (http_cb U)
}.
Arguments mkSettings {U}. Arguments on_message_begin {U}. Arguments on_url {U}.
Arguments on_status {U}. Arguments on_header_field {U}. Arguments on_header_value {U}.
Arguments on_headers_complete {U}. Arguments on_body {U}. Arguments on_message_complete {U}.
Arguments on_chunk_header {U}. Arguments on_chunk_complete {U}.

Definition http_parser_settings_init {U} : http_parser_settings U :=
  mkSettings None None None None None None None None None None.

Definition http_parser_init (t : http_parser_type) : http_parser :=
  mkHttpParser t 0
    (if decide (t = HTTP_REQUEST) then s_start_req
     else if decide (t = HTTP_RESPONSE) then s_start_res else s_start_req_or_res)
    h_general 0 false 0 0 0 0 0 HTTP_DELETE HPE_OK false.

(** [None] is the failed assertion. *)
Definition http_parser_pause (hp : http_parser) (paused : bool) : option http_parser :=
  if decide (errno hp = HPE_OK \/ errno hp = HPE_PAUSED) then
    Some (set_errno (if paused then HPE_PAUSED else HPE_OK) hp)
  else None.

Definition http_body_is_final (hp : http_parser) : bool :=
  if decide (hp_state hp = s_message_done) then true else false.

Definition http_message_needs_eof (hp : http_parser) : bool :=
  if decide (hp_type hp = HTTP_REQUEST) then false
  else if (status_code hp / 100 =? 1) || (status_code hp =? 204) || (status_code hp =? 304) ||
          flag F_SKIPBODY hp then false
  else if flag F_CHUNKED hp || negb (content_length hp =? ULLONG_MAX) then false
  else true.

Definition http_should_keep_alive (hp : http_parser) : bool :=
  if (http_major hp >? 0) && (http_minor hp >? 0) then
    if flag F_CONNECTION_CLOSE hp then false else negb (http_message_needs_eof hp)
  else
    if negb (flag F_CONNECTION_KEEP_ALIVE hp) then false else negb (http_message_needs_eof hp).

Definition start_state (hp : http_parser) : state :=
  if decide (hp_type hp = HTTP_REQUEST) then s_start_req else s_start_res.

Definition NEW_MESSAGE (hp : http_parser) : state :=
  if http_should_keep_alive hp then start_state hp else s_dead.

(** ** The machine of http_parser_execute *)

Inductive mark_id := M_header_field | M_header_value | M_url | M_body | M_status.

#[export] Instance mark_id_eq_dec : EqDecision mark_id.
Proof. solve_decision. Defined.

(** The five mark variables; a null pointer is [None]. *)
Record mark_vars := mkMarks {
  header_field_mark : option nat;
  header_value_mark : option nat;
  url_mark : option nat;
  body_mark : option nat;
  status_mark : option nat
}.

Definition get_mark (m : mark_vars) (k : mark_id) : option nat :=
  match k with
  | M_header_field => header_field_mark m | M_header_value => header_value_mark m
  | M_url => url_mark m | M_body => body_mark m | M_status => status_mark m
  end.
Coercion get_mark : mark_vars >-> Funclass.

Definition put_mark (m : mark_vars) (k : mark_id) (v : option nat) : mark_vars :=
  match m with
  | mkMarks f hv ur b s =>
      match k with
      | M_header_field => mkMarks v hv ur b s
      | M_header_value => mkMarks f v ur b s
      | M_url => mkMarks f hv v b s
      | M_body => mkMarks f hv ur v s
      | M_status => mkMarks f hv ur b v
      end
  end.

Definition no_mark : mark_vars := mkMarks None None None None None.

Lemma get_put_mark m k v j : put_mark m k v j = if decide (j = k) then v else m j.
Proof. by destruct m, k, j. Qed.

(** The parser, the callbacks' data and the local variables: [p_state], [p] (as an index into
    [data]), [ch], and the marks. *)
Record machine (U : Type) := mkMachine {
  hp : http_parser;
  user : U;
  p_state : state;
  p : nat;
  ch : Z;
  marks : mark_vars
}.
Arguments mkMachine {U}. Arguments hp {U}. Arguments user {U}. Arguments p_state {U}.
Arguments p {U}. Arguments ch {U}. Arguments marks {U}.

(** The ways a statement leaves the normal flow: [goto reexecute], [return n], [goto error], a
    failed assertion; [NoFuel] is the end of the fuel of the model. *)
Inductive jump := Reexecute | Return (n : nat) | GotoError | AssertFails | NoFuel.

Definition M (U A : Type) : Type := machine U -> machine U * (A + jump).

#[export] Instance M_ret U : MRet (M U) := fun A a s => (s, inl a).
#[export] Instance M_bind U : MBind (M U) := fun A B f m s =>
  match m s with
  | (s', inl a) => f a s'
  | (s', inr j) => (s', inr j)
  end.

Section Statements.
Context {U : Type}.

Definition leave {A} (j : jump) : M U A := fun s => (s, inr j).
Definition get {A} (f : machine U -> A) : M U A := fun s => (s, inl (f s)).
Definition modify (f : http_parser -> http_parser) : M U unit := fun s =>
  (mkMachine (f (hp s)) (user s) (p_state s) (p s) (ch s) (marks s), inl tt).
Definition UPDATE_STATE (v : state) : M U unit := fun s =>
  (mkMachine (hp s) (user s) v (p s) (ch s) (marks s), inl tt).
Definition set_p (v : nat) : M U unit := fun s =>
  (mkMachine (hp s) (user s) (p_state s) v (ch s) (marks s), inl tt).
Definition set_ch (v : Z) : M U unit := fun s =>
  (mkMachine (hp s) (user s) (p_state s) (p s) v (marks s), inl tt).
Definition set_user (v : U) : M U unit := fun s =>
  (mkMachine (hp s) v (p_state s) (p s) (ch s) (marks s), inl tt).
Definition set_mark (k : mark_id) (v : option nat) : M U unit := fun s =>
  (mkMachine (hp s) (user s) (p_state s) (p s) (ch s)
     (put_mark (marks s) k v), inl tt).

(** [assert(b)] *)
Definition assert_ (b : bool) : M U unit := if b then mret tt else leave AssertFails.
(** [SET_ERRNO(e); goto error;] *)
Definition fail_with {A} (e : http_errno) : M U A := modify (set_errno e);; leave GotoError.
(** [RETURN(n)] *)
Definition RETURN {A} (n : nat) : M U A :=
  s ← get p_state; modify (set_hp_state s);; leave (Return n).
Definition REEXECUTE {A} : M U A := leave Reexecute.
Definition STRICT_CHECK (cond : bool) : M U unit := if cond then fail_with HPE_STRICT else mret tt.
Definition MARK (k : mark_id) : M U unit :=
  m ← get (fun s => marks s k);
  match m with
  | None => i ← get p; set_mark k (Some i)
  | Some _ => mret tt
  end.
Definition COUNT_HEADER_SIZE (v : Z) : M U unit :=
  n ← get (fun s => nread (hp s));
  modify (set_nread (u32 (n + v)));;
  if u32 (n + v) >? HTTP_MAX_HEADER_SIZE then fail_with HPE_HEADER_OVERFLOW else mret tt.

(** The part the callback macros share: run [f], note its failure as [e], and return [er] unless
    the parser is still without error. *)
Definition run_callback (f : http_cb U) (e : http_errno) (er : nat) : M U unit :=
  s ← get p_state;
  modify (set_hp_state s);;
  h ← get hp;
  u ← get user;
  let '(r, h', u') := f h u in
  modify (fun _ => if r =? 0 then h' else set_errno e h');;
  set_user u';;
  h ← get hp;
  UPDATE_STATE (hp_state h);;
  if decide (errno h = HPE_OK) then mret tt else leave (Return er).

Definition CALLBACK_NOTIFY_ (f : option (http_cb U)) (e : http_errno) (er : nat) : M U unit :=
  h ← get hp;
  assert_ (bool_decide (errno h = HPE_OK));;
  match f with
  | Some f => run_callback f e er
  | None => mret tt
  end.

(** [CALLBACK_NOTIFY], which consumes the current byte, and the variant that does not. *)
Definition CALLBACK_NOTIFY (f : option (http_cb U)) (e : http_errno) : M U unit :=
  i ← get p; CALLBACK_NOTIFY_ f e (i + 1).
Definition CALLBACK_NOTIFY_NOADVANCE (f : option (http_cb U)) (e : http_errno) : M U unit :=
  i ← get p; CALLBACK_NOTIFY_ f e i.
End Statements.

Section Execute.
Context {U : Type} (settings : http_parser_settings U) (data : bytes).

Definition data_cb (k : mark_id) : option (http_data_cb U) :=
  match k with
  | M_header_field => on_header_field settings | M_header_value => on_header_value settings
  | M_url => on_url settings | M_body => on_body settings | M_status => on_status settings
  end.

Definition data_cb_errno (k : mark_id) : http_errno :=
  match k with
  | M_header_field => HPE_CB_header_field | M_header_value => HPE_CB_header_value
  | M_url => HPE_CB_url | M_body => HPE_CB_body | M_status => HPE_CB_status
  end.

(** [CALLBACK_DATA_]: the data runs from the mark up to [upto]. *)
Definition CALLBACK_DATA_ (k : mark_id) (upto er : nat) : M U unit :=
  h ← get hp;
  assert_ (bool_decide (errno h = HPE_OK));;
  m ← get (fun s => marks s k);
  match m with
  | Some i =>
      match data_cb k with
      | Some f => run_callback (fun h u => f h (slice data i (upto - i)) u) (data_cb_errno k) er
      | None => mret tt
      end;;
      set_mark k None
  | None => mret tt
  end.
Definition CALLBACK_DATA (k : mark_id) : M U unit := i ← get p; CALLBACK_DATA_ k i (i + 1).
Definition CALLBACK_DATA_NOADVANCE (k : mark_id) : M U unit := i ← get p; CALLBACK_DATA_ k i i.

(** ** Start of a message, status line *)

Definition case_start_req_or_res (c : Z) : M U unit :=
  if (c =? CR) || (c =? LF) then mret tt
  else
    modify (set_flags 0);;
    modify (set_content_length ULLONG_MAX);;
    if c =? chr "H" then
      UPDATE_STATE s_res_or_resp_H;;
      CALLBACK_NOTIFY (on_message_begin settings) HPE_CB_message_begin
    else
      modify (set_hp_type HTTP_REQUEST);;
      UPDATE_STATE s_start_req;;
      REEXECUTE.

Definition case_res_or_resp_H (c : Z) : M U unit :=
  if c =? chr "T" then
    modify (set_hp_type HTTP_RESPONSE);;
    UPDATE_STATE s_res_HT
  else if negb (c =? chr "E") then fail_with HPE_INVALID_CONSTANT
  else
    modify (set_hp_type HTTP_REQUEST);;
    modify (set_method HTTP_HEAD);;
    modify (set_index 2);;
    UPDATE_STATE s_req_method.

Definition case_start_res (c : Z) : M U unit :=
  modify (set_flags 0);;
  modify (set_content_length ULLONG_MAX);;
  (if c =? chr "H" then UPDATE_STATE s_res_H
   else if (c =? CR) || (c =? LF) then mret tt
   else fail_with HPE_INVALID_CONSTANT);;
  CALLBACK_NOTIFY (on_message_begin settings) HPE_CB_message_begin.

(** The states that expect one character of a constant. *)
Definition case_constant (c expected : Z) (next : state) : M U unit :=
  STRICT_CHECK (negb (c =? expected));;
  UPDATE_STATE next.

(** A further digit of a version number or of the status code, at most 999. *)
Definition next_digit (c v : Z) : Z := u16 (u16 (v * 10) + (c - 48)).

Definition case_res_http_major (first : bool) (c : Z) : M U unit :=
  if first then
    if (c <? 48) || (57 <? c) then fail_with HPE_INVALID_VERSION
    else modify (set_http_major (c - 48));; UPDATE_STATE s_res_http_major
  else if c =? chr "." then UPDATE_STATE s_res_first_http_minor
  else if negb (IS_NUM c) then fail_with HPE_INVALID_VERSION
  else
    v ← get (fun s => next_digit c (http_major (hp s)));
    modify (set_http_major v);;
    if v >? 999 then fail_with HPE_INVALID_VERSION else mret tt.

Definition case_res_http_minor (first : bool) (c : Z) : M U unit :=
  if first then
    if negb (IS_NUM c) then fail_with HPE_INVALID_VERSION
    else modify (set_http_minor (c - 48));; UPDATE_STATE s_res_http_minor
  else if c =? 32 then UPDATE_STATE s_res_first_status_code
  else if negb (IS_NUM c) then fail_with HPE_INVALID_VERSION
  else
    v ← get (fun s => next_digit c (http_minor (hp s)));
    modify (set_http_minor v);;
    if v >? 999 then fail_with HPE_INVALID_VERSION else mret tt.

Definition case_res_status_code (first : bool) (c : Z) : M U unit :=
  if first then
    if negb (IS_NUM c) then
      if c =? 32 then mret tt else fail_with HPE_INVALID_STATUS
    else modify (set_status_code (c - 48));; UPDATE_STATE s_res_status_code
  else if negb (IS_NUM c) then
    if c =? 32 then UPDATE_STATE s_res_status_start
    else if c =? CR then UPDATE_STATE s_res_line_almost_done
    else if c =? LF then UPDATE_STATE s_header_field_start
    else fail_with HPE_INVALID_STATUS
  else
    v ← get (fun s => next_digit c (status_code (hp s)));
    modify (set_status_code v);;
    if v >? 999 then fail_with HPE_INVALID_STATUS else mret tt.

Definition case_res_status_start (c : Z) : M U unit :=
  if c =? CR then UPDATE_STATE s_res_line_almost_done
  else if c =? LF then UPDATE_STATE s_header_field_start
  else MARK M_status;; UPDATE_STATE s_res_status;; modify (set_index 0).

Definition case_res_status (c : Z) : M U unit :=
  if c =? CR then UPDATE_STATE s_res_line_almost_done;; CALLBACK_DATA M_status
  else if c =? LF then UPDATE_STATE s_header_field_start;; CALLBACK_DATA M_status
  else mret tt.

(** ** Request line *)

(** The method guessed from its first letter. *)
Definition first_method (c : Z) : option http_method :=
  if c =? chr "A" then Some HTTP_ACL
  else if c =? chr "B" then Some HTTP_BIND
  else if c =? chr "C" then Some HTTP_CONNECT
  else if c =? chr "D" then Some HTTP_DELETE
  else if c =? chr "G" then Some HTTP_GET
  else if c =? chr "H" then Some HTTP_HEAD
  else if c =? chr "L" then Some HTTP_LOCK
  else if c =? chr "M" then Some HTTP_MKCOL
  else if c =? chr "N" then Some HTTP_NOTIFY
  else if c =? chr "O" then Some HTTP_OPTIONS
  else if c =? chr "P" then Some HTTP_POST
  else if c =? chr "R" then Some HTTP_REPORT
  else if c =? chr "S" then Some HTTP_SUBSCRIBE
  else if c =? chr "T" then Some HTTP_TRACE
  else if c =? chr "U" then Some HTTP_UNLOCK
  else None.

Definition case_start_req (c : Z) : M U unit :=
  if (c =? CR) || (c =? LF) then mret tt
  else
    modify (set_flags 0);;
    modify (set_content_length ULLONG_MAX);;
    if negb (IS_ALPHA c) then fail_with HPE_INVALID_METHOD
    else
      modify (set_method HTTP_DELETE);;
      modify (set_index 1);;
      match first_method c with
      | Some m =>
          modify (set_method m);;
          UPDATE_STATE s_req_method;;
          CALLBACK_NOTIFY (on_message_begin settings) HPE_CB_message_begin
      | None => fail_with HPE_INVALID_METHOD
      end.

(** The [XX] table: the method to continue with when the letter at [pos] is not the guessed
    method's. *)
Definition next_method (m : http_method) (pos c : Z) : option http_method :=
  match m with
  | HTTP_POST =>
      if (pos =? 1) && (c =? chr "U") then Some HTTP_PUT
      else if (pos =? 1) && (c =? chr "A") then Some HTTP_PATCH
      else if (pos =? 1) && (c =? chr "R") then Some HTTP_PROPFIND
      else None
  | HTTP_CONNECT =>
      if (pos =? 1) && (c =? chr "H") then Some HTTP_CHECKOUT
      else if (pos =? 2) && (c =? chr "P") then Some HTTP_COPY
      else None
  | HTTP_MKCOL =>
      if (pos =? 1) && (c =? chr "O") then Some HTTP_MOVE
      else if (pos =? 1) && (c =? chr "E") then Some HTTP_MERGE
      else if (pos =? 2) && (c =? chr "A") then Some HTTP_MKACTIVITY
      else if (pos =? 3) && (c =? chr "A") then Some HTTP_MKCALENDAR
      else None
  | HTTP_SUBSCRIBE => if (pos =? 1) && (c =? chr "E") then Some HTTP_SEARCH else None
  | HTTP_REPORT => if (pos =? 2) && (c =? chr "B") then Some HTTP_REBIND else None
  | HTTP_PROPFIND => if (pos =? 4) && (c =? chr "P") then Some HTTP_PROPPATCH else None
  | HTTP_PUT => if (pos =? 2) && (c =? chr "R") then Some HTTP_PURGE else None
  | HTTP_LOCK => if (pos =? 1) && (c =? chr "I") then Some HTTP_LINK else None
  | HTTP_UNLOCK =>
      if (pos =? 2) && (c =? chr "S") then Some HTTP_UNSUBSCRIBE
      else if (pos =? 2) && (c =? chr "B") then Some HTTP_UNBIND
      else if (pos =? 3) && (c =? chr "I") then Some HTTP_UNLINK
      else None
  | _ => None
  end.

(** [++parser->index] on its seven bits. *)
Definition incr_index (hp : http_parser) : http_parser :=
  set_index ((index hp + 1) mod 128) hp.

Definition case_req_method (c : Z) : M U unit :=
  if c =? 0 then fail_with HPE_INVALID_METHOD
  else
    h ← get hp;
    let expected := nth (Z.to_nat (index h)) (method_strings (method h)) 0 in
    (if (c =? 32) && (expected =? 0) then UPDATE_STATE s_req_spaces_before_url
     else if c =? expected then mret tt
     else if IS_ALPHA c then
       match next_method (method h) (index h) c with
       | Some m => modify (set_method m)
       | None => fail_with HPE_INVALID_METHOD
       end
     else if (c =? chr "-") && (index h =? 1) && bool_decide (method h = HTTP_MKCOL) then
       modify (set_method HTTP_MSEARCH)
     else fail_with HPE_INVALID_METHOD);;
    modify incr_index.

(** [UPDATE_STATE(parse_url_char(CURRENT_STATE(), ch))] and the test for [s_dead]. *)
Definition url_char (c : Z) : M U unit :=
  s ← get p_state;
  UPDATE_STATE (parse_url_char s c);;
  if decide (parse_url_char s c = s_dead) then fail_with HPE_INVALID_URL else mret tt.

Definition case_req_spaces_before_url (c : Z) : M U unit :=
  if c =? 32 then mret tt
  else
    MARK M_url;;
    m ← get (fun s => method (hp s));
    (if decide (m = HTTP_CONNECT) then UPDATE_STATE s_req_server_start else mret tt);;
    url_char c.

(** [s_req_schema], [s_req_schema_slash], [s_req_schema_slash_slash], [s_req_server_start] *)
Definition case_req_schema (c : Z) : M U unit :=
  if (c =? 32) || (c =? CR) || (c =? LF) then fail_with HPE_INVALID_URL else url_char c.

(** [s_req_server] to [s_req_fragment] *)
Definition case_req_url (c : Z) : M U unit :=
  if c =? 32 then UPDATE_STATE s_req_http_start;; CALLBACK_DATA M_url
  else if (c =? CR) || (c =? LF) then
    modify (set_http_major 0);;
    modify (set_http_minor 9);;
    UPDATE_STATE (if c =? CR then s_req_line_almost_done else s_header_field_start);;
    CALLBACK_DATA M_url
  else url_char c.

Definition case_req_http_start (c : Z) : M U unit :=
  if c =? chr "H" then UPDATE_STATE s_req_http_H
  else if c =? 32 then mret tt
  else fail_with HPE_INVALID_CONSTANT.

Definition case_req_http_major (first : bool) (c : Z) : M U unit :=
  if first then
    if (c <? 49) || (57 <? c) then fail_with HPE_INVALID_VERSION
    else modify (set_http_major (c - 48));; UPDATE_STATE s_req_http_major
  else if c =? chr "." then UPDATE_STATE s_req_first_http_minor
  else if negb (IS_NUM c) then fail_with HPE_INVALID_VERSION
  else
    v ← get (fun s => next_digit c (http_major (hp s)));
    modify (set_http_major v);;
    if v >? 999 then fail_with HPE_INVALID_VERSION else mret tt.

Definition case_req_http_minor (first : bool) (c : Z) : M U unit :=
  if first then
    if negb (IS_NUM c) then fail_with HPE_INVALID_VERSION
    else modify (set_http_minor (c - 48));; UPDATE_STATE s_req_http_minor
  else if c =? CR then UPDATE_STATE s_req_line_almost_done
  else if c =? LF then UPDATE_STATE s_header_field_start
  else if negb (IS_NUM c) then fail_with HPE_INVALID_VERSION
  else
    v ← get (fun s => next_digit c (http_minor (hp s)));
    modify (set_http_minor v);;
    if v >? 999 then fail_with HPE_INVALID_VERSION else mret tt.

Definition case_req_line_almost_done (c : Z) : M U unit :=
  if negb (c =? LF) then fail_with HPE_LF_EXPECTED else UPDATE_STATE s_header_field_start.

(** ** Header fields *)

Definition header_start_state (c : Z) : header_states :=
  if c =? chr "c" then h_C
  else if c =? chr "p" then h_matching_proxy_connection
  else if c =? chr "t" then h_matching_transfer_encoding
  else if c =? chr "u" then h_matching_upgrade
  else h_general.

Definition case_header_field_start (c : Z) : M U unit :=
  if c =? CR then UPDATE_STATE s_headers_almost_done
  else if c =? LF then UPDATE_STATE s_headers_almost_done;; REEXECUTE
  else if TOKEN c =? 0 then fail_with HPE_INVALID_HEADER_TOKEN
  else
    MARK M_header_field;;
    modify (set_index 0);;
    UPDATE_STATE s_header_field;;
    modify (set_header_state (header_start_state (TOKEN c))).

Definition PROXY_CONNECTION : bytes := bs "proxy-connection".
Definition CONNECTION : bytes := bs "connection".
Definition CONTENT_LENGTH : bytes := bs "content-length".
Definition TRANSFER_ENCODING : bytes := bs "transfer-encoding".
Definition UPGRADE : bytes := bs "upgrade".
Definition CHUNKED : bytes := bs "chunked".
Definition KEEP_ALIVE : bytes := bs "keep-alive".
Definition CLOSE : bytes := bs "close".

(** One step of matching [word] at the incremented index [i]: it failed, goes on, or matched the
    last character. *)
Inductive matching := MatchFails | MatchGoes | MatchDone.

Definition match_char (word : bytes) (i c : Z) : matching :=
  if (i >? Z.of_nat (length word)) || negb (c =? nth (Z.to_nat i) word 0) then MatchFails
  else if i =? Z.of_nat (length word) - 1 then MatchDone
  else MatchGoes.

(** The index is incremented and [word] matched; the header state becomes [done] or [h_general]. *)
Definition match_header (word : bytes) (done : header_states) (c : Z) : M U unit :=
  modify incr_index;;
  i ← get (fun s => index (hp s));
  match match_char word i c with
  | MatchFails => modify (set_header_state h_general)
  | MatchDone => modify (set_header_state done)
  | MatchGoes => mret tt
  end.

Definition field_content_length (c : Z) : M U unit :=
  modify incr_index;;
  i ← get (fun s => index (hp s));
  match match_char CONTENT_LENGTH i c with
  | MatchFails => modify (set_header_state h_general)
  | MatchDone =>
      seen ← get (fun s => flag F_CONTENTLENGTH (hp s));
      if (seen : bool) then fail_with HPE_UNEXPECTED_CONTENT_LENGTH
      else
        modify (set_header_state h_content_length);;
        modify (or_flags F_CONTENTLENGTH)
  | MatchGoes => mret tt
  end.

(** The [switch (parser->header_state)] of the loop over a field name; [c] is the token of [x]. *)
Definition field_char (x c : Z) : M U unit :=
  h ← get (fun s => header_state (hp s));
  match h with
  | h_general => mret tt
  | h_C =>
      modify incr_index;;
      modify (set_header_state (if c =? chr "o" then h_CO else h_general))
  | h_CO =>
      modify incr_index;;
      modify (set_header_state (if c =? chr "n" then h_CON else h_general))
  | h_CON =>
      modify incr_index;;
      modify (set_header_state
                (if c =? chr "n" then h_matching_connection
                 else if c =? chr "t" then h_matching_content_length else h_general))
  | h_matching_connection => match_header CONNECTION h_connection c
  | h_matching_proxy_connection => match_header PROXY_CONNECTION h_connection c
  | h_matching_content_length => field_content_length c
  | h_matching_transfer_encoding => match_header TRANSFER_ENCODING h_transfer_encoding c
  | h_matching_upgrade => match_header UPGRADE h_upgrade c
  | h_connection | h_content_length | h_transfer_encoding | h_upgrade =>
      if negb (x =? 32) then modify (set_header_state h_general) else mret tt
  | _ => assert_ false
  end.

(** The loop: it stops at the end of the data or at the first character that is no token. *)
Fixpoint field_loop (fuel : nat) : M U unit :=
  match fuel with
  | O => leave NoFuel
  | S fuel' =>
      i ← get p;
      if (i =? length data)%nat then mret tt
      else
        let x := nth i data 0 in
        set_ch x;;
        if TOKEN x =? 0 then mret tt
        else
          field_char x (TOKEN x);;
          set_p (i + 1);;
          field_loop fuel'
  end.

Definition case_header_field : M U unit :=
  start ← get p;
  field_loop (S (length data - start));;
  i ← get p;
  COUNT_HEADER_SIZE (Z.of_nat (i - start));;
  if (i =? length data)%nat then set_p (i - 1)
  else
    c ← get ch;
    if c =? chr ":" then
      UPDATE_STATE s_header_value_discard_ws;;
      CALLBACK_DATA M_header_field
    else fail_with HPE_INVALID_HEADER_TOKEN.

(** ** Header values *)

Definition case_header_value_start (x : Z) : M U unit :=
  MARK M_header_value;;
  UPDATE_STATE s_header_value;;
  modify (set_index 0);;
  let c := LOWER x in
  h ← get (fun s => header_state (hp s));
  match h with
  | h_upgrade => modify (or_flags F_UPGRADE);; modify (set_header_state h_general)
  | h_transfer_encoding =>
      modify (set_header_state
                (if c =? chr "c" then h_matching_transfer_encoding_chunked else h_general))
  | h_content_length =>
      if negb (IS_NUM x) then fail_with HPE_INVALID_CONTENT_LENGTH
      else modify (set_content_length (x - 48))
  | h_connection =>
      modify (set_header_state
                (if c =? chr "k" then h_matching_connection_keep_alive
                 else if c =? chr "c" then h_matching_connection_close
                 else if c =? chr "u" then h_matching_connection_upgrade
                 else h_matching_connection_token))
  | h_matching_connection_token_start => mret tt
  | _ => modify (set_header_state h_general)
  end.

Definition case_header_value_discard_ws (x : Z) : M U unit :=
  if (x =? 32) || (x =? 9) then mret tt
  else if x =? CR then UPDATE_STATE s_header_value_discard_ws_almost_done
  else if x =? LF then UPDATE_STATE s_header_value_discard_lws
  else case_header_value_start x.

(** [memchr(data + i, c, limit)] as an index into [data]. *)
Fixpoint memchr_from (l : bytes) (c : Z) (i limit : nat) : option nat :=
  match l, limit with
  | x :: l', S limit' => if x =? c then Some i else memchr_from l' c (S i) limit'
  | _, _ => None
  end.
Definition memchr (i : nat) (c : Z) (limit : nat) : option nat :=
  memchr_from (drop i data) c i limit.

(** The scan of [h_general] for the end of the line from [i]; the result is the new [p]. *)
Definition skip_value (i : nat) : nat :=
  let limit := Nat.min (length data - i) (Z.to_nat HTTP_MAX_HEADER_SIZE) in
  let p_cr := memchr i CR limit in
  let p_lf := memchr i LF limit in
  (match p_cr, p_lf with
   | Some r, Some l => if (l <=? r)%nat then l else r
   | Some r, None => r
   | None, Some l => l
   | None, None => length data
   end - 1)%nat.

(** The digits of the content length. *)
Definition value_content_length (h_state : header_states) (x : Z) : M U header_states :=
  if x =? 32 then mret h_state
  else if negb (IS_NUM x) then
    modify (set_errno HPE_INVALID_CONTENT_LENGTH);;
    modify (set_header_state h_state);;
    leave GotoError
  else
    v ← get (fun s => content_length (hp s));
    let t := u64 (u64 (v * 10) + (x - 48)) in
    if (ULLONG_MAX - 10) / 10 <? v then
      modify (set_errno HPE_INVALID_CONTENT_LENGTH);;
      modify (set_header_state h_state);;
      leave GotoError
    else modify (set_content_length t);; mret h_state.

(** Matching [word] in a value: the next [h_state]. *)
Definition match_value (word : bytes) (h_state fails done : header_states) (c : Z)
    : M U header_states :=
  modify incr_index;;
  i ← get (fun s => index (hp s));
  mret (match match_char word i c with
        | MatchFails => fails
        | MatchDone => done
        | MatchGoes => h_state
        end).

Definition connection_flag (h_state : header_states) : Z :=
  match h_state with
  | h_connection_keep_alive => F_CONNECTION_KEEP_ALIVE
  | h_connection_close => F_CONNECTION_CLOSE
  | h_connection_upgrade => F_CONNECTION_UPGRADE
  | _ => 0
  end.

(** The [switch (h_state)] of the loop over a value: the new [h_state]. *)
Definition value_char (h_state : header_states) (x : Z) : M U header_states :=
  let c := LOWER x in
  match h_state with
  | h_general => i ← get p; set_p (skip_value i);; mret h_state
  | h_connection | h_transfer_encoding => assert_ false;; mret h_state
  | h_content_length => value_content_length h_state x
  | h_matching_transfer_encoding_chunked =>
      match_value CHUNKED h_state h_general h_transfer_encoding_chunked c
  | h_matching_connection_token_start =>
      mret (if c =? chr "k" then h_matching_connection_keep_alive
            else if c =? chr "c" then h_matching_connection_close
            else if c =? chr "u" then h_matching_connection_upgrade
            else if negb (TOKEN c =? 0) then h_matching_connection_token
            else if (c =? 32) || (c =? 9) then h_state
            else h_general)
  | h_matching_connection_keep_alive =>
      match_value KEEP_ALIVE h_state h_matching_connection_token h_connection_keep_alive c
  | h_matching_connection_close =>
      match_value CLOSE h_state h_matching_connection_token h_connection_close c
  | h_matching_connection_upgrade =>
      match_value UPGRADE h_state h_matching_connection_token h_connection_upgrade c
  | h_matching_connection_token =>
      if x =? chr "," then modify (set_index 0);; mret h_matching_connection_token_start
      else mret h_state
  | h_transfer_encoding_chunked => mret (if negb (x =? 32) then h_general else h_state)
  | h_connection_keep_alive | h_connection_close | h_connection_upgrade =>
      if x =? chr "," then
        modify (or_flags (connection_flag h_state));;
        modify (set_index 0);;
        mret h_matching_connection_token_start
      else mret (if negb (x =? 32) then h_matching_connection_token else h_state)
  | _ => UPDATE_STATE s_header_value;; mret h_general
  end.

(** The loop over a value, which began at [start]. *)
Fixpoint value_loop (fuel : nat) (start : nat) (h_state : header_states) : M U header_states :=
  match fuel with
  | O => leave NoFuel
  | S fuel' =>
      i ← get p;
      if (i =? length data)%nat then mret h_state
      else
        let x := nth i data 0 in
        set_ch x;;
        if x =? CR then
          UPDATE_STATE s_header_almost_done;;
          modify (set_header_state h_state);;
          CALLBACK_DATA M_header_value;;
          mret h_state
        else if x =? LF then
          UPDATE_STATE s_header_almost_done;;
          COUNT_HEADER_SIZE (Z.of_nat (i - start));;
          modify (set_header_state h_state);;
          CALLBACK_DATA_NOADVANCE M_header_value;;
          REEXECUTE
        else
          lenient ← get (fun s => lenient_http_headers (hp s));
          if negb lenient && negb (IS_HEADER_CHAR x) then fail_with HPE_INVALID_HEADER_TOKEN
          else
            h_state' ← value_char h_state x;
            i ← get p;
            set_p (i + 1);;
            value_loop fuel' start h_state'
  end.

Definition case_header_value : M U unit :=
  start ← get p;
  h ← get (fun s => header_state (hp s));
  h_state ← value_loop (S (length data - start)) start h;
  modify (set_header_state h_state);;
  i ← get p;
  COUNT_HEADER_SIZE (Z.of_nat (i - start));;
  if (i =? length data)%nat then set_p (i - 1) else mret tt.

(** ** End of a header, end of the headers *)

Definition case_header_almost_done (c : Z) : M U unit :=
  if negb (c =? LF) then fail_with HPE_LF_EXPECTED else UPDATE_STATE s_header_value_lws.

(** The flag a finished header sets. *)
Definition header_flag (h : header_states) : Z :=
  match h with
  | h_connection_keep_alive => F_CONNECTION_KEEP_ALIVE
  | h_connection_close => F_CONNECTION_CLOSE
  | h_transfer_encoding_chunked => F_CHUNKED
  | h_connection_upgrade => F_CONNECTION_UPGRADE
  | _ => 0
  end.

Definition finish_header (hp : http_parser) : http_parser :=
  or_flags (header_flag (header_state hp)) hp.

Definition case_header_value_lws (c : Z) : M U unit :=
  if (c =? 32) || (c =? 9) then UPDATE_STATE s_header_value_start;; REEXECUTE
  else
    modify finish_header;;
    UPDATE_STATE s_header_field_start;;
    REEXECUTE.

Definition case_header_value_discard_lws (c : Z) : M U unit :=
  if (c =? 32) || (c =? 9) then UPDATE_STATE s_header_value_discard_ws
  else
    modify finish_header;;
    MARK M_header_value;;
    UPDATE_STATE s_header_field_start;;
    CALLBACK_DATA_NOADVANCE M_header_value;;
    REEXECUTE.

(** The call of [on_headers_complete], which may also return 1. *)
Definition headers_complete_callback : M U unit :=
  i ← get p;
  match on_headers_complete settings with
  | None => mret tt
  | Some f =>
      h ← get hp;
      u ← get user;
      let '(r, h', u') := f h u in
      modify (fun _ => h');;
      set_user u';;
      if r =? 0 then mret tt
      else if r =? 1 then modify (or_flags F_SKIPBODY)
      else modify (set_errno HPE_CB_headers_complete);; RETURN i
  end;;
  e ← get (fun s => errno (hp s));
  if decide (e = HPE_OK) then mret tt else RETURN i.

Definition upgrade_requested (hp : http_parser) : bool :=
  (Z.land (flags hp) (Z.lor F_UPGRADE F_CONNECTION_UPGRADE) =?
     Z.lor F_UPGRADE F_CONNECTION_UPGRADE) || bool_decide (method hp = HTTP_CONNECT).

Definition case_headers_almost_done (c : Z) : M U unit :=
  STRICT_CHECK (negb (c =? LF));;
  h ← get hp;
  if flag F_TRAILING h then
    UPDATE_STATE s_message_done;;
    CALLBACK_NOTIFY_NOADVANCE (on_chunk_complete settings) HPE_CB_chunk_complete;;
    REEXECUTE
  else if flag F_CHUNKED h && flag F_CONTENTLENGTH h then
    fail_with HPE_UNEXPECTED_CONTENT_LENGTH
  else
    UPDATE_STATE s_headers_done;;
    modify (fun h => set_upgrade (upgrade_requested h) h);;
    headers_complete_callback;;
    REEXECUTE.

(** [UPDATE_STATE(NEW_MESSAGE()); CALLBACK_NOTIFY(message_complete);] *)
Definition message_complete : M U unit :=
  h ← get hp;
  UPDATE_STATE (NEW_MESSAGE h);;
  CALLBACK_NOTIFY (on_message_complete settings) HPE_CB_message_complete.

Definition case_headers_done (c : Z) : M U unit :=
  STRICT_CHECK (negb (c =? LF));;
  modify (set_nread 0);;
  h ← get hp;
  let hasBody := flag F_CHUNKED h ||
    ((content_length h >? 0) && negb (content_length h =? ULLONG_MAX)) in
  if upgrade h &&
     (bool_decide (method h = HTTP_CONNECT) || flag F_SKIPBODY h || negb hasBody) then
    message_complete;;
    i ← get p;
    RETURN (i + 1)
  else if flag F_SKIPBODY h then message_complete
  else if flag F_CHUNKED h then UPDATE_STATE s_chunk_size_start
  else if content_length h =? 0 then message_complete
  else if negb (content_length h =? ULLONG_MAX) then UPDATE_STATE s_body_identity
  else if negb (http_message_needs_eof h) then message_complete
  else UPDATE_STATE s_body_identity_eof.

(** ** Bodies *)

(** What [s_body_identity] and [s_chunk_data] share: consume up to [content_length] bytes. *)
Definition read_body : M U unit :=
  i ← get p;
  v ← get (fun s => content_length (hp s));
  let to_read := Z.min v (Z.of_nat (length data - i)) in
  assert_ (negb (v =? 0) && negb (v =? ULLONG_MAX));;
  MARK M_body;;
  modify (set_content_length (v - to_read));;
  set_p (i + Z.to_nat to_read - 1).

Definition case_body_identity : M U unit :=
  read_body;;
  v ← get (fun s => content_length (hp s));
  if v =? 0 then
    UPDATE_STATE s_message_done;;
    i ← get p;
    CALLBACK_DATA_ M_body (i + 1) i;;
    REEXECUTE
  else mret tt.

Definition case_body_identity_eof : M U unit :=
  MARK M_body;;
  set_p (length data - 1).

Definition case_message_done : M U unit :=
  message_complete;;
  up ← get (fun s => upgrade (hp s));
  i ← get p;
  if (up : bool) then RETURN (i + 1) else mret tt.

(** [assert(parser->flags & F_CHUNKED)] *)
Definition assert_chunked : M U unit :=
  h ← get hp; assert_ (flag F_CHUNKED h).

Definition case_chunk_size_start (c : Z) : M U unit :=
  h ← get hp;
  assert_ (nread h =? 1);;
  assert_chunked;;
  if unhex c =? -1 then fail_with HPE_INVALID_CHUNK_SIZE
  else
    modify (set_content_length (unhex c));;
    UPDATE_STATE s_chunk_size.

Definition case_chunk_size (c : Z) : M U unit :=
  assert_chunked;;
  if c =? CR then UPDATE_STATE s_chunk_size_almost_done
  else if unhex c =? -1 then
    if (c =? chr ";") || (c =? 32) then UPDATE_STATE s_chunk_parameters
    else fail_with HPE_INVALID_CHUNK_SIZE
  else
    v ← get (fun s => content_length (hp s));
    let t := u64 (u64 (v * 16) + unhex c) in
    if (ULLONG_MAX - 16) / 16 <? v then fail_with HPE_INVALID_CONTENT_LENGTH
    else modify (set_content_length t).

Definition case_chunk_parameters (c : Z) : M U unit :=
  assert_chunked;;
  if c =? CR then UPDATE_STATE s_chunk_size_almost_done else mret tt.

Definition case_chunk_size_almost_done (c : Z) : M U unit :=
  assert_chunked;;
  STRICT_CHECK (negb (c =? LF));;
  modify (set_nread 0);;
  v ← get (fun s => content_length (hp s));
  (if v =? 0 then modify (or_flags F_TRAILING);; UPDATE_STATE s_header_field_start
   else UPDATE_STATE s_chunk_data);;
  CALLBACK_NOTIFY (on_chunk_header settings) HPE_CB_chunk_header.

Definition case_chunk_data : M U unit :=
  assert_chunked;;
  read_body;;
  v ← get (fun s => content_length (hp s));
  if v =? 0 then UPDATE_STATE s_chunk_data_almost_done else mret tt.

Definition case_chunk_data_almost_done (c : Z) : M U unit :=
  assert_chunked;;
  v ← get (fun s => content_length (hp s));
  assert_ (v =? 0);;
  STRICT_CHECK (negb (c =? CR));;
  UPDATE_STATE s_chunk_data_done;;
  CALLBACK_DATA M_body.

Definition case_chunk_data_done (c : Z) : M U unit :=
  assert_chunked;;
  STRICT_CHECK (negb (c =? LF));;
  modify (set_nread 0);;
  UPDATE_STATE s_chunk_size_start;;
  CALLBACK_NOTIFY (on_chunk_complete settings) HPE_CB_chunk_complete.

(** ** The loop over the data *)

(** [switch (CURRENT_STATE())] *)
Definition dispatch (s : state) (c : Z) : M U unit :=
  match s with
  | s_dead => if (c =? CR) || (c =? LF) then mret tt else fail_with HPE_CLOSED_CONNECTION
  | s_start_req_or_res => case_start_req_or_res c
  | s_res_or_resp_H => case_res_or_resp_H c
  | s_start_res => case_start_res c
  | s_res_H => case_constant c (chr "T") s_res_HT
  | s_res_HT => case_constant c (chr "T") s_res_HTT
  | s_res_HTT => case_constant c (chr "P") s_res_HTTP
  | s_res_HTTP => case_constant c (chr "/") s_res_first_http_major
  | s_res_first_http_major => case_res_http_major true c
  | s_res_http_major => case_res_http_major false c
  | s_res_first_http_minor => case_res_http_minor true c
  | s_res_http_minor => case_res_http_minor false c
  | s_res_first_status_code => case_res_status_code true c
  | s_res_status_code => case_res_status_code false c
  | s_res_status_start => case_res_status_start c
  | s_res_status => case_res_status c
  | s_res_line_almost_done => case_constant c LF s_header_field_start
  | s_start_req => case_start_req c
  | s_req_method => case_req_method c
  | s_req_spaces_before_url => case_req_spaces_before_url c
  | s_req_schema | s_req_schema_slash | s_req_schema_slash_slash | s_req_server_start =>
      case_req_schema c
  | s_req_server | s_req_server_with_at | s_req_path | s_req_query_string_start
  | s_req_query_string | s_req_fragment_start | s_req_fragment => case_req_url c
  | s_req_http_start => case_req_http_start c
  | s_req_http_H => case_constant c (chr "T") s_req_http_HT
  | s_req_http_HT => case_constant c (chr "T") s_req_http_HTT
  | s_req_http_HTT => case_constant c (chr "P") s_req_http_HTTP
  | s_req_http_HTTP => case_constant c (chr "/") s_req_first_http_major
  | s_req_first_http_major => case_req_http_major true c
  | s_req_http_major => case_req_http_major false c
  | s_req_first_http_minor => case_req_http_minor true c
  | s_req_http_minor => case_req_http_minor false c
  | s_req_line_almost_done => case_req_line_almost_done c
  | s_header_field_start => case_header_field_start c
  | s_header_field => case_header_field
  | s_header_value_discard_ws => case_header_value_discard_ws c
  | s_header_value_start => case_header_value_start c
  | s_header_value => case_header_value
  | s_header_almost_done => case_header_almost_done c
  | s_header_value_lws => case_header_value_lws c
  | s_header_value_discard_ws_almost_done => case_constant c LF s_header_value_discard_lws
  | s_header_value_discard_lws => case_header_value_discard_lws c
  | s_headers_almost_done => case_headers_almost_done c
  | s_headers_done => case_headers_done c
  | s_body_identity => case_body_identity
  | s_body_identity_eof => case_body_identity_eof
  | s_message_done => case_message_done
  | s_chunk_size_start => case_chunk_size_start c
  | s_chunk_size => case_chunk_size c
  | s_chunk_parameters => case_chunk_parameters c
  | s_chunk_size_almost_done => case_chunk_size_almost_done c
  | s_chunk_data => case_chunk_data
  | s_chunk_data_almost_done => case_chunk_data_almost_done c
  | s_chunk_data_done => case_chunk_data_done c
  end.

(** The label [reexecute] with the [switch]; [fuel] bounds the jumps back to it. *)
Fixpoint reexecute (fuel : nat) : M U unit := fun s =>
  match fuel with
  | O => (s, inr NoFuel)
  | S fuel' =>
      match dispatch (p_state s) (ch s) s with
      | (s', inr Reexecute) => reexecute fuel' s'
      | r => r
      end
  end.

(** No byte is looked at more than four times. *)
Definition reexecute_fuel : nat := 4.

(** The body of the [for] loop. *)
Definition for_body : M U unit :=
  i ← get p;
  set_ch (nth i data 0);;
  s ← get p_state;
  (if PARSING_HEADER s then COUNT_HEADER_SIZE 1 else mret tt);;
  reexecute reexecute_fuel.

Fixpoint for_loop (fuel : nat) : M U unit :=
  match fuel with
  | O => leave NoFuel
  | S fuel' =>
      i ← get p;
      if (i =? length data)%nat then mret tt
      else
        for_body;;
        i ← get p;
        set_p (i + 1);;
        for_loop fuel'
  end.

(** At most one mark is set. *)
Definition marks_set (s : machine U) : nat :=
  length (filter (fun k => is_Some (marks s k))
            [M_header_field; M_header_value; M_url; M_body; M_status]).

(** The callbacks for what is left, in the order of the code, and [RETURN(len)]. *)
Definition flush_marks : M U unit :=
  n ← get marks_set;
  assert_ (n <=? 1)%nat;;
  CALLBACK_DATA_NOADVANCE M_header_field;;
  CALLBACK_DATA_NOADVANCE M_header_value;;
  CALLBACK_DATA_NOADVANCE M_url;;
  CALLBACK_DATA_NOADVANCE M_body;;
  CALLBACK_DATA_NOADVANCE M_status;;
  RETURN (length data).

(** The mark that is set on entry, in the middle of a piece of data. *)
Definition initial_mark (s : state) : option mark_id :=
  match s with
  | s_header_field => Some M_header_field
  | s_header_value => Some M_header_value
  | s_req_path | s_req_schema | s_req_schema_slash | s_req_schema_slash_slash
  | s_req_server_start | s_req_server | s_req_server_with_at | s_req_query_string_start
  | s_req_query_string | s_req_fragment_start | s_req_fragment => Some M_url
  | s_res_status => Some M_status
  | _ => None
  end.

Definition initial_machine (h : http_parser) (u : U) : machine U :=
  mkMachine h u (hp_state h) 0 0
    (match initial_mark (hp_state h) with
     | Some k => put_mark no_mark k (Some 0%nat)
     | None => no_mark
     end).

(** The call with [len = 0], which tells the parser about the end of the input. *)
Definition execute_eof : M U unit :=
  s ← get p_state;
  match s with
  | s_body_identity_eof =>
      CALLBACK_NOTIFY_NOADVANCE (on_message_complete settings) HPE_CB_message_complete;;
      leave (Return 0)
  | s_dead | s_start_req_or_res | s_start_res | s_start_req => leave (Return 0)
  | _ => modify (set_errno HPE_INVALID_EOF_STATE);; leave (Return 1)
  end.

(** The label [error]. *)
Definition error_label : M U unit :=
  h ← get hp;
  modify (set_errno (if decide (errno h = HPE_OK) then HPE_UNKNOWN else errno h));;
  i ← get p;
  RETURN i.

Definition execute_body : M U unit := fun s =>
  match (for_loop (S (length data));; flush_marks) s with
  | (s', inr GotoError) => error_label s'
  | r => r
  end.

Inductive exec_result := Executed (nparsed : nat) | Asserted | OutOfFuel.

(** The value returned, the parser and the callbacks' data. *)
Definition http_parser_execute (h : http_parser) (u : U) : exec_result * http_parser * U :=
  if decide (errno h = HPE_OK) then
    let body := if decide (data = []) then execute_eof else execute_body in
    match body (initial_machine h u) with
    | (s, inr (Return n)) => (Executed n, hp s, user s)
    | (s, inr AssertFails) => (Asserted, hp s, user s)
    | (s, _) => (OutOfFuel, hp s, user s)
    end
  else (Executed 0, h, u).
End Execute.
