(* ===== verification/HttpSafe.v ===== *)
(** * The message parser never fails an assertion and always returns

    A weakest-precondition calculus for the statements of [HttpExecute], the invariant of the
    parser between and during calls, and the theorems that follow from it for every input, every
    way the input is split into calls, and every set of callbacks that at most pause the parser. *)

From S2P Require Import Prelude HttpTables HttpUrl HttpExecute.

Open Scope Z_scope.

(** ** Weakest preconditions *)

Section Wp.
Context {U : Type}.

Definition wp {A} (m : M U A) (s : machine U) (Q : A -> machine U -> Prop)
    (E : jump -> machine U -> Prop) : Prop :=
  match m s with
  | (s', inl a) => Q a s'
  | (s', inr j) => E j s'
  end.

Lemma wp_mono {A} (m : M U A) s (Q Q' : A -> machine U -> Prop) (E E' : jump -> machine U -> Prop) :
  wp m s Q E -> (forall a s', Q a s' -> Q' a s') -> (forall j s', E j s' -> E' j s') ->
  wp m s Q' E'.
Proof. unfold wp. destruct (m s) as [s' [a|j]]; auto. Qed.

Lemma wp_bind {A B} (m : M U A) (f : A -> M U B) s Q E :
  wp m s (fun a s' => wp (f a) s' Q E) E -> wp (m ≫= f) s Q E.
Proof. unfold wp, mbind, M_bind. by destruct (m s) as [s' [a|j]]. Qed.

Context (h : http_parser) (u : U) (st : state) (i : nat) (c : Z) (mk : mark_vars).
#[local] Notation s := (mkMachine h u st i c mk).

Lemma wp_ret {A} (a : A) Q E : Q a s -> wp (mret a) s Q E.
Proof. done. Qed.
Lemma wp_leave {A} j (Q : A -> machine U -> Prop) E : E j s -> wp (leave j) s Q E.
Proof. done. Qed.
Lemma wp_get {A} (f : machine U -> A) Q E : Q (f s) s -> wp (get f) s Q E.
Proof. done. Qed.
Lemma wp_modify f Q E : Q tt (mkMachine (f h) u st i c mk) -> wp (modify f) s Q E.
Proof. done. Qed.
Lemma wp_update v Q E : Q tt (mkMachine h u v i c mk) -> wp (UPDATE_STATE v) s Q E.
Proof. done. Qed.
Lemma wp_set_p v Q E : Q tt (mkMachine h u st v c mk) -> wp (set_p v) s Q E.
Proof. done. Qed.
Lemma wp_set_ch v Q E : Q tt (mkMachine h u st i v mk) -> wp (set_ch v) s Q E.
Proof. done. Qed.
Lemma wp_set_mark k v Q E :
  Q tt (mkMachine h u st i c (put_mark mk k v)) ->
  wp (set_mark k v) s Q E.
Proof. done. Qed.
Lemma wp_assert b Q E : b = true -> Q tt s -> wp (assert_ b) s Q E.
Proof. by intros ->. Qed.
Lemma wp_fail {A} e (Q : A -> machine U -> Prop) E :
  E GotoError (mkMachine (set_errno e h) u st i c mk) -> wp (fail_with e) s Q E.
Proof. done. Qed.
Lemma wp_return {A} n (Q : A -> machine U -> Prop) E :
  E (Return n) (mkMachine (set_hp_state st h) u st i c mk) -> wp (RETURN n) s Q E.
Proof. done. Qed.
Lemma wp_strict b Q E :
  (b = true -> E GotoError (mkMachine (set_errno HPE_STRICT h) u st i c mk)) ->
  (b = false -> Q tt s) -> wp (STRICT_CHECK b) s Q E.
Proof. destruct b; intros HE HQ; [by apply wp_fail, HE|by apply HQ]. Qed.

(** [MARK] sets a mark that is null, and keeps one that is set. *)
Definition marked (k : mark_id) : mark_vars :=
  match mk k with
  | Some _ => mk
  | None => put_mark mk k (Some i)
  end.

Lemma wp_mark k Q E : Q tt (mkMachine h u st i c (marked k)) -> wp (MARK k) s Q E.
Proof.
  unfold marked, MARK, wp, mbind, M_bind. simpl. by destruct (mk k).
Qed.

Lemma wp_count v Q E :
  let h' := set_nread (u32 (nread h + v)) h in
  (u32 (nread h + v) > HTTP_MAX_HEADER_SIZE ->
     E GotoError (mkMachine (set_errno HPE_HEADER_OVERFLOW h') u st i c mk)) ->
  (u32 (nread h + v) <= HTTP_MAX_HEADER_SIZE -> Q tt (mkMachine h' u st i c mk)) ->
  wp (COUNT_HEADER_SIZE v) s Q E.
Proof.
  intros h' HE HQ. unfold wp, COUNT_HEADER_SIZE, mbind, M_bind. simpl.
  destruct (_ >? _) eqn:Hc; [apply HE|apply HQ]; rewrite Z.gtb_ltb in Hc; breflect; lia.
Qed.

(** A well-behaved callback leaves the parser alone, or pauses it. *)
Definition keeps (h h' : http_parser) : Prop := h' = h \/ h' = set_errno HPE_PAUSED h.
Definition cb_ok (f : http_cb U) : Prop :=
  forall h u, keeps h (f h u).1.2.

Lemma wp_callback f e er Q E :
  cb_ok f -> errno h = HPE_OK -> e <> HPE_OK ->
  (forall u', Q tt (mkMachine (set_hp_state st h) u' st i c mk)) ->
  (forall u' e', e' <> HPE_OK ->
     E (Return er) (mkMachine (set_errno e' (set_hp_state st h)) u' st i c mk)) ->
  wp (run_callback f e er) s Q E.
Proof.
  intros Hf Hh He HQ HE. unfold wp, run_callback, mbind, M_bind. simpl.
  specialize (Hf (set_hp_state st h) u). destruct (f (set_hp_state st h) u) as [[r h'] u'].
  simpl in Hf. destruct Hf as [-> | ->]; destruct (r =? 0); simpl; rewrite ?Hh; simpl.
  - apply HQ.
  - rewrite decide_False by done. by apply HE.
  - by apply HE.
  - rewrite decide_False by done. by apply HE.
Qed.

Lemma wp_notify f e er Q E :
  (forall g, f = Some g -> cb_ok g) -> errno h = HPE_OK -> e <> HPE_OK ->
  (forall u' h', h' = h \/ h' = set_hp_state st h -> Q tt (mkMachine h' u' st i c mk)) ->
  (forall u' e', e' <> HPE_OK ->
     E (Return er) (mkMachine (set_errno e' (set_hp_state st h)) u' st i c mk)) ->
  wp (CALLBACK_NOTIFY_ f e er) s Q E.
Proof.
  intros Hf Hh He HQ HE. unfold CALLBACK_NOTIFY_. apply wp_bind, wp_get, wp_bind, wp_assert.
  { simpl. by apply bool_decide_eq_true. }
  destruct f as [g|]; [|apply wp_ret; auto]. apply wp_callback; auto.
Qed.
End Wp.

(** ** The invariant *)

(** What holds in each state of the parser; [k] is [nread] in [s_chunk_size_start], which is 0
    before the byte is counted and 1 after. *)
Definition field_state (x : header_states) : bool :=
  match x with
  | h_general | h_C | h_CO | h_CON | h_matching_connection | h_matching_proxy_connection
  | h_matching_content_length | h_matching_transfer_encoding | h_matching_upgrade
  | h_connection | h_content_length | h_transfer_encoding | h_upgrade => true
  | _ => false
  end.

Definition value_state (x : header_states) : bool :=
  match x with h_connection | h_transfer_encoding => false | _ => true end.

Definition state_inv (k : Z) (st : state) (h : http_parser) : Prop :=
  match st with
  | s_header_field => field_state (header_state h) = true
  | s_header_value => value_state (header_state h) = true
  | s_body_identity => 0 < content_length h < ULLONG_MAX
  | s_chunk_size_start => nread h = k /\ flag F_CHUNKED h = true
  | s_chunk_size | s_chunk_parameters | s_chunk_size_almost_done =>
      content_length h < ULLONG_MAX /\ flag F_CHUNKED h = true
  | s_chunk_data => 0 < content_length h < ULLONG_MAX /\ flag F_CHUNKED h = true
  | s_chunk_data_almost_done => content_length h = 0 /\ flag F_CHUNKED h = true
  | s_chunk_data_done => flag F_CHUNKED h = true
  | _ => True
  end.

Record core (k : Z) (st : state) (h : http_parser) : Prop := {
  core_state : state_inv k st h;
  core_nread : 0 <= nread h <= HTTP_MAX_HEADER_SIZE;
  core_length : 0 <= content_length h <= ULLONG_MAX;
  core_index : 0 <= index h < 128;
  core_version : 0 <= http_major h <= 999 /\ 0 <= http_minor h <= 999;
  core_status : 0 <= status_code h <= 999
}.

(** A parser at rest: after an error it is never used again ([http_parser_execute] returns 0). *)
Definition parser_wf (h : http_parser) : Prop :=
  errno h = HPE_OK \/ errno h = HPE_PAUSED -> core 0 (hp_state h) h.

(** A fresh parser. *)
Lemma parser_init_wf t : parser_wf (http_parser_init t).
Proof.
  intros _. unfold http_parser_init, HTTP_MAX_HEADER_SIZE, ULLONG_MAX.
  split; simpl; repeat case_decide; simpl; try done; try lia.
Qed.

(** The states in which a mark may be set. *)
Definition mark_state (k : mark_id) (st : state) : bool :=
  match k with
  | M_header_field => bool_decide (st = s_header_field)
  | M_header_value => bool_decide (st = s_header_value)
  | M_url =>
      match st with
      | s_req_path | s_req_schema | s_req_schema_slash | s_req_schema_slash_slash
      | s_req_server_start | s_req_server | s_req_server_with_at | s_req_query_string_start
      | s_req_query_string | s_req_fragment_start | s_req_fragment => true
      | _ => false
      end
  | M_body =>
      match st with
      | s_body_identity | s_body_identity_eof | s_chunk_data | s_chunk_data_almost_done => true
      | _ => false
      end
  | M_status => bool_decide (st = s_res_status)
  end.

Definition marks_ok (st : state) (i : nat) (mk : mark_vars) : Prop :=
  forall k j, mk k = Some j -> mark_state k st = true /\ (j <= i)%nat.

(** The jumps back to [reexecute] that a state can still take. *)
Definition rank (st : state) : nat :=
  match st with
  | s_header_value_lws | s_header_value_discard_lws => 3
  | s_header_field_start => 2
  | s_header_value | s_headers_almost_done | s_start_req_or_res | s_body_identity => 1
  | _ => 0
  end.

Section Invariant.
Context {U : Type} (len : nat).
Implicit Types (s : machine U).

(** During a call, with the byte at [p] counted ([k = 1]) or not ([k = 0]). *)
Record inv (k : Z) s : Prop := {
  inv_errno : errno (hp s) = HPE_OK;
  inv_core : core k (p_state s) (hp s);
  inv_marks : marks_ok (p_state s) (p s) (marks s)
}.

(** After a [switch] from the state [st] at the byte [i]: normal end, and the jumps. *)
Definition post (i : nat) s : Prop := inv 0 s /\ (i <= p s < len)%nat.

Definition returned (n : nat) s : Prop :=
  (n <= len)%nat /\ parser_wf (hp s) /\ (errno (hp s) = HPE_OK -> upgrade (hp s) = true).

Definition failed s : Prop :=
  errno (hp s) <> HPE_OK /\ errno (hp s) <> HPE_PAUSED /\ (p s <= len)%nat.

Definition jump_post (st : state) (i : nat) (j : jump) s : Prop :=
  match j with
  | Reexecute => inv 1 s /\ (i <= p s < len)%nat /\ (rank (p_state s) < rank st)%nat
  | Return n => returned n s
  | GotoError => failed s
  | AssertFails | NoFuel => False
  end.
End Invariant.

(** ** Automation *)

Lemma flag_or f g h : flag f h = true -> flag f (or_flags g h) = true.
Proof.
  unfold flag, or_flags. simpl. rewrite !negb_true_iff, !Z.eqb_neq.
  rewrite Z.land_lor_distr_l, Z.lor_eq_0_iff. tauto.
Qed.

(** Members that an assignment does not touch. *)
Lemma flag_same f h h' : flags h = flags h' -> flag f h = flag f h'.
Proof. unfold flag. by intros ->. Qed.

Lemma core_frame k st h h' :
  core k st h -> flags h' = flags h -> header_state h' = header_state h ->
  nread h' = nread h -> content_length h' = content_length h -> index h' = index h ->
  http_major h' = http_major h -> http_minor h' = http_minor h ->
  status_code h' = status_code h -> core k st h'.
Proof.
  intros [] Hf Hhs Hn Hc Hi Hma Hmi Hs. split; rewrite ?Hn, ?Hc, ?Hi, ?Hma, ?Hmi, ?Hs; try done.
  unfold state_inv in *.
  destruct st; rewrite ?(flag_same _ _ _ Hf), ?Hhs, ?Hn, ?Hc; done.
Qed.

Ltac wp_step :=
  lazymatch goal with
  | |- wp (_ ≫= _) _ _ _ => apply wp_bind
  | |- wp (mret _) _ _ _ => apply wp_ret
  | |- wp (leave _) _ _ _ => apply wp_leave
  | |- wp REEXECUTE _ _ _ => apply wp_leave
  | |- wp (get _) _ _ _ => apply wp_get
  | |- wp (modify _) _ _ _ => apply wp_modify
  | |- wp (UPDATE_STATE _) _ _ _ => apply wp_update
  | |- wp (set_p _) _ _ _ => apply wp_set_p
  | |- wp (set_ch _) _ _ _ => apply wp_set_ch
  | |- wp (assert_ _) _ _ _ => apply wp_assert
  | |- wp (fail_with _) _ _ _ => apply wp_fail
  | |- wp (RETURN _) _ _ _ => apply wp_return
  | |- wp (STRICT_CHECK _) _ _ _ => apply wp_strict; intros ?
  | |- wp (MARK _) _ _ _ => apply wp_mark
  | |- wp (COUNT_HEADER_SIZE _) _ _ _ => apply wp_count; intros ?
  | |- wp (if ?b then _ else _) _ _ _ => destruct b eqn:?
  | |- wp (match ?x with _ => _ end) _ _ _ => destruct x eqn:?
  end; cbn [hp user p_state p ch marks].

Lemma marks_ok_cleared k st st' i i' (mk mk' : mark_vars) :
  marks_ok st i mk -> (forall j, mk' j = if decide (j = k) then None else mk j) ->
  (forall j, j <> k -> mark_state j st = true -> mark_state j st' = true) -> (i <= i')%nat ->
  marks_ok st' i' mk'.
Proof.
  intros Hm Heq Hst Hi j a Hj. rewrite Heq in Hj. case_decide; [done|].
  destruct (Hm _ _ Hj). split; [by apply Hst|lia].
Qed.

Lemma marks_ok_move st st' i i' mk :
  marks_ok st i mk -> (forall j, mark_state j st = true -> mark_state j st' = true) ->
  (i <= i')%nat -> marks_ok st' i' mk.
Proof. intros Hm Hst Hi j a Hj. destruct (Hm _ _ Hj). split; [by apply Hst|lia]. Qed.

Lemma marks_ok_marked k st st' i i' mk :
  marks_ok st i mk -> (forall j, mark_state j st = true -> mark_state j st' = true) ->
  mark_state k st' = true -> (i <= i')%nat -> marks_ok st' i' (marked i mk k).
Proof.
  intros Hm Hst Hk Hi j a. unfold marked.
  destruct (mk k) eqn:Ek; [|rewrite get_put_mark; case_decide].
  - intros Hj. destruct (Hm _ _ Hj). split; [by apply Hst|lia].
  - intros [= <-]. subst j. split; [done|lia].
  - intros Hj. destruct (Hm _ _ Hj). split; [by apply Hst|lia].
Qed.

(** The marks of a state that allows none (or the same ones as the next state). *)
Ltac marks_tac :=
  first
    [ eapply marks_ok_move; [eassumption|intros []; first [done|simpl; congruence]|lia]
    | eapply marks_ok_marked; [eassumption|intros []; first [done|simpl; congruence]|done|lia]
    | eapply marks_ok_cleared; [eassumption|eassumption|intros []; done|lia]
    | match goal with
      | E : forall j, get_mark ?mk' j =
              if decide (j = ?k) then None else get_mark (marked ?i ?mk ?k) j
        |- marks_ok _ _ ?mk' =>
          eapply (marks_ok_cleared k s_header_value _ i _ (marked i mk k));
          [ eapply marks_ok_marked; [eassumption|intros []; done|done|lia]
          | exact E | intros []; done | lia ]
      end ].

Lemma next_digit_pos c v : 0 <= next_digit c v.
Proof. apply Z.mod_pos_bound. lia. Qed.

Lemma IS_NUM_digit c : negb (IS_NUM c) = false -> 0 <= c - 48 <= 9.
Proof. unfold IS_NUM. intros. breflect. lia. Qed.

Lemma unhex_range c : unhex c <> -1 -> 0 <= unhex c <= 15.
Proof.
  assert (Forall (fun v => v = -1 \/ 0 <= v <= 15) unhex_tab) as Ht by by_compute.
  unfold unhex. generalize (Z.to_nat c) as n. induction Ht as [|v l Hv _ IH]; intros [|n]; simpl.
  - lia.
  - lia.
  - lia.
  - apply IH.
Qed.

(** The products of the two overflow tests stay below [ULLONG_MAX]. *)
Lemma no_overflow b v d : b = 10 \/ b = 16 -> 0 <= v <= (ULLONG_MAX - b) / b -> 0 <= d < b ->
  u64 (u64 (v * b) + d) = v * b + d /\ v * b + d < ULLONG_MAX.
Proof.
  unfold ULLONG_MAX. intros Hb Hv Hd. assert (v * b <= 2 ^ 64 - 1 - b).
  { transitivity ((2 ^ 64 - 1 - b) / b * b); [nia|]. destruct Hb as [-> | ->]; divlia. }
  rewrite (u64_small (v * b)) by nia. rewrite u64_small by nia. lia.
Qed.

Lemma header_start_field c : field_state (header_start_state c) = true.
Proof. unfold header_start_state. by repeat case_match. Qed.

Lemma NEW_MESSAGE_cases h :
  NEW_MESSAGE h = s_dead \/ NEW_MESSAGE h = s_start_req \/ NEW_MESSAGE h = s_start_res.
Proof. unfold NEW_MESSAGE, start_state. repeat case_match; auto. Qed.

(** The arithmetic facts the tests of a case give. *)
Ltac digit_facts :=
  repeat match goal with
  | H : negb (IS_NUM _) = false |- _ => apply IS_NUM_digit in H
  | H : (next_digit ?c ?v >? 999) = false |- _ =>
      pose proof (next_digit_pos c v); rewrite Z.gtb_ltb in H; apply Z.ltb_ge in H
  | H : (_ <? _) || (_ <? _) = false |- _ => apply orb_false_iff in H as [?%Z.ltb_ge ?%Z.ltb_ge]
  | H : negb (_ =? _) = true |- _ => apply negb_true_iff in H
  | H : (unhex _ =? -1) = false |- _ => apply Z.eqb_neq, unhex_range in H
  | H : (_ =? _) = true |- _ => apply Z.eqb_eq in H
  | H : (_ =? _) = false |- _ => apply Z.eqb_neq in H
  end.

Ltac core_tac :=
  digit_facts;
  match goal with
  | H : core _ _ ?h |- core _ _ _ =>
      let H1 := fresh in let H2 := fresh in let H3 := fresh in let H4 := fresh in
      let H5 := fresh in let H6 := fresh in
      destruct H as [H1 H2 H3 H4 H5 H6];
      unfold or_flags, incr_index in *; split;
      unfold state_inv, flag, HTTP_MAX_HEADER_SIZE, ULLONG_MAX in *; simpl in *;
      first
        [ done | lia | tauto | split; lia | split; [lia|tauto]
        | apply Z.mod_pos_bound; lia
        | apply header_start_field
        | match goal with E : header_state _ = _ |- _ => by rewrite E end
        | by repeat case_match
        | idtac ]
  end.

(** The condition of an [assert] is part of the invariant of the state. *)
Ltac assert_tac :=
  match goal with
  | H : core _ _ ?h |- _ = true =>
      let H1 := fresh in
      pose proof (core_state _ _ _ H) as H1; simpl in H1;
      first [ tauto | apply Z.eqb_eq; tauto ]
  end.

Ltac leaf :=
  lazymatch goal with
  | |- post _ _ _ => split; [split; cbn [hp p_state p marks]; [done|try core_tac|try marks_tac]|cbn; lia]
  | |- jump_post _ _ _ GotoError _ => split_and!; [done|done|cbn; lia]
  | |- jump_post _ _ _ Reexecute _ =>
      split_and!; [split; cbn [hp p_state p marks]; [done|try core_tac|try marks_tac]|cbn; lia..]
  | |- jump_post _ _ _ (Return _) _ =>
      split_and!; [lia|intros _; cbn [hp]; try core_tac|try done]
  | |- _ = true => assert_tac
  end.

Section Settings.
Context {U : Type} (settings : http_parser_settings U).

(** Every callback keeps the parser, or pauses it. *)
Record settings_ok : Prop := {
  notify_ok : forall f, f ∈ [on_message_begin settings; on_headers_complete settings;
                on_message_complete settings; on_chunk_header settings;
                on_chunk_complete settings] -> forall g, f = Some g -> cb_ok g;
  data_ok : forall k f d, data_cb settings k = Some f -> cb_ok (fun h u => f h d u)
}.

Context (Hset : settings_ok).

Lemma notify_in f :
  f ∈ [on_message_begin settings; on_headers_complete settings; on_message_complete settings;
       on_chunk_header settings; on_chunk_complete settings] -> forall g, f = Some g -> cb_ok g.
Proof. apply (notify_ok Hset). Qed.

Lemma wp_data data h (u : U) st i c (mk : mark_vars) k upto er Q E :
  errno h = HPE_OK ->
  (forall u' h' (mk' : mark_vars), h' = h \/ h' = set_hp_state st h ->
     (forall j, mk' j = if decide (j = k) then None else mk j) ->
     Q tt (mkMachine h' u' st i c mk')) ->
  (forall u' e', e' <> HPE_OK ->
     E (Return er) (mkMachine (set_errno e' (set_hp_state st h)) u' st i c mk)) ->
  wp (CALLBACK_DATA_ settings data k upto er) (mkMachine h u st i c mk) Q E.
Proof.
  intros Hh HQ HE. unfold CALLBACK_DATA_. do 3 wp_step. wp_step; [by apply bool_decide_eq_true|].
  do 2 wp_step. destruct (mk k) as [j|] eqn:Hk.
  - wp_step. destruct (data_cb settings k) as [f|] eqn:Hf.
    + apply wp_callback; [by apply (data_ok Hset k)|done|by destruct k| |done].
      intros u'. apply wp_set_mark, HQ; auto using get_put_mark.
    + wp_step. apply wp_set_mark, HQ; auto using get_put_mark.
  - wp_step. apply HQ; auto. intros j. by case_decide; [subst|].
Qed.

End Settings.

(** *** Callbacks in the automation *)

Ltac wp_cb :=
  first
    [ apply wp_notify;
      [eapply notify_in; [eassumption|]; rewrite !elem_of_cons; tauto|try done|done
      |intros ? ? [-> | ->]|intros ? ? ?]
    | eapply wp_data;
      [eassumption|try done|intros ? ? ? [-> | ->] ?|intros ? ? ?] ].

Ltac wp_auto :=
  repeat first
    [ wp_step
    | match goal with
      | |- wp (CALLBACK_NOTIFY _ _) _ _ _ => apply wp_bind, wp_get; cbn [p]
      | |- wp (CALLBACK_NOTIFY_NOADVANCE _ _) _ _ _ => apply wp_bind, wp_get; cbn [p]
      | |- wp (CALLBACK_DATA _ _ _) _ _ _ => apply wp_bind, wp_get; cbn [p]
      | |- wp (CALLBACK_DATA_NOADVANCE _ _ _) _ _ _ => apply wp_bind, wp_get; cbn [p]
      end
    | wp_cb ].

(** Most cases: run the statements, check the invariant at every end. *)
Tactic Notation "case_auto" reference(d) :=
  intros Hc Hm; unfold d, case_header_value_start, assert_chunked, finish_header; wp_auto; leaf.

Section Cases.
Context {U : Type} (settings : http_parser_settings U) (data : bytes).
Context (Hset : settings_ok settings).
#[local] Notation len := (length data).
Context (h : http_parser) (u : U) (i : nat) (c : Z) (mk : mark_vars).
Context (Hh : errno h = HPE_OK) (Hi : (i < len)%nat).

(** The [switch] case [m] of the state [st] keeps the invariant. *)
Definition case_ok (st : state) (m : M U unit) : Prop :=
  core 1 st h -> marks_ok st i mk ->
  wp m (mkMachine h u st i c mk) (fun _ => post len i) (jump_post len st i).

Lemma ok_start_req_or_res : case_ok s_start_req_or_res (case_start_req_or_res settings c).
Proof. case_auto case_start_req_or_res. Qed.
Lemma ok_res_or_resp_H : case_ok s_res_or_resp_H (case_res_or_resp_H c).
Proof. case_auto case_res_or_resp_H. Qed.
Lemma ok_start_res : case_ok s_start_res (case_start_res settings c).
Proof. case_auto case_start_res. Qed.
Lemma ok_res_first_http_major : case_ok s_res_first_http_major (case_res_http_major true c).
Proof. case_auto case_res_http_major. Qed.
Lemma ok_res_http_major : case_ok s_res_http_major (case_res_http_major false c).
Proof. case_auto case_res_http_major. Qed.
Lemma ok_res_first_http_minor : case_ok s_res_first_http_minor (case_res_http_minor true c).
Proof. case_auto case_res_http_minor. Qed.
Lemma ok_res_http_minor : case_ok s_res_http_minor (case_res_http_minor false c).
Proof. case_auto case_res_http_minor. Qed.
Lemma ok_res_first_status_code : case_ok s_res_first_status_code (case_res_status_code true c).
Proof. case_auto case_res_status_code. Qed.
Lemma ok_res_status_code : case_ok s_res_status_code (case_res_status_code false c).
Proof. case_auto case_res_status_code. Qed.
Lemma ok_res_status_start : case_ok s_res_status_start (case_res_status_start c).
Proof. case_auto case_res_status_start. Qed.
Lemma ok_res_status : case_ok s_res_status (case_res_status settings data c).
Proof. case_auto case_res_status. Qed.
Lemma ok_start_req : case_ok s_start_req (case_start_req settings c).
Proof. case_auto case_start_req. Qed.
Lemma ok_req_method : case_ok s_req_method (case_req_method c).
Proof. case_auto case_req_method. Qed.
Lemma ok_req_http_start : case_ok s_req_http_start (case_req_http_start c).
Proof. case_auto case_req_http_start. Qed.
Lemma ok_req_first_http_major : case_ok s_req_first_http_major (case_req_http_major true c).
Proof. case_auto case_req_http_major. Qed.
Lemma ok_req_http_major : case_ok s_req_http_major (case_req_http_major false c).
Proof. case_auto case_req_http_major. Qed.
Lemma ok_req_first_http_minor : case_ok s_req_first_http_minor (case_req_http_minor true c).
Proof. case_auto case_req_http_minor. Qed.
Lemma ok_req_http_minor : case_ok s_req_http_minor (case_req_http_minor false c).
Proof. case_auto case_req_http_minor. Qed.
Lemma ok_req_line_almost_done : case_ok s_req_line_almost_done (case_req_line_almost_done c).
Proof. case_auto case_req_line_almost_done. Qed.
Lemma ok_header_field_start : case_ok s_header_field_start (case_header_field_start c).
Proof. case_auto case_header_field_start. Qed.
Lemma ok_header_value_start : case_ok s_header_value_start (case_header_value_start c).
Proof. case_auto case_header_value_start. Qed.
Lemma ok_header_value_discard_ws : case_ok s_header_value_discard_ws (case_header_value_discard_ws c).
Proof. case_auto case_header_value_discard_ws. Qed.
Lemma ok_header_almost_done : case_ok s_header_almost_done (case_header_almost_done c).
Proof. case_auto case_header_almost_done. Qed.
Lemma ok_header_value_lws : case_ok s_header_value_lws (case_header_value_lws c).
Proof. case_auto case_header_value_lws. Qed.
Lemma ok_header_value_discard_lws : case_ok s_header_value_discard_lws (case_header_value_discard_lws settings data c).
Proof. case_auto case_header_value_discard_lws. Qed.
Lemma ok_chunk_size_start : case_ok s_chunk_size_start (case_chunk_size_start c).
Proof. case_auto case_chunk_size_start. Qed.
Lemma ok_chunk_parameters : case_ok s_chunk_parameters (case_chunk_parameters c).
Proof. case_auto case_chunk_parameters. Qed.
Lemma ok_chunk_size_almost_done : case_ok s_chunk_size_almost_done (case_chunk_size_almost_done settings c).
Proof. case_auto case_chunk_size_almost_done. Qed.
Lemma ok_chunk_data_done : case_ok s_chunk_data_done (case_chunk_data_done settings c).
Proof. case_auto case_chunk_data_done. Qed.
Lemma ok_chunk_data_almost_done : case_ok s_chunk_data_almost_done (case_chunk_data_almost_done settings data c).
Proof. case_auto case_chunk_data_almost_done. Qed.

Lemma ok_chunk_size : case_ok s_chunk_size (case_chunk_size c).
Proof.
  intros Hc Hm. unfold case_chunk_size, assert_chunked. wp_auto.
  all: lazymatch goal with
    | E : (?a <? content_length h) = false |- _ =>
        apply Z.ltb_ge in E;
        destruct (no_overflow 16 (content_length h) (unhex c)) as [Hu Hlt];
        [auto|split; [apply Hc|done]|digit_facts; lia|rewrite Hu]
    | _ => idtac
    end; leaf.
Qed.

Lemma core_move k k' st st' : core k st h -> state_inv k' st' h -> core k' st' h.
Proof. by intros [] ?; split. Qed.

Lemma ok_constant st e next :
  (forall k, mark_state k st = false) -> state_inv 0 next h ->
  case_ok st (case_constant c e next).
Proof.
  intros Hst Hn Hc Hm. unfold case_constant. wp_auto; [leaf|]. split; [split|]; cbn; [done| |..|lia].
  - by eapply core_move.
  - intros k j Hj. destruct (Hm _ _ Hj) as [Hk _]. by rewrite Hst in Hk.
Qed.

Lemma ok_dead :
  case_ok s_dead (if (c =? CR) || (c =? LF) then mret tt else fail_with HPE_CLOSED_CONNECTION).
Proof. intros Hc Hm. wp_auto; leaf. Qed.

(** *** The URL *)

Lemma parse_url_char_url s x :
  parse_url_char s x = s_dead \/ mark_state M_url (parse_url_char s x) = true.
Proof. unfold parse_url_char. repeat case_match; auto. Qed.

Lemma url_inv k s : mark_state M_url s = true -> state_inv k s h.
Proof. by destruct s. Qed.

Lemma wp_url_char st st0 (mk0 : mark_vars) :
  core 1 st0 h -> (forall k j, mk0 k = Some j -> k = M_url /\ (j <= i)%nat) ->
  wp (url_char c) (mkMachine h u st i c mk0) (fun _ => post len i) (jump_post len st0 i).
Proof.
  intros Hc Hm. unfold url_char. wp_auto; [leaf|].
  destruct (parse_url_char_url st c) as [|Hu]; [done|].
  split; [split|]; cbn; [done| |..|lia].
  - eapply core_move; [done|]. by apply url_inv.
  - intros k j Hj. by destruct (Hm _ _ Hj) as [-> ?].
Qed.

Lemma url_marks st : mark_state M_url st = true -> marks_ok st i mk ->
  forall k j, mk k = Some j -> k = M_url /\ (j <= i)%nat.
Proof.
  intros Hu Hm k j Hj. destruct (Hm _ _ Hj) as [Hk ?]. split; [|done].
  destruct st; try done; by destruct k.
Qed.

Lemma ok_req_spaces_before_url :
  case_ok s_req_spaces_before_url (case_req_spaces_before_url c).
Proof.
  intros Hc Hm. unfold case_req_spaces_before_url.
  assert (forall k j, marked i mk M_url k = Some j -> k = M_url /\ (j <= i)%nat) as Hm'.
  { intros k j. unfold marked. destruct (mk M_url) eqn:E.
    - by destruct (Hm _ _ E).
    - rewrite get_put_mark. case_decide; [intros [= <-]; auto|].
      intros Hj. destruct (Hm _ _ Hj). by destruct k. }
  wp_auto; [leaf|by apply wp_url_char..].
Qed.

Lemma ok_req_schema st : mark_state M_url st = true -> case_ok st (case_req_schema c).
Proof.
  intros Hu Hc Hm. unfold case_req_schema. wp_step; [wp_step; leaf|].
  apply wp_url_char; [done|by eapply url_marks].
Qed.

Lemma url_cleared st st' (mk' : mark_vars) :
  mark_state M_url st = true -> marks_ok st i mk ->
  (forall j, mk' j = if decide (j = M_url) then None else mk j) -> marks_ok st' i mk'.
Proof.
  intros Hu Hm Heq k j. rewrite Heq. case_decide; [done|]. intros Hj.
  by destruct (url_marks _ Hu Hm _ _ Hj).
Qed.

(** The end of the URL: the rest of the request line, or of an HTTP/0.9 request. *)
Lemma wp_url_end st next h' : mark_state M_url st = true -> errno h' = HPE_OK ->
  core 0 next h' -> marks_ok st i mk -> (forall x y, core 0 next (set_errno x (set_hp_state y h'))) ->
  wp (UPDATE_STATE next;; CALLBACK_DATA settings data M_url) (mkMachine h' u st i c mk)
    (fun _ => post len i) (jump_post len st i).
Proof.
  intros Hu Hh' Hc Hm Hc'. wp_auto.
  - split; [split; cbn; [done|done|by eapply url_cleared]|cbn; lia].
  - split; [split; cbn; [done| |by eapply url_cleared]|cbn; lia].
    by eapply core_frame.
  - split_and!; [lia|intros _; apply Hc'|done].
Qed.

Lemma ok_req_url st : mark_state M_url st = true -> case_ok st (case_req_url settings data c).
Proof.
  intros Hu Hc Hm. unfold case_req_url. wp_step; [|wp_step].
  - apply wp_url_end; auto; [|intros ??]; core_tac.
  - do 4 wp_step. destruct (c =? CR); apply wp_url_end; auto; [|intros ??| |intros ??]; core_tac.
  - apply wp_url_char; [done|by eapply url_marks].
Qed.
End Cases.
