(* ===== verification/HttpSafeLoops.v ===== *)
(** * The loops of the message parser, and the theorems about http_parser_execute

    The inner loops over header names and values, the bodies, the end of the headers, the label
    [reexecute] and the loop over the data keep the invariant of [HttpSafe]. *)

From S2P Require Import Prelude HttpTables HttpUrl HttpExecute HttpSafe.

Open Scope Z_scope.

Section Loops.
Context {U : Type} (settings : http_parser_settings U) (data : bytes).
Context (Hset : settings_ok settings).
#[local] Notation len := (length data).
Implicit Types (h : http_parser) (u : U) (i : nat) (c : Z) (mk : mark_vars).

(** ** Header names *)

(** The jumps of a loop: errors only. *)
Definition only_failed (j : jump) (s : machine U) : Prop := j = GotoError /\ failed len s.

Lemma only_failed_jump st i j s : only_failed j s -> jump_post len st i j s.
Proof. intros [-> Hf]. exact Hf. Qed.

(** The statement changes the parser only, within the invariant of the state. *)
Definition parser_step (s : machine U) (s' : machine U) : Prop :=
  exists h', s' = mkMachine h' (user s) (p_state s) (p s) (ch s) (marks s) /\
    errno h' = HPE_OK /\ core 1 (p_state s) h'.

Lemma wp_match_header word done h u i c mk x :
  errno h = HPE_OK -> core 1 s_header_field h -> field_state done = true ->
  wp (match_header word done x) (mkMachine h u s_header_field i c mk)
    (fun _ => parser_step (mkMachine h u s_header_field i c mk)) only_failed.
Proof.
  intros Hh Hc Hd. unfold match_header.
  do 4 wp_step. destruct (match_char _ _ _); wp_auto; eexists; split_and!; try done; core_tac.
Qed.

Lemma wp_field_char h u i c mk x y :
  errno h = HPE_OK -> core 1 s_header_field h -> (i <= len)%nat ->
  wp (field_char x y) (mkMachine h u s_header_field i c mk)
    (fun _ => parser_step (mkMachine h u s_header_field i c mk)) only_failed.
Proof.
  intros Hh Hc Hi. unfold field_char. do 2 wp_step.
  pose proof (core_state _ _ _ Hc) as Hf. simpl in Hf.
  destruct (header_state h) eqn:Ehs; try done; try (by apply wp_match_header);
    unfold field_content_length; wp_auto.
  all: try (eexists; split_and!; try done; core_tac).
  split_and!; done.
Qed.

Lemma wp_field_loop fuel h u i c mk :
  errno h = HPE_OK -> core 1 s_header_field h -> (i <= len)%nat -> (len - i < fuel)%nat ->
  wp (field_loop data fuel) (mkMachine h u s_header_field i c mk)
    (fun _ s' => exists h' i' c', s' = mkMachine h' u s_header_field i' c' mk /\
       errno h' = HPE_OK /\ core 1 s_header_field h' /\ (i <= i' <= len)%nat)
    only_failed.
Proof.
  revert h i c. induction fuel as [|fuel IH]; intros h i c Hh Hc Hi Hf; [lia|]. simpl.
  do 2 wp_step. destruct (i =? len)%nat eqn:E; [wp_step; naive_solver lia|].
  apply Nat.eqb_neq in E. do 2 wp_step. wp_step; [wp_step; naive_solver lia|]. wp_step.
  eapply wp_mono; [by apply wp_field_char| |auto].
  intros [] s' (h' & -> & Hh' & Hc'). simpl. do 2 wp_step.
  eapply wp_mono; [apply IH; [done|done|lia|lia]| |auto].
  intros [] s' (h2 & i2 & c2 & -> & ? & ? & ?). naive_solver lia.
Qed.

Lemma ok_header_field h u i c mk : errno h = HPE_OK -> (i < len)%nat ->
  case_ok data h u i c mk s_header_field (case_header_field settings data).
Proof.
  intros Hh Hi Hc Hm. unfold case_header_field. do 3 wp_step.
  eapply wp_mono; [apply wp_field_loop; [done|done|lia|lia]| |apply only_failed_jump].
  intros [] s' (h' & i' & c' & -> & Hh' & Hc' & Hi'). simpl.
  do 3 wp_step; wp_step; [leaf|].
  assert (core 1 s_header_field
            (set_nread (u32 (nread h' + Z.of_nat (i' - i))) h')) as Hc2.
  { assert (0 <= u32 (nread h' + Z.of_nat (i' - i))) by (apply Z.mod_pos_bound; lia). core_tac. }
  wp_step.
  - apply Nat.eqb_eq in Heqb. subst i'. wp_step. leaf.
  - apply Nat.eqb_neq in Heqb. wp_auto; leaf.
Qed.

(** ** Header values *)

Lemma memchr_from_Some (l : bytes) x i limit r :
  memchr_from l x i limit = Some r -> (i <= r < i + length l)%nat /\ nth (r - i) l 0 = x.
Proof.
  revert i limit. induction l as [|y l IH]; intros i [|limit]; simpl; try done.
  destruct (y =? x) eqn:E.
  - intros [= <-]. rewrite Nat.sub_diag. breflect. split; [lia|done].
  - intros [? <-]%IH. split; [lia|]. by replace (r - i)%nat with (S (r - S i)) by lia.
Qed.

Lemma memchr_Some i x limit r :
  memchr data i x limit = Some r -> (i < len)%nat -> nth i data 0 <> x -> (i < r < len)%nat.
Proof.
  unfold memchr. intros [Hr Hx]%memchr_from_Some Hi Hne. rewrite length_drop in Hr.
  split; [|lia]. destruct (decide (r = i)) as [->|]; [|lia].
  rewrite Nat.sub_diag in Hx. exfalso. apply Hne. rewrite <- Hx. symmetry.
  rewrite !nth_lookup, lookup_drop. by rewrite Nat.add_0_r.
Qed.

Lemma skip_value_bounds i :
  (i < len)%nat -> nth i data 0 <> CR -> nth i data 0 <> LF -> (i <= skip_value data i < len)%nat.
Proof.
  intros Hi Hcr Hlf. unfold skip_value.
  destruct (memchr data i CR _) as [r|] eqn:Er, (memchr data i LF _) as [l|] eqn:El.
  - pose proof (memchr_Some _ _ _ _ Er Hi Hcr). pose proof (memchr_Some _ _ _ _ El Hi Hlf).
    destruct (l <=? r)%nat; lia.
  - pose proof (memchr_Some _ _ _ _ Er Hi Hcr). lia.
  - pose proof (memchr_Some _ _ _ _ El Hi Hlf). lia.
  - lia.
Qed.

Lemma wp_value_char hs h u i c mk x :
  errno h = HPE_OK -> core 1 s_header_value h -> value_state hs = true ->
  (i < len)%nat -> nth i data 0 = x -> x <> CR -> x <> LF ->
  wp (value_char data hs x) (mkMachine h u s_header_value i c mk)
    (fun hs' s' => value_state hs' = true /\ exists h' i',
       s' = mkMachine h' u s_header_value i' c mk /\ errno h' = HPE_OK /\
       core 1 s_header_value h' /\ (i <= i' < len)%nat)
    only_failed.
Proof.
  intros Hh Hc Hv Hi <- Hcr Hlf. unfold value_char, value_content_length, match_value.
  destruct hs; try done; wp_auto.
  all: try (split; [done|split_and!; [done|done|cbn; lia]]).
  all: try (split; [by repeat case_match|do 2 eexists; split_and!; [done|done|solve [core_tac]|lia..]]).
  - split; [done|]. pose proof (skip_value_bounds i Hi Hcr Hlf). do 2 eexists.
    split; [reflexivity|]. split_and!; [done|done|lia..].
  - apply Z.ltb_ge in Heqb1.
    destruct (no_overflow 10 (content_length h) (nth i data 0 - 48)) as [Hu Hlt];
      [auto|split; [apply Hc|done]|digit_facts; lia|].
    split; [done|]. rewrite Hu. do 2 eexists. split_and!; [done|done|core_tac|lia..].
Qed.

(** Where the loop over a value stops: at the end of the data, or after a CR. *)
Definition value_end (i : nat) mk (s : machine U) : Prop :=
  exists h' u' st' i' c' mk', s = mkMachine h' u' st' i' c' mk' /\ errno h' = HPE_OK /\
    core 1 st' h' /\ marks_ok st' i' mk' /\ (i <= i' <= len)%nat /\
    ((st' = s_header_value /\ i' = len /\ mk' = mk) \/ (st' = s_header_almost_done /\ (i' < len)%nat)).

Lemma wp_value_loop fuel start hs h u i c mk :
  errno h = HPE_OK -> core 1 s_header_value h -> value_state hs = true ->
  marks_ok s_header_value i mk -> (start <= i <= len)%nat -> (len - i < fuel)%nat ->
  wp (value_loop settings data fuel start hs) (mkMachine h u s_header_value i c mk)
    (fun hs' s' => value_state hs' = true /\ value_end i mk s')
    (jump_post len s_header_value start).
Proof.
  revert hs h i c. induction fuel as [|fuel IH]; intros hs h i c Hh Hc Hv Hm Hi Hf; [lia|]. simpl.
  do 2 wp_step. destruct (i =? len)%nat eqn:E.
  { apply Nat.eqb_eq in E. wp_step. split; [done|]. do 6 eexists. split; [reflexivity|].
    split_and!; auto; lia. }
  apply Nat.eqb_neq in E. do 2 wp_step. wp_step.
  { (* CR *) do 5 wp_step. wp_auto.
    1, 2: split; [done|]; do 6 eexists; split; [reflexivity|];
      split_and!; [done|core_tac|eapply marks_ok_cleared; [done|done|by intros []|lia]|lia..|].
    1, 2: right; split; [done|lia].
    split_and!; [lia|intros _; cbn [hp]; core_tac|done]. }
  wp_step.
  { (* LF *) do 2 wp_step. wp_step. wp_step; [leaf|]. do 3 wp_step. wp_auto.
    - assert (0 <= u32 (nread h + Z.of_nat (i - start))) by (apply Z.mod_pos_bound; lia).
      split_and!; [split; cbn [hp p_state p marks]; [done|core_tac|marks_tac]|cbn; lia..].
    - assert (0 <= u32 (nread h + Z.of_nat (i - start))) by (apply Z.mod_pos_bound; lia).
      split_and!; [split; cbn [hp p_state p marks]; [done|core_tac|marks_tac]|cbn; lia..].
    - assert (0 <= u32 (nread h + Z.of_nat (i - start))) by (apply Z.mod_pos_bound; lia).
      split_and!; [lia|intros _; cbn [hp]; core_tac|done]. }
  do 2 wp_step. wp_step; [wp_step; leaf|]. wp_step. breflect.
  eapply wp_mono; [apply (wp_value_char hs); done || lia| |apply only_failed_jump].
  intros hs' s' (Hv' & h' & i' & -> & Hh' & Hc' & Hi'). simpl. do 4 wp_step.
  eapply wp_mono; [apply IH; [done|done|done|eapply marks_ok_move; [done|done|lia]|lia|lia]| |done].
  intros hs2 s2 (Hv2 & h2 & u2 & st2 & i2 & c2 & mk2 & -> & Hs). split; [done|].
  do 6 eexists. split; [reflexivity|]. naive_solver lia.
Qed.

Lemma ok_header_value h u i c mk : errno h = HPE_OK -> (i < len)%nat ->
  case_ok data h u i c mk s_header_value (case_header_value settings data).
Proof.
  intros Hh Hi Hc Hm. unfold case_header_value. do 5 wp_step.
  pose proof (core_state _ _ _ Hc) as Hv. simpl in Hv.
  eapply wp_mono; [apply wp_value_loop; [done|done|done|done|lia|lia]| |done].
  intros hs s' (Hv' & h' & u' & st' & i' & c' & mk' & -> & Hh' & Hc' & Hm' & Hi' & Hst).
  do 4 wp_step. simpl. wp_step. wp_step; [leaf|].
  assert (0 <= u32 (nread h' + Z.of_nat (i' - i))) by (apply Z.mod_pos_bound; lia).
  assert (core 0 st' (set_nread (u32 (nread h' + Z.of_nat (i' - i))) (set_header_state hs h'))).
  { clear Hc. destruct Hst as [[-> _]|[-> _]]; core_tac. }
  wp_step; [apply Nat.eqb_eq in Heqb|apply Nat.eqb_neq in Heqb]; wp_step;
    (split; [split; cbn; [done|done|]|cbn; lia]); [|done].
  destruct Hst as [(-> & _ & ->)|(_ & ?)]; [|lia].
  eapply marks_ok_move; [exact Hm|done|lia].
Qed.

(** ** The end of a message *)

(** The states a new message starts in have no invariant of their own. *)
Lemma new_message_inv k g h : state_inv k (NEW_MESSAGE g) h.
Proof. destruct (NEW_MESSAGE_cases g) as [E|[E|E]]; by rewrite E. Qed.

Lemma new_message_core k st g h : core k st h -> core 0 (NEW_MESSAGE g) h.
Proof. intros Hc. eapply core_move; [done|apply new_message_inv]. Qed.

Lemma wp_message_complete h u st0 i c mk Q E :
  errno h = HPE_OK ->
  (forall u' h', h' = h \/ h' = set_hp_state (NEW_MESSAGE h) h ->
     Q tt (mkMachine h' u' (NEW_MESSAGE h) i c mk)) ->
  (forall u' e', e' <> HPE_OK ->
     E (Return (i + 1)) (mkMachine (set_errno e' (set_hp_state (NEW_MESSAGE h) h)) u'
                           (NEW_MESSAGE h) i c mk)) ->
  wp (message_complete settings) (mkMachine h u st0 i c mk) Q E.
Proof.
  intros Hh HQ HE. unfold message_complete. do 4 wp_step. apply wp_bind, wp_get. cbn [p].
  apply wp_notify; auto. eapply notify_in; [eassumption|]. rewrite !elem_of_cons. tauto.
Qed.

(** No mark is set at the end of a message. *)
Definition no_marks mk : Prop := forall k, mk k = None.

Lemma no_marks_ok st i mk : no_marks mk -> marks_ok st i mk.
Proof. intros Hm k j. by rewrite Hm. Qed.

Lemma marks_none st i mk :
  (forall k, mark_state k st = false) -> marks_ok st i mk -> no_marks mk.
Proof.
  intros Hst Hm k. destruct (mk k) as [j|] eqn:E; [|done].
  destruct (Hm _ _ E) as [Hk _]. by rewrite Hst in Hk.
Qed.

Lemma message_complete_post h u st st0 i c mk :
  errno h = HPE_OK -> (i < len)%nat -> core 0 st0 h -> no_marks mk ->
  wp (message_complete settings) (mkMachine h u st0 i c mk) (fun _ => post len i)
    (jump_post len st i).
Proof.
  intros Hh Hi Hc Hm. apply wp_message_complete; [done|intros u' h' Hh'|intros u' e' He'].
  - split; [|cbn; lia]. split; cbn; [|apply (new_message_core 0 st0)|by apply no_marks_ok].
    + by destruct Hh' as [-> | ->].
    + destruct Hh' as [-> | ->]; [done|by eapply core_frame].
  - split_and!; [lia|intros _; cbn [hp]|done].
    eapply new_message_core. by eapply core_frame.
Qed.

(** With an upgrade, the function returns behind the message. *)
Lemma message_complete_return h u st st0 i c mk :
  errno h = HPE_OK -> (i < len)%nat -> core 0 st0 h -> upgrade h = true ->
  wp (message_complete settings) (mkMachine h u st0 i c mk)
    (fun _ s' => p s' = i /\ forall A (Q : A -> machine U -> Prop),
       wp (RETURN (i + 1)) s' Q (jump_post len st i))
    (jump_post len st i).
Proof.
  intros Hh Hi Hc Hup. apply wp_message_complete; [done|intros u' h' Hh'|intros u' e' He'].
  - split; [done|]. intros A Q. apply wp_return. split_and!; [lia|intros _; cbn [hp]|].
    + eapply new_message_core. eapply core_frame; [exact Hc|..]; by destruct Hh' as [-> | ->].
    + by destruct Hh' as [-> | ->].
  - split_and!; [lia|intros _; cbn [hp]|done]. eapply new_message_core. by eapply core_frame.
Qed.

Lemma ok_message_done h u i c mk : errno h = HPE_OK -> (i < len)%nat ->
  case_ok data h u i c mk s_message_done (case_message_done settings).
Proof.
  intros Hh Hi Hc Hm. unfold case_message_done. wp_step.
  assert (core 0 s_message_done h) as Hc0 by (by eapply core_move).
  assert (no_marks mk) as Hn by (eapply marks_none; [|done]; by intros []).
  apply wp_message_complete; [done|intros u' h' Hh'|intros u' e' He'].
  - assert (upgrade h' = upgrade h) as Hu by (by destruct Hh' as [-> | ->]).
    assert (core 0 (NEW_MESSAGE h) h') as Hc'.
    { eapply new_message_core. eapply core_frame; [exact Hc0|..]; by destruct Hh' as [-> | ->]. }
    do 4 wp_step. wp_step; wp_step.
    + split_and!; [lia|intros _; by eapply core_frame|intros _; by rewrite <- Heqb].
    + split; [split; cbn; [|done|by apply no_marks_ok]|cbn; lia].
      by destruct Hh' as [-> | ->].
  - split_and!; [lia|intros _; cbn [hp]|done]. eapply new_message_core. by eapply core_frame.
Qed.

Lemma ok_headers_done h u i c mk : errno h = HPE_OK -> (i < len)%nat ->
  case_ok data h u i c mk s_headers_done (case_headers_done settings c).
Proof.
  intros Hh Hi Hc Hm. unfold case_headers_done. wp_step. wp_step; [leaf|]. do 4 wp_step.
  assert (core 0 s_headers_done (set_nread 0 h)) as Hc0 by core_tac.
  assert (no_marks mk) as Hn by (eapply marks_none; [|done]; by intros []).
  wp_step; [|wp_step; [by eapply message_complete_post|]].
  - breflect. wp_step.
    eapply wp_mono; [eapply (message_complete_return _ _ s_headers_done); done| |done].
    intros [] s' [Hp Hr]. destruct s'. simpl in Hp. subst. do 2 wp_step. apply Hr.
  - repeat wp_step; try (by eapply message_complete_post).
    all: split; [split; cbn; [done| |by apply no_marks_ok]|cbn; lia].
    all: eapply core_move; [done|]; simpl; try done.
    pose proof (core_length _ _ _ Hc). digit_facts. simpl in *. lia.
Qed.

Lemma wp_headers_complete h u i c mk Q E :
  errno h = HPE_OK ->
  (forall u' h', h' = h \/ h' = or_flags F_SKIPBODY h ->
     Q tt (mkMachine h' u' s_headers_done i c mk)) ->
  (forall u' e' h', e' <> HPE_OK -> h' = h \/ h' = or_flags F_SKIPBODY h ->
     E (Return i) (mkMachine (set_hp_state s_headers_done (set_errno e' h')) u'
                           s_headers_done i c mk)) ->
  wp (headers_complete_callback settings) (mkMachine h u s_headers_done i c mk) Q E.
Proof.
  intros Hh HQ HE. unfold headers_complete_callback, wp, mbind, M_bind. simpl.
  destruct (on_headers_complete settings) as [f|] eqn:Ef; simpl.
  2: { rewrite Hh. simpl. apply HQ. auto. }
  assert (keeps h (f h u).1.2) as Hk.
  { assert (cb_ok f) as Hf; [|apply Hf].
    eapply (notify_in settings Hset (on_headers_complete settings)); [|exact Ef].
    rewrite !elem_of_cons. tauto. }
  destruct (f h u) as [[r h'] u']. simpl in Hk.
  destruct (r =? 0); [|destruct (r =? 1)]; simpl; (destruct Hk as [-> | ->]; simpl; rewrite ?Hh; simpl).
  - apply HQ; auto.
  - apply (HE u' HPE_PAUSED h); auto.
  - apply HQ; auto.
  - apply (HE u' HPE_PAUSED (or_flags F_SKIPBODY h)); auto.
  - by apply (HE u' HPE_CB_headers_complete h); auto.
  - by apply (HE u' HPE_CB_headers_complete h); auto.
Qed.

Lemma ok_headers_almost_done h u i c mk : errno h = HPE_OK -> (i < len)%nat ->
  case_ok data h u i c mk s_headers_almost_done (case_headers_almost_done settings c).
Proof.
  intros Hh Hi Hc Hm. unfold case_headers_almost_done.
  assert (no_marks mk) as Hn by (eapply marks_none; [|done]; by intros []).
  wp_step. wp_step; [leaf|]. do 2 wp_step. wp_step; [|wp_step; [wp_step; leaf|]].
  - wp_auto; leaf.
  - do 5 wp_step. apply wp_headers_complete; [done|intros u' h' Hh'|intros u' e' h' He' Hh'].
    + wp_step. split_and!; [split; cbn|cbn; lia..].
      * by destruct Hh' as [-> | ->].
      * destruct Hh' as [-> | ->]; core_tac.
      * by apply no_marks_ok.
    + split_and!; [lia|intros _; cbn [hp]|done]. destruct Hh' as [-> | ->]; core_tac.
Qed.

(** ** Bodies *)

Lemma wp_read_body st h u i c mk Q E :
  errno h = HPE_OK -> (i < len)%nat -> 0 < content_length h < ULLONG_MAX ->
  (forall i', (i <= i' < len)%nat ->
     let v := content_length h - Z.of_nat (S i' - i) in 0 <= v ->
     Q tt (mkMachine (set_content_length v h) u st i' c (marked i mk M_body))) ->
  wp (read_body data) (mkMachine h u st i c mk) Q E.
Proof.
  intros Hh Hi Hc HQ. unfold read_body. do 6 wp_step.
  { apply andb_true_iff. rewrite !negb_true_iff, !Z.eqb_neq. lia. }
  do 5 wp_step. set (t := Z.min (content_length h) (Z.of_nat (len - i))).
  assert (0 < t <= Z.of_nat (len - i) /\ t <= content_length h) as Ht by (subst t; lia).
  specialize (HQ (i + Z.to_nat t - 1)%nat ltac:(lia)). simpl in HQ.
  replace (Z.of_nat (S (i + Z.to_nat t - 1) - i)) with t in HQ by lia.
  apply HQ. lia.
Qed.

Lemma ok_body_identity h u i c mk : errno h = HPE_OK -> (i < len)%nat ->
  case_ok data h u i c mk s_body_identity (case_body_identity settings data).
Proof.
  intros Hh Hi Hc Hm. unfold case_body_identity. wp_step.
  pose proof (core_state _ _ _ Hc) as Hl. simpl in Hl.
  apply wp_read_body; [done|done|done|intros i' Hi' v Hv]. do 2 wp_step. simpl.
  assert (v < ULLONG_MAX) by (subst v; lia). wp_step.
  - wp_auto.
    1, 2: split_and!; [split; cbn; [done|core_tac|]|cbn; lia..];
      eapply (marks_ok_cleared M_body s_body_identity);
        [eapply (marks_ok_marked M_body); [exact Hm|done|done|exact (le_n i)]|done|by intros []|lia].
    split_and!; [lia|intros _; cbn [hp]; core_tac|done].
  - wp_step. apply Z.eqb_neq in Heqb.
    split; [split; cbn; [done|core_tac|]|cbn; lia].
    eapply marks_ok_marked; [exact Hm|done|done|lia].
Qed.

Lemma ok_body_identity_eof h u i c mk : errno h = HPE_OK -> (i < len)%nat ->
  case_ok data h u i c mk s_body_identity_eof (case_body_identity_eof data).
Proof.
  intros Hh Hi Hc Hm. unfold case_body_identity_eof. wp_auto.
  split; [split; cbn; [done|core_tac|]|cbn; lia].
  eapply marks_ok_marked; [exact Hm|done|done|lia].
Qed.

Lemma ok_chunk_data h u i c mk : errno h = HPE_OK -> (i < len)%nat ->
  case_ok data h u i c mk s_chunk_data (case_chunk_data data).
Proof.
  intros Hh Hi Hc Hm. unfold case_chunk_data, assert_chunked. do 4 wp_step; [assert_tac|]. wp_step.
  pose proof (core_state _ _ _ Hc) as Hl. simpl in Hl.
  apply wp_read_body; [done|done|apply Hl|intros i' Hi' v Hv]. do 2 wp_step. simpl.
  assert (v < ULLONG_MAX) by (subst v; lia).
  assert (marks_ok s_chunk_data i' (marked i mk M_body)) as Hm'.
  { eapply marks_ok_marked; [exact Hm|done|done|lia]. }
  wp_step; wp_step.
  - apply Z.eqb_eq in Heqb. split; [split; cbn; [done|core_tac|]|cbn; lia].
    eapply marks_ok_move; [exact Hm'|by intros []|lia].
  - apply Z.eqb_neq in Heqb. split; [split; cbn; [done|core_tac|done]|cbn; lia].
Qed.

(** ** The loop over the data *)

Lemma dispatch_ok st h u i c mk : errno h = HPE_OK -> (i < len)%nat ->
  case_ok data h u i c mk st (dispatch settings data st c).
Proof.
  intros Hh Hi. destruct st; simpl;
    first [ by apply ok_constant; try done; intros [] | by eauto using ok_dead,
      ok_start_req_or_res, ok_res_or_resp_H, ok_start_res, ok_res_first_http_major,
      ok_res_http_major, ok_res_first_http_minor, ok_res_http_minor, ok_res_first_status_code,
      ok_res_status_code, ok_res_status_start, ok_res_status, ok_start_req, ok_req_method,
      ok_req_spaces_before_url, ok_req_schema, ok_req_url, ok_req_http_start,
      ok_req_first_http_major, ok_req_http_major
    | by eauto using ok_req_first_http_minor, ok_req_http_minor, ok_req_line_almost_done,
      ok_header_field_start, ok_header_field, ok_header_value_start, ok_header_value_discard_ws,
      ok_header_value, ok_header_almost_done, ok_header_value_lws, ok_header_value_discard_lws,
      ok_headers_almost_done, ok_headers_done, ok_chunk_size_start, ok_chunk_size
    | by eauto using ok_chunk_parameters, ok_chunk_size_almost_done, ok_chunk_data,
      ok_chunk_data_almost_done, ok_chunk_data_done, ok_body_identity, ok_body_identity_eof,
      ok_message_done ].
Qed.

(** [reexecute] comes to an end, because every jump back lowers the rank of the state. *)
Lemma reexecute_ok fuel i0 s :
  inv 1 s -> (i0 <= p s < len)%nat -> (rank (p_state s) < fuel)%nat ->
  wp (reexecute settings data fuel) s (fun _ => post len i0)
    (fun j s' => j <> Reexecute /\ jump_post len s_dead i0 j s').
Proof.
  revert s. induction fuel as [|fuel IH]; intros [h u st i c mk] [Hh Hc Hm] Hi Hr; simpl in *; [lia|].
  pose proof (dispatch_ok st h u i c mk Hh ltac:(lia) Hc Hm) as Hd.
  unfold wp in *. simpl. destruct (dispatch settings data st c _) as [s' [[]|[]]]; simpl in *.
  - destruct Hd. split; [done|lia].
  - destruct Hd as (? & ? & ?). apply IH; [done|lia|lia].
  - done.
  - done.
  - done.
  - done.
Qed.

Lemma rank_fuel st : (rank st < reexecute_fuel)%nat.
Proof. unfold reexecute_fuel. destruct st; simpl; lia. Qed.

Lemma core_count st h : core 0 st h -> PARSING_HEADER st = true ->
  nread h + 1 <= HTTP_MAX_HEADER_SIZE -> core 1 st (set_nread (u32 (nread h + 1)) h).
Proof.
  intros [] Hp Hn. assert (u32 (nread h + 1) = nread h + 1) as Hu.
  { apply u32_small. unfold HTTP_MAX_HEADER_SIZE in *. lia. }
  split; simpl; rewrite ?Hu; try done; [|unfold HTTP_MAX_HEADER_SIZE in *; lia].
  destruct st; simpl in *; try done. destruct core_state as [-> ?]. auto.
Qed.

Lemma for_body_ok s :
  inv 0 s -> (p s < len)%nat ->
  wp (for_body settings data) s (fun _ => post len (p s))
    (fun j s' => j <> Reexecute /\ jump_post len s_dead (p s) j s').
Proof.
  destruct s as [h u st i c mk]. intros [Hh Hc Hm] Hi. cbn [hp p_state p marks] in *.
  unfold for_body. do 7 wp_step. destruct (PARSING_HEADER st) eqn:Hp.
  - assert (u32 (nread h + 1) = nread h + 1) as Hu.
    { apply u32_small. pose proof (core_nread _ _ _ Hc). unfold HTTP_MAX_HEADER_SIZE in *. lia. }
    wp_step; [split; [done|leaf]|]. apply reexecute_ok; [|cbn; lia|apply rank_fuel].
    split; cbn; [done| |done]. apply core_count; [done|done|lia].
  - wp_step. apply reexecute_ok; [|cbn; lia|apply rank_fuel]. split; cbn; [done| |done].
    eapply core_move; [done|]. pose proof (core_state _ _ _ Hc). by destruct st.
Qed.

(** After the loop every byte is consumed. *)
Lemma for_loop_ok fuel s :
  inv 0 s -> (p s <= len)%nat -> (len - p s < fuel)%nat ->
  wp (for_loop settings data fuel) s (fun _ s' => inv 0 s' /\ p s' = len)
    (fun j s' => j <> Reexecute /\ jump_post len s_dead 0 j s').
Proof.
  revert s. induction fuel as [|fuel IH]; intros s Hinv Hi Hf; [lia|]. simpl.
  apply wp_bind. change (wp (get ?f) s ?Q ?E) with (Q (f s) s). cbv beta.
  destruct (p s =? len)%nat eqn:E.
  { apply Nat.eqb_eq in E. by split. }
  apply Nat.eqb_neq in E. apply wp_bind.
  eapply wp_mono; [by apply for_body_ok; [|lia]| |].
  - intros [] [h u st i c mk] [[Hh Hc Hm] Hp]. cbn [hp p_state p marks] in *.
    do 3 wp_step. apply IH; cbn; [|lia|lia].
    split; cbn; [done|done|]. eapply marks_ok_move; [done|done|lia].
  - intros [] s'; simpl; naive_solver lia.
Qed.

(** ** http_parser_execute *)

(** The only mark a state allows. *)
Definition mark_owner (st : state) : mark_id :=
  match st with
  | s_header_field => M_header_field
  | s_header_value => M_header_value
  | s_res_status => M_status
  | s_body_identity | s_body_identity_eof | s_chunk_data | s_chunk_data_almost_done => M_body
  | _ => M_url
  end.

Lemma marks_owner st i mk k : marks_ok st i mk -> k <> mark_owner st -> mk k = None.
Proof.
  intros Hm Hk. destruct (mk k) as [j|] eqn:E; [|done].
  destruct (Hm _ _ E) as [Hs _]. by destruct st, k.
Qed.

Lemma marks_at_most_one h u st i c mk :
  marks_ok st i mk -> (marks_set (mkMachine h u st i c mk) <= 1)%nat.
Proof.
  intros Hm. unfold marks_set. cbn [marks].
  assert (forall k, k <> mark_owner st -> ~ is_Some (mk k)) as Hn.
  { intros k Hk [j Hj]. by rewrite (marks_owner _ _ _ _ Hm Hk) in Hj. }
  destruct (mark_owner st);
    repeat (rewrite filter_cons; case_decide; try (by exfalso; eapply Hn; [|eassumption]));
    rewrite filter_nil; simpl; lia.
Qed.

Definition finished (n : nat) (s : machine U) : Prop :=
  (n <= len)%nat /\ parser_wf (hp s) /\
  (errno (hp s) = HPE_OK -> n = len \/ upgrade (hp s) = true).

Definition finish (j : jump) (s : machine U) : Prop :=
  match j with Return n => finished n s | _ => False end.

(** Between two of the last callbacks. *)
Definition flushing (s : machine U) : Prop :=
  errno (hp s) = HPE_OK /\ core 0 (p_state s) (hp s) /\ p s = len.

Lemma wp_flush k s (Q : unit -> machine U -> Prop) :
  flushing s -> (forall s', flushing s' -> Q tt s') ->
  wp (CALLBACK_DATA_NOADVANCE settings data k) s Q finish.
Proof.
  destruct s as [h u st i c mk]. intros (Hh & Hc & Hi) HQ. cbn [hp p_state p] in *.
  apply wp_bind, wp_get. cbn [p]. eapply wp_data; [eassumption|done|..].
  - intros u' h' mk' Hh' _. apply HQ. unfold flushing. cbn.
    destruct Hh' as [-> | ->]; [done|]. split_and!; [done|by eapply core_frame|done].
  - intros u' e' He'. split_and!; [lia|intros _; by eapply core_frame|done].
Qed.

Lemma flush_marks_ok s :
  inv 0 s -> p s = len -> wp (flush_marks settings data) s (fun _ _ => False) finish.
Proof.
  destruct s as [h u st i c mk]. intros [Hh Hc Hm] Hp. cbn [hp p_state p marks] in *.
  unfold flush_marks. do 4 wp_step. { apply Nat.leb_le. by eapply marks_at_most_one. }
  assert (flushing (mkMachine h u st i c mk)) as Hf by done. revert Hf.
  generalize (mkMachine h u st i c mk) as s. intros s Hf.
  do 5 (apply wp_bind, wp_flush; [done|]; clear dependent s; intros s Hf).
  destruct s as [h' u' st' i' c' mk'], Hf as (Hh' & Hc' & Hi'). cbn [hp p_state p] in *.
  wp_step. split_and!; [lia|intros _; by eapply core_frame|auto].
Qed.

Lemma error_label_ok s : failed len s -> wp (error_label (U := U)) s (fun _ _ => False) finish.
Proof.
  destruct s as [h u st i c mk]. intros (He & Hp & Hi). cbn [hp p] in *.
  unfold error_label. do 6 wp_step. rewrite decide_False by done.
  split_and!; [done|by intros []|done].
Qed.

Lemma execute_body_ok s :
  inv 0 s -> p s = 0%nat -> wp (execute_body settings data) s (fun _ _ => False) finish.
Proof.
  intros Hs Hp.
  assert (wp (for_loop settings data (S len);; flush_marks settings data) s (fun _ _ => False)
            (fun j s' => finish j s' \/ (j = GotoError /\ failed len s'))) as Hw.
  { apply wp_bind. eapply wp_mono; [apply for_loop_ok; [done|lia|lia]| |].
    - intros [] s' [Hs' Hp']. eapply wp_mono; [by apply flush_marks_ok|done|auto].
    - intros [] s' [Hj Hf]; try done; auto. left. destruct Hf as (? & ? & ?). by split_and!; auto. }
  unfold execute_body, wp. unfold wp in Hw.
  destruct ((for_loop settings data (S len);; flush_marks settings data) s) as [s' [[]|j]]; [done|]. destruct Hw as [Hf|[-> Hf]].
  - by destruct j.
  - by apply error_label_ok.
Qed.

Lemma initial_inv h u :
  errno h = HPE_OK -> parser_wf h -> inv 0 (initial_machine h u).
Proof.
  intros Hh Hw. split; cbn; [done|by apply Hw; left|].
  intros k j. destruct (initial_mark (hp_state h)) as [k'|] eqn:Hk; [|by destruct k].
  destruct k', k; simpl; try done; intros [= <-]; (split; [|lia]);
    destruct (hp_state h); simpl in *; done || congruence.
Qed.

Lemma execute_eof_ok h u :
  errno h = HPE_OK -> parser_wf h ->
  wp (execute_eof settings) (initial_machine h u) (fun _ _ => False)
    (fun j s => match j with
                | Return n => parser_wf (hp s) /\ (n <= 1)%nat /\ (errno (hp s) = HPE_OK -> n = 0%nat)
                | _ => False
                end).
Proof.
  intros Hh Hw. unfold execute_eof, initial_machine. do 2 wp_step.
  assert (core 0 (hp_state h) h) as Hc by (apply Hw; auto).
  destruct (hp_state h) eqn:Hst; wp_auto.
  all: try (split_and!; [cbn; intros []; done|lia|done]).
  all: try (split_and!; [done|lia|done]).
  all: split_and!; [intros _; cbn [hp]|lia|done].
  all: try (rewrite Hst); by eapply core_frame.
Qed.

(** A call on a well-formed parser. *)
Lemma execute_ok h u :
  parser_wf h ->
  exists n h' u', http_parser_execute settings data h u = (Executed n, h', u') /\ parser_wf h' /\
    (n <= Nat.max 1 len)%nat /\ (data <> [] -> (n <= len)%nat) /\
    (errno h = HPE_OK -> errno h' = HPE_OK -> n = len \/ upgrade h' = true).
Proof.
  intros Hw. unfold http_parser_execute. case_decide as Hh.
  - case_decide as Hd.
    + pose proof (execute_eof_ok h u Hh Hw) as He. unfold wp in He.
      destruct (execute_eof settings _) as [s' [[]|[]]]; try done.
      destruct He as (? & ? & Hn). do 3 eexists. split_and!; [done|done|lia|done|].
      intros _ ?. left. subst data. simpl. auto.
    + pose proof (execute_body_ok _ (initial_inv h u Hh Hw) eq_refl) as He. unfold wp in He.
      destruct (execute_body settings data _) as [s' [[]|[]]]; try done.
      destruct He as (? & ? & ?). do 3 eexists. split_and!; [done|done|lia|done|auto].
  - do 3 eexists. split_and!; [done|done|lia|lia|done].
Qed.
End Loops.
