(* ===== verification/HttpProps.v ===== *)
(** * Sessions of the message parser, and where it depends on how its input is split

    A session is what a client does with one parser: a sequence of calls on the pieces of a
    stream, with resumptions of a paused parser.  The last theorem shows that the check
    of the characters of a header value depends on the cuts. *)

From S2P Require Import Prelude HttpTables HttpUrl HttpExecute HttpSafe HttpSafeLoops.

Open Scope Z_scope.

Lemma parser_pause_wf h paused h' :
  http_parser_pause h paused = Some h' -> parser_wf h -> parser_wf h'.
Proof.
  unfold http_parser_pause. case_decide as He; [|done]. intros [= <-] Hw _.
  specialize (Hw He). simpl. by eapply core_frame.
Qed.

(** Without callbacks, every callback is well-behaved. *)
Lemma no_callbacks_ok U : settings_ok (U := U) http_parser_settings_init.
Proof.
  split.
  - intros f Hf g ->. rewrite !elem_of_cons, elem_of_nil in Hf. simpl in Hf. naive_solver.
  - by intros [].
Qed.

(** C36.  From every well-formed parser (a fresh one, or one a previous call left), whatever the
    bytes: [http_parser_execute] returns; no assertion fails; the number of bytes it reports is
    within the data (1 for a failing end of file), and is all of it unless there is an error or an
    upgrade; a parser that has an error is left alone; and the parser is well-formed again: at
    most [HTTP_MAX_HEADER_SIZE] bytes were counted for the headers, the body length did not
    overflow, version and status have at most three digits. *)
Theorem http_parser_execute_safe {U} (settings : http_parser_settings U) data h u :
  settings_ok settings -> parser_wf h ->
  exists n h' u', http_parser_execute settings data h u = (Executed n, h', u') /\ parser_wf h' /\
    (n <= Nat.max 1 (length data))%nat /\ (data <> [] -> (n <= length data)%nat) /\
    (errno h = HPE_OK -> errno h' = HPE_OK -> n = length data \/ upgrade h' = true) /\
    (errno h <> HPE_OK -> n = 0%nat /\ h' = h /\ u' = u).
Proof.
  intros Hs Hw. destruct (execute_ok settings data Hs h u Hw) as (n & h' & u' & He & H).
  exists n, h', u'. destruct H as (? & ? & ? & ?). split_and!; try done.
  intros Hh. unfold http_parser_execute in He. rewrite decide_False in He by done. by simplify_eq.
Qed.

Lemma http_parser_execute_safe_witness :
  exists n h' u',
    http_parser_execute (U := unit) http_parser_settings_init (bs "GET / HTTP/1.1") 
      (http_parser_init HTTP_BOTH) tt = (Executed n, h', u') /\ n = 14%nat /\ parser_wf h'.
Proof.
  destruct (http_parser_execute_safe (U := unit) http_parser_settings_init (bs "GET / HTTP/1.1")
              (http_parser_init HTTP_BOTH) tt (no_callbacks_ok unit) (parser_init_wf HTTP_BOTH))
    as (n & h' & u' & He & Hw & _).
  exists n, h', u'. split; [exact He|]. split; [|exact Hw].
  vm_compute in He. by simplify_eq.
Defined.

Section Session.
Context {U : Type} (settings : http_parser_settings U).

Inductive input := Data (d : bytes) | Resume.

(** A call on some data, or the resumption of a parser that was paused. *)
Definition session_step (h : http_parser) (u : U) (x : input) : option (http_parser * U) :=
  match x with
  | Data d =>
      match http_parser_execute settings d h u with
      | (Executed _, h', u') => Some (h', u')
      | _ => None
      end
  | Resume =>
      if decide (errno h = HPE_PAUSED) then
        (fun h' => (h', u)) <$> http_parser_pause h false
      else Some (h, u)
  end.

Fixpoint session (h : http_parser) (u : U) (l : list input) : option (http_parser * U) :=
  match l with
  | [] => Some (h, u)
  | x :: l' =>
      match session_step h u x with
      | Some (h', u') => session h' u' l'
      | None => None
      end
  end.

(** No stream of bytes, however it is cut into calls and interleaved with pauses, makes a
    fresh parser fail an assertion or loop, and the parser it reaches keeps its invariant; once it
    has failed it stays as it is. *)
Theorem session_safe t u l :
  settings_ok settings ->
  exists h' u', session (http_parser_init t) u l = Some (h', u') /\ parser_wf h' /\
    (errno h' <> HPE_OK -> errno h' <> HPE_PAUSED -> forall l', session h' u' l' = Some (h', u')).
Proof.
  intros Hs. generalize (parser_init_wf t). generalize (http_parser_init t) as h. revert u.
  induction l as [|x l IH]; intros u h Hw; simpl.
  - exists h, u. split_and!; [done|done|]. intros He Hp. induction l' as [|y l' IH]; [done|].
    simpl. destruct y as [d|]; simpl.
    + unfold http_parser_execute. by rewrite decide_False.
    + by rewrite decide_False.
  - destruct x as [d|]; simpl.
    + destruct (execute_ok settings d Hs h u Hw) as (n & h' & u' & -> & Hw' & _).
      by apply IH.
    + case_decide as He; [|by apply IH].
      destruct (http_parser_pause h false) as [h'|] eqn:Ep; simpl.
      * apply IH. by eapply parser_pause_wf.
      * unfold http_parser_pause in Ep. rewrite decide_True in Ep by auto. done.
Qed.
End Session.

Lemma session_safe_witness :
  exists h' u',
    session (U := unit) http_parser_settings_init (http_parser_init HTTP_REQUEST) tt
      [Data (bs "GE"); Resume; Data (bs "X")] = Some (h', u') /\
    errno h' = HPE_INVALID_METHOD /\ parser_wf h'.
Proof.
  destruct (session_safe (U := unit) http_parser_settings_init HTTP_REQUEST tt
              [Data (bs "GE"); Resume; Data (bs "X")] (no_callbacks_ok unit))
    as (h' & u' & Hs & Hw & _).
  exists h', u'. split; [exact Hs|]. split; [|exact Hw].
  vm_compute in Hs. by simplify_eq.
Defined.

(** ** Where the result depends on the cuts *)

Definition crlf : bytes := [CR; LF].

(** Run the pieces from a fresh parser without callbacks: the error and the state. *)
Definition run_pieces (l : list bytes) : option (http_errno * state) :=
  (fun r => (errno (fst r), hp_state (fst r))) <$>
    session (U := unit) http_parser_settings_init (http_parser_init HTTP_BOTH) tt (Data <$> l).

(** The character check of header values looks at the first bytes of a value and at the
    first byte of every call only ([h_general] skips to the end of the line): the same bytes are
    a valid request in one call and an error in two. *)
Theorem header_check_depends_on_cut :
  let a := bs "GET / HTTP/1.1" ++ crlf ++ bs "A: bc" in
  let b := [1] ++ crlf ++ crlf in
  run_pieces [a ++ b] = Some (HPE_OK, s_start_req) /\
  run_pieces [a; b] = Some (HPE_INVALID_HEADER_TOKEN, s_header_value).
Proof. split; vm_compute; reflexivity. Qed.
