(* ===== verification/HttpRun.v ===== *)
(** * What one call of the message parser does with a well-formed text

    Equations for the loop over the data, one syntactic part at a time: a character, a URL, a
    header name, a header value, a number, a body.  The callbacks are arbitrary functions on the
    user data that never fail, of the shape [HttpParser.cpp] installs. *)

From S2P Require Import Prelude HttpTables HttpUrl HttpExecute HttpSafe.

Open Scope Z_scope.

(** One dispatch of [reexecute]. *)
Lemma wp_reexecute {U} (settings : http_parser_settings U) data fuel h u st i c mk Q E :
  wp (dispatch settings data st c) (mkMachine h u st i c mk) Q
    (fun j s => match j with
                | Reexecute => wp (reexecute settings data fuel) s Q E
                | _ => E j s
                end) ->
  wp (reexecute settings data (S fuel)) (mkMachine h u st i c mk) Q E.
Proof.
  unfold wp. simpl. by destruct (dispatch settings data st c _) as [s' [[]|[]]].
Qed.

Lemma u32_count n k : 0 <= n -> 0 <= k -> n + k <= HTTP_MAX_HEADER_SIZE -> u32 (n + k) = n + k.
Proof. intros. apply u32_small. unfold HTTP_MAX_HEADER_SIZE in *. lia. Qed.

(** Counting within the limit. *)
Lemma wp_count_within {U} h (u : U) st i c mk v Q E :
  0 <= nread h -> 0 <= v -> nread h + v <= HTTP_MAX_HEADER_SIZE ->
  Q tt (mkMachine (set_nread (nread h + v) h) u st i c mk) ->
  wp (COUNT_HEADER_SIZE v) (mkMachine h u st i c mk) Q E.
Proof.
  intros H0 Hv Hn HQ. rewrite <- (u32_count (nread h) v) in HQ by done.
  apply wp_count; intros Hc; [|done]. rewrite u32_count in Hc by done. lia.
Qed.

(** The byte of a header state is counted before the [switch]. *)
Definition counted (st : state) (h : http_parser) : http_parser :=
  if PARSING_HEADER st then set_nread (nread h + 1) h else h.

Lemma counted_nread st n h :
  PARSING_HEADER st = true -> counted st (set_nread n h) = set_nread (n + 1) h.
Proof. unfold counted. intros ->. by destruct h. Qed.

Definition count_ok (st : state) (h : http_parser) : Prop :=
  PARSING_HEADER st = true -> 0 <= nread h /\ nread h + 1 <= HTTP_MAX_HEADER_SIZE.

Section Cursor.
Context (data : bytes).
#[local] Notation len := (length data).

(** What the cursor hypothesis [drop i data = ...] gives. *)
Lemma cursor_nth i x rest : drop i data = x :: rest -> nth i data 0 = x /\ (i < len)%nat.
Proof.
  intros H. split.
  - rewrite <- (Nat.add_0_r i). rewrite nth_lookup, <- lookup_drop, H. done.
  - assert (length (drop i data) = S (length rest)) as Hl by by rewrite H.
    rewrite length_drop in Hl. lia.
Qed.

Lemma cursor_app i w rest : drop i data = w ++ rest -> drop (i + length w) data = rest.
Proof. intros H. by rewrite <- drop_drop, H, drop_app_length. Qed.

Lemma cursor_S i x rest : drop i data = x :: rest -> drop (S i) data = rest.
Proof. intros H. replace (S i) with (i + length [x])%nat by (simpl; lia). by apply cursor_app. Qed.

Lemma cursor_len i w rest : drop i data = w ++ rest -> w <> [] -> (i + length w <= len)%nat.
Proof.
  intros H Hw. assert (length (drop i data) = length (w ++ rest)) as Hl by by rewrite H.
  rewrite length_drop, length_app in Hl. destruct w; [done|]. simpl in *. lia.
Qed.

Lemma cursor_slice i w rest : drop i data = w ++ rest -> slice data i (length w) = w.
Proof. intros H. unfold slice. by rewrite H, take_app_length. Qed.

(** Scans from a cursor. *)
Lemma memchr_from_app x w rest i limit :
  Forall (fun y => y <> x) w -> (length w < limit)%nat ->
  memchr_from (w ++ x :: rest) x i limit = Some (i + length w)%nat.
Proof.
  revert i limit. induction w as [|y w IH]; intros i [|limit] Hw Hl; simpl in *; try lia.
  - rewrite Z.eqb_refl. f_equal. lia.
  - apply Forall_cons in Hw as [Hy Hw]. rewrite (proj2 (Z.eqb_neq _ _)) by done.
    rewrite IH by (done || lia). f_equal. lia.
Qed.
End Cursor.

Section Run.
Context {U : Type} (settings : http_parser_settings U) (data : bytes).
#[local] Notation len := (length data).
Context (Q : unit -> machine U -> Prop) (E : jump -> machine U -> Prop).
Implicit Types (h : http_parser) (u : U) (mk : mark_vars) (rest : bytes).

(** The loop from this point on ends as [Q] and [E] say. *)
Definition loops h u st i mk : Prop :=
  forall c fuel, (len - i < fuel)%nat ->
    wp (for_loop settings data fuel) (mkMachine h u st i c mk) Q E.

Lemma loops_end h u st mk :
  (forall c, Q tt (mkMachine h u st len c mk)) -> loops h u st len mk.
Proof.
  intros HQ c [|fuel] Hf; [lia|]. simpl. do 2 wp_step. rewrite Nat.eqb_refl. by wp_step.
Qed.

(** One round of the loop. *)
Lemma loops_step h u st i mk x rest :
  drop i data = x :: rest -> count_ok st h ->
  wp (reexecute settings data reexecute_fuel) (mkMachine (counted st h) u st i x mk)
    (fun _ s => (i <= p s < len)%nat /\ loops (hp s) (user s) (p_state s) (S (p s)) (marks s)) E ->
  loops h u st i mk.
Proof.
  intros Hc Hn Hw c [|fuel] Hf; [lia|]. destruct (cursor_nth _ _ _ _ Hc) as [Hx Hi].
  simpl. do 2 wp_step. rewrite (proj2 (Nat.eqb_neq i len)) by lia.
  wp_step. unfold for_body. do 7 wp_step. rewrite Hx.
  assert (wp (reexecute settings data reexecute_fuel) (mkMachine (counted st h) u st i x mk)
            (fun _ s' => wp (i ← get p; set_p (i + 1);; for_loop settings data fuel) s' Q E) E)
    as Hw'.
  { eapply wp_mono; [exact Hw| |auto]. intros [] [h' u' st' i' c' mk'] [Hi' Hl].
    cbn [hp user p_state p marks] in *. do 4 wp_step.
    replace (i' + 1)%nat with (S i') by lia. apply Hl. lia. }
  unfold counted, count_ok in *. destruct (PARSING_HEADER st).
  - destruct Hn as [H0 H1]; [done|]. rewrite <- (u32_count (nread h) 1) in Hw' by lia.
    wp_step; [rewrite u32_count in * by lia; lia|]. exact Hw'.
  - wp_step. exact Hw'.
Qed.

(** A [switch] case that ends normally at the same byte. *)
Lemma loops_char h u st i mk x rest h' u' st' mk' :
  drop i data = x :: rest -> count_ok st h ->
  dispatch settings data st x (mkMachine (counted st h) u st i x mk) =
    (mkMachine h' u' st' i x mk', inl tt) ->
  loops h' u' st' (S i) mk' -> loops h u st i mk.
Proof.
  intros Hc Hn Hd Hl. eapply loops_step; [done|done|]. apply wp_reexecute.
  destruct (cursor_nth _ _ _ _ Hc). unfold wp. rewrite Hd. cbn. split; [lia|done].
Qed.

(** A byte whose [switch] ends normally, perhaps after jumps to [reexecute]. *)
Lemma loops_run h u st i mk x rest h' u' st' mk' :
  drop i data = x :: rest -> count_ok st h ->
  reexecute settings data reexecute_fuel (mkMachine (counted st h) u st i x mk) =
    (mkMachine h' u' st' i x mk', inl tt) ->
  loops h' u' st' (S i) mk' -> loops h u st i mk.
Proof.
  intros Hc Hn Hd Hl. eapply loops_step; [done|done|].
  destruct (cursor_nth _ _ _ _ Hc). unfold wp. rewrite Hd. cbn. split; [lia|done].
Qed.

(** ** URLs *)

(** The states reached by [parse_url_char], as long as it accepts. *)
Fixpoint url_run (st : state) (w : bytes) : option state :=
  match w with
  | [] => Some st
  | c :: w' =>
      let st' := parse_url_char st c in
      if decide (st' = s_dead) then None else url_run st' w'
  end.

Lemma parse_url_char_mark st c :
  parse_url_char st c <> s_dead -> mark_state M_url (parse_url_char st c) = true.
Proof. unfold parse_url_char. repeat case_match; done. Qed.

Lemma parse_url_char_not_end st c :
  parse_url_char st c <> s_dead -> c <> 32 /\ c <> CR /\ c <> LF.
Proof.
  unfold parse_url_char. destruct (c =? 32) eqn:E1; [done|]. destruct (c =? CR) eqn:E2; [done|].
  destruct (c =? LF) eqn:E3; [done|]. breflect. auto.
Qed.

Lemma loops_url w h u st i mk rest st' :
  mark_state M_url st = true -> url_run st w = Some st' ->
  drop i data = w ++ rest -> 0 <= nread h ->
  nread h + Z.of_nat (length w) <= HTTP_MAX_HEADER_SIZE ->
  loops (set_nread (nread h + Z.of_nat (length w)) h) u st' (i + length w) mk ->
  loops h u st i mk.
Proof.
  revert h st i. induction w as [|c w IH]; intros h st i Hst Hr Hc H0 Hn Hl; simpl in *.
  - simplify_eq. rewrite Z.add_0_r, Nat.add_0_r in Hl. by destruct h.
  - case_decide as Hd; [done|].
    destruct (parse_url_char_not_end _ _ Hd) as (N1 & N2 & N3).
    eapply (loops_char _ _ _ _ _ _ _ (set_nread (nread h + 1) h) u (parse_url_char st c) mk);
      [done|by split; lia| |].
    + unfold counted. destruct st; try done; simpl; unfold case_req_schema, case_req_url;
        rewrite ?(proj2 (Z.eqb_neq c _)) by done; simpl; unfold url_char, mbind, M_bind; simpl;
        by rewrite decide_False.
    + eapply (IH _ (parse_url_char st c)).
      * by apply parse_url_char_mark.
      * done.
      * by eapply cursor_S.
      * simpl. lia.
      * simpl. lia.
      * replace (S i + length w)%nat with (i + S (length w))%nat by lia. simpl.
        replace (nread h + 1 + Z.of_nat (length w)) with (nread h + Z.of_nat (S (length w))) by lia.
        exact Hl.
Qed.
End Run.

(** ** Callbacks that never fail *)

Section Pure.
Context {U : Type} (fu ff fv fb : bytes -> U -> U) (fc : http_parser -> U -> U).

Definition pure_cb (f : bytes -> U -> U) : http_data_cb U := fun h d u => (0, h, f d u).

(** The settings of [HttpParser.cpp]: URL, header names and values, body, and the end of the
    message; the other callbacks are null. *)
Definition pure_settings : http_parser_settings U :=
  mkSettings None (Some (pure_cb fu)) None (Some (pure_cb ff)) (Some (pure_cb fv)) None
    (Some (pure_cb fb)) (Some (fun h u => (0, h, fc h u))) None None.

Lemma pure_settings_ok : settings_ok pure_settings.
Proof.
  split.
  - intros f Hf g ->. rewrite !elem_of_cons, elem_of_nil in Hf. simpl in Hf.
    assert (g = fun h u => (0, h, fc h u)) as -> by naive_solver. by left.
  - intros [] f d; simpl; intros; simplify_eq; by left.
Qed.

Context (data : bytes).
#[local] Notation len := (length data).
Implicit Types (h : http_parser) (u : U) (mk : mark_vars) (rest : bytes).

Lemma wp_pure_cb (f : U -> U) e er h u st i c mk Q E :
  errno h = HPE_OK -> Q tt (mkMachine (set_hp_state st h) (f u) st i c mk) ->
  wp (run_callback (fun h u => (0, h, f u)) e er) (mkMachine h u st i c mk) Q E.
Proof.
  intros Hh HQ. unfold wp, run_callback, mbind, M_bind. simpl. rewrite Hh. done.
Qed.

(** The data callback of the mark [k]. *)
Definition pure_data (k : mark_id) : bytes -> U -> U :=
  match k with
  | M_url => fu | M_header_field => ff | M_header_value => fv | M_body => fb
  | M_status => fun _ u => u
  end.

Lemma wp_pure_data k upto er h u st i c mk j Q E :
  errno h = HPE_OK -> mk k = Some j -> k <> M_status ->
  Q tt (mkMachine (set_hp_state st h) (pure_data k (slice data j (upto - j)) u) st i c
          (put_mark mk k None)) ->
  wp (CALLBACK_DATA_ pure_settings data k upto er) (mkMachine h u st i c mk) Q E.
Proof.
  intros Hh Hj Hk HQ. unfold CALLBACK_DATA_. do 3 wp_step.
  wp_step; [by apply bool_decide_eq_true|]. do 2 wp_step. rewrite Hj. wp_step.
  destruct k; try done; simpl; by apply wp_pure_cb, wp_set_mark.
Qed.

(** ** Header names *)

(** One character of a name. *)
Definition field_run h (x : Z) : option http_parser :=
  match field_char x (TOKEN x) (mkMachine h tt s_dead 0 0 no_mark) with
  | (s, inl _) => Some (hp s)
  | _ => None
  end.

Fixpoint name_run h (w : bytes) : option http_parser :=
  match w with
  | [] => Some h
  | x :: w' => if TOKEN x =? 0 then None else field_run h x ≫= fun h' => name_run h' w'
  end.

(** The first character of a name. *)
Definition name_start h (x : Z) : http_parser :=
  set_header_state (header_start_state (TOKEN x)) (set_index 0 h).

(** What matching a name leaves alone. *)
Definition same_frame h h' : Prop :=
  h' = set_flags (flags h') (set_header_state (header_state h') (set_index (index h') h)).

Lemma same_frame_refl h : same_frame h h.
Proof. by destruct h. Qed.

Lemma same_frame_trans h1 h2 h3 : same_frame h1 h2 -> same_frame h2 h3 -> same_frame h1 h3.
Proof.
  destruct h1, h2, h3. unfold same_frame. simpl. intros [=] [=]. simplify_eq. reflexivity.
Qed.

Lemma field_char_run h h' x u st i c mk :
  field_run h x = Some h' ->
  field_char x (TOKEN x) (mkMachine h u st i c mk) = (mkMachine h' u st i c mk, inl tt) /\
  same_frame h h'.
Proof.
  destruct h as [ty fl hst hs ix le nr cl ma mi sc me er up].
  unfold field_run, field_char, match_header, field_content_length, fail_with, modify, get, leave,
    assert_, mret, M_ret, mbind, M_bind.
  destruct hs; simpl; repeat case_match; intros; simplify_eq/=; unfold flag in *; simpl in *;
    repeat case_match; try congruence; by split.
Qed.

Lemma field_run_nread n h x : field_run (set_nread n h) x = set_nread n <$> field_run h x.
Proof.
  destruct h as [ty fl hst hs ix le nr cl ma mi sc me er up].
  unfold field_run, field_char, match_header, field_content_length, fail_with, modify, get, leave,
    assert_, mret, M_ret, mbind, M_bind.
  destruct hs; simpl; repeat case_match; simplify_eq/=; unfold flag in *; simpl in *;
    repeat case_match; simplify_eq/=; try congruence; done.
Qed.

Lemma name_run_nread n h w : name_run (set_nread n h) w = set_nread n <$> name_run h w.
Proof.
  revert h. induction w as [|x w IH]; intros h; simpl; [done|]. destruct (_ =? 0); [done|].
  rewrite field_run_nread. destruct (field_run h x); simpl; [apply IH|done].
Qed.

Lemma field_loop_run w h h' u st i c mk rest fuel :
  name_run h w = Some h' -> drop i data = w ++ rest ->
  match rest with x :: _ => TOKEN x = 0 | [] => True end -> (len - i < fuel)%nat -> (i <= len)%nat ->
  same_frame h h' /\ exists c', (match rest with x :: _ => c' = x | [] => True end) /\
    field_loop data fuel (mkMachine h u st i c mk) =
      (mkMachine h' u st (i + length w) c' mk, inl tt).
Proof.
  revert h i c fuel. induction w as [|x w IH]; intros h i c [|fuel] Hr Hc Ht Hf Hi; simpl in *;
    try lia.
  - injection Hr as <-. split; [apply same_frame_refl|]. rewrite Nat.add_0_r. unfold mbind, M_bind. simpl.
    destruct rest as [|x rest].
    + exists c. assert (i = len) as ->.
      { assert (length (drop i data) = 0%nat) as Hl by by rewrite Hc. rewrite length_drop in Hl. lia. }
      by rewrite Nat.eqb_refl.
    + destruct (cursor_nth _ _ _ _ Hc) as [-> Hlt]. rewrite (proj2 (Nat.eqb_neq i len)) by lia.
      exists x. split; [done|]. simpl. by rewrite Ht.
  - destruct (cursor_nth _ _ _ _ Hc) as [Hx Hlt]. apply cursor_S in Hc.
    destruct (TOKEN x =? 0) eqn:Ex; [done|].
    destruct (field_run h x) as [h1|] eqn:E1; [|done]. simpl in Hr.
    destruct (field_char_run h h1 x u st i x mk E1) as [He Hs].
    destruct (IH h1 (S i) x fuel Hr Hc Ht ltac:(lia) ltac:(lia)) as [Hs' (c' & Hc' & Hl)].
    split; [by eapply same_frame_trans|]. exists c'. split; [done|].
    unfold mbind, M_bind in *. simpl. rewrite (proj2 (Nat.eqb_neq i len)) by lia. rewrite Hx.
    simpl. rewrite Ex, He. simpl. replace (i + 1)%nat with (S i) by lia. rewrite Hl.
    by replace (S i + length w)%nat with (i + S (length w))%nat by lia.
Qed.

(** At the start of a header line: after a line that was not a header, or after the LF of one. *)
Definition line_start (st : state) : Prop := st = s_header_field_start \/ st = s_header_value_lws.
Definition line_begin (st : state) h : http_parser :=
  if decide (st = s_header_value_lws) then finish_header h else h.

Context (Q : unit -> machine U -> Prop) (E : jump -> machine U -> Prop).
#[local] Notation loops := (loops pure_settings data Q E).

Lemma loops_line_start st h u i mk x rest :
  line_start st -> drop i data = x :: rest -> x <> 32 -> x <> 9 ->
  0 <= nread h -> nread h + 1 <= HTTP_MAX_HEADER_SIZE ->
  (forall f, wp (reexecute pure_settings data (S (S (S f))))
     (mkMachine (line_begin st (set_nread (nread h + 1) h)) u s_header_field_start i x mk)
     (fun _ s => (i <= p s < len)%nat /\ loops (hp s) (user s) (p_state s) (S (p s)) (marks s)) E) ->
  loops h u st i mk.
Proof.
  intros Hst Hc N1 N2 H0 Hn Hw. eapply loops_step; [exact Hc|by intros _|].
  destruct Hst as [-> | ->]; unfold line_begin in Hw; simpl in Hw.
  - exact (Hw 1%nat).
  - unfold reexecute_fuel. apply wp_reexecute. simpl dispatch. unfold case_header_value_lws.
    rewrite (proj2 (Z.eqb_neq x 32)), (proj2 (Z.eqb_neq x 9)) by done. simpl.
    do 5 wp_step. apply (Hw 0%nat).
Qed.

(** A header name and its colon. *)
Lemma loops_name st x w h h' u i rest :
  line_start st -> drop i data = x :: w ++ chr ":" :: rest ->
  TOKEN x <> 0 -> errno h = HPE_OK -> 0 <= nread h ->
  nread h + Z.of_nat (length w) + 2 <= HTTP_MAX_HEADER_SIZE ->
  name_run (name_start (line_begin st h) x) w = Some h' ->
  loops (set_hp_state s_header_value_discard_ws
           (set_nread (nread h + Z.of_nat (length w) + 2) h'))
    (ff (x :: w) u) s_header_value_discard_ws (i + length w + 2) no_mark ->
  loops h u st i no_mark.
Proof.
  intros Hst Hc Hx Hh H0 Hn Hr Hl.
  assert (x <> 32 /\ x <> 9 /\ x <> CR /\ x <> LF) as (N1 & N2 & N3 & N4).
  { by split_and!; intros ->. }
  eapply loops_line_start; [done|exact Hc|done|done|done|lia|]. intros f.
  destruct (cursor_nth _ _ _ _ Hc) as [_ Hi].
  set (h1 := line_begin st (set_nread (nread h + 1) h)).
  apply wp_reexecute. simpl dispatch. unfold case_header_field_start.
  rewrite (proj2 (Z.eqb_neq x CR)), (proj2 (Z.eqb_neq x LF)), (proj2 (Z.eqb_neq _ 0)) by done.
  do 7 wp_step. simpl. split; [lia|]. clear f.
  set (h2 := set_header_state (header_start_state (TOKEN x)) (set_index 0 h1)).
  set (n := nread h + 1). pose proof Hc as Hc0. apply cursor_S in Hc.
  assert (h2 = set_nread n (name_start (line_begin st h) x)) as Eh2.
  { unfold h2, h1, line_begin. by case_decide. }
  assert (errno (name_start (line_begin st h) x) = HPE_OK) as Hg.
  { unfold line_begin. by case_decide. }
  clearbody h2. clear h1. set (g := name_start (line_begin st h) x) in *. clearbody g.
  assert (exists y rest', w ++ chr ":" :: rest = y :: rest') as (y & rest' & Hy).
  { destruct w; simpl; eauto. }
  eapply loops_step; [rewrite Hc; exact Hy|intros _; rewrite Eh2; simpl; lia|].
  apply wp_reexecute. simpl dispatch. unfold case_header_field. do 3 wp_step.
  assert (counted s_header_field h2 = set_nread (n + 1) g) as Ec.
  { rewrite Eh2. by apply counted_nread. }
  assert (name_run (set_nread (n + 1) g) w = Some (set_nread (n + 1) h')) as Hr2.
  { by rewrite name_run_nread, Hr. }
  rewrite Ec. clear Ec.
  destruct (field_loop_run w _ _ u s_header_field (S i) y (marked i no_mark M_header_field)
              (chr ":" :: rest) (S (len - S i)) Hr2 Hc) as [Hsf (c' & -> & Hfl)];
    [done|lia|lia|].
  unfold wp at 1. rewrite Hfl.
  pose proof (cursor_app _ _ _ _ Hc) as Hcol. destruct (cursor_nth _ _ _ _ Hcol) as [_ Hlt].
  do 3 wp_step. replace (S i + length w - S i)%nat with (length w) by lia. simpl nread.
  apply wp_count_within; [simpl; lia..|]. simpl nread.
  replace (n + 1 + Z.of_nat (length w)) with (nread h + Z.of_nat (length w) + 2) by lia.
  rewrite (proj2 (Nat.eqb_neq _ len)) by lia.
  do 2 wp_step. rewrite Z.eqb_refl. do 2 wp_step. apply wp_bind, wp_get. cbn [p].
  assert (errno h' = HPE_OK) as Hh'.
  { unfold same_frame in Hsf. assert (errno (set_nread (n + 1) h') = HPE_OK) as Hx'.
    { rewrite Hsf. exact Hg. }
    exact Hx'. }
  apply (wp_pure_data M_header_field _ _ _ _ _ _ _ _ i); [done|done|done|].
  cbn [hp user p_state p marks pure_data]. split; [lia|].
  replace (S (S i + length w)) with (i + length w + 2)%nat by lia.
  replace (slice data i (S i + length w - i)) with (x :: w); [exact Hl|].
  symmetry. replace (S i + length w - i)%nat with (length (x :: w)) by (simpl; lia).
  apply (cursor_slice data i (x :: w) (chr ":" :: rest)). exact Hc0.
Qed.

(** ** Header values *)

(** A byte of a value: printable, tab or above, and no line end. *)
Definition value_byte (x : Z) : Prop := IS_HEADER_CHAR x = true /\ x <> CR /\ x <> LF.

(** The first byte of a value. *)
Definition value_start h (x : Z) : option http_parser :=
  match case_header_value_start x (mkMachine h tt s_header_value_discard_ws 0 0 no_mark) with
  | (s, inl _) => Some (hp s)
  | _ => None
  end.

(** One further byte, as long as the matching has not given up, and the rest of the value. *)
Definition value_step (hs : header_states) h (x : Z) : option (header_states * http_parser) :=
  match value_char [] hs x (mkMachine h tt s_header_value 0 0 no_mark) with
  | (s, inl hs') => Some (hs', hp s)
  | _ => None
  end.

Fixpoint value_run (hs : header_states) h (w : bytes) : option (header_states * http_parser) :=
  if decide (hs = h_general) then Some (hs, h)
  else
    match w with
    | [] => Some (hs, h)
    | x :: w' => value_step hs h x ≫= fun r => value_run (fst r) (snd r) w'
    end.

(** What a value leaves alone. *)
Definition same_value_frame h h' : Prop :=
  h' = set_content_length (content_length h') (set_flags (flags h')
         (set_header_state (header_state h') (set_index (index h') h))).

Lemma same_value_frame_refl h : same_value_frame h h.
Proof. by destruct h. Qed.

Lemma same_value_frame_trans h1 h2 h3 :
  same_value_frame h1 h2 -> same_value_frame h2 h3 -> same_value_frame h1 h3.
Proof.
  destruct h1, h2, h3. unfold same_value_frame. simpl. intros [=] [=]. simplify_eq. reflexivity.
Qed.

Ltac run_cases :=
  unfold fail_with, modify, get, leave, assert_, set_p, set_mark, UPDATE_STATE, mret, M_ret,
    mbind, M_bind;
  simpl; repeat case_match; intros; simplify_eq/=; unfold flag in *; simpl in *;
  repeat case_match; try congruence.

Lemma value_start_frame h h' x : value_start h x = Some h' -> same_value_frame h h'.
Proof.
  destruct h as [ty fl hst hs ix le nr cl ma mi sc me er up].
  unfold value_start, case_header_value_start, MARK, same_value_frame. destruct hs; run_cases; done.
Qed.

Lemma value_start_run h h' x u i c mk :
  value_start h x = Some h' ->
  case_header_value_start x (mkMachine h u s_header_value_discard_ws i c mk) =
    (mkMachine h' u s_header_value i c (marked i mk M_header_value), inl tt).
Proof.
  unfold value_start, case_header_value_start, MARK, marked.
  unfold fail_with, modify, get, leave, set_mark, UPDATE_STATE, mret, M_ret, mbind, M_bind. simpl.
  destruct (header_value_mark mk); simpl; destruct (header_state h); simpl;
    try destruct (negb (IS_NUM x)); simpl; intros; simplify_eq/=; reflexivity.
Qed.

Lemma value_char_run hs hs' h h' x u i c mk :
  hs <> h_general -> value_step hs h x = Some (hs', h') ->
  value_char data hs x (mkMachine h u s_header_value i c mk) =
    (mkMachine h' u s_header_value i c mk, inl hs') /\
  same_value_frame h h'.
Proof.
  intros Hg. destruct h as [ty fl hst hs0 ix le nr cl ma mi sc me er up].
  unfold value_step, value_char, value_content_length, match_value.
  destruct hs; try done; run_cases; by split.
Qed.

Lemma memchr_from_skip x w l i limit :
  Forall (fun y => y <> x) w -> (length w <= limit)%nat ->
  memchr_from (w ++ l) x i limit = memchr_from l x (i + length w) (limit - length w).
Proof.
  revert i limit. induction w as [|y w IH]; intros i limit Hw Hl; simpl in *.
  { by rewrite Nat.add_0_r, Nat.sub_0_r. }
  destruct limit as [|limit]; [lia|]. apply Forall_cons in Hw as [Hy Hw].
  rewrite (proj2 (Z.eqb_neq _ _)) by done. rewrite IH by (done || lia).
  by replace (S i + length w)%nat with (i + S (length w))%nat by lia.
Qed.

Lemma memchr_from_ge x l i limit r : memchr_from l x i limit = Some r -> (i <= r)%nat.
Proof.
  revert i limit. induction l as [|y l IH]; intros i [|limit]; simpl; try done.
  case_if; [by intros [= <-]|]. intros ?%IH. lia.
Qed.

(** The scan of [h_general] stops before the CR of the line. *)
Lemma skip_value_line w i rest :
  drop i data = w ++ CR :: rest -> Forall value_byte w ->
  Z.of_nat (length w) < HTTP_MAX_HEADER_SIZE -> skip_value data i = (i + length w - 1)%nat.
Proof.
  intros Hc Hw Hn. unfold skip_value, memchr. rewrite Hc.
  assert ((i + length w < len)%nat) as Hlt by by eapply cursor_nth, cursor_app.
  assert (length w < Nat.min (len - i) (Z.to_nat HTTP_MAX_HEADER_SIZE))%nat as Hlim by lia.
  assert (Forall (fun y => y <> CR) w /\ Forall (fun y => y <> LF) w) as [Hcr Hlf].
  { split; eapply Forall_impl; try exact Hw; by intros x (? & ? & ?). }
  rewrite memchr_from_app by done.
  replace (w ++ CR :: rest) with ((w ++ [CR]) ++ rest) by by rewrite <- app_assoc.
  rewrite memchr_from_skip.
  - destruct (memchr_from rest LF _ _) as [l|] eqn:El; [|lia].
    apply memchr_from_ge in El. rewrite length_app in El. simpl in El.
    by rewrite (proj2 (Nat.leb_gt l _)) by lia.
  - apply Forall_app. split; [done|]. by repeat constructor.
  - rewrite length_app. simpl. lia.
Qed.

Lemma value_run_general h w hs' h' :
  value_run h_general h w = Some (hs', h') -> hs' = h_general /\ h' = h.
Proof. destruct w; simpl; by intros [= <- <-]. Qed.

(** The machine at the CR of a value that began at [j]. *)
Definition value_done (hs : header_states) h u j i mk : machine U :=
  mkMachine (set_hp_state s_header_almost_done (set_header_state hs h))
    (fv (slice data j (i - j)) u) s_header_almost_done i CR (put_mark mk M_header_value None).

Lemma value_loop_cr start hs h u i c mk rest fuel j E' :
  drop i data = CR :: rest -> (len - i < fuel)%nat -> errno h = HPE_OK ->
  mk M_header_value = Some j ->
  wp (value_loop pure_settings data fuel start hs) (mkMachine h u s_header_value i c mk)
    (fun hs' s => hs' = hs /\ s = value_done hs h u j i mk) E'.
Proof.
  intros Hc Hf Hh Hj. destruct fuel as [|fuel]; [lia|]. destruct (cursor_nth _ _ _ _ Hc) as [Hx Hi].
  simpl. do 2 wp_step. rewrite (proj2 (Nat.eqb_neq i len)) by lia. do 2 wp_step.
  rewrite Hx, Z.eqb_refl. do 5 wp_step. apply wp_bind, wp_get. cbn [p].
  by apply (wp_pure_data M_header_value _ _ _ _ _ _ _ _ j).
Qed.

Lemma value_loop_run w hs hs' h h' u i c mk rest fuel start j E' :
  drop i data = w ++ CR :: rest -> Forall value_byte w ->
  Z.of_nat (length w) < HTTP_MAX_HEADER_SIZE -> value_run hs h w = Some (hs', h') ->
  (len - i < fuel)%nat -> errno h = HPE_OK -> mk M_header_value = Some j ->
  wp (value_loop pure_settings data fuel start hs) (mkMachine h u s_header_value i c mk)
    (fun hs2 s => hs2 = hs' /\ s = value_done hs' h' u j (i + length w) mk) E' /\
  same_value_frame h h'.
Proof.
  revert hs h i c fuel. induction w as [|x w IH]; intros hs h i c fuel Hc Hw Hn Hr Hf Hh Hj.
  - assert (hs' = hs /\ h' = h) as [-> ->].
    { simpl in Hr. case_decide; by simplify_eq. }
    split; [|apply same_value_frame_refl]. rewrite Nat.add_0_r. by eapply value_loop_cr.
  - pose proof Hc as Hc0. destruct (cursor_nth _ _ _ _ Hc) as [Hx Hi]. apply cursor_S in Hc.
    apply Forall_cons in Hw as Hw'. destruct Hw' as [(Hhc & Hcr & Hlf) Hw'].
    destruct fuel as [|fuel]; [lia|]. simpl in Hn.
    assert (forall Q', wp (value_char data hs x) (mkMachine h u s_header_value i x mk)
              (fun hs2 s => wp (i ← get p; set_p (i + 1);; value_loop pure_settings data fuel start hs2)
                              s Q' E') E' ->
            wp (value_loop pure_settings data (S fuel) start hs) (mkMachine h u s_header_value i c mk)
              Q' E') as Hstep.
    { intros Q' HQ. simpl. do 2 wp_step. rewrite (proj2 (Nat.eqb_neq i len)) by lia. do 2 wp_step.
      rewrite Hx, (proj2 (Z.eqb_neq x CR)), (proj2 (Z.eqb_neq x LF)) by done. do 2 wp_step.
      rewrite Hhc, andb_false_r. by wp_step. }
    destruct (decide (hs = h_general)) as [->|Hg].
    + apply value_run_general in Hr as [-> ->]. split; [|apply same_value_frame_refl].
      apply Hstep. simpl. do 4 wp_step. do 4 wp_step.
      rewrite (skip_value_line (x :: w) i rest Hc0) by (done || simpl; lia).
      replace (i + length (x :: w) - 1 + 1)%nat with (i + length (x :: w))%nat by (simpl; lia).
      eapply value_loop_cr; [exact (cursor_app _ _ (x :: w) _ Hc0)|lia|done|done].
    + simpl in Hr. rewrite decide_False in Hr by done.
      destruct (value_step hs h x) as [[hs1 h1]|] eqn:E1; [|done]. simpl in Hr.
      destruct (value_char_run hs hs1 h h1 x u i x mk Hg E1) as [He Hs].
      assert (errno h1 = HPE_OK) as Hh1 by by rewrite Hs.
      destruct (IH hs1 h1 (S i) x fuel Hc Hw' ltac:(lia) Hr ltac:(lia) Hh1 Hj) as [Hl Hs'].
      split; [|by eapply same_value_frame_trans].
      apply Hstep. unfold wp at 1. rewrite He. do 4 wp_step.
      replace (i + 1)%nat with (S i) by lia.
      replace (i + length (x :: w))%nat with (S i + length w)%nat by (simpl; lia). exact Hl.
Qed.

Lemma value_start_nread n h x : value_start (set_nread n h) x = set_nread n <$> value_start h x.
Proof.
  destruct h as [ty fl hst hs ix le nr cl ma mi sc me er up].
  unfold value_start, case_header_value_start, MARK. destruct hs; run_cases; done.
Qed.

Lemma value_step_nread n hs h x :
  value_step hs (set_nread n h) x = (fun r => (fst r, set_nread n (snd r))) <$> value_step hs h x.
Proof.
  destruct h as [ty fl hst hs0 ix le nr cl ma mi sc me er up].
  unfold value_step, value_char, value_content_length, match_value.
  destruct hs; run_cases; done.
Qed.

Lemma value_run_nread n hs h w :
  value_run hs (set_nread n h) w = (fun r => (fst r, set_nread n (snd r))) <$> value_run hs h w.
Proof.
  revert hs h. induction w as [|x w IH]; intros hs h; simpl; case_decide; try done.
  rewrite value_step_nread. destruct (value_step hs h x) as [[hs1 h1]|]; simpl; [apply IH|done].
Qed.

(** The rest of a value that is marked from [j] on, and its CR LF. *)
Lemma loops_value_rest w h h2 hs' u i j mk rest :
  drop i data = w ++ CR :: LF :: rest -> Forall value_byte w ->
  errno h = HPE_OK -> 0 <= nread h -> nread h + Z.of_nat (length w) + 2 <= HTTP_MAX_HEADER_SIZE ->
  mk M_header_value = Some j -> value_run (header_state h) h w = Some (hs', h2) ->
  loops (set_nread (nread h + Z.of_nat (length w) + 2)
           (set_hp_state s_header_almost_done (set_header_state hs' h2)))
    (fv (slice data j (i + length w - j)) u) s_header_value_lws (i + length w + 2)
    (put_mark mk M_header_value None) ->
  loops h u s_header_value i mk.
Proof.
  intros Hc Hw Hh H0 Hn Hj Hr Hl. unfold HTTP_MAX_HEADER_SIZE in *. set (n := nread h) in *.
  assert (exists y rest', w ++ CR :: LF :: rest = y :: rest') as (y & rest' & Hy).
  { destruct w; simpl; eauto. }
  eapply loops_step; [rewrite Hc; exact Hy|intros _; unfold HTTP_MAX_HEADER_SIZE; simpl; lia|].
  apply wp_reexecute. simpl dispatch. unfold case_header_value. do 5 wp_step.
  change (counted s_header_value h) with (set_nread (n + 1) h).
  assert (value_run (header_state h) (set_nread (n + 1) h) w = Some (hs', set_nread (n + 1) h2)) as Hr2.
  { by rewrite value_run_nread, Hr. }
  destruct (value_loop_run w _ _ _ _ u i y mk (LF :: rest) (S (len - i)) i j
              (fun j s => match j with
                | Reexecute => wp (reexecute pure_settings data 3) s
                    (fun _ s0 => (i <= p s0 < len)%nat /\
                       loops (hp s0) (user s0) (p_state s0) (S (p s0)) (marks s0)) E
                | _ => E j s end)
              Hc Hw ltac:(unfold HTTP_MAX_HEADER_SIZE; lia) Hr2 ltac:(lia) Hh Hj) as [Hloop _].
  eapply wp_mono; [exact Hloop| |auto]. intros hs2 s [-> ->]. unfold value_done.
  pose proof (cursor_app _ _ _ _ Hc) as Hcr2. destruct (cursor_nth _ _ _ _ Hcr2) as [_ Hlt].
  do 4 wp_step. replace (i + length w - i)%nat with (length w) by lia.
  wp_step. apply wp_count_within; [simpl; unfold HTTP_MAX_HEADER_SIZE; lia..|]. simpl nread.
  rewrite (proj2 (Nat.eqb_neq _ len)) by lia. wp_step. split; [lia|].
  apply cursor_S in Hcr2.
  eapply loops_char; [exact Hcr2|intros _; unfold HTTP_MAX_HEADER_SIZE; simpl; lia|reflexivity|].
  replace (S (S (i + length w))) with (i + length w + 2)%nat by lia.
  unfold counted. simpl.
  replace (n + 1 + Z.of_nat (length w) + 1) with (n + Z.of_nat (length w) + 2) by lia.
  exact Hl.
Qed.

(** The first byte of a value, after the white space. *)
Lemma loops_value_start x w h h1 u i :
  drop i data = x :: w -> x <> 32 -> x <> 9 -> value_byte x ->
  0 <= nread h -> nread h + 1 <= HTTP_MAX_HEADER_SIZE -> value_start h x = Some h1 ->
  loops (set_nread (nread h + 1) h1) u s_header_value (S i) (marked i no_mark M_header_value) ->
  loops h u s_header_value_discard_ws i no_mark.
Proof.
  intros Hc N1 N2 (_ & Hcr & Hlf) H0 Hn Hs Hl.
  assert (value_start (set_nread (nread h + 1) h) x = Some (set_nread (nread h + 1) h1)) as Hs1.
  { by rewrite value_start_nread, Hs. }
  eapply loops_char; [exact Hc|by intros _| |exact Hl].
  simpl dispatch. unfold case_header_value_discard_ws.
  rewrite (proj2 (Z.eqb_neq x 32)), (proj2 (Z.eqb_neq x 9)) by done.
  rewrite (proj2 (Z.eqb_neq x CR)), (proj2 (Z.eqb_neq x LF)) by done.
  exact (value_start_run _ _ x u i x no_mark Hs1).
Qed.

(** A value and its CR LF, from the first byte after the white space. *)
Lemma loops_value x w h h1 h2 hs' u i rest :
  drop i data = x :: w ++ CR :: LF :: rest -> x <> 32 -> x <> 9 -> Forall value_byte (x :: w) ->
  errno h = HPE_OK -> 0 <= nread h ->
  nread h + Z.of_nat (length w) + 3 <= HTTP_MAX_HEADER_SIZE ->
  value_start h x = Some h1 -> value_run (header_state h1) h1 w = Some (hs', h2) ->
  loops (set_nread (nread h + Z.of_nat (length w) + 3)
           (set_hp_state s_header_almost_done (set_header_state hs' h2)))
    (fv (x :: w) u) s_header_value_lws (i + length w + 3) no_mark ->
  loops h u s_header_value_discard_ws i no_mark.
Proof.
  intros Hc N1 N2 Hw Hh H0 Hn Hs Hr Hl. pose proof (value_start_frame _ _ _ Hs) as Hf1.
  apply Forall_cons in Hw as [Hx Hw].
  eapply loops_value_start; [exact Hc|done..|lia|exact Hs|]. pose proof (cursor_S _ _ _ _ Hc) as Hc1.
  eapply (loops_value_rest w _ (set_nread (nread h + 1) h2) hs' u (S i) i);
    [exact Hc1|done|by rewrite Hf1|simpl; lia|simpl; lia|done| |].
  { rewrite value_run_nread. simpl. by rewrite Hr. }
  replace (slice data i (S i + length w - i)) with (x :: w).
  - simpl nread. replace (S i + length w + 2)%nat with (i + length w + 3)%nat by lia.
    replace (nread h + 1 + Z.of_nat (length w) + 2) with (nread h + Z.of_nat (length w) + 3) by lia.
    exact Hl.
  - symmetry. replace (S i + length w - i)%nat with (length (x :: w)) by (simpl; lia).
    apply (cursor_slice data i (x :: w) (CR :: LF :: rest)). exact Hc.
Qed.

(** The data end inside a value the parser does not look at. *)
Lemma skip_value_end w i :
  drop i data = w -> Forall value_byte w -> Z.of_nat (length w) < HTTP_MAX_HEADER_SIZE ->
  skip_value data i = (len - 1)%nat.
Proof.
  intros Hc Hw Hn. unfold skip_value, memchr. rewrite Hc.
  assert (forall x l, Forall (fun y => y <> x) w -> memchr_from w x i l = None) as Hno.
  { clear. revert i. induction w as [|y w' IH]; intros i x [|l] Hw; try done. simpl.
    apply Forall_cons in Hw as [Hy Hw]. rewrite (proj2 (Z.eqb_neq _ _)) by done. by apply IH. }
  rewrite !Hno; [done| |]; eapply Forall_impl; try exact Hw; by intros x (? & ? & ?).
Qed.

Lemma loops_value_part w h u i mk :
  drop i data = w -> (i <= len)%nat -> Forall value_byte w -> header_state h = h_general ->
  0 <= nread h -> nread h + Z.of_nat (length w) + 1 <= HTTP_MAX_HEADER_SIZE ->
  (forall n c, n <= nread h + Z.of_nat (length w) + 1 -> nread h <= n ->
     Q tt (mkMachine (set_nread n h) u s_header_value len c mk)) ->
  loops h u s_header_value i mk.
Proof.
  intros Hc Hi Hw Hg H0 Hn HQ. assert (length w = len - i)%nat as Hlen by by rewrite <- Hc, length_drop.
  destruct w as [|y w].
  { simpl in Hlen. replace i with len by lia. apply loops_end. intros c.
    replace h with (set_nread (nread h) h) by by destruct h. apply HQ; simpl; lia. }
  simpl in Hlen. destruct (cursor_nth _ _ _ _ Hc) as [Hx _].
  eapply loops_step; [exact Hc|intros _; simpl in Hn; lia|].
  apply wp_reexecute. simpl dispatch. unfold case_header_value. do 5 wp_step.
  change (header_state (counted s_header_value h)) with (header_state h). rewrite Hg.
  apply Forall_cons in Hw as Hy. destruct Hy as [(Hhc & Hcr & Hlf) _].
  simpl value_loop. do 2 wp_step. rewrite (proj2 (Nat.eqb_neq i len)) by lia. do 2 wp_step.
  rewrite Hx, (proj2 (Z.eqb_neq y CR)), (proj2 (Z.eqb_neq y LF)) by done. do 2 wp_step.
  rewrite Hhc, andb_false_r. do 5 wp_step.
  rewrite (skip_value_end _ i Hc Hw) by lia. do 5 wp_step.
  replace (len - 1 + 1)%nat with len by lia. destruct (len - i)%nat as [|f] eqn:Ef; [lia|].
  simpl value_loop. do 2 wp_step. rewrite Nat.eqb_refl.
  do 6 wp_step. simpl in Hn.
  apply wp_count_within; [simpl; lia..|]. rewrite Nat.eqb_refl. wp_step. split; [lia|].
  cbn [hp user p_state p marks]. replace (S (len - 1)) with len by lia. apply loops_end. intros c.
  assert (forall n, set_nread n (set_header_state h_general (counted s_header_value h)) = set_nread n h) as ->.
  { intros n. by destruct h; simpl in Hg; subst. }
  apply HQ; simpl; lia.
Qed.

(** ** The end of the headers, and a body with its length *)

(** The parser after the headers of a message whose body has the length [n]. *)
Definition plain_message h (n : Z) : Prop :=
  errno h = HPE_OK /\ flag F_TRAILING h = false /\ flag F_CHUNKED h = false /\
  flag F_SKIPBODY h = false /\ upgrade_requested h = false /\ content_length h = n.

(** The parser the last callback of a message gets. *)
Definition at_complete h (b : bytes) : http_parser :=
  let h1 := set_nread 0 (set_upgrade false h) in
  let h2 := if decide (b = []) then h1
            else set_hp_state s_message_done (set_content_length 0 h1) in
  set_hp_state (NEW_MESSAGE h2) h2.

Definition complete h (b : bytes) u : U :=
  fc (at_complete h b) (if decide (b = []) then u else fb b u).

Lemma wp_pure_complete h u st i c mk Q' E' :
  errno h = HPE_OK ->
  Q' tt (mkMachine (set_hp_state (NEW_MESSAGE h) h) (fc (set_hp_state (NEW_MESSAGE h) h) u)
          (NEW_MESSAGE h) i c mk) ->
  wp (message_complete pure_settings) (mkMachine h u st i c mk) Q' E'.
Proof.
  intros Hh HQ. unfold message_complete. do 4 wp_step. apply wp_bind, wp_get. cbn [p].
  unfold CALLBACK_NOTIFY_. do 3 wp_step. wp_step; [by apply bool_decide_eq_true|]. simpl.
  unfold wp, run_callback, mbind, M_bind. simpl. by rewrite Hh.
Qed.

(** The body, read in one round: the callback, then the end of the message. *)
Lemma loops_body h1 u i b rest :
  drop i data = b ++ rest -> b <> [] -> errno h1 = HPE_OK -> upgrade h1 = false ->
  content_length h1 = Z.of_nat (length b) -> Z.of_nat (length b) < ULLONG_MAX ->
  (let h2 := set_hp_state s_message_done (set_content_length 0 h1) in
   let h3 := set_hp_state (NEW_MESSAGE h2) h2 in
   loops h3 (fc h3 (fb b u)) (hp_state h3) (i + length b) no_mark) ->
  loops h1 u s_body_identity i no_mark.
Proof.
  intros Hc Hne Hh1 Hu1 Hcl1 Hb Hl. cbv zeta in Hl.
  pose proof (cursor_len _ _ b rest Hc Hne) as Hlen.
  assert (exists y b', b = y :: b') as (y & b' & Eb) by (destruct b; [done|eauto]).
  assert (drop i data = y :: b' ++ rest) as Hyc by (by rewrite Hc, Eb).
  assert (0 < length b)%nat as Hlb by (rewrite Eb; simpl; lia). clear Eb.
  eapply loops_step; [exact Hyc|intros Hp; done|].
  change (counted s_body_identity h1) with h1.
  apply wp_reexecute. simpl dispatch. unfold case_body_identity, read_body.
  set (n := Z.of_nat (length b)) in *. assert (0 < n) as Hn0 by (subst n; simpl; lia).
  do 5 wp_step. rewrite Hcl1. wp_step.
  replace (n `min` Z.of_nat (len - i)) with n by lia.
  wp_step. { rewrite (proj2 (Z.eqb_neq n 0)), (proj2 (Z.eqb_neq n ULLONG_MAX)) by lia. done. }
  do 6 wp_step. rewrite Z.sub_diag. wp_step. simpl content_length. rewrite Z.eqb_refl.
  repeat (lazymatch goal with |- wp (CALLBACK_DATA_ _ _ _ _ _) _ _ _ => fail | _ => wp_step end).
  eapply wp_pure_data; [exact Hh1|unfold marked; simpl; reflexivity|done|]. wp_step.
  replace (i + Z.to_nat n - 1 + 1 - i)%nat with (length b) by lia.
  rewrite (cursor_slice data _ _ _ Hc).
  apply wp_reexecute. simpl dispatch. unfold case_message_done. wp_step.
  apply wp_pure_complete; [exact Hh1|]. do 2 wp_step. simpl upgrade. rewrite Hu1.
  repeat wp_step. split; [lia|]. simpl.
  replace (S (i + Z.to_nat n - 1)) with (i + length b)%nat by lia.
  exact Hl.
Qed.

(** Part of a body, up to the end of the data: it stays marked for the callback at the end. *)
Lemma loops_body_part h1 u i b :
  drop i data = b -> b <> [] -> Z.of_nat (length b) < content_length h1 < ULLONG_MAX ->
  (forall c, Q tt (mkMachine (set_content_length (content_length h1 - Z.of_nat (length b)) h1) u
                     s_body_identity len c (put_mark no_mark M_body (Some i)))) ->
  loops h1 u s_body_identity i no_mark.
Proof.
  intros Hc Hne Hcl HQ. assert (len - i = length b)%nat as Hlen by (rewrite <- Hc; by rewrite length_drop).
  assert (exists y b', b = y :: b') as (y & b' & Eb) by (destruct b; [done|eauto]).
  assert (drop i data = y :: b') as Hyc by (by rewrite Hc, Eb).
  assert (0 < length b)%nat as Hlb by (rewrite Eb; simpl; lia). clear Eb.
  eapply loops_step; [exact Hyc|intros Hp; done|].
  change (counted s_body_identity h1) with h1.
  apply wp_reexecute. simpl dispatch. unfold case_body_identity, read_body.
  do 5 wp_step. wp_step. rewrite Hlen, Z.min_r by lia.
  wp_step. { rewrite (proj2 (Z.eqb_neq _ 0)), (proj2 (Z.eqb_neq _ ULLONG_MAX)) by lia. done. }
  do 6 wp_step. wp_step. simpl content_length. rewrite (proj2 (Z.eqb_neq _ 0)) by lia.
  wp_step. rewrite Nat2Z.id. split; [simpl; lia|]. simpl.
  replace (S (i + length b - 1)) with len by lia. by apply loops_end.
Qed.

(** The empty line: the message is complete, or its body follows. *)
Lemma loops_headers_end st h u i n rest :
  line_start st -> drop i data = CR :: LF :: rest ->
  plain_message (line_begin st h) n -> 0 <= nread h -> nread h + 2 <= HTTP_MAX_HEADER_SIZE ->
  0 <= n < ULLONG_MAX ->
  (let h2 := set_nread 0 (set_upgrade false (line_begin st h)) in
   (n = 0 -> loops (set_hp_state (NEW_MESSAGE h2) h2) (fc (set_hp_state (NEW_MESSAGE h2) h2) u)
               (NEW_MESSAGE h2) (i + 2) no_mark) /\
   (n <> 0 -> loops h2 u s_body_identity (i + 2) no_mark)) ->
  loops h u st i no_mark.
Proof.
  intros Hst Hc (Hh & Htr & Hch & Hsk & Hup & Hcl) H0 Hn Hb Hl.
  set (h0 := line_begin st h) in *.
  eapply loops_line_start; [done|exact Hc|done|done|done|lia|]. intros f.
  destruct (cursor_nth _ _ _ _ Hc) as [_ Hi]. apply cursor_S in Hc.
  destruct (cursor_nth _ _ _ _ Hc) as [_ Hi'].
  assert (line_begin st (set_nread (nread h + 1) h) = set_nread (nread h + 1) h0) as Eh.
  { unfold h0, line_begin. by case_decide. }
  rewrite Eh. clearbody h0.
  apply wp_reexecute. simpl dispatch. unfold case_header_field_start. simpl. wp_step.
  split; [lia|]. simpl. clear f.
  eapply loops_step; [exact Hc|intros _; simpl; lia|]. rewrite counted_nread by done.
  set (h1 := set_nread (nread h + 1 + 1) h0).
  assert (plain_message h1 n) as (Hh1 & Htr1 & Hch1 & Hsk1 & Hup1 & Hcl1)
    by done.
  assert (forall v, set_nread 0 (set_upgrade v h1) = set_nread 0 (set_upgrade v h0)) as Eup by done.
  clearbody h1. apply wp_reexecute. simpl dispatch. unfold case_headers_almost_done.
  wp_step. wp_step; [done|]. do 2 wp_step. rewrite Htr1, Hch1. simpl andb. cbv iota.
  do 5 wp_step. unfold headers_complete_callback. do 3 wp_step. simpl on_headers_complete.
  cbv iota. rewrite Hup1. do 3 wp_step. change (errno _) with (errno h1). rewrite Hh1. cbv iota.
  rewrite decide_True by done. do 2 wp_step.
  apply wp_reexecute. simpl dispatch. unfold case_headers_done.
  wp_step. wp_step; [done|]. do 4 wp_step. cbv zeta. rewrite Eup. simpl upgrade. simpl andb.
  cbv iota. clear Eup.
  assert (plain_message (set_nread 0 (set_upgrade false h0)) n)
    as (Hh2 & _ & Hch2 & Hsk2 & _ & Hcl2) by done.
  assert (upgrade (set_nread 0 (set_upgrade false h0)) = false) as Hu2 by done.
  cbv zeta in Hl. set (h2 := set_nread 0 (set_upgrade false h0)) in *.
  rewrite Hsk2, Hch2, Hcl2. clearbody h2. cbv iota. replace (i + 2)%nat with (S (S i)) in Hl by lia.
  destruct Hl as [Hl0 Hl1]. destruct (n =? 0) eqn:En; breflect.
  - apply wp_pure_complete; [done|]. split; [simpl; lia|]. by apply Hl0.
  - rewrite (proj2 (Z.eqb_neq n ULLONG_MAX)) by lia.
    simpl negb. cbv iota. wp_step. split; [simpl; lia|]. by apply Hl1.
Qed.

Lemma loops_message_end st h u i b rest :
  line_start st -> drop i data = CR :: LF :: b ++ rest ->
  plain_message (line_begin st h) (Z.of_nat (length b)) ->
  0 <= nread h -> nread h + 2 <= HTTP_MAX_HEADER_SIZE -> Z.of_nat (length b) < ULLONG_MAX ->
  loops (at_complete (line_begin st h) b) (complete (line_begin st h) b u)
    (hp_state (at_complete (line_begin st h) b)) (i + 2 + length b) no_mark ->
  loops h u st i no_mark.
Proof.
  intros Hst Hc Hm H0 Hn Hb Hl.
  eapply loops_headers_end; [done|exact Hc|exact Hm|done|done|lia|].
  destruct Hm as (Hh & _ & _ & _ & _ & Hcl). cbv zeta.
  set (h2 := set_nread 0 (set_upgrade false (line_begin st h))). unfold complete, at_complete in Hl.
  cbv zeta in Hl. fold h2 in Hl.
  assert (errno h2 = HPE_OK /\ upgrade h2 = false /\ content_length h2 = Z.of_nat (length b))
    as (He2 & Hu2 & Hc2) by done.
  clearbody h2. destruct b as [|y b].
  - split; [intros _|done]. rewrite decide_True in Hl by done. simpl length in Hl.
    rewrite Nat.add_0_r, decide_True in Hl by done. exact Hl.
  - split; [done|intros _]. rewrite decide_False in Hl by done. rewrite decide_False in Hl by done.
    do 2 apply cursor_S in Hc. replace (S (S i)) with (i + 2)%nat in Hc by lia.
    by apply (loops_body h2 u (i + 2) (y :: b) rest).
Qed.
End Pure.
