(* ===== verification/HttpSplit.v ===== *)
(** * The message parser may be interrupted anywhere but inside a header

    A call of [http_parser_execute] on [d1 ++ d2] does what a call on [d1] and then a call on [d2]
    do, for clients whose callbacks take data piecewise and never fail, unless the cut is inside
    the name or the value of a header ([HttpProps.header_check_depends_on_cut] and
    [HttpSessions.split_value_shifts_headers] show what happens there).  The proof runs the calls
    side by side: over [d1] they are the same but for a body that reaches the end of it
    ([for_loop_before]); over [d2] the machines are related by [rel], in which the long call still
    owes its client the data from a mark in [d1] on ([for_loop_resumes]). *)

From S2P Require Import Prelude HttpTables HttpUrl HttpExecute HttpSafe HttpSafeLoops HttpRun.

Open Scope Z_scope.

(** ** Clients *)

Section Client.
Context {U : Type} (settings : http_parser_settings U).

(** The data callback of [k] is the function [fd k] on the user data, or null. *)
Record pure_client (fd : mark_id -> bytes -> U -> U) : Prop := {
  pc_data : forall k, data_cb settings k = Some (pure_cb (fd k)) \/
    (data_cb settings k = None /\ forall d u, fd k d u = u);
  pc_note : forall f, f ∈ [on_message_begin settings; on_message_complete settings;
                           on_chunk_header settings; on_chunk_complete settings] ->
    f = None \/ exists g, f = Some (fun h u => (0, h, g h u));
  pc_headers : on_headers_complete settings = None \/
    exists g, on_headers_complete settings = Some (fun h u => (0, h, g u))
}.

Lemma pure_client_ok fd : pure_client fd -> settings_ok settings.
Proof.
  intros [Hd Hn Hh]. split.
  - intros f Hf g ->. rewrite !elem_of_cons, elem_of_nil in Hf.
    assert (on_headers_complete settings = Some g \/
            Some g ∈ [on_message_begin settings; on_message_complete settings;
                      on_chunk_header settings; on_chunk_complete settings]) as [E|E].
    { rewrite !elem_of_cons, elem_of_nil. destruct Hf as [?|[?|[?|[?|[?|[]]]]]]; auto 10. }
    + destruct Hh as [Hh|[g' Hh]]; rewrite Hh in E; simplify_eq. intros h u. by left.
    + destruct (Hn _ E) as [?|[g' ?]]; simplify_eq. intros h u. by left.
  - intros k f d Hf. destruct (Hd k) as [E|[E _]]; rewrite E in Hf; simplify_eq. intros h u. by left.
Qed.
End Client.

(** A callback that may get its data in pieces. *)
Definition piecewise {U} (f : bytes -> U -> U) : Prop :=
  (forall u, f [] u = u) /\ forall d1 d2 u, f (d1 ++ d2) u = f d2 (f d1 u).

(** Only the mark of [k] is set. *)
Definition one_mark (k : mark_id) (j : nat) : mark_vars := put_mark no_mark k (Some j).

(** Inside a URL or a status message, the mark is set. *)
Definition entered (st : state) (mk : mark_vars) : Prop :=
  match initial_mark st with
  | Some M_url => mk M_url <> None
  | Some M_status => mk M_status <> None
  | _ => True
  end.

Lemma entered_url st c (mk : mark_vars) : mk M_url <> None -> entered (parse_url_char st c) mk.
Proof.
  intros Hm. unfold entered. destruct (parse_url_char_url st c) as [-> |E]; [done|].
  by destruct (parse_url_char st c).
Qed.

Lemma entered_new h mk : entered (NEW_MESSAGE h) mk.
Proof. by destruct (NEW_MESSAGE_cases h) as [-> |[-> | ->]]. Qed.

(** ** The call on [d2] and the rest of the call on [pre ++ d2] *)

Section Suffix.
Context {U : Type} (settings : http_parser_settings U) (fd : mark_id -> bytes -> U -> U).
Context (Hpc : pure_client settings fd) (pre data : bytes).
#[local] Notation o := (length pre).
#[local] Notation data' := (pre ++ data).
Implicit Types (h : http_parser) (u : U) (i j : nat) (c : Z) (mk : mark_vars) (s : machine U).

(** The long call owes the data from its mark up to the mark of the short one. *)
Definition owed (k : mark_id) (j j' : nat) (u u' : U) : Prop :=
  (j' = o + j /\ u = u')%nat \/
  ((j' <= o + j)%nat /\ piecewise (fd k) /\ u = fd k (slice data' j' (o + j - j')) u').

Definition owes (mk mk' : mark_vars) (u u' : U) : Prop :=
  (mk = no_mark /\ mk' = no_mark /\ u = u') \/
  exists k j j', mk = one_mark k j /\ mk' = one_mark k j' /\ owed k j j' u u'.

(** [hp_state] is stale during a call; with [b] the current characters agree. *)
Record rel (b : bool) s s' : Prop := {
  rel_hp : exists x, hp s' = set_hp_state x (hp s);
  rel_state : p_state s' = p_state s;
  rel_p : p s' = (o + p s)%nat;
  rel_ch : b = true -> ch s' = ch s;
  rel_marks : owes (marks s) (marks s') (user s) (user s');
  rel_entered : entered (p_state s) (marks s)
}.

(** After a [goto reexecute] (which never leads to the states that read a body), after an error,
    after a [return]. *)
Definition reads_body (st : state) : bool :=
  match st with s_body_identity | s_body_identity_eof | s_chunk_data => true | _ => false end.
Definition at_byte s s' : Prop := rel true s s' \/ (rel false s s' /\ p_state s = s_message_done).
Definition again s s' : Prop := at_byte s s' /\ reads_body (p_state s) = false.
Definition both_fail s s' : Prop :=
  (exists x, hp s' = set_hp_state x (hp s)) /\ p_state s' = p_state s /\ p s' = (o + p s)%nat.
Definition both_return s s' : Prop := hp s' = hp s /\ user s' = user s.

(** Both statements end in the same way, in related machines. *)
Definition sim {A A'} (m : M U A) (m' : M U A') s s' (Q : A -> A' -> machine U -> machine U -> Prop)
    : Prop :=
  match m s with
  | (s1, inl a) => exists a' s1', m' s' = (s1', inl a') /\ Q a a' s1 s1'
  | (s1, inr Reexecute) => exists s1', m' s' = (s1', inr Reexecute) /\ again s1 s1'
  | (s1, inr GotoError) => exists s1', m' s' = (s1', inr GotoError) /\ both_fail s1 s1'
  | (s1, inr (Return n)) => exists s1', m' s' = (s1', inr (Return (o + n))) /\ both_return s1 s1'
  | (_, inr _) => True
  end.

Lemma sim_mono {A A'} (m : M U A) (m' : M U A') s s' (Q Q' : A -> A' -> machine U -> machine U -> Prop) :
  sim m m' s s' Q -> (forall a a' s1 s1', Q a a' s1 s1' -> Q' a a' s1 s1') -> sim m m' s s' Q'.
Proof.
  unfold sim. intros H HQ. destruct (m s) as [s1 [a|[]]]; try done.
  destruct H as (a' & s1' & ? & ?). eauto.
Qed.

Lemma sim_bind {A A' B B'} (m : M U A) (m' : M U A') (f : A -> M U B) (f' : A' -> M U B') s s' Q :
  sim m m' s s' (fun a a' s1 s1' => sim (f a) (f' a') s1 s1' Q) -> sim (m ≫= f) (m' ≫= f') s s' Q.
Proof.
  unfold sim, mbind, M_bind. destruct (m s) as [s1 [a|[]]].
  1: intros (a' & s1' & -> & H); exact H.
  all: try done; by intros (s1' & -> & H); exists s1'.
Qed.

Section Steps.
Context (h : http_parser) (u : U) (st : state) (i : nat) (c : Z) (mk : mark_vars).
Context (x : state) (u' : U) (c' : Z) (mk' : mark_vars).
#[local] Notation s := (mkMachine h u st i c mk).
#[local] Notation s' := (mkMachine (set_hp_state x h) u' st (o + i) c' mk').

Lemma sim_ret {A A'} (a : A) (a' : A') Q : Q a a' s s' -> sim (mret a) (mret a') s s' Q.
Proof. intros H. by exists a', s'. Qed.
Lemma sim_get {A A'} (f : machine U -> A) (f' : machine U -> A') Q :
  Q (f s) (f' s') s s' -> sim (get f) (get f') s s' Q.
Proof. intros H. by exists (f' s'), s'. Qed.
Lemma sim_get_same {A} (f : machine U -> A) Q :
  f s' = f s -> Q (f s) (f s) s s' -> sim (get f) (get f) s s' Q.
Proof. intros E H. exists (f s'), s'. split; [reflexivity|by rewrite E]. Qed.
Lemma sim_modify f f' Q :
  f' (set_hp_state x h) = set_hp_state x (f h) ->
  Q tt tt (mkMachine (f h) u st i c mk) (mkMachine (set_hp_state x (f h)) u' st (o + i) c' mk') ->
  sim (modify f) (modify f') s s' Q.
Proof. intros E H. eexists tt, _. split; [reflexivity|]. simpl. by rewrite E. Qed.
Lemma sim_update v v' Q :
  v' = v -> Q tt tt (mkMachine h u v i c mk) (mkMachine (set_hp_state x h) u' v (o + i) c' mk') ->
  sim (UPDATE_STATE v) (UPDATE_STATE v') s s' Q.
Proof. intros -> H. by eexists tt, _. Qed.
Lemma sim_set_p v v' Q :
  v' = (o + v)%nat ->
  Q tt tt (mkMachine h u st v c mk) (mkMachine (set_hp_state x h) u' st (o + v) c' mk') ->
  sim (set_p v) (set_p v') s s' Q.
Proof. intros -> H. by eexists tt, _. Qed.
Lemma sim_set_ch v v' Q :
  Q tt tt (mkMachine h u st i v mk) (mkMachine (set_hp_state x h) u' st (o + i) v' mk') ->
  sim (set_ch v) (set_ch v') s s' Q.
Proof. intros H. by eexists tt, _. Qed.
Lemma sim_assert b b' Q : (b = true -> b' = true) -> Q tt tt s s' -> sim (assert_ b) (assert_ b') s s' Q.
Proof. intros Hb H. destruct b; [rewrite Hb by done|done]. by exists tt, s'. Qed.
Lemma sim_fail {A} e (Q : A -> A -> machine U -> machine U -> Prop) :
  sim (fail_with e) (fail_with e) s s' Q.
Proof. eexists. split; [reflexivity|]. split_and!; [by exists x|done|done]. Qed.
Lemma sim_goto_error {A A'} (Q : A -> A' -> machine U -> machine U -> Prop) :
  sim (leave GotoError) (leave GotoError) s s' Q.
Proof. eexists. split; [reflexivity|]. split_and!; [by exists x|done|done]. Qed.
Lemma sim_return {A A'} n n' (Q : A -> A' -> machine U -> machine U -> Prop) :
  n' = (o + n)%nat -> u' = u -> sim (RETURN n) (RETURN n') s s' Q.
Proof. intros -> ->. eexists. split; [reflexivity|by split]. Qed.
Lemma sim_reexecute {A A'} (Q : A -> A' -> machine U -> machine U -> Prop) :
  again s s' -> sim REEXECUTE REEXECUTE s s' Q.
Proof. intros H. by eexists. Qed.
Lemma sim_if {A A'} (b b' : bool) (m1 m2 : M U A) (m1' m2' : M U A') Q :
  b' = b -> (b = true -> sim m1 m1' s s' Q) -> (b = false -> sim m2 m2' s s' Q) ->
  sim (if b then m1 else m2) (if b' then m1' else m2') s s' Q.
Proof. intros ->. destruct b; auto. Qed.
Lemma sim_decide {A A'} (P : Prop) (d d' : Decision P) (m1 m2 : M U A) (m1' m2' : M U A') Q :
  (P -> sim m1 m1' s s' Q) -> (~ P -> sim m2 m2' s s' Q) ->
  sim (if d then m1 else m2) (if d' then m1' else m2') s s' Q.
Proof. destruct d, d'; by auto. Qed.
Lemma sim_strict b b' Q :
  b' = b -> (b = false -> Q tt tt s s') -> sim (STRICT_CHECK b) (STRICT_CHECK b') s s' Q.
Proof. intros -> H. destruct b; [apply sim_fail|by apply sim_ret, H]. Qed.
Lemma sim_count v Q :
  let h1 := set_nread (u32 (nread h + v)) h in
  Q tt tt (mkMachine h1 u st i c mk) (mkMachine (set_hp_state x h1) u' st (o + i) c' mk') ->
  sim (COUNT_HEADER_SIZE v) (COUNT_HEADER_SIZE v) s s' Q.
Proof.
  intros h1 H. unfold sim, COUNT_HEADER_SIZE, mbind, M_bind. simpl.
  destruct (_ >? _); [|by eexists tt, _].
  eexists. split; [reflexivity|]. split_and!; [by exists x|done|done].
Qed.
End Steps.

(** *** Marks and callbacks *)

Lemma sim_mark_none h u st i c x u' c' k Q :
  Q tt tt (mkMachine h u st i c (one_mark k i)) (mkMachine (set_hp_state x h) u' st (o + i) c' (one_mark k (o + i))) ->
  sim (MARK k) (MARK k) (mkMachine h u st i c no_mark) (mkMachine (set_hp_state x h) u' st (o + i) c' no_mark) Q.
Proof. destruct k; intros H; by eexists tt, _. Qed.

Lemma sim_mark_set h u st i c x u' c' k j j' Q :
  let s1 := mkMachine h u st i c (one_mark k j) in
  let s1' := mkMachine (set_hp_state x h) u' st (o + i) c' (one_mark k j') in
  Q tt tt s1 s1' -> sim (MARK k) (MARK k) s1 s1' Q.
Proof. destruct k; intros s1 s1' H; by eexists tt, _. Qed.

Lemma slice_owed j j' upto :
  (j' <= o + j)%nat -> (j <= upto <= length data)%nat ->
  slice data' j' (o + upto - j') = slice data' j' (o + j - j') ++ slice data j (upto - j).
Proof.
  intros Hj Hu. unfold slice. replace (o + upto - j')%nat with ((o + j - j') + (upto - j))%nat by lia.
  rewrite <- take_take_drop, drop_drop. f_equal. f_equal.
  replace (j' + (o + j - j'))%nat with (o + j)%nat by lia.
  rewrite <- drop_drop, drop_app_length. done.
Qed.

Lemma owed_flush k j j' upto u u' :
  owed k j j' u u' -> (j <= upto <= length data)%nat ->
  fd k (slice data' j' (o + upto - j')) u' = fd k (slice data j (upto - j)) u.
Proof.
  intros [[-> ->]|(Hj & [_ Happ] & ->)] Hu.
  - replace (o + upto - (o + j))%nat with (upto - j)%nat by lia. f_equal. unfold slice.
    by rewrite <- drop_drop, drop_app_length.
  - by rewrite (slice_owed j) by done; rewrite Happ.
Qed.

Lemma one_mark_get k j k' : one_mark k j k' = if decide (k' = k) then Some j else None.
Proof. by destruct k, k'. Qed.

Lemma owes_get mk mk' u u' k :
  owes mk mk' u u' -> (mk k = None /\ mk' k = None) \/
    exists j j', mk = one_mark k j /\ mk' = one_mark k j' /\ owed k j j' u u'.
Proof.
  intros [(-> & -> & ->)|(k1 & j & j' & -> & -> & Ho)]; [left; by destruct k|].
  destruct (decide (k = k1)) as [->|Hk]; [right; eauto|left].
  by rewrite !one_mark_get, !decide_False.
Qed.

(** What a callback does to a machine without an error. *)
Lemma callback_eq (g : http_parser -> U -> U) e er s :
  errno (hp s) = HPE_OK ->
  run_callback (fun h u => (0, h, g h u)) e er s =
    (let h := set_hp_state (p_state s) (hp s) in
     mkMachine h (g h (user s)) (p_state s) (p s) (ch s) (marks s), inl tt).
Proof. intros Hh. unfold run_callback, mbind, M_bind. simpl. by rewrite Hh. Qed.

Lemma sim_data k upto er er' h u st i c mk x u' c' mk' Q :
  errno h = HPE_OK -> owes mk mk' u u' -> (forall j, mk k = Some j -> j <= upto)%nat ->
  (upto <= length data)%nat ->
  (forall h1 x1 u1 u1' mk1 mk1', h1 = h \/ h1 = set_hp_state st h -> owes mk1 mk1' u1 u1' ->
     Q tt tt (mkMachine h1 u1 st i c mk1) (mkMachine (set_hp_state x1 h1) u1' st (o + i) c' mk1')) ->
  sim (CALLBACK_DATA_ settings data k upto er) (CALLBACK_DATA_ settings data' k (o + upto) er')
    (mkMachine h u st i c mk) (mkMachine (set_hp_state x h) u' st (o + i) c' mk') Q.
Proof.
  intros Hh Ho Hj Hu HQ. unfold sim, CALLBACK_DATA_, mbind, M_bind. simpl.
  rewrite (bool_decide_true (errno h = HPE_OK)) by done. simpl.
  destruct (owes_get _ _ _ _ k Ho) as [[E1 E2]|(j & j' & -> & -> & Hd)].
  { rewrite E1, E2. eexists tt, _. split; [reflexivity|]. apply HQ; [by left|done]. }
  rewrite !one_mark_get, !decide_True in * by done. specialize (Hj j eq_refl).
  assert (put_mark (one_mark k j) k None = no_mark /\ put_mark (one_mark k j') k None = no_mark)
    as [Ep Ep'] by (by destruct k).
  pose proof (owed_flush _ _ _ upto _ _ Hd ltac:(lia)) as Ef.
  destruct (pc_data _ _ Hpc k) as [E|[E En]]; rewrite E.
  - unfold pure_cb. rewrite !callback_eq by done. unfold set_mark. simpl. rewrite Ep, Ep', Ef. eexists tt, _.
    split; [reflexivity|].
    apply (HQ (set_hp_state st h) st); [by right|by left].
  - unfold set_mark. simpl. rewrite Ep, Ep'. eexists tt, _. split; [reflexivity|]. apply HQ; [by left|left].
    rewrite !En in Ef. by rewrite Ef.
Qed.

Lemma sim_notify f e er er' h u st i c x c' Q :
  f ∈ [on_message_begin settings; on_message_complete settings; on_chunk_header settings;
       on_chunk_complete settings] ->
  errno h = HPE_OK ->
  (forall h1 x1 u1, h1 = h \/ h1 = set_hp_state st h ->
     Q tt tt (mkMachine h1 u1 st i c no_mark) (mkMachine (set_hp_state x1 h1) u1 st (o + i) c' no_mark)) ->
  sim (CALLBACK_NOTIFY_ f e er) (CALLBACK_NOTIFY_ f e er') (mkMachine h u st i c no_mark)
    (mkMachine (set_hp_state x h) u st (o + i) c' no_mark) Q.
Proof.
  intros Hf Hh HQ. unfold sim, CALLBACK_NOTIFY_, mbind, M_bind. simpl.
  rewrite (bool_decide_true (errno h = HPE_OK)) by done. simpl.
  destruct (pc_note _ _ Hpc f Hf) as [->|[g ->]].
  - eexists tt, _. split; [reflexivity|]. apply HQ. by left.
  - rewrite !callback_eq by done. eexists tt, _. split; [reflexivity|].
    apply (HQ (set_hp_state st h) st). by right.
Qed.

(** *** The cases of the switch *)

Lemma rel_intro b h u st i c mk x u' c' mk' :
  (b = true -> c' = c) -> owes mk mk' u u' -> entered st mk ->
  rel b (mkMachine h u st i c mk) (mkMachine (set_hp_state x h) u' st (o + i) c' mk').
Proof. intros Hc Ho He. split; [by exists x|done|done|done|done|done]. Qed.

Lemma owes_none u : owes no_mark no_mark u u.
Proof. by left. Qed.

Lemma owes_new k i u : owes (one_mark k i) (one_mark k (o + i)) u u.
Proof. right. exists k, i, (o + i)%nat. split_and!; [done|done|by left]. Qed.

Lemma headers_complete_sim h u st i c x c' Q :
  errno h = HPE_OK ->
  (forall u1, Q tt tt (mkMachine h u1 st i c no_mark)
                (mkMachine (set_hp_state x h) u1 st (o + i) c' no_mark)) ->
  sim (headers_complete_callback settings) (headers_complete_callback settings)
    (mkMachine h u st i c no_mark) (mkMachine (set_hp_state x h) u st (o + i) c' no_mark) Q.
Proof.
  intros Hh HQ. unfold sim, headers_complete_callback, mbind, M_bind. simpl.
  destruct (pc_headers _ _ Hpc) as [->|[g ->]]; simpl; rewrite Hh; simpl; by eexists tt, _.
Qed.

Ltac sim_elem := rewrite !elem_of_cons; tauto.

Ltac sim_leaf :=
  lazymatch goal with
  | |- again _ _ => split; [left; sim_leaf|reflexivity]
  | |- rel _ _ _ =>
      apply rel_intro;
        [done|first [assumption|apply owes_none|apply owes_new]
        |first [exact I|assumption|apply entered_new|by apply entered_url|done]]
  end.

Ltac sim_step :=
  lazymatch goal with
  | |- sim (_ ≫= _) (_ ≫= _) _ _ _ => apply sim_bind
  | |- sim (mret _) _ _ _ _ => apply sim_ret
  | |- sim REEXECUTE _ _ _ _ => apply sim_reexecute
  | |- sim (leave GotoError) _ _ _ _ => apply sim_goto_error
  | |- sim (get _) _ _ _ _ => first [apply sim_get_same; [reflexivity|]|apply sim_get]
  | |- sim (modify _) _ _ _ _ => apply sim_modify; [reflexivity|]
  | |- sim (UPDATE_STATE _) _ _ _ _ => apply sim_update; [reflexivity|]
  | |- sim (set_p _) _ _ _ _ => apply sim_set_p
  | |- sim (set_ch _) _ _ _ _ => apply sim_set_ch
  | |- sim (assert_ _) _ _ _ _ => apply sim_assert; [done|]
  | |- sim (fail_with _) _ _ _ _ => apply sim_fail
  | |- sim (RETURN _) _ _ _ _ => apply sim_return; [lia|done]
  | |- sim (STRICT_CHECK _) _ _ _ _ => apply sim_strict; [reflexivity|intros ?]
  | |- sim (COUNT_HEADER_SIZE _) _ _ _ _ => apply sim_count
  | |- sim (MARK _) _ (mkMachine _ _ _ _ _ no_mark) _ _ => apply sim_mark_none
  | |- sim (MARK _) _ _ _ _ => apply sim_mark_set
  | |- sim (CALLBACK_NOTIFY_ _ _ _) _ _ _ _ => apply sim_notify; [sim_elem|done|intros ? ? ? ?]
  | |- sim (headers_complete_callback _) _ _ _ _ => apply headers_complete_sim; [done|intros ?]
  | |- sim (if decide _ then _ else _) _ _ _ _ => apply sim_decide; intros ?
  | |- sim (if ?b then _ else _) _ _ _ _ => apply sim_if; [reflexivity|intros ?|intros ?]
  | |- sim (match ?x with _ => _ end) _ _ _ _ => destruct x eqn:?
  | |- _ => sim_leaf
  end; cbn [hp user p_state p ch marks header_state flags index nread content_length http_major
            http_minor status_code method errno upgrade lenient_http_headers hp_type set_hp_state].

(** The states whose cases do not look at the data and have no marks. *)
Definition plain (st : state) : bool :=
  match st with
  | s_req_schema | s_req_schema_slash | s_req_schema_slash_slash | s_req_server_start
  | s_req_server | s_req_server_with_at | s_req_path | s_req_query_string_start
  | s_req_query_string | s_req_fragment_start | s_req_fragment | s_res_status
  | s_header_field | s_header_value | s_header_value_discard_lws | s_body_identity
  | s_body_identity_eof | s_chunk_data | s_chunk_data_almost_done => false
  | _ => true
  end.

Lemma dispatch_plain st h u i c x c' :
  errno h = HPE_OK -> plain st = true -> st = s_message_done \/ c' = c ->
  sim (dispatch settings data st c) (dispatch settings data' st c')
    (mkMachine h u st i c no_mark) (mkMachine (set_hp_state x h) u st (o + i) c' no_mark)
    (fun _ _ => rel false).
Proof.
  intros Hh Hp Hc. destruct st; try done; simpl dispatch; clear Hp;
    try (assert (c' = c) as -> by (by destruct Hc); clear Hc).
  all: unfold case_start_req_or_res, case_res_or_resp_H, case_start_res, case_constant,
    case_res_http_major, case_res_http_minor, case_res_status_code, case_res_status_start,
    case_start_req, case_req_method, case_req_spaces_before_url, url_char, case_req_http_start,
    case_req_http_major, case_req_http_minor, case_req_line_almost_done, case_header_field_start,
    case_header_value_discard_ws, case_header_value_start, case_header_almost_done,
    case_header_value_lws, case_headers_almost_done, case_headers_done,
    case_message_done, message_complete, case_chunk_size_start, case_chunk_size, case_chunk_parameters,
    case_chunk_size_almost_done, case_chunk_data_done, assert_chunked, CALLBACK_NOTIFY,
    CALLBACK_NOTIFY_NOADVANCE.
  all: repeat sim_step.
Qed.

Lemma owes_plain st i mk mk' u u' :
  (forall k, mark_state k st = false) -> marks_ok st i mk -> owes mk mk' u u' ->
  mk = no_mark /\ mk' = no_mark /\ u' = u.
Proof.
  intros Hst Hm [(-> & -> & ->)|(k & j & j' & -> & _)]; [done|].
  destruct (Hm k j) as [Hk _]; [by rewrite one_mark_get, decide_True|by rewrite Hst in Hk].
Qed.

Lemma marks_ok_le st i mk k : marks_ok st i mk -> forall j, mk k = Some j -> (j <= i)%nat.
Proof. intros Hm j Hj. by destruct (Hm _ _ Hj). Qed.

Ltac data_step :=
  unfold CALLBACK_DATA, CALLBACK_DATA_NOADVANCE; repeat sim_step;
  apply sim_data; [done|first [assumption|apply owes_new]|by eapply marks_ok_le|lia|intros ? ? ? ? ? ? ? ?];
  repeat sim_step.

Section Marked.
Context (h : http_parser) (u : U) (i : nat) (c : Z) (mk : mark_vars).
Context (x : state) (u' : U) (mk' : mark_vars).
Context (Hh : errno h = HPE_OK) (Hi : (i < length data)%nat) (Ho : owes mk mk' u u').
#[local] Notation from st := (mkMachine h u st i c mk).
#[local] Notation from' st := (mkMachine (set_hp_state x h) u' st (o + i) c mk').

Lemma url_char_sim st :
  mk M_url <> None -> sim (url_char c) (url_char c) (from st) (from' st) (fun _ _ => rel false).
Proof. intros Hen. unfold url_char. repeat sim_step. Qed.

Lemma req_schema_sim st :
  mk M_url <> None -> sim (case_req_schema c) (case_req_schema c) (from st) (from' st) (fun _ _ => rel false).
Proof. intros Hen. unfold case_req_schema. repeat sim_step. by apply url_char_sim. Qed.

Lemma req_url_sim st :
  marks_ok st i mk -> mk M_url <> None ->
  sim (case_req_url settings data c) (case_req_url settings data' c) (from st) (from' st) (fun _ _ => rel false).
Proof.
  intros Hm Hen. unfold case_req_url. sim_step; [sim_step; sim_step; data_step|].
  sim_step; [do 6 sim_step; data_step|by apply url_char_sim].
  apply rel_intro; [done|assumption|by destruct (c =? CR)].
Qed.

Lemma res_status_sim :
  marks_ok s_res_status i mk -> entered s_res_status mk ->
  sim (case_res_status settings data c) (case_res_status settings data' c) (from s_res_status)
    (from' s_res_status) (fun _ _ => rel false).
Proof.
  intros Hm Hen. unfold case_res_status. sim_step; [do 2 sim_step; data_step|].
  sim_step; [do 2 sim_step; data_step|repeat sim_step].
Qed.

Lemma chunk_data_almost_done_sim :
  marks_ok s_chunk_data_almost_done i mk ->
  sim (case_chunk_data_almost_done settings data c) (case_chunk_data_almost_done settings data' c)
    (from s_chunk_data_almost_done) (from' s_chunk_data_almost_done) (fun _ _ => rel false).
Proof.
  intros Hm. unfold case_chunk_data_almost_done, assert_chunked. do 11 sim_step. data_step.
Qed.
End Marked.

Lemma header_value_discard_lws_sim h u i c x :
  errno h = HPE_OK -> (i < length data)%nat ->
  sim (case_header_value_discard_lws settings data c) (case_header_value_discard_lws settings data' c)
    (mkMachine h u s_header_value_discard_lws i c no_mark)
    (mkMachine (set_hp_state x h) u s_header_value_discard_lws (o + i) c no_mark) (fun _ _ => rel false).
Proof.
  intros Hh Hi. unfold case_header_value_discard_lws. sim_step; [repeat sim_step|].
  do 6 sim_step. unfold CALLBACK_DATA_NOADVANCE. do 3 sim_step.
  apply sim_data; [done|apply owes_new|by intros j [= <-]|lia|].
  intros; repeat sim_step.
Qed.

(** *** Header names and values *)

Lemma at_end i : (o + i =? length data')%nat = (i =? length data)%nat.
Proof. rewrite length_app. destruct (Nat.eqb_spec i (length data)); [apply Nat.eqb_eq|apply Nat.eqb_neq]; lia. Qed.

Lemma left_after i : (length data' - (o + i))%nat = (length data - i)%nat.
Proof. rewrite length_app. lia. Qed.

Lemma nth_after i : nth (o + i) data' 0 = nth i data 0.
Proof. apply app_nth2_plus. Qed.

Section Headers.
Context (u : U) (mk : mark_vars) (u' : U) (mk' : mark_vars) (x : state).
Context (Ho : owes mk mk' u u').

Lemma field_char_sim h st i c y z :
  errno h = HPE_OK ->
  sim (field_char y z) (field_char y z) (mkMachine h u st i c mk)
    (mkMachine (set_hp_state x h) u' st (o + i) c mk')
    (fun _ _ s1 s1' => exists h1, errno h1 = HPE_OK /\ s1 = mkMachine h1 u st i c mk /\
       s1' = mkMachine (set_hp_state x h1) u' st (o + i) c mk').
Proof.
  intros Hh. unfold field_char, match_header, field_content_length. do 2 sim_step.
  destruct (header_state h); repeat sim_step; try (eexists; split_and!; [|reflexivity..]; done).
Qed.

Lemma field_loop_sim fuel : forall h st i c c',
  errno h = HPE_OK -> (i <= length data)%nat ->
  sim (field_loop data fuel) (field_loop data' fuel) (mkMachine h u st i c mk)
    (mkMachine (set_hp_state x h) u' st (o + i) c' mk')
    (fun _ _ s1 s1' => exists h1 i1 c1 c1', errno h1 = HPE_OK /\ (i <= i1 <= length data)%nat /\
       (i1 <> length data -> c1' = c1) /\ s1 = mkMachine h1 u st i1 c1 mk /\
       s1' = mkMachine (set_hp_state x h1) u' st (o + i1) c1' mk').
Proof.
  induction fuel as [|fuel IH]; intros h st i c c' Hh Hi; [done|]. simpl field_loop. do 2 sim_step.
  rewrite at_end. destruct (Nat.eqb_spec i (length data)) as [E|E].
  { sim_step. exists h, i, c, c'. split_and!; done || lia. }
  rewrite nth_after. do 2 sim_step. sim_step.
  { sim_step. exists h, i, (nth i data 0), (nth i data 0). split_and!; done || lia. }
  sim_step. eapply sim_mono; [by apply field_char_sim|]. intros [] [] s1 s1' (h1 & Hh1 & -> & ->).
  do 2 sim_step; [lia|]. eapply sim_mono; [apply IH; [done|lia]|].
  intros _ _ s1 s1' (h2 & i2 & c2 & c2' & ? & ? & ? & ? & ?). exists h2, i2, c2, c2'. split_and!; done || lia.
Qed.

Lemma header_field_sim h i c c' :
  errno h = HPE_OK -> (i < length data)%nat -> marks_ok s_header_field i mk ->
  sim (case_header_field settings data) (case_header_field settings data')
    (mkMachine h u s_header_field i c mk) (mkMachine (set_hp_state x h) u' s_header_field (o + i) c' mk')
    (fun _ _ => rel false).
Proof.
  intros Hh Hi Hm. unfold case_header_field. do 3 sim_step. rewrite left_after.
  eapply sim_mono; [apply field_loop_sim; [done|lia]|].
  intros [] [] s1 s1' (h1 & i1 & c1 & c1' & Hh1 & Hi1 & Hc & -> & ->). do 3 sim_step.
  replace (o + i1 - (o + i))%nat with (i1 - i)%nat by lia. sim_step. rewrite at_end.
  destruct (Nat.eqb_spec i1 (length data)) as [E|E]; [sim_step; [lia|sim_step]|].
  rewrite (Hc E). do 2 sim_step. sim_step; [|sim_step]. do 2 sim_step.
  apply (marks_ok_move _ s_header_field i i1) in Hm; [|done|lia]. data_step.
Qed.

Lemma memchr_after i c limit : memchr data' (o + i) c limit = Nat.add o <$> memchr data i c limit.
Proof.
  unfold memchr. rewrite <- drop_drop, drop_app_length. generalize (drop i data) as l. clear.
  intros l. revert i limit. induction l as [|y l IH]; intros i [|limit]; simpl; try done.
  case_match; [done|]. by rewrite <- IH, <- plus_n_Sm.
Qed.

Lemma skip_value_after i :
  (i < length data)%nat -> nth i data 0 <> CR -> nth i data 0 <> LF ->
  skip_value data' (o + i) = (o + skip_value data i)%nat.
Proof.
  intros Hi Hcr Hlf. unfold skip_value. rewrite left_after, !memchr_after.
  destruct (memchr data i CR _) as [r|] eqn:Er, (memchr data i LF _) as [l|] eqn:El; simpl.
  - pose proof (memchr_Some _ _ _ _ _ Er Hi Hcr). pose proof (memchr_Some _ _ _ _ _ El Hi Hlf).
    destruct (Nat.leb_spec l r), (Nat.leb_spec (o + l) (o + r)); lia.
  - pose proof (memchr_Some _ _ _ _ _ Er Hi Hcr). lia.
  - pose proof (memchr_Some _ _ _ _ _ El Hi Hlf). lia.
  - rewrite length_app. lia.
Qed.

Lemma value_char_sim hs h st i c y :
  errno h = HPE_OK -> (i < length data)%nat -> nth i data 0 = y -> y <> CR -> y <> LF ->
  sim (value_char data hs y) (value_char data' hs y) (mkMachine h u st i c mk)
    (mkMachine (set_hp_state x h) u' st (o + i) c mk')
    (fun a a' s1 s1' => a' = a /\ exists h1 st1 i1, errno h1 = HPE_OK /\ (i <= i1 < length data)%nat /\
       (st1 = st \/ st1 = s_header_value) /\
       s1 = mkMachine h1 u st1 i1 c mk /\ s1' = mkMachine (set_hp_state x h1) u' st1 (o + i1) c mk').
Proof.
  intros Hh Hi <- Hcr Hlf. unfold value_char, value_content_length, match_value.
  destruct hs; repeat sim_step; try by apply skip_value_after.
  all: split; [done|]; do 3 eexists; split; [|split; [|split; [|split; reflexivity]]]; [done| |auto].
  all: try (split; lia). by apply skip_value_bounds.
Qed.

Lemma value_loop_sim fuel start : forall hs h st i c,
  errno h = HPE_OK -> (start <= i <= length data)%nat ->
  (forall j, mk M_header_value = Some j -> j <= start)%nat -> entered st mk ->
  sim (value_loop settings data fuel start hs) (value_loop settings data' fuel (o + start) hs)
    (mkMachine h u st i c mk) (mkMachine (set_hp_state x h) u' st (o + i) c mk')
    (fun a a' s1 s1' => a' = a /\ exists h1 u1 st1 i1 c1 mk1 x1 u1' c1' mk1',
       s1 = mkMachine h1 u1 st1 i1 c1 mk1 /\ owes mk1 mk1' u1 u1' /\ (start <= i1)%nat /\ entered st1 mk1 /\
       s1' = mkMachine (set_hp_state x1 h1) u1' st1 (o + i1) c1' mk1').
Proof.
  induction fuel as [|fuel IH]; intros hs h st i c Hh Hi Hj Hen; [done|]. simpl value_loop. do 2 sim_step.
  rewrite at_end. destruct (Nat.eqb_spec i (length data)) as [E|E].
  { sim_step. split; [done|]. do 10 eexists. split_and!; [reflexivity|exact Ho|lia|exact Hen|reflexivity]. }
  rewrite nth_after. do 2 sim_step.
  assert (forall j, mk M_header_value = Some j -> j <= i)%nat as Hj'
    by (intros j Ej; specialize (Hj _ Ej); lia).
  sim_step.
  { (* CR *) do 5 sim_step. unfold CALLBACK_DATA. do 2 sim_step.
    apply sim_data; [done|exact Ho|done|lia|].
    intros h1 x1 u1 u1' mk1 mk1' _ Ho1. sim_step. split; [done|].
    do 10 eexists. split_and!; [reflexivity|exact Ho1|lia|exact I|reflexivity]. }
  sim_step.
  { (* LF *) do 3 sim_step. replace (o + i - (o + start))%nat with (i - start)%nat by lia.
    do 4 sim_step. unfold CALLBACK_DATA_NOADVANCE. do 2 sim_step.
    apply sim_data; [done|exact Ho|done|lia|].
    intros h1 x1 u1 u1' mk1 mk1' _ Ho1. repeat sim_step. }
  do 2 sim_step. sim_step; [sim_step|]. sim_step. breflect.
  eapply sim_mono; [apply value_char_sim; done || lia|].
  intros a a' s1 s1' [-> (h1 & st1 & i1 & Hh1 & Hi1 & Hst1 & -> & ->)]. do 4 sim_step; [lia|].
  apply IH; [done|lia|done|by destruct Hst1 as [-> | ->]].
Qed.

Lemma header_value_sim h i c :
  errno h = HPE_OK -> (i < length data)%nat -> marks_ok s_header_value i mk ->
  sim (case_header_value settings data) (case_header_value settings data')
    (mkMachine h u s_header_value i c mk) (mkMachine (set_hp_state x h) u' s_header_value (o + i) c mk')
    (fun _ _ => rel false).
Proof.
  intros Hh Hi Hm. unfold case_header_value. do 5 sim_step. rewrite left_after.
  eapply sim_mono; [apply value_loop_sim; [done|lia|by eapply marks_ok_le|exact I]|].
  intros hs hs' s1 s1' [-> (h1 & u1 & st1 & i1 & c1 & mk1 & x1 & u1' & c1' & mk1' & -> & Ho1 & Hi1 & He1 & ->)].
  do 4 sim_step. replace (o + i1 - (o + i))%nat with (i1 - i)%nat by lia. do 2 sim_step. rewrite at_end.
  destruct (Nat.eqb_spec i1 (length data)) as [E|E]; [sim_step; [lia|]|sim_step]; by apply rel_intro.
Qed.
End Headers.

(** *** Bodies *)

Lemma read_body_eq (text : bytes) s :
  0 < content_length (hp s) < ULLONG_MAX ->
  read_body text s =
    (let v := content_length (hp s) in
     let t := Z.min v (Z.of_nat (length text - p s)) in
     mkMachine (set_content_length (v - t) (hp s)) (user s) (p_state s) (p s + Z.to_nat t - 1) (ch s)
       (marked (p s) (marks s) M_body), inl tt).
Proof.
  intros Hv. unfold read_body, MARK, marked, mbind, M_bind. simpl.
  assert (negb (content_length (hp s) =? 0) && negb (content_length (hp s) =? ULLONG_MAX) = true) as ->.
  { apply andb_true_iff. rewrite !negb_true_iff, !Z.eqb_neq. lia. }
  simpl. by destruct (body_mark (marks s)).
Qed.

(** The long call may have begun the read [d] bytes before, at [q]. *)
Section Body.
Context (h : http_parser) (u : U) (i : nat) (c : Z) (mk : mark_vars).
Context (x : state) (u' : U) (c' : Z) (mk' : mark_vars) (d q : nat).
Context (Hq : (q + d = o + i)%nat) (Hi : (i < length data)%nat) (Hh : errno h = HPE_OK).
Context (Ho : owes (marked i mk M_body) (marked q mk' M_body) u u').
Context (Hj : forall j, marked i mk M_body M_body = Some j -> (j <= i)%nat).
#[local] Notation from st := (mkMachine h u st i c mk).
#[local] Notation earlier st :=
  (mkMachine (set_hp_state x (set_content_length (content_length h + Z.of_nat d) h)) u' st q c' mk').

Lemma read_body_sim st Q :
  0 < content_length h -> content_length h + Z.of_nat d < ULLONG_MAX ->
  (forall i1 v, (i <= i1 < length data)%nat -> 0 <= v ->
     Q tt tt (mkMachine (set_content_length v h) u st i1 c (marked i mk M_body))
       (mkMachine (set_hp_state x (set_content_length v h)) u' st (o + i1) c' (marked q mk' M_body))) ->
  sim (read_body data) (read_body data') (from st) (earlier st) Q.
Proof.
  intros Hv Hmax HQ. unfold sim. rewrite !read_body_eq by (simpl; lia). simpl.
  replace (length data' - q)%nat with (length data - i + d)%nat by (rewrite length_app; lia).
  set (t := Z.min (content_length h) (Z.of_nat (length data - i))).
  replace (Z.min (content_length h + Z.of_nat d) (Z.of_nat (length data - i + d)))
    with (t + Z.of_nat d) by (subst t; lia).
  assert (0 < t <= Z.of_nat (length data - i) /\ t <= content_length h) as Ht by (subst t; lia).
  eexists tt, _. split; [reflexivity|].
  replace (content_length h + Z.of_nat d - (t + Z.of_nat d)) with (content_length h - t) by lia.
  replace (q + Z.to_nat (t + Z.of_nat d) - 1)%nat with (o + (i + Z.to_nat t - 1))%nat by lia.
  apply HQ; lia.
Qed.

Lemma body_identity_sim :
  0 < content_length h -> content_length h + Z.of_nat d < ULLONG_MAX ->
  sim (case_body_identity settings data) (case_body_identity settings data') (from s_body_identity)
    (earlier s_body_identity) (fun _ _ => rel false).
Proof.
  intros Hv Hmax. unfold case_body_identity. sim_step. apply read_body_sim; [done|done|].
  intros i1 v Hi1 Hv1. do 2 sim_step. sim_step; [|by apply sim_ret, rel_intro].
  do 4 sim_step. replace (o + i1 + 1)%nat with (o + (i1 + 1))%nat by lia. sim_step.
  apply sim_data; [done|exact Ho|intros j Ej; specialize (Hj _ Ej); lia|lia|].
  intros h1 x1 u1 u1' mk1 mk1' _ Ho1. sim_step. split; [right|done]. split; [by apply rel_intro|done].
Qed.

Lemma assert_chunked_sim Q :
  Q tt tt (from s_chunk_data) (earlier s_chunk_data) ->
  sim assert_chunked assert_chunked (from s_chunk_data) (earlier s_chunk_data) Q.
Proof.
  intros HQ. unfold sim, assert_chunked, mbind, M_bind. simpl.
  change (flag F_CHUNKED (set_hp_state _ _)) with (flag F_CHUNKED h).
  destruct (flag F_CHUNKED h); [|done]. by eexists tt, _.
Qed.

Lemma chunk_data_sim :
  0 < content_length h -> content_length h + Z.of_nat d < ULLONG_MAX ->
  sim (case_chunk_data data) (case_chunk_data data') (from s_chunk_data)
    (earlier s_chunk_data) (fun _ _ => rel false).
Proof.
  intros Hv Hmax. unfold case_chunk_data. sim_step.
  apply assert_chunked_sim. sim_step. apply read_body_sim; [done|done|].
  intros i1 v Hi1 Hv1. do 2 sim_step. sim_step; [sim_step|apply sim_ret]; by apply rel_intro.
Qed.

Lemma body_identity_eof_sim x1 :
  sim (case_body_identity_eof data) (case_body_identity_eof data') (from s_body_identity_eof)
    (mkMachine (set_hp_state x1 h) u' s_body_identity_eof q c' mk') (fun _ _ => rel false).
Proof.
  unfold sim, case_body_identity_eof, MARK, mbind, M_bind. simpl. unfold marked in Ho. simpl in Ho.
  assert (length data' - 1 = o + (length data - 1))%nat as E by (rewrite length_app; lia).
  destruct (body_mark mk), (body_mark mk'); eexists tt, _; (split; [reflexivity|]);
    simpl; rewrite E; by apply rel_intro.
Qed.
End Body.

(** *** The loop *)

Lemma owes_marked st i mk mk' u u' :
  marks_ok st i mk -> (forall k, mark_state k st = true -> k = M_body) -> owes mk mk' u u' ->
  owes (marked i mk M_body) (marked (o + i) mk' M_body) u u'.
Proof.
  intros Hm Hst [(-> & -> & ->)|(k & j & j' & -> & -> & Hd)]; [apply owes_new|].
  assert (k = M_body) as ->; [|right; eauto 6].
  destruct (Hm k j) as [Hk _]; [by rewrite one_mark_get, decide_True|by apply Hst].
Qed.

Lemma marked_le st i mk : marks_ok st i mk -> forall j, marked i mk M_body M_body = Some j -> (j <= i)%nat.
Proof.
  intros Hm j. unfold marked. destruct (mk M_body) as [j1|] eqn:E.
  - intros Ej. rewrite E in Ej. simplify_eq. by destruct (Hm _ _ E).
  - rewrite get_put_mark, decide_True by done. intros [= ->]. lia.
Qed.

Lemma content_length_same h : set_content_length (content_length h + Z.of_nat 0) h = h.
Proof. destruct h. unfold set_content_length. simpl. by rewrite Z.add_0_r. Qed.

Lemma dispatch_sim st h u i c mk x u' c' mk' :
  errno h = HPE_OK -> (i < length data)%nat -> core 1 st h -> marks_ok st i mk -> owes mk mk' u u' ->
  entered st mk -> st = s_message_done \/ c' = c ->
  sim (dispatch settings data st c) (dispatch settings data' st c') (mkMachine h u st i c mk)
    (mkMachine (set_hp_state x h) u' st (o + i) c' mk') (fun _ _ => rel false).
Proof.
  intros Hh Hi Hc Hm Ho Hen Hcc. destruct (plain st) eqn:Hp.
  { destruct (owes_plain st i mk mk' u u') as (-> & -> & ->);
      [intros []; by destruct st|done|done|by apply dispatch_plain]. }
  assert (c' = c) as -> by (by destruct Hcc as [->|]).
  pose proof (core_state _ _ _ Hc) as Hv. pose proof (marked_le _ _ _ Hm) as Hle.
  destruct st; try done; simpl dispatch; simpl in Hv;
    first [ by apply req_schema_sim | by apply req_url_sim | by apply res_status_sim
          | by apply header_field_sim | by apply header_value_sim
          | by apply chunk_data_almost_done_sim
          | by destruct (owes_plain s_header_value_discard_lws i mk mk' u u') as (-> & -> & ->);
              [by intros []|done|done|apply header_value_discard_lws_sim]
          | assert (owes (marked i mk M_body) (marked (o + i) mk' M_body) u u') as Ho'
              by (eapply owes_marked; [exact Hm|by intros []|done]) ].
  - rewrite <- (content_length_same h) at 2. apply chunk_data_sim; done || lia.
  - rewrite <- (content_length_same h) at 2. apply body_identity_sim; done || lia.
  - apply body_identity_eof_sim with (d := 0%nat); done || lia.
Qed.

Lemma sim_wp {A A'} (m : M U A) (m' : M U A') s s' (Q Q' : A -> A' -> machine U -> machine U -> Prop) P E :
  wp m s P E -> sim m m' s s' Q ->
  (forall a a' s1 s1', P a s1 -> Q a a' s1 s1' -> Q' a a' s1 s1') -> sim m m' s s' Q'.
Proof.
  unfold sim, wp. intros Hw H HQ. destruct (m s) as [s1 [a|[]]]; try done.
  destruct H as (a' & s1' & ? & ?). eauto.
Qed.

Lemma reexecute_step fuel s s' :
  inv 1 s -> (p s < length data)%nat ->
  (forall s s', inv 1 s -> (p s < length data)%nat -> at_byte s s' ->
     sim (reexecute settings data fuel) (reexecute settings data' fuel) s s' (fun _ _ => rel false)) ->
  sim (dispatch settings data (p_state s) (ch s)) (dispatch settings data' (p_state s') (ch s')) s s'
    (fun _ _ => rel false) ->
  sim (reexecute settings data (S fuel)) (reexecute settings data' (S fuel)) s s' (fun _ _ => rel false).
Proof.
  pose proof (pure_client_ok _ _ Hpc) as Hset. destruct s as [h u st i c mk]. intros [Hh Hc Hm] Hi IH Hd.
  pose proof (dispatch_ok settings data Hset st h u i c mk Hh Hi Hc Hm) as Hw.
  unfold sim, wp in *. simpl in *.
  destruct (dispatch settings data st c _) as [s1 [[]|[]]]; try done.
  - destruct Hd as (a' & s1' & -> & Hr). by exists a', s1'.
  - destruct Hd as (s1' & -> & Ha1). destruct Hw as (Hinv & Hi1 & _). apply IH; [done|lia|apply Ha1].
  - destruct Hd as (s1' & -> & Hr). by exists s1'.
  - destruct Hd as (s1' & -> & Hr). by exists s1'.
Qed.

Lemma reexecute_sim fuel : forall s s',
  inv 1 s -> (p s < length data)%nat -> at_byte s s' ->
  sim (reexecute settings data fuel) (reexecute settings data' fuel) s s' (fun _ _ => rel false).
Proof.
  induction fuel as [|fuel IH]; [done|]. intros s s' Hinv Hi Ha. apply reexecute_step; [done|done|exact IH|].
  destruct s as [h u st i c mk], s' as [h' u' st' i' c' mk'], Hinv as [Hh Hc Hm].
  assert (exists x, h' = set_hp_state x h /\ st' = st /\ i' = (o + i)%nat /\ owes mk mk' u u' /\
            entered st mk /\ (st = s_message_done \/ c' = c)) as (x & -> & -> & -> & Ho & Hen & Hcc).
  { simpl in *. destruct Ha as [[[x Hx] ? ? Hch ? ?]|[[[x Hx] ? ? _ ? ?] ?]]; simpl in *; exists x; auto 10. }
  by apply dispatch_sim.
Qed.

Lemma rel_elim s s' : rel false s s' -> exists h u st i c mk x u' c' mk',
  s = mkMachine h u st i c mk /\ s' = mkMachine (set_hp_state x h) u' st (o + i) c' mk' /\
  owes mk mk' u u' /\ entered st mk.
Proof.
  destruct s, s'. intros [[x Hx] ? ? _ ? ?]. simpl in *. subst. by do 10 eexists.
Qed.

(** The byte is counted. *)
Lemma wp_counted h u st i c mk :
  inv 0 (mkMachine h u st i c mk) ->
  wp (if PARSING_HEADER st then COUNT_HEADER_SIZE 1 else mret tt) (mkMachine h u st i c mk)
    (fun _ s1 => inv 1 s1 /\ p s1 = i) (fun _ _ => True).
Proof.
  intros [Hh Hc Hm]. simpl in *. destruct (PARSING_HEADER st) eqn:Hp.
  - assert (u32 (nread h + 1) = nread h + 1) as Hu.
    { apply u32_small. pose proof (core_nread _ _ _ Hc). unfold HTTP_MAX_HEADER_SIZE in *. lia. }
    apply wp_count; [done|]. intros Hn. rewrite Hu in Hn. split; [|done].
    split; [done| |done]. by apply core_count.
  - apply wp_ret. split; [|done]. split; [done| |done]. simpl. eapply core_move; [done|].
    pose proof (core_state _ _ _ Hc). by destruct st.
Qed.

Lemma for_body_sim s s' :
  inv 0 s -> (p s < length data)%nat -> rel false s s' ->
  sim (for_body settings data) (for_body settings data') s s' (fun _ _ => rel false).
Proof.
  intros Hinv Hi Hr. destruct (rel_elim _ _ Hr) as (h & u & st & i & c & mk & x & u' & c' & mk' & -> & -> & Ho & Hen).
  simpl in Hi. unfold for_body. do 2 sim_step. rewrite nth_after. do 4 sim_step. sim_step.
  eapply sim_wp; [apply wp_counted; destruct Hinv; by split| |].
  - instantiate (1 := fun _ _ s1 s1' => rel true s1 s1'). sim_step; repeat sim_step.
  - intros [] [] s1 s1' [Hinv1 Hp1] Hr1. apply reexecute_sim; [done|lia|by left].
Qed.

Lemma loop_step fuel fuel' s s' :
  inv 0 s -> (p s < length data)%nat -> p s' <> length data' ->
  sim (for_body settings data) (for_body settings data') s s' (fun _ _ => rel false) ->
  (forall s1 s1', inv 0 s1 -> (p s < p s1 <= length data)%nat -> rel false s1 s1' ->
     sim (for_loop settings data fuel) (for_loop settings data' fuel') s1 s1' (fun _ _ => rel false)) ->
  sim (for_loop settings data (S fuel)) (for_loop settings data' (S fuel')) s s' (fun _ _ => rel false).
Proof.
  intros Hinv Hi Hi' Hb Hl. pose proof (pure_client_ok _ _ Hpc) as Hset.
  assert (forall (text : bytes) n s, p s <> length text ->
    for_loop settings text (S n) s =
      (for_body settings text;; i ← get p; set_p (i + 1);; for_loop settings text n) s) as Hfl.
  { intros text n s0 Hs0. simpl for_loop. unfold mbind at 1, M_bind at 1. simpl.
    by rewrite (proj2 (Nat.eqb_neq _ _) Hs0). }
  unfold sim. rewrite !Hfl by (done || lia). apply sim_bind.
  eapply sim_wp; [apply (for_body_ok settings data Hset); [exact Hinv|done]|exact Hb|].
  intros [] [] s1 s1' [Hinv1 Hp1] Hr1.
  destruct (rel_elim _ _ Hr1) as (h1 & u1 & st1 & i1 & c1 & mk1 & x1 & u1' & c1' & mk1' & -> & -> & Ho1 & He1).
  simpl in Hp1. do 4 sim_step; [lia|]. apply Hl; [|simpl; lia|by apply rel_intro].
  destruct Hinv1 as [Hh1 Hc1 Hm1]. split; [done|done|]. eapply marks_ok_move; [exact Hm1|done|simpl; lia].
Qed.

Lemma for_loop_sim fuel fuel' : forall s s',
  inv 0 s -> (p s <= length data)%nat -> (length data - p s < fuel')%nat -> rel false s s' ->
  sim (for_loop settings data fuel) (for_loop settings data' fuel') s s' (fun _ _ => rel false).
Proof.
  revert fuel'. induction fuel as [|fuel IH]; intros fuel' s s' Hinv Hi Hf Hr; [done|].
  destruct fuel' as [|fuel']; [lia|]. destruct (decide (p s = length data)) as [E|E].
  - simpl for_loop. destruct (rel_elim _ _ Hr) as (h & u & st & i & c & mk & x & u' & c' & mk' & -> & -> & Ho & Hen).
    simpl in E. do 2 sim_step. rewrite at_end, E, Nat.eqb_refl. sim_step. by apply rel_intro.
  - apply loop_step; [done|lia|rewrite length_app; destruct Hr; lia|apply for_body_sim; done || lia|].
    intros s1 s1' Hinv1 Hp1 Hr1. apply IH; [done|lia|lia|done].
Qed.

(** *** The first byte

    The short call begins; the long call stands at the same byte, or at an earlier byte of the
    body, where it is about to read what is left of it. *)
Record inside_body s s' : Prop := {
  ib_state : reads_body (p_state s) = true /\ p_state s' = p_state s;
  ib_p : p s = 0%nat /\ exists d, (p s' + d = o)%nat /\
    exists x, hp s' = set_hp_state x (hp s) /\ p_state s = s_body_identity_eof \/
      (hp s' = set_hp_state x (set_content_length (content_length (hp s) + Z.of_nat d) (hp s)) /\
       p_state s <> s_body_identity_eof /\ content_length (hp s) + Z.of_nat d < ULLONG_MAX);
  ib_marks : marks s = no_mark;
  ib_owes : owes (one_mark M_body 0) (marked (p s') (marks s') M_body) (user s) (user s')
}.

Definition after_body s s' : Prop :=
  p_state s = s_chunk_data_almost_done /\ p_state s' = p_state s /\ p s = 0%nat /\ p s' = (o + 0)%nat /\
  marks s = no_mark /\ (exists x, hp s' = set_hp_state x (hp s)) /\
  exists j, marks s' = one_mark M_body j /\ owed M_body 0 j (user s) (user s').

Definition resumes s s' : Prop := (rel false s s' /\ p s = 0%nat) \/ inside_body s s' \/ after_body s s'.

Lemma for_body_eq (text : bytes) s :
  PARSING_HEADER (p_state s) = false ->
  for_body settings text s =
    reexecute settings text reexecute_fuel
      (mkMachine (hp s) (user s) (p_state s) (p s) (nth (p s) text 0) (marks s)).
Proof. intros Hp. unfold for_body, mbind, M_bind. simpl. by rewrite Hp. Qed.

Lemma inv_counted h u st i c c' mk :
  PARSING_HEADER st = false -> inv 0 (mkMachine h u st i c mk) -> inv 1 (mkMachine h u st i c' mk).
Proof.
  intros Hp [Hh Hc Hm]. split; [done| |done]. simpl in *. eapply core_move; [done|].
  pose proof (core_state _ _ _ Hc). by destruct st.
Qed.

Lemma inside_body_sim s s' :
  inv 0 s -> data <> [] -> inside_body s s' ->
  sim (for_body settings data) (for_body settings data') s s' (fun _ _ => rel false).
Proof.
  intros Hinv Hd [[Hst Hst'] [Hp0 (d & Hpd & x & Hx)] Hm Ho].
  destruct s as [h u st i c mk], s' as [h' u' st' q c' mk']. simpl in *. subst i st' mk.
  assert (PARSING_HEADER st = false) as Hph by by destruct st.
  assert (0 < length data)%nat as Hl by (destruct data; [done|simpl; lia]).
  unfold sim. rewrite !for_body_eq by done. simpl.
  apply (reexecute_step 3 (mkMachine h u st 0 (nth 0 data 0) no_mark)
           (mkMachine h' u' st q (nth q data' 0) mk')); [by eapply inv_counted|done|apply reexecute_sim|].
  pose proof (core_state _ _ _ (inv_core _ _ Hinv)) as Hv. pose proof (inv_errno _ _ Hinv) as Hh. simpl in *.
  assert (forall j, marked 0 no_mark M_body M_body = Some j -> (j <= 0)%nat) as Hj by (intros j [= <-]; lia).
  destruct Hx as [[-> ->]|(-> & Hne & Hmax)].
  - apply body_identity_eof_sim with (d := d); [lia|done|done].
  - destruct st; try done.
    + apply chunk_data_sim; first [done|lia|apply Hv].
    + apply body_identity_sim; first [done|lia|apply Hv].
Qed.

(** The data the client already has, and the long call still owes. *)
Lemma sim_data_owed er er' h u st c x u' c' j Q :
  errno h = HPE_OK -> piecewise (fd M_body) -> owed M_body 0 j u u' ->
  (forall x1, Q tt tt (mkMachine h u st 0 c no_mark) (mkMachine (set_hp_state x1 h) u st (o + 0) c' no_mark)) ->
  sim (CALLBACK_DATA_ settings data M_body 0 er) (CALLBACK_DATA_ settings data' M_body (o + 0) er')
    (mkMachine h u st 0 c no_mark) (mkMachine (set_hp_state x h) u' st (o + 0) c' (one_mark M_body j)) Q.
Proof.
  intros Hh [Hnil _] Ho HQ. pose proof (owed_flush _ _ _ 0 _ _ Ho ltac:(lia)) as Ef.
  change (slice data 0 (0 - 0)) with (@nil Z) in Ef. rewrite Hnil in Ef.
  unfold sim, CALLBACK_DATA_, mbind, M_bind. simpl.
  rewrite (bool_decide_true (errno h = HPE_OK)) by done. simpl.
  destruct (pc_data _ _ Hpc M_body) as [E|[E En]]; simpl in E; rewrite E; eexists tt, _.
  - unfold pure_cb. rewrite callback_eq by done. unfold set_mark. simpl. rewrite Ef.
    split; [reflexivity|apply (HQ st)].
  - rewrite En in Ef. rewrite Ef. unfold set_mark. simpl. split; [reflexivity|apply (HQ x)].
Qed.

Lemma after_body_sim s s' :
  inv 0 s -> data <> [] -> piecewise (fd M_body) -> after_body s s' ->
  sim (for_body settings data) (for_body settings data') s s' (fun _ _ => rel false).
Proof.
  intros Hinv Hd Hpw (Hst & Hst' & Hp & Hp' & Hm & [x Hx] & j & Hj & Ho).
  assert (0 < length data)%nat as Hl by (destruct data; [done|simpl; lia]).
  destruct s as [h u st i c mk], s' as [h' u' st' q c' mk']. simpl in *. subst i st' mk mk' st q h'.
  unfold sim. rewrite !for_body_eq by done. simpl. rewrite nth_after. set (y := nth 0 data 0).
  apply (reexecute_step 3 (mkMachine h u s_chunk_data_almost_done 0 y no_mark)
           (mkMachine (set_hp_state x h) u' s_chunk_data_almost_done (o + 0) y (one_mark M_body j)));
    [by eapply inv_counted|done|apply reexecute_sim|].
  pose proof (inv_errno _ _ Hinv) as Hh. simpl in Hh.
  simpl dispatch. unfold case_chunk_data_almost_done, assert_chunked, CALLBACK_DATA.
  do 14 sim_step. apply sim_data_owed; [done|done|done|].
  intros x1. apply rel_intro; [done|apply owes_none|exact I].
Qed.

Lemma for_loop_resumes fuel s s' :
  inv 0 s -> data <> [] -> piecewise (fd M_body) -> resumes s s' -> (length data < fuel)%nat ->
  sim (for_loop settings data (S (length data))) (for_loop settings data' fuel) s s' (fun _ _ => rel false).
Proof.
  intros Hinv Hd Hpw Hr Hf. pose proof (pure_client_ok _ _ Hpc) as Hset.
  assert (0 < length data)%nat as Hl by (destruct data; [done|simpl; lia]).
  assert (p s = 0%nat) as Hp by (by destruct Hr as [[_ ?]|[[_ [? _] _ _]|(_ & _ & ? & _)]]).
  assert (sim (for_body settings data) (for_body settings data') s s' (fun _ _ => rel false)) as Hb.
  { destruct Hr as [[Hr _]|[Hr|Hr]]; [apply for_body_sim; done || lia|by apply inside_body_sim|
      by apply after_body_sim]. }
  assert (p s' <> length data') as Hne.
  { rewrite length_app. destruct Hr as [[[_ _ ? _ _ _] _]|[[_ [_ (d & ? & _)] _ _]|(_ & _ & _ & ? & _)]]; lia. }
  destruct fuel as [|fuel]; [lia|]. apply loop_step; [done|lia|done|done|].
  intros s1 s1' Hinv1 Hp1 Hr1. apply for_loop_sim; [done|lia|lia|done].
Qed.
End Suffix.

(** ** The call on [d1] and the beginning of the call on [d1 ++ post] *)

Section Prefix.
Context {U : Type} (settings : http_parser_settings U) (fd : mark_id -> bytes -> U -> U).
Context (Hpc : pure_client settings fd) (data post : bytes).
#[local] Notation len := (length data).
#[local] Notation data' := (data ++ post).
Implicit Types (h : http_parser) (u : U) (i j : nat) (c : Z) (mk : mark_vars) (s : machine U).

Lemma nth_before i : (i < len)%nat -> nth i data' 0 = nth i data 0.
Proof. intros Hi. by apply app_nth1. Qed.

Lemma slice_before j upto : (upto <= len)%nat -> slice data' j (upto - j) = slice data j (upto - j).
Proof.
  intros Hu. unfold slice. destruct (decide (j <= upto)%nat) as [Hj|Hj].
  - rewrite drop_app_le by lia. apply take_app_le. rewrite length_drop. lia.
  - by replace (upto - j)%nat with 0%nat by lia.
Qed.

Lemma data_before k upto er s :
  (upto <= len)%nat -> CALLBACK_DATA_ settings data' k upto er s = CALLBACK_DATA_ settings data k upto er s.
Proof.
  intros Hu. unfold CALLBACK_DATA_, mbind, M_bind. simpl.
  destruct (bool_decide (errno (hp s) = HPE_OK)); [|done]. simpl.
  destruct (marks s k) as [j|]; [|done]. destruct (data_cb settings k); [|done].
  by rewrite slice_before.
Qed.

(** The name or the value of a header reaches the end of the data. *)
Definition inside_header (s : machine U) : Prop :=
  p_state s = s_header_field \/ p_state s = s_header_value.

(** The body reaches the end of the data: [s] is the machine before, [s1] after the read. *)
Definition body_cut s s1 : Prop :=
  reads_body (p_state s) = true /\ p_state s1 = p_state s /\ user s1 = user s /\
  marks s1 = marked (p s) (marks s) M_body /\ exists d, (p s + d = len)%nat /\
  ((p_state s = s_body_identity_eof /\ hp s1 = hp s) \/
   (p_state s <> s_body_identity_eof /\ 0 < content_length (hp s1) /\
    hp s = set_content_length (content_length (hp s1) + Z.of_nat d) (hp s1))).

(** What the longer call does when the shorter one goes from [s] to [s1]. *)
Definition agrees (m m' : M U unit) s : Prop :=
  match m s with
  | (s1, inl tt) => m' s = (s1, inl tt) \/ (p s1 + 1 = len /\ (inside_header s1 \/ body_cut s s1))%nat
  | (s1, inr Reexecute) => m' s = (s1, inr Reexecute)
  | _ => True
  end.

Lemma agrees_refl m s : agrees m m s.
Proof. unfold agrees. destruct (m s) as [s1 [[]|[]]]; auto. Qed.

Lemma agrees_eq m m' s : m' s = m s -> agrees m m' s.
Proof. unfold agrees. intros ->. destruct (m s) as [s1 [[]|[]]]; auto. Qed.

(** *** Header names and values *)

Lemma field_loop_before f f' : forall s, (f <= f')%nat -> (p s <= len)%nat ->
  match field_loop data f s with
  | (s1, inl tt) => p s1 = len \/ field_loop data' f' s = (s1, inl tt)
  | _ => True
  end.
Proof.
  revert f'. induction f as [|f IH]; intros f' s Hf Hp; [done|]. destruct f' as [|f']; [lia|].
  simpl field_loop. unfold mbind, M_bind. simpl. destruct (Nat.eqb_spec (p s) len) as [E|E]; [by left|].
  rewrite (proj2 (Nat.eqb_neq (p s) (length data'))) by (rewrite length_app; lia).
  simpl. rewrite nth_before by lia. set (y := nth (p s) data 0).
  destruct (TOKEN y =? 0); [by right|]. destruct (field_char y (TOKEN y) _) as [s' [[]|]]; [|done].
  apply IH; simpl; lia.
Qed.

Lemma before_end i : i <> len -> (i <= len)%nat -> (i =? length data')%nat = false.
Proof. intros Hi Hl. apply Nat.eqb_neq. rewrite length_app. lia. Qed.

Lemma count_cases v s :
  COUNT_HEADER_SIZE v s =
    (mkMachine (set_nread (u32 (nread (hp s) + v)) (hp s)) (user s) (p_state s) (p s) (ch s) (marks s), inl tt) \/
  exists s', COUNT_HEADER_SIZE v s = (s', inr GotoError).
Proof. unfold COUNT_HEADER_SIZE, mbind, M_bind. simpl. case_match; [right; by eexists|by left]. Qed.

(** What follows the loop over a name. *)
Definition field_end (text : bytes) (start : nat) : M U unit :=
  i ← get p;
  COUNT_HEADER_SIZE (Z.of_nat (i - start));;
  if (i =? length text)%nat then set_p (i - 1)
  else
    c ← get ch;
    if c =? chr ":" then
      UPDATE_STATE s_header_value_discard_ws;;
      CALLBACK_DATA settings text M_header_field
    else fail_with HPE_INVALID_HEADER_TOKEN.

Lemma case_header_field_eq text s :
  case_header_field settings text s =
    match field_loop text (S (length text - p s)) s with
    | (s1, inl _) => field_end text (p s) s1
    | (s1, inr j) => (s1, inr j)
    end.
Proof. reflexivity. Qed.

Lemma field_end_before start s : (p s < len)%nat -> field_end data' start s = field_end data start s.
Proof.
  intros Hp. unfold field_end, mbind, M_bind. simpl.
  destruct (count_cases (Z.of_nat (p s - start)) s) as [-> |[s2 ->]]; [|done].
  rewrite (proj2 (Nat.eqb_neq (p s) len)), before_end by lia. simpl.
  case_match; [|done]. apply data_before. simpl. lia.
Qed.

Lemma header_field_agrees s :
  p_state s = s_header_field -> inv 1 s -> (p s < len)%nat ->
  agrees (case_header_field settings data) (case_header_field settings data') s.
Proof.
  intros Hst Hinv Hp. unfold agrees. rewrite !case_header_field_eq.
  pose proof (field_loop_before (S (len - p s)) (S (length data' - p s)) s
                ltac:(rewrite length_app; lia) ltac:(lia)) as Hl.
  assert (match field_loop data (S (len - p s)) s with
          | (s1, inl _) => p_state s1 = s_header_field /\ (p s1 <= len)%nat
          | (_, inr j) => j = GotoError end) as Hw.
  { destruct s as [h u st i c mk], Hinv as [Hh Hc Hm]. cbn [hp user p_state p ch marks] in *. subst st.
    pose proof (wp_field_loop data (S (len - i)) h u i c mk Hh Hc ltac:(lia) ltac:(lia)) as Hw.
    unfold wp in Hw. destruct (field_loop data _ _) as [s1 [[]|j]].
    - destruct Hw as (h' & i' & c' & -> & _ & _ & ?). simpl. split; [done|lia].
    - by destruct Hw. }
  destruct (field_loop data _ s) as [s1 [[]|j]]; [|by subst j]. destruct Hw as [Hs1 Hp1].
  destruct (decide (p s1 = len)) as [E|E].
  - unfold field_end, mbind, M_bind. simpl.
    destruct (count_cases (Z.of_nat (p s1 - p s)) s1) as [-> |[s2 ->]]; [|done].
    rewrite E, Nat.eqb_refl. right. simpl. split; [lia|]. left. by left.
  - destruct Hl as [Hl|Hl]; [done|]. rewrite Hl, field_end_before by lia.
    destruct (field_end data (p s) s1) as [s2 [[]|[]]]; auto.
Qed.

Lemma memchr_from_before (l : bytes) c : forall i lim lim' r,
  memchr_from l c i lim = Some r -> (lim <= lim')%nat ->
  memchr_from (l ++ post) c i lim' = Some r /\ (r < i + lim)%nat.
Proof.
  induction l as [|y l IH]; intros i [|lim] [|lim'] r; simpl; try done; try lia.
  case_match; [intros [= ->] _; split; [done|lia]|]. intros Hr Hle.
  destruct (IH _ _ lim' _ Hr ltac:(lia)) as [? ?]. split; [done|lia].
Qed.

Lemma memchr_from_later (l : bytes) c : forall i lim lim' r,
  memchr_from (l ++ post) c i lim' = Some r -> memchr_from l c i lim = None -> (lim <= length l)%nat ->
  (lim <= lim')%nat -> (i + lim <= r)%nat.
Proof.
  induction l as [|y l IH]; intros i lim lim' r Hr Hn Hl Hlim.
  { simpl in Hl. apply memchr_from_Some in Hr as [? _]. lia. }
  destruct lim as [|lim]; [apply memchr_from_Some in Hr as [? _]; lia|].
  destruct lim' as [|lim']; [lia|]. simpl in *. case_match; [done|].
  specialize (IH _ lim lim' _ Hr Hn). lia.
Qed.

Lemma skip_value_before i : (i < len)%nat ->
  (skip_value data i + 1 = len)%nat \/ skip_value data' i = skip_value data i.
Proof.
  intros Hi. unfold skip_value, memchr. rewrite drop_app_le by lia.
  set (lim := Nat.min (len - i) _). set (lim' := Nat.min (length data' - i) _).
  assert (lim <= lim')%nat as Hlim by (subst lim lim'; rewrite length_app; lia).
  assert (lim <= length (drop i data))%nat as Hl by (rewrite length_drop; subst lim; lia).
  destruct (memchr_from (drop i data) CR i lim) as [r|] eqn:Er;
    destruct (memchr_from (drop i data) LF i lim) as [l|] eqn:El.
  - destruct (memchr_from_before _ _ _ _ _ _ Er Hlim) as [-> _].
    destruct (memchr_from_before _ _ _ _ _ _ El Hlim) as [-> _]. by right.
  - destruct (memchr_from_before _ _ _ _ _ _ Er Hlim) as [-> Hr]. right.
    destruct (memchr_from (drop i data ++ post) LF i lim') as [l|] eqn:El'; [|done].
    pose proof (memchr_from_later _ _ _ _ _ _ El' El Hl Hlim). by rewrite (proj2 (Nat.leb_gt _ _)) by lia.
  - destruct (memchr_from_before _ _ _ _ _ _ El Hlim) as [-> Hr]. right.
    destruct (memchr_from (drop i data ++ post) CR i lim') as [r|] eqn:Er'; [|done].
    pose proof (memchr_from_later _ _ _ _ _ _ Er' Er Hl Hlim). by rewrite (proj2 (Nat.leb_le _ _)) by lia.
  - left. lia.
Qed.

Lemma value_char_before hs y s : (p s < len)%nat ->
  value_char data' hs y s = value_char data hs y s \/
  exists s1, value_char data hs y s = (s1, inl hs) /\ (p s1 + 1 = len)%nat /\ p_state s1 = p_state s.
Proof.
  intros Hp. destruct hs; try by left. unfold value_char, mbind, M_bind. simpl.
  destruct (skip_value_before (p s) Hp) as [E|E]; [right; by eexists|left; by rewrite E].
Qed.

Lemma value_char_state hs y s s1 hs1 :
  p_state s = s_header_value -> value_char data hs y s = (s1, inl hs1) -> p_state s1 = s_header_value.
Proof.
  intros Hst. unfold value_char, value_content_length, match_value, mbind, M_bind, mret, M_ret.
  destruct hs; simpl; repeat case_match; simpl in *; intros; simplify_eq; done.
Qed.

Lemma value_char_p hs y s s1 hs1 :
  (p s < len)%nat -> nth (p s) data 0 = y -> y <> CR -> y <> LF ->
  value_char data hs y s = (s1, inl hs1) -> (p s1 < len)%nat.
Proof.
  intros Hp <- Hcr Hlf. pose proof (skip_value_bounds data (p s) Hp Hcr Hlf) as Hb.
  unfold value_char, value_content_length, match_value, mbind, M_bind, mret, M_ret.
  destruct hs; simpl; repeat case_match; simpl in *; intros; simplify_eq; simpl; lia.
Qed.

Lemma data_p (text : bytes) k upto er s s1 :
  CALLBACK_DATA_ settings text k upto er s = (s1, inl tt) -> p s1 = p s.
Proof.
  unfold CALLBACK_DATA_, assert_, run_callback, mbind, M_bind, mret, M_ret, leave, set_mark. simpl.
  repeat case_match; simpl in *; intros; simplify_eq; repeat case_match; simplify_eq; done.
Qed.

(** The end of a value, at a CR or at a LF. *)
Definition value_cr (text : bytes) (hs : header_states) : M U header_states :=
  UPDATE_STATE s_header_almost_done;;
  modify (set_header_state hs);;
  CALLBACK_DATA settings text M_header_value;;
  mret hs.
Definition value_lf (text : bytes) (start : nat) (hs : header_states) : M U header_states :=
  UPDATE_STATE s_header_almost_done;;
  i ← get p;
  COUNT_HEADER_SIZE (Z.of_nat (i - start));;
  modify (set_header_state hs);;
  CALLBACK_DATA_NOADVANCE settings text M_header_value;;
  REEXECUTE.

Definition with_ch s (c : Z) : machine U := mkMachine (hp s) (user s) (p_state s) (p s) c (marks s).
Definition with_p s (i : nat) : machine U := mkMachine (hp s) (user s) (p_state s) i (ch s) (marks s).

Lemma value_loop_S (text : bytes) f start hs s :
  value_loop settings text (S f) start hs s =
    if (p s =? length text)%nat then (s, inl hs)
    else
      let y := nth (p s) text 0 in
      let s0 := with_ch s y in
      if y =? CR then value_cr text hs s0
      else if y =? LF then value_lf text start hs s0
      else if negb (lenient_http_headers (hp s)) && negb (IS_HEADER_CHAR y)
      then fail_with HPE_INVALID_HEADER_TOKEN s0
      else
        match value_char text hs y s0 with
        | (s1, inl hs1) => value_loop settings text f start hs1 (with_p s1 (p s1 + 1))
        | (s1, inr j) => (s1, inr j)
        end.
Proof.
  simpl value_loop. unfold mbind at 1, M_bind at 1. cbn [get].
  destruct (p s =? length text)%nat; [done|]. unfold mbind at 1, M_bind at 1. cbn [set_ch].
  fold (with_ch s (nth (p s) text 0)). cbv zeta. set (y := nth (p s) text 0).
  destruct (y =? CR); [done|]. destruct (y =? LF); [done|].
  unfold mbind at 1, M_bind at 1. cbn [get]. simpl (hp (with_ch s y)).
  destruct (_ && _); [done|]. unfold mbind at 1, M_bind at 1.
  destruct (value_char text hs y (with_ch s y)) as [s1 [hs1|j]]; done.
Qed.

Lemma value_loop_before f f' start : forall hs s,
  (f <= f')%nat -> (p s <= len)%nat -> p_state s = s_header_value ->
  match value_loop settings data f start hs s with
  | (s1, inl hs1) =>
      (p s1 = len /\ p_state s1 = s_header_value) \/
      (value_loop settings data' f' start hs s = (s1, inl hs1) /\ (p s1 < len)%nat)
  | (s1, inr Reexecute) => value_loop settings data' f' start hs s = (s1, inr Reexecute)
  | _ => True
  end.
Proof.
  revert f'. induction f as [|f IH]; intros f' hs s Hf Hp Hst; [done|]. destruct f' as [|f']; [lia|].
  rewrite !value_loop_S. destruct (Nat.eqb_spec (p s) len) as [E|E]; [by left|].
  rewrite before_end, nth_before by lia. cbv zeta. remember (nth (p s) data 0) as y eqn:Hy.
  assert (p (with_ch s y) < len)%nat as Hp0 by (simpl; lia).
  destruct (Z.eqb_spec y CR) as [Ec|Ec].
  { unfold value_cr, CALLBACK_DATA, mbind, M_bind. simpl. rewrite data_before by (simpl; lia).
    destruct (CALLBACK_DATA_ _ _ _ _ _ _) as [s1 [[]|[]]] eqn:Ed; simpl; try done.
    - apply data_p in Ed. simpl in Ed. right. split; [done|lia]. }
  destruct (Z.eqb_spec y LF) as [El|El].
  { unfold value_lf, CALLBACK_DATA_NOADVANCE, mbind, M_bind. simpl.
    destruct (count_cases (Z.of_nat (p s - start)) (mkMachine (hp s) (user s) s_header_almost_done (p s) y (marks s)))
      as [-> |[s2 ->]]; [|done]. simpl. rewrite data_before by (simpl; lia).
    by destruct (CALLBACK_DATA_ _ _ _ _ _ _) as [s1 [[]|[]]]. }
  destruct (_ && _); [done|].
  destruct (value_char data hs y (with_ch s y)) as [s1 [hs1|j]] eqn:Ev.
  - pose proof (value_char_state _ _ (with_ch s y) _ _ Hst Ev) as Hst1.
    pose proof (value_char_p _ _ (with_ch s y) _ _ Hp0 (eq_sym Hy) Ec El Ev) as Hp1.
    destruct (value_char_before hs y _ Hp0) as [Eb|(s2 & E2 & Hend & _)].
    + rewrite Eb, Ev. apply IH; [lia|simpl; lia|done].
    + rewrite E2 in Ev. simplify_eq. destruct f as [|f]; [done|].
      rewrite !value_loop_S. simpl p. rewrite Hend, Nat.eqb_refl. by left.
  - destruct j; try done. destruct (value_char_before hs y _ Hp0) as [Eb|(s2 & E2 & _)].
    + by rewrite Eb, Ev.
    + rewrite E2 in Ev. done.
Qed.

Definition value_rest (text : bytes) (start : nat) (hs : header_states) : M U unit :=
  modify (set_header_state hs);;
  i ← get p;
  COUNT_HEADER_SIZE (Z.of_nat (i - start));;
  if (i =? length text)%nat then set_p (i - 1) else mret tt.

Lemma case_header_value_eq text s :
  case_header_value settings text s =
    match value_loop settings text (S (length text - p s)) (p s) (header_state (hp s)) s with
    | (s1, inl hs) => value_rest text (p s) hs s1
    | (s1, inr j) => (s1, inr j)
    end.
Proof. reflexivity. Qed.

Lemma header_value_agrees s :
  p_state s = s_header_value -> (p s < len)%nat ->
  agrees (case_header_value settings data) (case_header_value settings data') s.
Proof.
  intros Hst Hp. unfold agrees. rewrite !case_header_value_eq.
  pose proof (value_loop_before (S (len - p s)) (S (length data' - p s)) (p s) (header_state (hp s)) s
                ltac:(rewrite length_app; lia) ltac:(lia) Hst) as Hl.
  destruct (value_loop settings data _ _ _ s) as [s1 [hs|[]]]; try done; [|by rewrite Hl].
  destruct Hl as [[E Hs1]|[-> Hp1]]; unfold value_rest, mbind, M_bind; simpl;
    destruct (count_cases (Z.of_nat (p s1 - p s))
      (mkMachine (set_header_state hs (hp s1)) (user s1) (p_state s1) (p s1) (ch s1) (marks s1)))
      as [-> |[s2 ->]]; try done.
  - rewrite E, Nat.eqb_refl. right. simpl. split; [lia|]. left. by right.
  - rewrite (proj2 (Nat.eqb_neq (p s1) len)), before_end by lia. by left.
Qed.

(** *** Bodies *)

Lemma read_body_before s :
  0 < content_length (hp s) < ULLONG_MAX -> (p s < len)%nat ->
  exists s1, read_body data s = (s1, inl tt) /\ p_state s1 = p_state s /\ (p s1 < len)%nat /\
    ((content_length (hp s) <= Z.of_nat (len - p s) /\ read_body data' s = (s1, inl tt)) \/
     (0 < content_length (hp s1) /\ (p s1 + 1 = len)%nat /\ user s1 = user s /\ ch s1 = ch s /\
      marks s1 = marked (p s) (marks s) M_body /\
      hp s = set_content_length (content_length (hp s1) + Z.of_nat (len - p s)) (hp s1))).
Proof.
  intros Hv Hp. rewrite !read_body_eq by done. cbv zeta.
  assert (len - p s <= length data' - p s)%nat as Hle by (rewrite length_app; lia).
  destruct (Z.le_gt_cases (content_length (hp s)) (Z.of_nat (len - p s))) as [Hc|Hc].
  - eexists. split; [reflexivity|]. split; [done|]. split; [simpl; lia|]. left. split; [done|].
    by rewrite !Z.min_l by lia.
  - eexists. split; [reflexivity|]. split; [done|]. rewrite !Z.min_r by lia. split; [simpl; lia|]. right.
    simpl. split_and!; [lia|lia|done|done|done|].
    replace (content_length (hp s) - Z.of_nat (len - p s) + Z.of_nat (len - p s))
      with (content_length (hp s)) by lia. by destruct (hp s).
Qed.

Lemma body_identity_agrees s :
  p_state s = s_body_identity -> 0 < content_length (hp s) < ULLONG_MAX -> (p s < len)%nat ->
  agrees (case_body_identity settings data) (case_body_identity settings data') s.
Proof.
  intros Hst Hv Hp. unfold agrees, case_body_identity, mbind, M_bind.
  destruct (read_body_before s Hv Hp) as (s1 & -> & Hs1 & Hp1 & [[Hc ->]|(Hc & Hend & Hu & Hch & Hm & Hh)]); simpl.
  - destruct (content_length (hp s1) =? 0); [|by left]. simpl. rewrite data_before by (simpl; lia).
    by destruct (CALLBACK_DATA_ _ _ _ _ _ _) as [s2 [[]|[]]].
  - rewrite (proj2 (Z.eqb_neq _ 0)) by lia. right. split; [done|]. right.
    split_and!; [by rewrite Hst|done|done|done|]. exists (len - p s)%nat. split; [lia|]. right.
    split_and!; [by rewrite Hst|done|done].
Qed.

Lemma chunk_data_agrees s :
  p_state s = s_chunk_data -> 0 < content_length (hp s) < ULLONG_MAX -> (p s < len)%nat ->
  agrees (case_chunk_data data) (case_chunk_data data') s.
Proof.
  intros Hst Hv Hp. unfold agrees, case_chunk_data, assert_chunked, assert_, mbind, M_bind. simpl.
  destruct (flag F_CHUNKED (hp s)); [|done]. simpl.
  destruct (read_body_before s Hv Hp) as (s1 & -> & Hs1 & Hp1 & [[Hc ->]|(Hc & Hend & Hu & Hch & Hm & Hh)]); simpl.
  - destruct (content_length (hp s1) =? 0); by left.
  - rewrite (proj2 (Z.eqb_neq _ 0)) by lia. right. split; [done|]. right.
    split_and!; [by rewrite Hst|done|done|done|]. exists (len - p s)%nat. split; [lia|]. right.
    split_and!; [by rewrite Hst|done|done].
Qed.

Lemma body_identity_eof_agrees s :
  p_state s = s_body_identity_eof -> (p s < len)%nat ->
  agrees (case_body_identity_eof data) (case_body_identity_eof data') s.
Proof.
  intros Hst Hp. unfold agrees, case_body_identity_eof, MARK, mbind, M_bind. simpl.
  assert (marked (p s) (marks s) M_body =
            match body_mark (marks s) with Some _ => marks s | None => put_mark (marks s) M_body (Some (p s)) end)
    as Em by done.
  destruct (body_mark (marks s)) eqn:Eb; simpl; right; simpl; (split; [lia|]); right;
    (split_and!; [by rewrite Hst|done|done|by rewrite Em|]);
    (exists (len - p s)%nat; split; [simpl; lia|by left]).
Qed.

(** *** The loop *)

Ltac same_data :=
  apply agrees_eq; unfold CALLBACK_DATA, CALLBACK_DATA_NOADVANCE, STRICT_CHECK, assert_chunked, assert_,
    MARK, mbind, M_bind; simpl;
  repeat (match goal with |- context [if ?b then _ else _] => destruct b end; simpl);
  rewrite ?data_before by (simpl; lia); done.

Lemma dispatch_agrees c s :
  inv 1 s -> (p s < len)%nat ->
  agrees (dispatch settings data (p_state s) c) (dispatch settings data' (p_state s) c) s.
Proof.
  intros Hinv Hp. pose proof (core_state _ _ _ (inv_core _ _ Hinv)) as Hv.
  destruct (plain (p_state s)) eqn:Hpl; [destruct (p_state s); done || apply agrees_refl|].
  destruct (p_state s) eqn:Hst; try done; simpl dispatch; simpl in Hv;
    first [ by apply header_field_agrees | by apply header_value_agrees
          | by apply body_identity_agrees | by apply chunk_data_agrees; [|apply Hv|]
          | by apply body_identity_eof_agrees | apply agrees_refl
          | unfold case_req_url, url_char; same_data | unfold case_res_status; same_data
          | unfold case_header_value_discard_lws; same_data
          | unfold case_chunk_data_almost_done; same_data ].
Qed.

Lemma marks_shape st i mk : marks_ok st i mk -> mk = no_mark \/ exists k j, mk = one_mark k j.
Proof.
  intros Hm. assert (forall k, k <> mark_owner st -> mk k = None) as Ho by (intros; by eapply marks_owner).
  destruct mk as [a1 a2 a3 a4 a5].
  pose proof (Ho M_header_field) as H1. pose proof (Ho M_header_value) as H2. pose proof (Ho M_url) as H3.
  pose proof (Ho M_body) as H4. pose proof (Ho M_status) as H5. simpl in *.
  destruct (mark_owner st) eqn:E; rewrite ?H1, ?H2, ?H3, ?H4, ?H5 by done.
  - destruct a1 as [j|]; [right; by exists M_header_field, j|by left].
  - destruct a2 as [j|]; [right; by exists M_header_value, j|by left].
  - destruct a3 as [j|]; [right; by exists M_url, j|by left].
  - destruct a4 as [j|]; [right; by exists M_body, j|by left].
  - destruct a5 as [j|]; [right; by exists M_status, j|by left].
Qed.

Lemma owes_self st i mk u : marks_ok st i mk -> owes fd [] data mk mk u u.
Proof.
  intros Hm. destruct (marks_shape _ _ _ Hm) as [->|(k & j & ->)]; [by left|].
  right. exists k, j, j. split_and!; [done|done|by left].
Qed.

(** A jump back never leads into a body. *)
Lemma dispatch_landing s s1 :
  inv 1 s -> (p s < len)%nat -> entered (p_state s) (marks s) ->
  dispatch settings data (p_state s) (ch s) s = (s1, inr Reexecute) ->
  reads_body (p_state s1) = false /\ entered (p_state s1) (marks s1).
Proof.
  destruct s as [h u st i c mk]. intros [Hh Hc Hm] Hp Hen Hd. cbn [hp user p_state p ch marks] in *.
  pose proof (dispatch_sim settings fd Hpc [] data st h u i c mk st u c mk Hh Hp Hc Hm
                (owes_self _ _ _ u Hm) Hen (or_intror eq_refl)) as Hs.
  unfold sim in Hs. rewrite Hd in Hs. destruct Hs as (s1' & _ & Ha & Hl). split; [exact Hl|].
  by destruct Ha as [[]|[[] _]].
Qed.

Lemma reexecute_agrees fuel : forall s,
  inv 1 s -> (p s < len)%nat -> entered (p_state s) (marks s) ->
  agrees (reexecute settings data fuel) (reexecute settings data' fuel) s.
Proof.
  pose proof (pure_client_ok _ _ Hpc) as Hset.
  induction fuel as [|fuel IH]; intros s Hinv Hp Hen; [done|].
  pose proof (dispatch_agrees (ch s) s Hinv Hp) as Hd. pose proof (dispatch_landing s) as Hla.
  assert (wp (dispatch settings data (p_state s) (ch s)) s (fun _ _ => True)
            (fun e s1 => e = Reexecute -> inv 1 s1 /\ (p s1 < len)%nat)) as Hw.
  { destruct s as [h u st i c mk]. destruct Hinv as [Hh Hc Hm].
    eapply wp_mono; [by apply (dispatch_ok settings data Hset st h u i c mk)|done|].
    intros j s1 Hj ->. simpl in Hj. split; [apply Hj|lia]. }
  unfold agrees, wp in *. simpl.
  destruct (dispatch settings data (p_state s) (ch s) s) as [s1 [[]|[]]] eqn:E; try done.
  - destruct Hd as [-> |Hd]; auto.
  - rewrite Hd. destruct (Hw eq_refl) as [Hinv1 Hp1].
    destruct (Hla _ Hinv Hp Hen eq_refl) as [Hnb Hen1]. specialize (IH s1 Hinv1 Hp1 Hen1).
    unfold agrees in IH.
    destruct (reexecute settings data fuel s1) as [s2 [[]|[]]]; try done.
    destruct IH as [IH|(He & [Hh|(Hb & _)])]; [by left|right; auto|congruence].
Qed.

Lemma for_body_entered s s1 :
  inv 0 s -> (p s < len)%nat -> entered (p_state s) (marks s) ->
  for_body settings data s = (s1, inl tt) -> entered (p_state s1) (marks s1).
Proof.
  intros Hinv Hp Hen E.
  assert (rel fd [] data false s s) as Hr.
  { split; [|done|done|done|eapply owes_self, (inv_marks _ _ Hinv)|done].
    exists (hp_state (hp s)). by destruct (hp s). }
  pose proof (for_body_sim settings fd Hpc [] data s s Hinv Hp Hr) as Hs.
  unfold sim in Hs. rewrite E in Hs. by destruct Hs as (_ & s1' & _ & []).
Qed.

Definition counted_byte (st : state) : M U unit :=
  if PARSING_HEADER st then COUNT_HEADER_SIZE 1 else mret tt.

Lemma for_body_S (text : bytes) s :
  for_body settings text s =
    match counted_byte (p_state s) (with_ch s (nth (p s) text 0)) with
    | (s1, inl _) => reexecute settings text reexecute_fuel s1
    | (s1, inr j) => (s1, inr j)
    end.
Proof. reflexivity. Qed.

(** Counting changes nothing but [nread], and nothing at all in a body. *)
Lemma counted_byte_cases s :
  (exists s1, counted_byte (p_state s) s = (s1, inl tt) /\ p_state s1 = p_state s /\
     marks s1 = marks s /\ (reads_body (p_state s) = true -> s1 = s)) \/
  exists s1, counted_byte (p_state s) s = (s1, inr GotoError).
Proof.
  unfold counted_byte. destruct (PARSING_HEADER (p_state s)) eqn:E.
  - destruct (count_cases 1 s) as [-> |[s1 ->]]; [left|right; by eexists].
    eexists. split_and!; [done|done|done|]. by destruct (p_state s).
  - left. by eexists.
Qed.

Lemma for_body_agrees s :
  inv 0 s -> (p s < len)%nat -> entered (p_state s) (marks s) ->
  agrees (for_body settings data) (for_body settings data') s.
Proof.
  intros Hinv Hp Hen. unfold agrees. rewrite !for_body_S, nth_before by done.
  set (s0 := with_ch s (nth (p s) data 0)).
  assert (inv 0 s0) as Hinv0 by (destruct Hinv; by split).
  pose proof (wp_counted (hp s) (user s) (p_state s) (p s) (nth (p s) data 0) (marks s) Hinv0) as Hw.
  fold (counted_byte (p_state s)) in Hw. unfold wp in Hw. fold (with_ch s (nth (p s) data 0)) in Hw. fold s0 in Hw.
  destruct (counted_byte_cases s0) as [(s1 & E & Hst1 & Hmk1 & Hbody)|[s1 E]];
    change (p_state s0) with (p_state s) in *; rewrite E in *; [|done].
  destruct Hw as [Hinv1 Hp1]. pose proof (reexecute_agrees reexecute_fuel s1 Hinv1 ltac:(lia)
                                   ltac:(by rewrite Hst1, Hmk1)) as Hr.
  unfold agrees in Hr. destruct (reexecute settings data _ s1) as [s2 [[]|[]]]; try done.
  destruct Hr as [Hr|(He & [Hh|Hb])]; [by left|right; auto|right]. split; [done|]. right.
  destruct Hb as (Hb & Hrest). rewrite Hst1 in Hb. rewrite (Hbody Hb) in Hrest. by split.
Qed.

(** One round of the loop. *)
Lemma for_loop_S (text : bytes) n s :
  for_loop settings text (S n) s =
    if (p s =? length text)%nat then (s, inl tt)
    else
      match for_body settings text s with
      | (s1, inl _) => for_loop settings text n (with_p s1 (p s1 + 1))
      | (s1, inr j) => (s1, inr j)
      end.
Proof.
  simpl for_loop. unfold mbind at 1, M_bind at 1. cbn [get]. destruct (p s =? length text)%nat; [done|].
  unfold mbind at 1, M_bind at 1. by destruct (for_body settings text s) as [s1 [u|j]].
Qed.

Lemma for_loop_before f : forall f' s,
  inv 0 s -> (p s <= len)%nat -> entered (p_state s) (marks s) -> (length data' - p s < f')%nat ->
  match for_loop settings data f s with
  | (s1, inl tt) =>
      inside_header s1 \/
      exists sB fB, for_loop settings data' f' s = for_loop settings data' fB sB /\
        (length data' - p sB < fB)%nat /\ inv 0 sB /\
        ((sB = s1 /\ entered (p_state s1) (marks s1)) \/ ((p sB < len)%nat /\ body_cut sB s1))
  | _ => True
  end.
Proof.
  pose proof (pure_client_ok _ _ Hpc) as Hset.
  induction f as [|f IH]; intros f' s Hinv Hp Hen Hf; [done|]. rewrite for_loop_S.
  destruct (Nat.eqb_spec (p s) len) as [E|E].
  { right. exists s, f'. split_and!; auto. }
  destruct f' as [|f']; [lia|]. pose proof (length_app data post) as Hlen.
  pose proof (for_body_agrees s Hinv ltac:(lia) Hen) as Ha.
  pose proof (for_body_entered s) as Hent. pose proof (for_body_ok settings data Hset s Hinv ltac:(lia)) as Hw.
  unfold agrees, wp in *.
  destruct (for_body settings data s) as [s1 [[]|[]]]; try done. destruct Hw as [Hinv1 Hp1].
  assert (inv 0 (with_p s1 (p s1 + 1))) as Hinv2.
  { destruct Hinv1 as [Hh1 Hc1 Hm1]. split; [done|done|]. eapply marks_ok_move; [exact Hm1|done|simpl; lia]. }
  destruct Ha as [Ha|(He & Hcut)].
  - rewrite for_loop_S, before_end, Ha by lia.
    apply IH; [done|simpl; lia|by apply (Hent s1); first [done|lia]|simpl; lia].
  - destruct f as [|f]; [done|]. rewrite for_loop_S. simpl p. rewrite He, Nat.eqb_refl.
    destruct Hcut as [Hh|Hb]; [by left|right]. exists s, (S f'). split_and!; [done|done|done|].
    right. split; [lia|]. exact Hb.
Qed.
End Prefix.

(** ** The end of a call *)

Section Flush.
Context {U : Type} (settings : http_parser_settings U) (fd : mark_id -> bytes -> U -> U).
Context (Hpc : pure_client settings fd) (data : bytes).
Implicit Types (s : machine U).

Lemma data_unset k s :
  errno (hp s) = HPE_OK -> marks s k = None -> CALLBACK_DATA_NOADVANCE settings data k s = (s, inl tt).
Proof.
  intros Hh Hk. unfold CALLBACK_DATA_NOADVANCE, CALLBACK_DATA_, assert_, mbind, M_bind. simpl.
  rewrite (bool_decide_true (errno (hp s) = HPE_OK)) by done. simpl. by rewrite Hk.
Qed.

Lemma data_set k j s :
  errno (hp s) = HPE_OK -> marks s = one_mark k j ->
  exists h, CALLBACK_DATA_NOADVANCE settings data k s =
      (mkMachine h (fd k (slice data j (p s - j)) (user s)) (p_state s) (p s) (ch s) no_mark, inl tt) /\
    (h = hp s \/ h = set_hp_state (p_state s) (hp s)).
Proof.
  intros Hh Hk. unfold CALLBACK_DATA_NOADVANCE, CALLBACK_DATA_, assert_, mbind, M_bind. simpl.
  rewrite (bool_decide_true (errno (hp s) = HPE_OK)) by done. simpl.
  rewrite Hk, one_mark_get, decide_True by done.
  assert (put_mark (one_mark k j) k None = no_mark) as Ep by (by destruct k).
  destruct (pc_data _ _ Hpc k) as [E|[E En]]; rewrite E.
  - unfold pure_cb. rewrite callback_eq by done. unfold set_mark. simpl. rewrite Hk, Ep.
    eexists. split; [done|by right].
  - unfold set_mark. simpl. rewrite Hk, Ep, En. eexists. split; [done|by left].
Qed.

(** What the callbacks of [flush_marks] do to the client. *)
Definition flushed (mk : mark_vars) (u : U) : U :=
  match list_find (fun k => is_Some (mk k)) [M_header_field; M_header_value; M_url; M_body; M_status] with
  | Some (_, k) => fd k (slice data (default 0%nat (mk k)) (length data - default 0%nat (mk k))) u
  | None => u
  end.

Lemma flushed_none u : flushed no_mark u = u.
Proof. reflexivity. Qed.
Lemma flushed_one k j u : flushed (one_mark k j) u = fd k (slice data j (length data - j)) u.
Proof. by destruct k. Qed.

Lemma flush_eq s :
  errno (hp s) = HPE_OK -> p s = length data -> (marks s = no_mark \/ exists k j, marks s = one_mark k j) ->
  exists s1, flush_marks settings data s = (s1, inr (Return (length data))) /\
    hp s1 = set_hp_state (p_state s) (hp s) /\ user s1 = flushed (marks s) (user s).
Proof.
  intros Hh Hp Hm.
  assert (forall s, errno (hp s) = HPE_OK -> marks s = no_mark -> forall k,
            CALLBACK_DATA_NOADVANCE settings data k s = (s, inl tt)) as Hn
    by (intros s0 ? E k; apply data_unset; [done|by rewrite E; destruct k]).
  unfold flush_marks, mbind, M_bind, marks_set. simpl.
  destruct Hm as [Hm|(k & j & Hm)]; rewrite !Hm.
  - simpl. rewrite !Hn by done. by eexists.
  - destruct (data_set k j s Hh Hm) as (h & Ek & Eh). rewrite flushed_one, <- Hp.
    destruct k; simpl; repeat (rewrite data_unset by (done || by rewrite Hm)); rewrite Ek;
      (assert (errno h = HPE_OK) by (by destruct Eh as [-> | ->]));
      rewrite ?Hn by done; (eexists; split_and!; [done| |done]); simpl;
      by destruct Eh as [-> | ->].
Qed.
End Flush.

(** ** The two calls and the one *)

Section Split.
Context {U : Type} (settings : http_parser_settings U) (fd : mark_id -> bytes -> U -> U).
Context (Hpc : pure_client settings fd) (Hurl : piecewise (fd M_url)) (Hstatus : piecewise (fd M_status)).
Context (Hbody : piecewise (fd M_body)) (d1 d2 : bytes).
Implicit Types (h : http_parser) (u : U) (s : machine U).

(** What [execute_body] does after the loop has been left. *)
Definition loop_end (data : bytes) (r : machine U * (unit + jump)) : machine U * (unit + jump) :=
  match r with
  | (s, inl _) =>
      match flush_marks settings data s with (s1, inr GotoError) => error_label s1 | r => r end
  | (s, inr GotoError) => error_label s
  | r => r
  end.

Lemma execute_body_eq data s :
  execute_body settings data s = loop_end data (for_loop settings data (S (length data)) s).
Proof.
  unfold execute_body, loop_end, mbind, M_bind.
  destruct (for_loop settings data _ s) as [s1 [[]|[]]]; try done.
  all: destruct (flush_marks settings data s1) as [s2 [[]|[]]]; done.
Qed.

Lemma error_label_eq s :
  exists s1, error_label s = (s1, inr (Return (p s))) /\ errno (hp s1) <> HPE_OK /\
    hp s1 = set_hp_state (p_state s)
      (set_errno (if decide (errno (hp s) = HPE_OK) then HPE_UNKNOWN else errno (hp s)) (hp s)).
Proof. eexists. split; [reflexivity|]. split; [|done]. simpl. by case_decide. Qed.

Lemma owes_flushed mk mk' u u' :
  owes fd d1 d2 mk mk' u u' -> (forall k j, mk k = Some j -> (j <= length d2)%nat) ->
  flushed fd (d1 ++ d2) mk' u' = flushed fd d2 mk u.
Proof.
  intros [(-> & -> & ->)|(k & j & j' & -> & -> & Ho)] Hj; [done|]. rewrite !flushed_one.
  rewrite <- (owed_flush _ _ _ _ _ _ (length d2) _ _ Ho); [by rewrite length_app|].
  split; [|done]. apply (Hj k). by rewrite one_mark_get, decide_True.
Qed.

(** The second call and the rest of the long one. *)
Lemma second_call s s' fuel :
  inv 0 s -> d2 <> [] -> resumes fd d1 d2 s s' -> (length d2 < fuel)%nat ->
  exists n s1 s1', execute_body settings d2 s = (s1, inr (Return n)) /\
    loop_end (d1 ++ d2) (for_loop settings (d1 ++ d2) fuel s') = (s1', inr (Return (length d1 + n))) /\
    hp s1' = hp s1 /\ (errno (hp s1) = HPE_OK -> user s1' = user s1).
Proof.
  intros Hinv Hd Hr Hf. pose proof (pure_client_ok _ _ Hpc) as Hset.
  assert (p s = 0%nat) as Hp by (by destruct Hr as [[_ ?]|[[_ [? _] _ _]|(_ & _ & ? & _)]]).
  pose proof (for_loop_resumes settings fd Hpc d1 d2 fuel s s' Hinv Hd Hbody Hr Hf) as Hs.
  pose proof (for_loop_ok settings d2 Hset (S (length d2)) s Hinv ltac:(lia) ltac:(lia)) as Hw.
  rewrite execute_body_eq. unfold sim, wp in *.
  destruct (for_loop settings d2 _ s) as [s1 [[]|[]]]; try by destruct Hw.
  - destruct Hs as ([] & s1' & -> & Hrel), Hw as [[Hh _ Hm] Hp1], Hrel as [[x Hx] Hst Hps _ Ho _].
    destruct (flush_eq settings fd Hpc d2 s1 Hh Hp1 (marks_shape _ _ _ Hm)) as (s2 & E2 & Hh2 & Hu2).
    destruct (flush_eq settings fd Hpc (d1 ++ d2) s1') as (s2' & E2' & Hh2' & Hu2');
      [by rewrite Hx|rewrite Hps, Hp1, length_app; lia
      |by destruct Ho as [(_ & ? & _)|(k & ? & j' & _ & ? & _)]; eauto|].
    exists (length d2), s2, s2'. simpl. rewrite E2, E2', Hh2, Hh2', Hu2, Hu2', Hst, Hx.
    split_and!; [done|by rewrite length_app|done|intros _]. apply owes_flushed; [done|].
    intros k j Hj. destruct (Hm _ _ Hj). lia.
  - destruct Hs as (s1' & -> & Hh & Hu). by exists n, s1, s1'.
  - destruct Hs as (s1' & -> & (x & Hx) & Hst & Hps).
    destruct (error_label_eq s1) as (s2 & E2 & He & Hh2), (error_label_eq s1') as (s2' & E2' & _ & Hh2').
    exists (p s1), s2, s2'. simpl. rewrite E2, E2', Hps, Hh2, Hh2', Hst, Hx. split_and!; try done.
    intros He'. by rewrite Hh2 in He.
Qed.

(** Where the long call stands when the second call begins: at the same byte, or at the byte of
    the body where it last began to read. *)
Lemma flushed_owed k j u :
  piecewise (fd k) -> (j <= length d1)%nat -> owed fd d1 d2 k 0 j (flushed fd d1 (one_mark k j) u) u.
Proof.
  intros Hk Hj. right. split_and!; [lia|done|]. rewrite flushed_one, Nat.add_0_r. f_equal.
  symmetry. by apply slice_before.
Qed.

Lemma initial_hp s : exists x, hp s = set_hp_state x (set_hp_state (p_state s) (hp s)).
Proof. exists (hp_state (hp s)). by destruct s as [[] ? ? ? ? ?]. Qed.

Lemma inside_body_start h u s c d :
  reads_body (hp_state h) = true -> p_state s = hp_state h -> (p s + d = length d1)%nat ->
  (exists x, hp s = set_hp_state x h /\ hp_state h = s_body_identity_eof \/
     (hp s = set_hp_state x (set_content_length (content_length h + Z.of_nat d) h) /\
      hp_state h <> s_body_identity_eof /\ content_length h + Z.of_nat d < ULLONG_MAX)) ->
  owes fd d1 d2 (one_mark M_body 0) (marked (p s) (marks s) M_body) u (user s) ->
  inside_body fd d1 d2 (mkMachine h u (hp_state h) 0 c no_mark) s.
Proof. intros Hb Hs Hp Hh Ho. split; [done|split; [done|by exists d]|done|done]. Qed.

Lemma second_call_same s1 h u :
  inv 0 s1 -> p s1 = length d1 -> p_state s1 <> s_header_field -> p_state s1 <> s_header_value ->
  h = set_hp_state (p_state s1) (hp s1) -> u = flushed fd d1 (marks s1) (user s1) ->
  entered (p_state s1) (marks s1) ->
  resumes fd d1 d2 (initial_machine h u) s1.
Proof.
  intros [Hh Hc Hm] Hp Hf Hv -> -> Hen. destruct (initial_hp s1) as [x Hx].
  destruct (marks_shape _ _ _ Hm) as [E|(k & j & E)].
  - left. split; [|done]. split; simpl; [by exists x|done|lia|done| |].
    + rewrite E in *. assert (initial_mark (p_state s1) = None) as ->.
      { destruct (p_state s1); simpl in *; done. }
      by left.
    + destruct (p_state s1); simpl; try done; by destruct Hen.
  - destruct (Hm k j) as [Hk Hj]; [by rewrite E, one_mark_get, decide_True|]. rewrite E.
    assert (piecewise (fd k) -> owed fd d1 d2 k 0 j (flushed fd d1 (one_mark k j) (user s1)) (user s1)) as Ho
      by (intros ?; apply flushed_owed; [done|lia]).
    destruct (initial_mark (p_state s1)) as [k'|] eqn:Ei.
    + assert (k' = k /\ (k = M_url \/ k = M_status)) as [-> Hk'] by (destruct (p_state s1), k; simplify_eq/=; auto).
      left. split; [|done]. unfold initial_machine. simpl hp_state. rewrite Ei.
      split; simpl; [by exists x|done|lia|done| |].
      * right. exists k, 0%nat, j. split_and!; [done|done|]. apply Ho. by destruct Hk' as [-> | ->].
      * unfold entered. rewrite Ei. by destruct Hk' as [-> | ->].
    + assert (k = M_body) as -> by (by destruct (p_state s1), k).
      right. unfold initial_machine. simpl hp_state. rewrite Ei.
      destruct (reads_body (p_state s1)) eqn:Hb.
      * left. apply (inside_body_start (set_hp_state (p_state s1) (hp s1)) _ _ _ 0); simpl; [done|done|lia| |].
        -- exists x. pose proof (core_state _ _ _ Hc) as Hl. rewrite Z.add_0_r.
           destruct (p_state s1); try done; [right|right|by left]; simpl in Hl;
             (split_and!; [rewrite Hx at 1; by destruct (hp s1)|done|lia]).
        -- right. exists M_body, 0%nat, j. rewrite E. by split_and!; [| |apply Ho].
      * right. assert (p_state s1 = s_chunk_data_almost_done) as Hs by (by destruct (p_state s1)).
        split_and!; simpl; [done|done|done|lia|done|by exists x|]. exists j. by split; [|apply Ho].
Qed.

Lemma second_call_body s1 sB h u :
  inv 0 s1 -> p s1 = length d1 -> inv 0 sB ->
  h = set_hp_state (p_state s1) (hp s1) -> u = flushed fd d1 (marks s1) (user s1) ->
  body_cut d1 sB s1 -> resumes fd d1 d2 (initial_machine h u) sB.
Proof.
  intros [Hh Hc Hm] Hp [_ HcB _] -> -> (Hb & Hst & Hu & Hmk & d & Hd & Hcl).
  assert (exists j, marks s1 = one_mark M_body j /\ (j <= length d1)%nat) as (j & E & Hj).
  { assert (exists j, marks s1 M_body = Some j) as [j Ej].
    { rewrite Hmk. unfold marked. destruct (marks sB M_body) as [j|] eqn:E; [by exists j|].
      exists (p sB). by rewrite get_put_mark, decide_True. }
    exists j. destruct (Hm _ _ Ej). split; [|lia].
    destruct (marks_shape _ _ _ Hm) as [E|(k & j' & E)]; rewrite E in Ej |- *; [done|].
    rewrite one_mark_get in Ej. by case_decide; simplify_eq. }
  right. left. unfold initial_machine. simpl hp_state.
  assert (initial_mark (p_state s1) = None) as -> by (rewrite Hst; by destruct (p_state sB)).
  apply (inside_body_start (set_hp_state (p_state s1) (hp s1)) _ _ _ d); simpl; [by rewrite Hst|done|done| |].
  - destruct (initial_hp s1) as [x Hx]. exists x. rewrite Hst. destruct Hcl as [[Hs E1]|(Hs & H0 & E1)].
    + left. split; [by rewrite <- Hst, <- Hx|done].
    + right. split_and!; [rewrite E1; rewrite Hx at 2; by destruct (hp s1)|done|].
      pose proof (core_state _ _ _ HcB) as Hl. rewrite E1 in Hl.
      destruct (p_state sB); try done; simpl in Hl; lia.
  - right. exists M_body, 0%nat, j. rewrite <- Hmk, E, <- Hu. split_and!; [done|done|]. by apply flushed_owed.
Qed.

(** The first call ends at the end of its data. *)
Lemma first_call s s2 n :
  inv 0 s -> p s = 0%nat -> execute_body settings d1 s = (s2, inr (Return n)) ->
  errno (hp s2) = HPE_OK -> upgrade (hp s2) = false ->
  exists s1, for_loop settings d1 (S (length d1)) s = (s1, inl tt) /\ inv 0 s1 /\ p s1 = length d1 /\
    hp s2 = set_hp_state (p_state s1) (hp s1) /\ user s2 = flushed fd d1 (marks s1) (user s1).
Proof.
  intros Hinv Hp E He Hup. pose proof (pure_client_ok _ _ Hpc) as Hset.
  pose proof (for_loop_ok settings d1 Hset (S (length d1)) s Hinv ltac:(lia) ltac:(lia)) as Hw.
  rewrite execute_body_eq in E. unfold wp in Hw.
  destruct (for_loop settings d1 _ s) as [s1 [[]|[]]]; try by destruct Hw.
  - exists s1. destruct Hw as [[Hh Hc Hm] Hp1].
    destruct (flush_eq settings fd Hpc d1 s1 Hh Hp1 (marks_shape _ _ _ Hm)) as (s2' & E2 & ? & ?).
    simpl in E. rewrite E2 in E. by simplify_eq.
  - simpl in E. simplify_eq. destruct Hw as (_ & _ & _ & Hup'). by rewrite Hup' in Hup.
  - destruct (error_label_eq s1) as (s2' & E2 & He2 & _). simpl in E. rewrite E2 in E. by simplify_eq.
Qed.

(** A call from a parser without an error. *)
Lemma execute_call data h u :
  errno h = HPE_OK -> data <> [] ->
  http_parser_execute settings data h u =
    match execute_body settings data (initial_machine h u) with
    | (s, inr (Return n)) => (Executed n, hp s, user s)
    | (s, inr AssertFails) => (Asserted, hp s, user s)
    | (s, _) => (OutOfFuel, hp s, user s)
    end.
Proof. intros Hh Hd. unfold http_parser_execute. by rewrite decide_True, decide_False. Qed.

(** One cut. *)
Lemma execute_cut h u h1 u1 :
  parser_wf h -> d1 <> [] -> d2 <> [] ->
  http_parser_execute settings d1 h u = (Executed (length d1), h1, u1) ->
  errno h1 = HPE_OK -> upgrade h1 = false ->
  hp_state h1 <> s_header_field -> hp_state h1 <> s_header_value ->
  exists n h2 u2 u', http_parser_execute settings d2 h1 u1 = (Executed n, h2, u2) /\
    http_parser_execute settings (d1 ++ d2) h u = (Executed (length d1 + n), h2, u') /\
    (errno h2 = HPE_OK -> u' = u2).
Proof.
  intros Hw Hd1 Hd2 E He Hup Hf Hv. pose proof (pure_client_ok _ _ Hpc) as Hset.
  assert (errno h = HPE_OK) as Hh.
  { unfold http_parser_execute in E. case_decide; [done|]. by simplify_eq. }
  assert (parser_wf h1) as Hw1.
  { destruct (execute_ok settings d1 Hset h u Hw) as (? & ? & ? & E' & ? & _). rewrite E in E'. by simplify_eq. }
  pose proof (initial_inv h u Hh Hw) as Hinv. pose proof (initial_inv h1 u1 He Hw1) as Hinv1.
  rewrite execute_call in E by done.
  destruct (execute_body settings d1 _) as [s2 [[]|[]]] eqn:Eb; try done. simplify_eq.
  destruct (first_call _ _ _ Hinv eq_refl Eb He Hup) as (s1 & El & Hi1 & Hp1 & Ehp & Eu).
  assert (p_state s1 <> s_header_field /\ p_state s1 <> s_header_value) as [Hf1 Hv1]
    by (rewrite Ehp in Hf, Hv; by split).
  pose proof (for_loop_before settings fd Hpc d1 d2 (S (length d1)) (S (length (d1 ++ d2)))
                (initial_machine h u) Hinv ltac:(simpl; lia)) as Hb.
  rewrite El in Hb. destruct Hb as [[|]|(sB & fB & Elong & HfB & HinvB & Hcut)]; [|simpl; lia|done|done|].
  { unfold entered, initial_machine. simpl. by destruct (initial_mark (hp_state h)) as [[]|]. }
  assert (resumes fd d1 d2 (initial_machine (hp s2) (user s2)) sB) as Hr.
  { destruct Hcut as [[-> Hen]|[_ Hcut]]; [by apply second_call_same|by apply (second_call_body s1)]. }
  assert (length d2 < fB)%nat as HlB.
  { rewrite length_app in HfB. destruct Hcut as [[-> _]|[? _]]; lia. }
  destruct (second_call _ _ _ Hinv1 Hd2 Hr HlB) as (n & s3 & s3' & E3 & E3' & Ehp3 & Eu3).
  rewrite !execute_call; [|done|by destruct d1|done|done].
  rewrite E3, execute_body_eq, Elong, E3'. exists n, (hp s3), (user s3), (user s3').
  by rewrite Ehp3.
Qed.
End Split.

(** ** Any number of calls *)

Section Pieces.
Context {U : Type} (settings : http_parser_settings U).

(** Calls on the pieces [ds] that consume all of them and end outside of header names and values. *)
Inductive consumed : http_parser -> U -> list bytes -> http_parser -> U -> Prop :=
  | consumed_nil h u : consumed h u [] h u
  | consumed_cons h u d ds h1 u1 h2 u2 :
      d <> [] ->
      http_parser_execute settings d h u = (Executed (length d), h1, u1) ->
      errno h1 = HPE_OK -> upgrade h1 = false ->
      hp_state h1 <> s_header_field -> hp_state h1 <> s_header_value ->
      consumed h1 u1 ds h2 u2 -> consumed h u (d :: ds) h2 u2.

(** C12. A message may reach the parser in any pieces, as long as no cut is inside the name or the
    value of a header: after calls that consumed the pieces [ds], the call on one more piece [d]
    ends like a single call on all the bytes from the beginning, which consumes what all the calls
    consume together and leaves the same parser, error and state included, and, unless there is an
    error, the same client.  The client's callbacks never fail and take the URL, the status message
    and the body piecewise. *)
Theorem execute_pieces fd h u ds h1 u1 d :
  pure_client settings fd ->
  piecewise (fd M_url) -> piecewise (fd M_status) -> piecewise (fd M_body) ->
  parser_wf h -> consumed h u ds h1 u1 -> d <> [] ->
  exists n h2 u2 u', http_parser_execute settings d h1 u1 = (Executed n, h2, u2) /\
    http_parser_execute settings (concat ds ++ d) h u = (Executed (length (concat ds) + n), h2, u') /\
    (errno h2 = HPE_OK -> u' = u2).
Proof.
  intros Hpc Hurl Hst Hbody Hw Hc Hd. pose proof (pure_client_ok _ _ Hpc) as Hset. revert Hw.
  induction Hc as [h u|h u d0 ds h0 u0 h1 u1 Hd0 E He Hup Hf Hv Hc IH]; intros Hw; simpl.
  - destruct (execute_ok settings d Hset h u Hw) as (n & h2 & u2 & E & _). by exists n, h2, u2, u2.
  - assert (parser_wf h0) as Hw0.
    { destruct (execute_ok settings d0 Hset h u Hw) as (? & ? & ? & E' & ? & _). rewrite E in E'. by simplify_eq. }
    destruct (IH Hw0) as (n & h2 & u2 & u' & E1 & E2 & Hu). exists n, h2, u2.
    assert (concat ds ++ d <> []) as Hne by (intros [_ ?]%app_nil; done).
    destruct (execute_cut settings fd Hpc Hurl Hst Hbody d0 (concat ds ++ d) h u h0 u0 Hw Hd0 Hne E He Hup Hf Hv)
      as (n' & h2' & u2' & u3 & E3 & E4 & Hu3).
    rewrite E2 in E3. simplify_eq. exists u3. split_and!; [done| |].
    + rewrite <- app_assoc, E4, length_app. by rewrite Nat.add_assoc.
    + intros He2. by rewrite Hu3, Hu.
Qed.
End Pieces.

(** The callbacks of [HttpRun]. *)
Lemma pure_settings_client {U} (fu ff fv fb : bytes -> U -> U) fc :
  pure_client (pure_settings fu ff fv fb fc) (pure_data fu ff fv fb).
Proof.
  split; [intros []; simpl; auto| |by left].
  intros f. rewrite !elem_of_cons, elem_of_nil. simpl. intros [->|[->|[->|[->|[]]]]]; eauto.
Qed.

(** A client that collects the URL and the body. *)
Definition collect : http_parser_settings (bytes * bytes) :=
  pure_settings (fun d u => (u.1 ++ d, u.2)) (fun _ u => u) (fun _ u => u) (fun d u => (u.1, u.2 ++ d))
    (fun _ u => u).

Lemma execute_pieces_witness :
  let d1 := bs "POST /ab" in
  let d2 := bs "cd HTTP/1.1" ++ [CR; LF] ++ bs "Content-Length: 4" ++ [CR; LF; CR; LF] ++ bs "wx" in
  exists h2, http_parser_execute collect (d1 ++ d2 ++ bs "yz") (http_parser_init HTTP_REQUEST) ([], []) =
    (Executed 46, h2, (bs "/abcd", bs "wxyz")).
Proof.
  intros d1 d2. set (h0 := http_parser_init HTTP_REQUEST).
  eassert (consumed collect h0 ([], []) [d1; d2] _ _) as Hc.
  { do 2 (eapply consumed_cons; [done|vm_compute; reflexivity|done..|]). apply consumed_nil. }
  lazymatch type of Hc with consumed _ _ _ _ ?h2 ?u2 =>
    destruct (execute_pieces collect (pure_data (fun d u => (u.1 ++ d, u.2)) (fun _ u => u) (fun _ u => u)
                (fun d u => (u.1, u.2 ++ d))) h0 ([], []) [d1; d2] h2 u2 (bs "yz")
                (pure_settings_client _ _ _ _ _)) as (n & h3 & u3 & u' & E3 & E & Hu); [..|exact Hc|done|]
  end.
  - split; [intros [x y]|intros a b [x y]]; simpl; by rewrite ?app_nil_r, ?app_assoc.
  - by split.
  - split; [intros [x y]|intros a b [x y]]; simpl; by rewrite ?app_nil_r, ?app_assoc.
  - apply parser_init_wf.
  - exists h3. vm_compute in E3. injection E3 as <- <- <-. rewrite Hu in E by done. exact E.
Defined.
