(* ===== verification/HttpMessage.v ===== *)
(** * net/http/HttpParser.cpp, HttpDecoder.h, HttpEncoder.h: HTTP messages

    The parser is the message parser of http_parser.c with callbacks that fill the fields of an
    [HttpParser]; the encoder prints a request or a response.  Maps are ordered maps from strings
    to strings, for their order shows in what is printed. *)

From S2P Require Import Prelude OrdMap UrlCodec HttpTables HttpUrl HttpExecute.

Open Scope Z_scope.

Abbreviation string_map := (list (bytes * bytes)).

(** What a [const char *] reaches of a [std::string]. *)
Fixpoint c_str (s : bytes) : bytes :=
  match s with
  | [] => []
  | c :: s' => if c =? 0 then [] else c :: c_str s'
  end.

(** ** HttpParser *)

Definition HeaderState_None : Z := 0.
Definition HeaderState_HasName : Z := 0x01.
Definition HeaderState_HasVaule : Z := 0x10.
Definition HeaderState_HasAll : Z := 0x11.

(** The members besides [m_httpParser]: what the callbacks reach through [parser->data]. *)
Record HttpFields := mkHttpFields {
  m_url : bytes;
  m_urlAndParams : bytes;
  m_status : Z;
  m_method : bytes;
  m_headerState : Z;
  m_headerName : bytes;
  m_headerValue : bytes;
  m_headers : string_map;
  m_parameters : string_map;
  m_body : bytes;
  m_complete : bool
}.

Record HttpParser := mkHttp { m_httpParser : http_parser; fields : HttpFields }.

(** Assignments to one member. *)
Definition set_url v (f : HttpFields) := mkHttpFields v (m_urlAndParams f) (m_status f) (m_method f)
  (m_headerState f) (m_headerName f) (m_headerValue f) (m_headers f) (m_parameters f) (m_body f)
  (m_complete f).
Definition set_urlAndParams v (f : HttpFields) := mkHttpFields (m_url f) v (m_status f) (m_method f)
  (m_headerState f) (m_headerName f) (m_headerValue f) (m_headers f) (m_parameters f) (m_body f)
  (m_complete f).
Definition set_status v (f : HttpFields) := mkHttpFields (m_url f) (m_urlAndParams f) v (m_method f)
  (m_headerState f) (m_headerName f) (m_headerValue f) (m_headers f) (m_parameters f) (m_body f)
  (m_complete f).
Definition set_methodName v (f : HttpFields) := mkHttpFields (m_url f) (m_urlAndParams f) (m_status f) v
  (m_headerState f) (m_headerName f) (m_headerValue f) (m_headers f) (m_parameters f) (m_body f)
  (m_complete f).
Definition set_headerState v (f : HttpFields) := mkHttpFields (m_url f) (m_urlAndParams f) (m_status f)
  (m_method f) v (m_headerName f) (m_headerValue f) (m_headers f) (m_parameters f) (m_body f)
  (m_complete f).
Definition set_headerName v (f : HttpFields) := mkHttpFields (m_url f) (m_urlAndParams f) (m_status f)
  (m_method f) (m_headerState f) v (m_headerValue f) (m_headers f) (m_parameters f) (m_body f)
  (m_complete f).
Definition set_headerValue v (f : HttpFields) := mkHttpFields (m_url f) (m_urlAndParams f) (m_status f)
  (m_method f) (m_headerState f) (m_headerName f) v (m_headers f) (m_parameters f) (m_body f)
  (m_complete f).
Definition set_headers v (f : HttpFields) := mkHttpFields (m_url f) (m_urlAndParams f) (m_status f)
  (m_method f) (m_headerState f) (m_headerName f) (m_headerValue f) v (m_parameters f) (m_body f)
  (m_complete f).
Definition set_parameters v (f : HttpFields) := mkHttpFields (m_url f) (m_urlAndParams f) (m_status f)
  (m_method f) (m_headerState f) (m_headerName f) (m_headerValue f) (m_headers f) v (m_body f)
  (m_complete f).
Definition set_body v (f : HttpFields) := mkHttpFields (m_url f) (m_urlAndParams f) (m_status f)
  (m_method f) (m_headerState f) (m_headerName f) (m_headerValue f) (m_headers f) (m_parameters f) v
  (m_complete f).
Definition set_complete v (f : HttpFields) := mkHttpFields (m_url f) (m_urlAndParams f) (m_status f)
  (m_method f) (m_headerState f) (m_headerName f) (m_headerValue f) (m_headers f) (m_parameters f)
  (m_body f) v.

(** ** The callbacks *)

Definition OnUrl (d : bytes) (f : HttpFields) : HttpFields :=
  if bool_decide (d = []) then f else set_urlAndParams (m_urlAndParams f ++ d) f.

(** The end the two header callbacks share: a name and a value make a header. *)
Definition header_event (bit : Z) (f : HttpFields) : HttpFields :=
  let f := set_headerState (Z.lor (m_headerState f) bit) f in
  if m_headerState f =? HeaderState_HasAll then
    let f := set_headerState HeaderState_None f in
    set_headers (smap_set (m_headerName f) (m_headerValue f) (m_headers f)) f
  else f.

Definition OnHeaderName (d : bytes) (f : HttpFields) : HttpFields :=
  if bool_decide (d = []) then f
  else header_event HeaderState_HasName (set_headerName ([] ++ d) f).

Definition OnHeaderValue (d : bytes) (f : HttpFields) : HttpFields :=
  if bool_decide (d = []) then f
  else header_event HeaderState_HasVaule (set_headerValue ([] ++ d) f).

Definition OnBody (d : bytes) (f : HttpFields) : HttpFields :=
  if bool_decide (d = []) then f else set_body (m_body f ++ d) f.

(** [GetStringBefore(flag, urlAndParams, offset)] on what is left from the offset. *)
Fixpoint GetStringBefore (flag : Z) (s : bytes) : bytes :=
  match s with
  | [] => []
  | c :: s' => if c =? flag then [] else c :: GetStringBefore flag s'
  end.

(** The loop of [ParseUrlAndParam] at [offset]; every round moves the offset on, so the length of
    the string is enough fuel. *)
Fixpoint ParseUrlAndParam_loop (fuel : nat) (s : bytes) (offset : nat) (params : string_map)
    : string_map :=
  match fuel with
  | O => params
  | S fuel' =>
      if (offset <? length s)%nat then
        let key := GetStringBefore (chr "=") (drop offset s) in
        let offset := (offset + length key + 1)%nat in
        let value := if (offset <? length s)%nat then GetStringBefore (chr "&") (drop offset s) else [] in
        let offset := if (offset <? length s)%nat then (offset + length value + 1)%nat else offset in
        let params :=
          if negb (bool_decide (key = [])) then smap_set key value params
          else if negb (bool_decide (value = [])) then smap_set value [] params else params in
        ParseUrlAndParam_loop fuel' s offset params
      else params
  end.

Definition ParseUrlAndParam (f : HttpFields) : HttpFields :=
  let s := UrlDecode (m_urlAndParams f) in
  let url := GetStringBefore (chr "?") s in
  set_parameters (ParseUrlAndParam_loop (length s) s (length url + 1) (m_parameters f))
    (set_url url (set_urlAndParams s f)).

Definition OnComplete (parser : http_parser) (f : HttpFields) : HttpFields :=
  set_complete true
    (ParseUrlAndParam (set_status (status_code parser)
      (set_methodName (method_strings (method parser)) f))).

(** [HttpParser::m_settings] *)
Definition m_settings : http_parser_settings HttpFields :=
  mkSettings None
    (Some (fun h d f => (0, h, OnUrl d f)))
    None
    (Some (fun h d f => (0, h, OnHeaderName d f)))
    (Some (fun h d f => (0, h, OnHeaderValue d f)))
    None
    (Some (fun h d f => (0, h, OnBody d f)))
    (Some (fun h f => (0, h, OnComplete h f)))
    None None.

(** ** The methods *)

(** The constructor leaves [m_status] as it is in memory. *)
Definition HttpParser_init (status : Z) : HttpParser :=
  mkHttp (http_parser_init HTTP_BOTH)
    (mkHttpFields [] [] status [] HeaderState_None [] [] [] [] [] false).

(** [HttpParser::Parse]; [None] is a failed assertion of http_parser.c. *)
Definition HttpParser_Parse (hp : HttpParser) (data : bytes) : option (HttpParser * bool) :=
  match http_parser_execute m_settings data (m_httpParser hp) (fields hp) with
  | (Executed _, h, f) => Some (mkHttp h f, bool_decide (errno h = HPE_OK))
  | _ => None
  end.

Definition HttpParser_Reset (hp : HttpParser) : HttpParser :=
  mkHttp (http_parser_init HTTP_BOTH)
    (mkHttpFields [] [] 0 [] HeaderState_None [] [] [] [] [] false).

Definition HttpParser_IsComplete (hp : HttpParser) : bool := m_complete (fields hp).
Definition GetErrorDetail (hp : HttpParser) : string := http_errno_description (errno (m_httpParser hp)).
Definition GetUrl (hp : HttpParser) : bytes := m_url (fields hp).
Definition GetStatus (hp : HttpParser) : Z := m_status (fields hp).
Definition GetMethod (hp : HttpParser) : bytes := m_method (fields hp).
Definition GetBody (hp : HttpParser) : bytes := m_body (fields hp).
Definition GetHeaders (hp : HttpParser) : string_map := m_headers (fields hp).
Definition GetParameters (hp : HttpParser) : string_map := m_parameters (fields hp).
Definition GetHeader (hp : HttpParser) (name : bytes) : bytes :=
  match smap_find name (m_headers (fields hp)) with Some v => c_str v | None => [] end.
Definition GetParameter (hp : HttpParser) (name : bytes) : bytes :=
  match smap_find name (m_parameters (fields hp)) with Some v => c_str v | None => [] end.
Definition HeaderReady (hp : HttpParser) : bool := m_headerState (fields hp) =? HeaderState_HasAll.

Definition endl : bytes := [10].
Definition pair_lines (m : string_map) : bytes := mjoin ((fun kv => kv.1 ++ bs ", " ++ kv.2 ++ endl) <$> m).
Definition HttpParser_ToString (hp : HttpParser) : bytes :=
  [10] ++ bs "method: " ++ GetMethod hp ++ bs " url: " ++ GetUrl hp ++
  [10] ++ bs "Parameters:" ++ [10] ++ pair_lines (GetParameters hp) ++
  [10] ++ bs "Headers:" ++ [10] ++ pair_lines (GetHeaders hp) ++
  [10] ++ bs "body:" ++ [10] ++ GetBody hp ++ [10].

(** ** HttpDecoder *)

Record HttpDecoder := mkDecoder { dec_httpParser : HttpParser; m_peerIp : bytes; m_peerPort : Z }.

(** [m_peerPort] and the status start as they are in memory. *)
Definition HttpDecoder_init (status port : Z) : HttpDecoder := mkDecoder (HttpParser_init status) [] port.
Definition HttpDecoder_Parse (d : HttpDecoder) (data : bytes) : option (HttpDecoder * bool) :=
  '(p, ok) ← HttpParser_Parse (dec_httpParser d) data;
  Some (mkDecoder p (m_peerIp d) (m_peerPort d), ok).
Definition HttpDecoder_Reset (d : HttpDecoder) : HttpDecoder :=
  mkDecoder (HttpParser_Reset (dec_httpParser d)) (m_peerIp d) (m_peerPort d).
Definition SetPeerIp (d : HttpDecoder) (ip : bytes) : HttpDecoder :=
  mkDecoder (dec_httpParser d) ip (m_peerPort d).
Definition SetPeerPort (d : HttpDecoder) (port : Z) : HttpDecoder :=
  mkDecoder (dec_httpParser d) (m_peerIp d) port.

(** ** HttpEncoder *)

Inductive StatusCode :=
  | StatusCode_Unknown | StatusCode_200Ok | StatusCode_301MovedPermanently
  | StatusCode_400BadRequest | StatusCode_404NotFound | StatusCode_500ServerErr
  | StatusCode_101WebSocket.

Definition status_num (c : StatusCode) : Z :=
  match c with
  | StatusCode_Unknown => 0 | StatusCode_200Ok => 200 | StatusCode_301MovedPermanently => 301
  | StatusCode_400BadRequest => 400 | StatusCode_404NotFound => 404
  | StatusCode_500ServerErr => 500 | StatusCode_101WebSocket => 101
  end.

Record HttpEncoder := mkEncoder {
  he_headers : string_map;
  he_statusCode : StatusCode;
  he_statusMessage : bytes;
  he_closeConnection : bool;
  he_body : bytes;
  he_method : bytes;
  he_url : bytes;
  he_parameters : string_map
}.

Definition HttpEncoder_init (close : bool) : HttpEncoder :=
  mkEncoder [] StatusCode_Unknown [] close [] [] [] [].
Definition SetStatusCode (e : HttpEncoder) (code : StatusCode) : HttpEncoder :=
  mkEncoder (he_headers e) code (he_statusMessage e) (he_closeConnection e) (he_body e) (he_method e)
    (he_url e) (he_parameters e).
Definition SetStatusMessage (e : HttpEncoder) (message : bytes) : HttpEncoder :=
  mkEncoder (he_headers e) (he_statusCode e) message (he_closeConnection e) (he_body e) (he_method e)
    (he_url e) (he_parameters e).
Definition SetCloseConnection (e : HttpEncoder) (on : bool) : HttpEncoder :=
  mkEncoder (he_headers e) (he_statusCode e) (he_statusMessage e) on (he_body e) (he_method e)
    (he_url e) (he_parameters e).
Definition CloseConnection (e : HttpEncoder) : bool := he_closeConnection e.
Definition AddHeader (e : HttpEncoder) (key value : bytes) : HttpEncoder :=
  mkEncoder (smap_set key value (he_headers e)) (he_statusCode e) (he_statusMessage e)
    (he_closeConnection e) (he_body e) (he_method e) (he_url e) (he_parameters e).
Definition SetContentType (e : HttpEncoder) (contentType : bytes) : HttpEncoder :=
  AddHeader e (bs "Content-Type") contentType.
Definition SetBody (e : HttpEncoder) (body : bytes) : HttpEncoder :=
  mkEncoder (he_headers e) (he_statusCode e) (he_statusMessage e) (he_closeConnection e) body
    (he_method e) (he_url e) (he_parameters e).
Definition SetMethod (e : HttpEncoder) (method : bytes) : HttpEncoder :=
  mkEncoder (he_headers e) (he_statusCode e) (he_statusMessage e) (he_closeConnection e) (he_body e)
    method (he_url e) (he_parameters e).
Definition SetUrl (e : HttpEncoder) (url : bytes) : HttpEncoder :=
  mkEncoder (he_headers e) (he_statusCode e) (he_statusMessage e) (he_closeConnection e) (he_body e)
    (he_method e) url (he_parameters e).
Definition AddParameter (e : HttpEncoder) (key value : bytes) : HttpEncoder :=
  mkEncoder (he_headers e) (he_statusCode e) (he_statusMessage e) (he_closeConnection e) (he_body e)
    (he_method e) (he_url e) (smap_set key value (he_parameters e)).

(** [oss << n]: the decimal digits of a number (20 are enough for 64 bits). *)
Fixpoint dec_digits (fuel : nat) (z : Z) (acc : bytes) : bytes :=
  match fuel with
  | O => acc
  | S fuel' =>
      if z <? 10 then (48 + z) :: acc else dec_digits fuel' (z / 10) ((48 + z mod 10) :: acc)
  end.
Definition decimal (z : Z) : bytes := dec_digits 20 z [].

Definition crlf : bytes := [13; 10].
Definition header_line (kv : bytes * bytes) : bytes := kv.1 ++ bs ": " ++ kv.2 ++ crlf.
Definition AppendToStream (e : HttpEncoder) : bytes :=
  bs "Content-Length: " ++ decimal (Z.of_nat (length (he_body e))) ++ crlf ++
  (if he_closeConnection e then bs "Connection: close" ++ crlf else bs "Connection: Keep-Alive" ++ crlf) ++
  mjoin (header_line <$> he_headers e) ++ crlf ++ he_body e.

Definition GetReponseString (e : HttpEncoder) : bytes :=
  bs "HTTP/1.1 " ++ decimal (status_num (he_statusCode e)) ++ bs " " ++ he_statusMessage e ++ crlf ++
  AppendToStream e.

(** The loop over the parameters: the first follows a '?', the others a '&'. *)
Fixpoint param_string (sep : bytes) (m : string_map) : bytes :=
  match m with
  | [] => []
  | (k, v) :: m' => sep ++ k ++ bs "=" ++ v ++ param_string (bs "&") m'
  end.

Definition GetRequestString (e : HttpEncoder) : bytes :=
  he_method e ++ bs " " ++ he_url e ++ param_string (bs "?") (he_parameters e) ++
  bs " HTTP/1.1" ++ crlf ++ AppendToStream e.
