(* ===== verification/HttpHeaders.v ===== *)
(** * Runs of the message parser on header lines

    What the two matching automata of http_parser.c (for names and for values) make of a header
    that is not one of its special ones, of [Content-Length] and of [Connection]. *)

From S2P Require Import Prelude HttpTables HttpUrl HttpExecute HttpSafe HttpRun.

Open Scope Z_scope.

(** ** Names *)

(** The headers the parser looks at.  [content-length] counts as soon as it is a prefix of a name:
    the flag is set at its last letter. *)
Definition plain_word (w : bytes) : Prop :=
  w <> CONNECTION /\ w <> PROXY_CONNECTION /\ w <> TRANSFER_ENCODING /\ w <> UPGRADE /\
  ~ CONTENT_LENGTH `prefix_of` w.

(** A header name that means nothing to the parser. *)
Definition plain_name (name : bytes) : Prop :=
  name <> [] /\ Forall (fun x => TOKEN x <> 0 /\ x <> 32) name /\ plain_word (TOKEN <$> name).

(** Part of [word] has been matched. *)
Definition matched (word w : bytes) (ix : Z) : Prop :=
  exists k : nat, (0 < k < length word)%nat /\ w = take k word /\ ix = Z.of_nat k - 1.

(** The automaton for names after the word [w]. *)
Definition name_inv (w : bytes) (h : http_parser) : Prop :=
  match header_state h with
  | h_general => True
  | h_C => w = bs "c" /\ index h = 0
  | h_CO => w = bs "co" /\ index h = 1
  | h_CON => w = bs "con" /\ index h = 2
  | h_matching_connection => matched CONNECTION w (index h)
  | h_matching_proxy_connection => matched PROXY_CONNECTION w (index h)
  | h_matching_content_length => matched CONTENT_LENGTH w (index h)
  | h_matching_transfer_encoding => matched TRANSFER_ENCODING w (index h)
  | h_matching_upgrade => matched UPGRADE w (index h)
  | h_connection => w = CONNECTION \/ w = PROXY_CONNECTION
  | h_transfer_encoding => w = TRANSFER_ENCODING
  | h_upgrade => w = UPGRADE
  | _ => False
  end.

Lemma match_char_spec word w ix c :
  matched word w ix -> (length word < 100)%nat ->
  let i := (ix + 1) mod 128 in
  match match_char word i c with
  | MatchFails => True
  | MatchGoes => matched word (w ++ [c]) i
  | MatchDone => w ++ [c] = word
  end.
Proof.
  intros (k & Hk & -> & ->) Hlen i.
  assert (i = Z.of_nat k) as -> by (subst i; rewrite Z.mod_small; lia).
  unfold match_char. rewrite Z.gtb_ltb, (proj2 (Z.ltb_ge _ _)), Nat2Z.id by lia. simpl.
  destruct (Z.eqb_spec c (nth k word 0)) as [->|]; [|done]. simpl.
  assert (take k word ++ [nth k word 0] = take (S k) word) as Htake.
  { symmetry. apply take_S_r. destruct (word !! k) as [y|] eqn:E.
    - by rewrite (nth_lookup_Some _ _ _ _ E).
    - apply lookup_ge_None in E. lia. }
  rewrite Htake. destruct (Z.eqb_spec (Z.of_nat k) (Z.of_nat (length word) - 1)).
  - apply take_ge. lia.
  - exists (S k). split_and!; [lia|lia|done|lia].
Qed.

Ltac matched_at k := exists k; split; [simpl; lia|split; reflexivity].

Lemma name_first x : name_inv [TOKEN x] (name_start (http_parser_init HTTP_BOTH) x).
Proof.
  unfold name_start, header_start_state, name_inv. simpl.
  repeat (case_if; [breflect; match goal with E : TOKEN x = _ |- _ => rewrite E end;
    first [done|matched_at 1%nat]|]). done.
Qed.

Lemma name_inv_start h x : name_inv [TOKEN x] (name_start h x).
Proof. exact (name_first x). Qed.

Ltac unfold_statements :=
  unfold field_run, field_char, match_header, field_content_length, fail_with, modify, get, leave,
    assert_, mret, M_ret, mbind, M_bind, incr_index.

Lemma name_step h w x :
  name_inv w h -> TOKEN x <> 0 -> x <> 32 -> ~ CONTENT_LENGTH `prefix_of` (w ++ [TOKEN x]) ->
  exists h', field_run h x = Some h' /\ name_inv (w ++ [TOKEN x]) h' /\ flags h' = flags h.
Proof.
  intros Hinv Hx H32 Hcl. apply Z.eqb_neq in H32.
  destruct h as [ty fl hst hs ix le nr cl ma mi sc me er up]. unfold name_inv in Hinv.
  destruct hs; simpl in Hinv; try done; unfold_statements; simpl; rewrite ?H32; simpl;
    try (eexists; split; [reflexivity|split; [exact I|reflexivity]]).
  - destruct Hinv as [-> ->]. eexists. split; [reflexivity|]. split; [|done].
    unfold name_inv. simpl. case_if; breflect; [|done]. by rewrite E.
  - destruct Hinv as [-> ->]. eexists. split; [reflexivity|]. split; [|done].
    unfold name_inv. simpl. case_if; breflect; [|done]. by rewrite E.
  - destruct Hinv as [-> ->]. eexists. split; [reflexivity|]. split; [|done].
    unfold name_inv. simpl. case_if; breflect; [rewrite E; matched_at 4%nat|].
    case_if; breflect; [rewrite E0; matched_at 4%nat|done].
  - pose proof (match_char_spec _ _ _ (TOKEN x) Hinv ltac:(simpl; lia)) as Hm. cbv zeta in Hm.
    destruct (match_char _ _ _); eexists; (split; [reflexivity|]); split; try done; by left.
  - pose proof (match_char_spec _ _ _ (TOKEN x) Hinv ltac:(simpl; lia)) as Hm. cbv zeta in Hm.
    destruct (match_char _ _ _); eexists; (split; [reflexivity|]); split; try done; by right.
  - pose proof (match_char_spec _ _ _ (TOKEN x) Hinv ltac:(simpl; lia)) as Hm. cbv zeta in Hm.
    destruct (match_char _ _ _).
    + by eexists.
    + by eexists.
    + destruct Hcl. by rewrite Hm.
  - pose proof (match_char_spec _ _ _ (TOKEN x) Hinv ltac:(simpl; lia)) as Hm. cbv zeta in Hm.
    destruct (match_char _ _ _); eexists; (split; [reflexivity|]); by split.
  - pose proof (match_char_spec _ _ _ (TOKEN x) Hinv ltac:(simpl; lia)) as Hm. cbv zeta in Hm.
    destruct (match_char _ _ _); eexists; (split; [reflexivity|]); by split.
Qed.

Lemma name_run_inv w : forall h w0,
  name_inv w0 h -> Forall (fun x => TOKEN x <> 0 /\ x <> 32) w ->
  ~ CONTENT_LENGTH `prefix_of` (w0 ++ (TOKEN <$> w)) ->
  exists h', name_run h w = Some h' /\ name_inv (w0 ++ (TOKEN <$> w)) h' /\ flags h' = flags h.
Proof.
  induction w as [|x w IH]; intros h w0 Hinv Hw Hcl.
  - exists h. simpl. by rewrite app_nil_r.
  - apply Forall_cons in Hw as [[Hx H32] Hw].
    destruct (name_step h w0 x Hinv Hx H32) as (h1 & E1 & Hinv1 & Hf1).
    { intros Hp. apply Hcl. etrans; [exact Hp|]. exists (TOKEN <$> w). by rewrite <- app_assoc. }
    destruct (IH h1 (w0 ++ [TOKEN x]) Hinv1 Hw) as (h2 & E2 & Hinv2 & Hf2).
    { by rewrite <- app_assoc. }
    exists h2. simpl. rewrite (proj2 (Z.eqb_neq _ _) Hx), E1. simpl. rewrite <- app_assoc in Hinv2.
    split_and!; [done|done|congruence].
Qed.

Lemma name_run_frame w : forall h h', name_run h w = Some h' -> same_frame h h'.
Proof.
  induction w as [|x w IH]; intros h h' Hr; simpl in Hr; [injection Hr as <-; apply same_frame_refl|].
  destruct (TOKEN x =? 0); [done|]. destruct (field_run h x) as [h1|] eqn:E1; [|done].
  destruct (field_char_run h h1 x tt s_dead 0 0 no_mark E1) as [_ Hs].
  eapply same_frame_trans; [exact Hs|by apply IH].
Qed.

(** The states in which a value means nothing. *)
Definition plain_state (hs : header_states) : Prop :=
  hs <> h_connection /\ hs <> h_content_length /\ hs <> h_transfer_encoding /\ hs <> h_upgrade /\
  hs <> h_matching_connection_token_start.

Lemma name_run_plain h x w :
  plain_name (x :: w) ->
  exists h', name_run (name_start h x) w = Some h' /\ plain_state (header_state h') /\
    flags h' = flags h.
Proof.
  intros (_ & Hw & Hword). apply Forall_cons in Hw as [_ Hw].
  destruct Hword as (N1 & N2 & N3 & N4 & N5).
  destruct (name_run_inv w (name_start h x) [TOKEN x] (name_inv_start h x) Hw N5) as (h' & E & Hinv & Hf).
  exists h'. split; [done|]. split; [|by rewrite Hf].
  change ([TOKEN x] ++ (TOKEN <$> w)) with (TOKEN <$> (x :: w)) in Hinv.
  unfold name_inv in Hinv. unfold plain_state. destruct (header_state h'); try done; naive_solver.
Qed.

(** ** Values *)

Lemma value_start_plain h x :
  plain_state (header_state h) ->
  value_start h x = Some (set_header_state h_general (set_index 0 h)).
Proof.
  intros (N1 & N2 & N3 & N4 & N5). destruct h as [ty fl hst hs ix le nr cl ma mi sc me er up].
  simpl in *. unfold value_start, case_header_value_start, MARK, modify, get, leave, set_mark,
    UPDATE_STATE, mret, M_ret, mbind, M_bind. destruct hs; simpl; done.
Qed.

(** A value the parser does not look at. *)
Definition plain_value (value : bytes) : Prop :=
  Forall value_byte value /\ match value with x :: _ => x <> 32 /\ x <> 9 | [] => False end.

Section Lines.
Context {U : Type} (fu ff fv fb : bytes -> U -> U) (fc : http_parser -> U -> U) (data : bytes).
Context (Q : unit -> machine U -> Prop) (E : jump -> machine U -> Prop).
#[local] Notation loops := (loops (pure_settings fu ff fv fb fc) data Q E).

(** A name, a colon, a space, a value and the end of the line. *)
Lemma loops_header st h u i x w y v rest h1 h2 h3 hs :
  line_start st -> drop i data = (x :: w) ++ bs ": " ++ (y :: v) ++ CR :: LF :: rest ->
  TOKEN x <> 0 -> plain_value (y :: v) -> errno h = HPE_OK -> 0 <= nread h ->
  nread h + Z.of_nat (length w + length v) + 6 <= HTTP_MAX_HEADER_SIZE ->
  name_run (name_start (line_begin st h) x) w = Some h1 -> errno h1 = HPE_OK ->
  value_start (set_hp_state s_header_value_discard_ws h1) y = Some h2 ->
  value_run (header_state h2) h2 v = Some (hs, h3) ->
  loops (set_nread (nread h + Z.of_nat (length w + length v) + 6)
           (set_hp_state s_header_almost_done (set_header_state hs h3)))
    (fv (y :: v) (ff (x :: w) u)) s_header_value_lws (i + length w + length v + 6) no_mark ->
  loops h u st i no_mark.
Proof.
  intros Hst Hc Hx [Hval [N1 N2]] Hh H0 Hn Hname Hh1 Hs Hv Hl.
  eapply (loops_name fu ff fv fb fc data Q E st x w h h1 u i (32 :: (y :: v) ++ CR :: LF :: rest));
    [done|exact Hc|done|done|done|lia|done|].
  assert (drop (i + length w + 2) data = 32 :: (y :: v) ++ CR :: LF :: rest) as Hc1.
  { replace (i + length w + 2)%nat with (i + length ((x :: w) ++ [chr ":"]))%nat
      by (rewrite length_app; simpl; lia).
    apply cursor_app. rewrite Hc. by rewrite <- app_assoc. }
  set (g := set_hp_state s_header_value_discard_ws (set_nread (nread h + Z.of_nat (length w) + 2) h1)).
  eapply (loops_char _ _ _ _ g _ _ _ _ 32 _ (set_nread (nread g + 1) g));
    [exact Hc1|intros _; simpl; lia|reflexivity|].
  apply cursor_S in Hc1. subst g. set (n := nread h + Z.of_nat (length w) + 2 + 1).
  eapply (loops_value fu ff fv fb fc data Q E y v _ (set_nread n h2) (set_nread n h3) hs _ _ rest);
    [exact Hc1|done|done|exact Hval|done|simpl; lia|simpl; lia| | |].
  - change (set_nread (nread _ + 1) _) with (set_nread n (set_hp_state s_header_value_discard_ws h1)).
    by rewrite value_start_nread, Hs.
  - rewrite value_run_nread. simpl. by rewrite Hv.
  - replace (S (i + length w + 2) + length v + 3)%nat with (i + length w + length v + 6)%nat by lia.
    simpl nread. replace (nread h + Z.of_nat (length w) + 2 + 1 + Z.of_nat (length v) + 3)
      with (nread h + Z.of_nat (length w + length v) + 6) by lia.
    exact Hl.
Qed.

(** The parser without what matching leaves behind. *)
Definition norm (h : http_parser) : http_parser :=
  set_hp_state s_dead (set_header_state h_general (set_index 0 h)).

(** [h] is at the start of a line and otherwise [b]. *)
Definition at_line st h (b : http_parser) : Prop := line_start st /\ norm (line_begin st h) = b.

Lemma at_line_fields st h b : at_line st h b -> nread h = nread b /\ errno h = errno b.
Proof. intros [_ <-]. unfold line_begin. by case_decide. Qed.

Lemma norm_or_flags f h : norm (or_flags f h) = or_flags f (norm h).
Proof. done. Qed.

Lemma norm_set_nread n h : norm (set_nread n h) = set_nread n (norm h).
Proof. done. Qed.

Lemma norm_same h h' : same_frame h h' -> flags h' = flags h -> norm h' = norm h.
Proof. intros -> Hf. destruct h, h'. simpl in *. by subst. Qed.

(** A header the parser does not look at. *)
Lemma loops_plain st h b u i name value rest :
  at_line st h b -> drop i data = name ++ bs ": " ++ value ++ CR :: LF :: rest ->
  plain_name name -> plain_value value -> errno b = HPE_OK -> 0 <= nread b ->
  nread b + Z.of_nat (length name + length value) + 4 <= HTTP_MAX_HEADER_SIZE ->
  (forall h', at_line s_header_value_lws h'
                (set_nread (nread b + Z.of_nat (length name + length value) + 4) b) ->
     loops h' (fv value (ff name u)) s_header_value_lws (i + (length name + length value + 4)) no_mark) ->
  loops h u st i no_mark.
Proof.
  intros Hat Hc Hname Hval Hb H0 Hn Hl. destruct (at_line_fields _ _ _ Hat) as [En Ee].
  destruct name as [|x w]; [by destruct Hname|]. destruct value as [|y v]; [by destruct Hval|].
  destruct (name_run_plain (line_begin st h) x w Hname) as (h1 & Hrun & Hps & Hf).
  pose proof (name_run_frame w _ _ Hrun) as Hsf.
  destruct Hat as [Hst Hnorm]. pose proof Hname as (_ & Hx & _). apply Forall_cons in Hx as [[Hx _] _].
  eapply (loops_header st h u i x w y v rest h1); try done.
  - by rewrite Ee.
  - lia.
  - rewrite En. simpl in Hn. lia.
  - rewrite Hsf. simpl. unfold line_begin. by case_decide; simpl; rewrite Ee.
  - by apply value_start_plain.
  - by destruct v.
  - replace (i + length w + length v + 6)%nat with (i + (length (x :: w) + length (y :: v) + 4))%nat
      by (simpl; lia).
    apply Hl. split; [by right|]. unfold line_begin at 1. rewrite decide_True by done.
    rewrite En. replace (nread b + Z.of_nat (length w + length v) + 6)
      with (nread b + Z.of_nat (length (x :: w) + length (y :: v)) + 4) by (simpl; lia).
    subst b. clear - Hsf Hf. unfold same_frame, name_start in Hsf.
    destruct h1, (line_begin st h). simpl in Hf. revert Hsf. intros [=]. simplify_eq.
    unfold norm, finish_header, or_flags. simpl. by rewrite Z.lor_0_r.
Qed.

(** The header [Connection] of the encoder. *)
Definition connection_value (close : bool) : bytes := if close then bs "close" else bs "Keep-Alive".
Definition connection_bit (close : bool) : Z :=
  if close then F_CONNECTION_CLOSE else F_CONNECTION_KEEP_ALIVE.

Lemma connection_run g close : exists h1 h2 h3 y v hs,
  connection_value close = y :: v /\
  name_run (name_start g (chr "C")) (bs "onnection") = Some h1 /\
  value_start (set_hp_state s_header_value_discard_ws h1) y = Some h2 /\
  value_run (header_state h2) h2 v = Some (hs, h3) /\ errno h1 = errno g /\
  header_flag hs = connection_bit close /\ norm h3 = norm g.
Proof.
  destruct g, close; do 6 eexists; repeat (split; [vm_compute; reflexivity|]); reflexivity.
Qed.

Lemma loops_connection st h b u i close rest :
  at_line st h b ->
  drop i data = bs "Connection: " ++ connection_value close ++ CR :: LF :: rest ->
  errno b = HPE_OK -> 0 <= nread b ->
  nread b + Z.of_nat (length (connection_value close)) + 14 <= HTTP_MAX_HEADER_SIZE ->
  (forall h', at_line s_header_value_lws h'
                (set_nread (nread b + Z.of_nat (length (connection_value close)) + 14)
                  (or_flags (connection_bit close) b)) ->
     loops h' (fv (connection_value close) (ff (bs "Connection") u)) s_header_value_lws
       (i + (length (connection_value close) + 14)) no_mark) ->
  loops h u st i no_mark.
Proof.
  intros Hat Hc Hb H0 Hn Hl. destruct (at_line_fields _ _ _ Hat) as [En Ee].
  destruct (connection_run (line_begin st h) close)
    as (h1 & h2 & h3 & y & v & hs & Ev & Hrun & Hs & Hv & He & Hhs & Hnm).
  assert (plain_value (y :: v)) as Hval.
  { rewrite <- Ev. destruct close; (split; [|by split]); repeat constructor; by compute. }
  destruct Hat as [Hst Hnorm]. rewrite Ev in *. simpl length in *.
  eapply (loops_header st h u i (chr "C") (bs "onnection") y v rest h1 h2 h3 hs);
    [exact Hst|exact Hc|discriminate|exact Hval|congruence|lia| |exact Hrun| |exact Hs|exact Hv|].
  - rewrite En. simpl length. lia.
  - rewrite He. unfold line_begin. by case_decide; simpl; rewrite Ee.
  - replace (i + length (bs "onnection") + length v + 6)%nat with (i + (S (length v) + 14))%nat
      by (simpl; lia).
    apply Hl. split; [by right|]. unfold line_begin at 1. rewrite decide_True by done.
    rewrite En. replace (nread b + Z.of_nat (length (bs "onnection") + length v) + 6)
      with (nread b + Z.of_nat (S (length v)) + 14) by (simpl length; lia).
    subst b. unfold finish_header. simpl header_state. rewrite Hhs, norm_or_flags, norm_set_nread.
    change (norm (set_hp_state s_header_almost_done (set_header_state hs h3))) with (norm h3).
    rewrite Hnm. generalize (norm (line_begin st h)). by intros [].
Qed.

(** Reading the digits of a number. *)
Definition read_digits (v : Z) (w : bytes) : Z := fold_left (fun v x => v * 10 + (x - 48)) w v.

Lemma read_digits_mono w : forall v, 0 <= v -> Forall (fun x => 48 <= x < 58) w -> v <= read_digits v w.
Proof.
  induction w as [|x w IH]; intros v Hv Hw; [done|]. apply Forall_cons in Hw as [Hx Hw].
  specialize (IH (v * 10 + (x - 48)) ltac:(lia) Hw).
  change (read_digits v (x :: w)) with (read_digits (v * 10 + (x - 48)) w). lia.
Qed.

Lemma value_run_digits w : forall h,
  Forall (fun x => 48 <= x < 58) w -> 0 <= content_length h ->
  read_digits (content_length h) w < 2 ^ 60 ->
  value_run h_content_length h w =
    Some (h_content_length, set_content_length (read_digits (content_length h) w) h).
Proof.
  induction w as [|x w IH]; intros h Hw H0 Hn; [by destruct h|].
  apply Forall_cons in Hw as [Hx Hw].
  change (read_digits (content_length h) (x :: w))
    with (read_digits (content_length h * 10 + (x - 48)) w) in *.
  pose proof (read_digits_mono w (content_length h * 10 + (x - 48)) ltac:(lia) Hw) as Hm.
  cbn [value_run]. rewrite decide_False by done.
  assert (value_step h_content_length h x =
            Some (h_content_length, set_content_length (content_length h * 10 + (x - 48)) h)) as ->.
  { assert ((ULLONG_MAX - 10) / 10 <? content_length h = false) as Hov.
    { apply Z.ltb_ge. change ((ULLONG_MAX - 10) / 10) with 1844674407370955160. lia. }
    unfold value_step, value_char, value_content_length, IS_NUM.
    rewrite (proj2 (Z.eqb_neq x 32)) by lia.
    rewrite (proj2 (Z.leb_le 48 x)), (proj2 (Z.leb_le x 57)) by lia.
    unfold mbind, M_bind, get, modify. cbn [negb andb hp]. rewrite Hov. cbn [mret M_ret hp].
    rewrite (u64_small (content_length h * 10)) by lia. by rewrite u64_small by lia. }
  cbn [mbind option_bind fst snd]. rewrite IH; [by destruct h|done|simpl; lia|done].
Qed.

(** The header [Content-Length]: its name, and its line. *)
Lemma name_run_app w1 w2 : forall h, name_run h (w1 ++ w2) = name_run h w1 ≫= fun h' => name_run h' w2.
Proof.
  induction w1 as [|x w1 IH]; intros h; [done|]. simpl. case_if; [done|].
  destruct (field_run h x); simpl; [apply IH|done].
Qed.

Lemma content_length_name g :
  flag F_CONTENTLENGTH g = false ->
  exists h1, name_run (name_start g (chr "C")) (bs "ontent-Length") = Some h1 /\
    header_state h1 = h_content_length /\ errno h1 = errno g /\
    norm h1 = norm (or_flags F_CONTENTLENGTH g).
Proof.
  intros Hf. change (bs "ontent-Length") with (bs "ontent-Lengt" ++ bs "h"). rewrite name_run_app.
  assert (name_run (name_start g (chr "C")) (bs "ontent-Lengt") =
            Some (set_header_state h_matching_content_length (set_index 12 g))) as ->.
  { destruct g. vm_compute. reflexivity. }
  exists (set_header_state h_content_length (or_flags F_CONTENTLENGTH (set_index 13 g))).
  split; [|by destruct g]. simpl. unfold_statements. simpl.
  change (flag F_CONTENTLENGTH _) with (flag F_CONTENTLENGTH g). by rewrite Hf.
Qed.

Lemma digit_value_byte x : 48 <= x < 58 -> value_byte x.
Proof.
  intros Hx. split; [|lia]. assert (x ∈ seqZ 48 10) as Hin by (apply elem_of_seqZ; lia).
  clear Hx. revert x Hin. apply Forall_forall. repeat constructor.
Qed.

Lemma loops_content_length st h b u i value n rest :
  at_line st h b -> drop i data = bs "Content-Length: " ++ value ++ CR :: LF :: rest ->
  value <> [] -> Forall (fun x => 48 <= x < 58) value -> read_digits 0 value = n -> n < 2 ^ 60 ->
  flag F_CONTENTLENGTH b = false -> errno b = HPE_OK -> 0 <= nread b ->
  nread b + Z.of_nat (length value) + 18 <= HTTP_MAX_HEADER_SIZE ->
  (forall h', at_line s_header_value_lws h'
                (set_nread (nread b + Z.of_nat (length value) + 18)
                  (set_content_length n (or_flags F_CONTENTLENGTH b))) ->
     loops h' (fv value (ff (bs "Content-Length") u)) s_header_value_lws
       (i + (length value + 18)) no_mark) ->
  loops h u st i no_mark.
Proof.
  intros Hat Hc Hne Hd Hn Hlt Hf Hb H0 Hsz Hl. destruct (at_line_fields _ _ _ Hat) as [En Ee].
  destruct Hat as [Hst Hnorm]. destruct value as [|y v]; [done|]. apply Forall_cons in Hd as [Hy Hv].
  assert (flag F_CONTENTLENGTH (line_begin st h) = false) as Hf0 by by rewrite <- Hnorm in Hf.
  destruct (content_length_name _ Hf0) as (h1 & Hrun & Hhs & He & Hn1).
  simpl length in *. change (read_digits 0 (y :: v)) with (read_digits (y - 48) v) in Hn.
  set (h1' := set_hp_state s_header_value_discard_ws h1).
  assert (value_start h1' y = Some (set_content_length (y - 48) (set_index 0 h1'))) as Hs.
  { unfold value_start, case_header_value_start, MARK, modify, get, leave, set_mark, UPDATE_STATE,
      mret, M_ret, mbind, M_bind, IS_NUM. simpl. rewrite Hhs.
    by rewrite (proj2 (Z.leb_le 48 y)), (proj2 (Z.leb_le y 57)) by lia. }
  eapply (loops_header st h u i (chr "C") (bs "ontent-Length") y v rest h1);
    [exact Hst|exact Hc|discriminate| |congruence|lia| |exact Hrun| |exact Hs| |].
  - split; [|lia]. constructor; [by apply digit_value_byte|].
    eapply Forall_impl; [exact Hv|]. apply digit_value_byte.
  - rewrite En. simpl length. lia.
  - rewrite He. unfold line_begin. by case_decide; simpl; rewrite Ee.
  - change (header_state _) with (header_state h1). rewrite Hhs. apply value_run_digits; [done|simpl; lia|].
    simpl. by rewrite Hn.
  - replace (i + length (bs "ontent-Length") + length v + 6)%nat with (i + (S (length v) + 18))%nat
      by (simpl; lia).
    apply Hl. split; [by right|]. unfold line_begin at 1. rewrite decide_True by done.
    rewrite En. replace (nread b + Z.of_nat (length (bs "ontent-Length") + length v) + 6)
      with (nread b + Z.of_nat (S (length v)) + 18) by (simpl length; lia).
    simpl content_length. rewrite Hn. subst h1'.
    unfold finish_header. simpl header_state. rewrite norm_or_flags, norm_set_nread.
    transitivity (or_flags 0 (set_nread (nread b + Z.of_nat (S (length v)) + 18)
                   (set_content_length n (norm h1)))); [done|].
    rewrite Hn1, norm_or_flags, Hnorm. clear. destruct b. unfold or_flags. simpl.
    by rewrite Z.lor_0_r.
Qed.
End Lines.
