(* ===== verification/HttpPieces.v ===== *)
(** * Messages that arrive in pieces

    A call of [http_parser_execute] that ends inside a body leaves a parser that waits for the rest
    of it ([awaits]); the next calls go on with it.  [feed] is a sequence of calls of [Parse] that
    all succeed; pieces that end outside of header names and values may be joined
    ([feed_concat]). *)

From S2P Require Import Prelude OrdMap HttpTables HttpUrl HttpExecute HttpSafe HttpSafeLoops HttpRun HttpSplit HttpMessage.

Open Scope Z_scope.

(** ** Calls that end at a known point *)

Section Execute.
Context {U : Type} (fu ff fv fb : bytes -> U -> U) (fc : http_parser -> U -> U).
Context (data : bytes) (h : http_parser) (u : U).
#[local] Notation settings := (pure_settings fu ff fv fb fc).
Context (Hh : errno h = HPE_OK) (Hd : data <> []) (Hm : initial_mark (hp_state h) = None).

Lemma execute_stop st (P : http_parser -> U -> Prop) :
  (forall h1 u1, P h1 u1 -> errno h1 = HPE_OK) ->
  loops settings data
    (fun _ s => exists h1 u1 c, P h1 u1 /\ s = mkMachine h1 u1 st (length data) c no_mark)
    (fun _ _ => False) h u (hp_state h) 0 no_mark ->
  exists h1 u1, P h1 u1 /\
    http_parser_execute settings data h u = (Executed (length data), set_hp_state st h1, u1).
Proof.
  intros HP Hl. specialize (Hl 0 (S (length data)) ltac:(lia)).
  unfold http_parser_execute. rewrite decide_True, decide_False by done.
  unfold execute_body, initial_machine. rewrite Hm. unfold wp in Hl. unfold mbind at 1, M_bind at 1.
  destruct (for_loop settings data _ _) as [s [[]|j]]; [|done].
  destruct Hl as (h1 & u1 & c & Hs & ->). exists h1, u1. split; [done|]. pose proof (HP _ _ Hs) as He.
  destruct h1 as [ty fl hst hs ix le nr cl ma mi sc me er up]. simpl in He. by subst er.
Qed.

(** The data callback of what is marked. *)
Lemma execute_part st j (P : http_parser -> U -> Prop) :
  (forall h1 u1, P h1 u1 -> errno h1 = HPE_OK) ->
  loops settings data
    (fun _ s => exists h1 u1 c, P h1 u1 /\
       s = mkMachine h1 u1 st (length data) c (put_mark no_mark M_body (Some j)))
    (fun _ _ => False) h u (hp_state h) 0 no_mark ->
  exists h1 u1, P h1 u1 /\ http_parser_execute settings data h u =
    (Executed (length data), set_hp_state st h1, fb (slice data j (length data - j)) u1).
Proof.
  intros HP Hl. specialize (Hl 0 (S (length data)) ltac:(lia)).
  unfold http_parser_execute. rewrite decide_True, decide_False by done.
  unfold execute_body, initial_machine. rewrite Hm. unfold wp in Hl. unfold mbind at 1, M_bind at 1.
  destruct (for_loop settings data _ _) as [s [[]|i]]; [|done].
  destruct Hl as (h1 & u1 & c & Hs & ->). exists h1, u1. split; [done|]. pose proof (HP _ _ Hs) as He.
  destruct h1 as [ty fl hst hs ix le nr cl ma mi sc me er up]. simpl in He. by subst er.
Qed.

(** ** Bodies *)

(** The parser has read the headers and waits for [n] more bytes of the body. *)
Definition awaits h (n : Z) : Prop :=
  errno h = HPE_OK /\ hp_state h = s_body_identity /\ upgrade h = false /\ content_length h = n.
End Execute.

Section Bodies.
Context {U : Type} (fu ff fv fb : bytes -> U -> U) (fc : http_parser -> U -> U).
Implicit Types (h : http_parser) (u : U) (d : bytes).
#[local] Notation settings := (pure_settings fu ff fv fb fc).

Lemma body_part h u d n :
  awaits h n -> d <> [] -> Z.of_nat (length d) < n < ULLONG_MAX ->
  exists h', http_parser_execute settings d h u = (Executed (length d), h', fb d u) /\
    awaits h' (n - Z.of_nat (length d)) /\ method h' = method h /\ status_code h' = status_code h.
Proof.
  intros (He & Hs & Hu & Hn) Hd Hlen.
  destruct (execute_part fu ff fv fb fc d h u He Hd ltac:(by rewrite Hs) s_body_identity 0
    (fun h1 u1 => h1 = set_content_length (n - Z.of_nat (length d)) h /\ u1 = u))
    as (h1 & u1 & [-> ->] & Ex).
  - by intros h1 u1 [-> _].
  - rewrite Hs, <- Hn. eapply loops_body_part; [reflexivity|done|by rewrite Hn|].
    intros c. by eexists _, _, _.
  - rewrite Ex. unfold slice. rewrite drop_0, Nat.sub_0_r, firstn_all. by eexists.
Qed.

Lemma body_last h u d :
  awaits h (Z.of_nat (length d)) -> d <> [] -> Z.of_nat (length d) < ULLONG_MAX ->
  exists h' hc, http_parser_execute settings d h u = (Executed (length d), h', fc hc (fb d u)) /\
    errno h' = HPE_OK /\ method hc = method h /\ status_code hc = status_code h.
Proof.
  intros (He & Hs & Hu & Hn) Hd Hlen.
  set (h2 := set_hp_state s_message_done (set_content_length 0 h)).
  set (h3 := set_hp_state (NEW_MESSAGE h2) h2).
  destruct (execute_stop fu ff fv fb fc d h u He Hd ltac:(by rewrite Hs) (hp_state h3)
    (fun h1 u1 => h1 = h3 /\ u1 = fc h3 (fb d u))) as (h1 & u1 & [-> ->] & Ex).
  - by intros h1 u1 [-> _].
  - rewrite Hs. eapply (loops_body fu ff fv fb fc d _ _ h u 0 d []); try done; [by rewrite app_nil_r|].
    fold h2. fold h3. apply loops_end. intros c. by eexists _, _, _.
  - eexists _, h3. rewrite Ex. done.
Qed.
End Bodies.

(** ** Calls of [Parse] *)

Fixpoint feed (p : HttpParser) (pieces : list bytes) : option HttpParser :=
  match pieces with
  | [] => Some p
  | d :: pieces' =>
      match HttpParser_Parse p d with
      | Some (p', true) => feed p' pieces'
      | _ => None
      end
  end.

Lemma feed_one p d p' : feed p [d] = Some p' -> HttpParser_Parse p d = Some (p', true).
Proof. simpl. by destruct (HttpParser_Parse p d) as [[q []]|]; [intros [= ->]|..]. Qed.

(** After none of the proper prefixes of the pieces the message is complete. *)
Definition incomplete_before (p : HttpParser) (pieces : list bytes) : Prop :=
  forall l1 l2 q, pieces = l1 ++ l2 -> l2 <> [] -> feed p l1 = Some q -> HttpParser_IsComplete q = false.

Lemma incomplete_before_cons p d p' l :
  HttpParser_IsComplete p = false -> HttpParser_Parse p d = Some (p', true) ->
  incomplete_before p' l -> incomplete_before p (d :: l).
Proof.
  intros Hp Ep Hl [|d' l1] l2 q E Hne Hq; [simpl in Hq; congruence|].
  injection E as <- El. simpl in Hq. rewrite Ep in Hq. by eapply Hl.
Qed.

Lemma incomplete_before_nil p : incomplete_before p [].
Proof. intros l1 l2 q E Hne _. by destruct l1, l2. Qed.

Lemma OnBody_app d1 d2 f : OnBody d2 (OnBody d1 f) = OnBody (d1 ++ d2) f.
Proof.
  unfold OnBody. destruct d1 as [|x d1]; [done|]. rewrite (bool_decide_false (x :: d1 = [])) by done.
  rewrite (bool_decide_false ((x :: d1) ++ d2 = [])) by done.
  destruct d2 as [|y d2]; [by rewrite bool_decide_true, app_nil_r by done|]. rewrite bool_decide_false by done.
  simpl. unfold set_body. simpl. by rewrite <- app_assoc.
Qed.

Lemma OnBody_complete d f : m_complete (OnBody d f) = m_complete f.
Proof. unfold OnBody. by case_bool_decide. Qed.

(** *** Pieces in general *)

Lemma OnBody_piecewise : piecewise OnBody.
Proof. split; [done|]. intros d1 d2 f. by rewrite OnBody_app. Qed.

Lemma OnUrl_piecewise : piecewise OnUrl.
Proof.
  split; [done|]. intros d1 d2 f. unfold OnUrl.
  repeat case_bool_decide; simplify_eq/=; rewrite ?app_nil_r in *; simplify_eq/=; try done.
  - by destruct d1.
  - by rewrite app_assoc.
Qed.

(** The parser waits for something else than the rest of a header name or value. *)
Definition outside_headers (p : HttpParser) : bool :=
  negb (bool_decide (hp_state (m_httpParser p) = s_header_field)) &&
  negb (bool_decide (hp_state (m_httpParser p) = s_header_value)).

(** The last message asked for another protocol: what follows it is not for this parser. *)
Definition upgraded (p : HttpParser) : bool := upgrade (m_httpParser p).

Lemma Parse_accepts p d q :
  HttpParser_Parse p d = Some (q, true) <->
  exists n, http_parser_execute m_settings d (m_httpParser p) (fields p) =
              (Executed n, m_httpParser q, fields q) /\ errno (m_httpParser q) = HPE_OK.
Proof.
  unfold HttpParser_Parse. destruct q as [h f]. simpl.
  destruct (http_parser_execute _ _ _ _) as [[[n| |] h'] f']; split; try done; try (by intros (? & ? & ?)).
  - intros [= -> -> Hb]. apply bool_decide_eq_true in Hb. eauto.
  - intros (n' & [= -> -> ->] & He). by rewrite bool_decide_true.
Qed.

Lemma Parse_cut p d1 p1 d2 q :
  parser_wf (m_httpParser p) -> d1 <> [] -> d2 <> [] ->
  HttpParser_Parse p d1 = Some (p1, true) -> outside_headers p1 = true -> upgraded p1 = false ->
  HttpParser_Parse p1 d2 = Some (q, true) -> HttpParser_Parse p (d1 ++ d2) = Some (q, true).
Proof.
  intros Hw Hd1 Hd2 (n1 & E1 & He1)%Parse_accepts Hout Hup (n2 & E2 & He2)%Parse_accepts.
  unfold upgraded in Hup. apply andb_true_iff in Hout as [Hf Hv].
  rewrite negb_true_iff in Hf, Hv. apply bool_decide_eq_false in Hf, Hv.
  pose proof (pure_settings_client OnUrl OnHeaderName OnHeaderValue OnBody OnComplete) as Hpc.
  destruct (execute_ok m_settings d1 (pure_settings_ok _ _ _ _ _) _ (fields p) Hw)
    as (n & h & u & E & _ & _ & _ & Hn).
  assert (errno (m_httpParser p) = HPE_OK) as Hh.
  { unfold http_parser_execute in E1. case_decide; [done|congruence]. }
  rewrite E1 in E. simplify_eq. destruct (Hn Hh He1) as [->|Hn']; [|by rewrite Hup in Hn'].
  destruct (execute_cut m_settings _ Hpc OnUrl_piecewise ltac:(by split) OnBody_piecewise d1 d2 _ _ _ _
              Hw Hd1 Hd2 E1 He1 Hup Hf Hv) as (n' & h2 & u2 & u' & E & E' & Hu).
  rewrite E2 in E. simplify_eq. apply Parse_accepts. exists (length d1 + n')%nat. by rewrite <- Hu.
Qed.

Lemma Parse_wf p d p1 : parser_wf (m_httpParser p) -> HttpParser_Parse p d = Some (p1, true) ->
  parser_wf (m_httpParser p1).
Proof.
  intros Hw (n & E & _)%Parse_accepts.
  destruct (execute_ok m_settings d (pure_settings_ok _ _ _ _ _) _ (fields p) Hw) as (? & ? & ? & E' & ? & _).
  rewrite E in E'. by simplify_eq.
Qed.

(** C13. [HttpParser::Parse] does not see how the bytes are cut into reads, for a sequence of
    nonempty reads that it accepts one after the other, as long as no read but the last ends inside
    the name or the value of a header or with an accepted upgrade: then it accepts all the bytes in
    one call, and the parser and its fields (URL, headers, body, completeness) are the same.  The
    conditions are needed: when the input has an error, or what follows an upgrade is fed to the
    parser, the pieces can leave other fields than the whole; HttpHeaderCut.v has the case of a
    header value that is cut. *)
Theorem feed_concat p ds q :
  parser_wf (m_httpParser p) -> ds <> [] -> Forall (fun d => d <> []) ds ->
  (forall l1 l2 q1, ds = l1 ++ l2 -> l1 <> [] -> l2 <> [] -> feed p l1 = Some q1 ->
     outside_headers q1 = true /\ upgraded q1 = false) ->
  feed p ds = Some q -> HttpParser_Parse p (concat ds) = Some (q, true).
Proof.
  revert p. induction ds as [|d ds IH]; intros p Hw Hne Hds Hcut Hq; [done|].
  apply Forall_cons in Hds as [Hd Hds]. simpl in Hq.
  destruct (HttpParser_Parse p d) as [[p1 []]|] eqn:Ep; try done.
  destruct (decide (ds = [])) as [->|Hds'].
  { simpl in *. by rewrite app_nil_r, Ep; simplify_eq. }
  destruct (Hcut [d] ds p1) as [Hout Hup]; [done|done|done|simpl; by rewrite Ep|].
  simpl. eapply Parse_cut; [done|done| |exact Ep|exact Hout|exact Hup|].
  - by destruct Hds; [|destruct x].
  - apply IH; [by eapply Parse_wf|done|done| |done].
    intros l1 l2 q1 -> Hl1 Hl2 Hf. apply (Hcut (d :: l1) l2); [done|done|done|]. simpl. by rewrite Ep.
Qed.

Lemma feed_concat_witness :
  let d1 := bs "GET /a" in
  let d2 := bs "b?x=1 HTTP/1.1" ++ [CR; LF; CR; LF] in
  exists q, HttpParser_Parse (HttpParser_init 0) (d1 ++ d2) = Some (q, true) /\
    GetUrl q = bs "/ab" /\ HttpParser_IsComplete q = true.
Proof.
  intros d1 d2. destruct (feed (HttpParser_init 0) [d1; d2]) as [q|] eqn:E; [|vm_compute in E; done].
  exists q. split.
  - rewrite <- (app_nil_r d2). apply (feed_concat (HttpParser_init 0) [d1; d2] q).
    + apply parser_init_wf.
    + done.
    + by repeat constructor.
    + clear E. clearbody d2. intros [|x [|y [|z l1]]] l2 q1 Hl H1 H2 Hq; [by destruct H1| | |discriminate].
      * injection Hl as <- <-. vm_compute in Hq. injection Hq as <-. split; reflexivity.
      * injection Hl as _ _ <-. by destruct H2.
    + exact E.
  - vm_compute in E. by simplify_eq.
Defined.

(** The rest of a body, in pieces. *)
Lemma feed_body ds : forall h f,
  awaits h (Z.of_nat (length (concat ds))) -> Z.of_nat (length (concat ds)) < ULLONG_MAX ->
  ds <> [] -> Forall (fun d => d <> []) ds -> m_complete f = false ->
  exists h' hc, method hc = method h /\ status_code hc = status_code h /\
    feed (mkHttp h f) ds = Some (mkHttp h' (OnComplete hc (OnBody (concat ds) f))) /\
    incomplete_before (mkHttp h f) ds.
Proof.
  induction ds as [|d ds IH]; intros h f Ha Hlt Hne Hds Hf; [done|]. clear Hne.
  apply Forall_cons in Hds as [Hd Hds]. simpl concat in *. rewrite length_app in *.
  destruct (decide (ds = [])) as [->|Hne].
  - rewrite Nat.add_0_r in *. rewrite app_nil_r.
    destruct (body_last OnUrl OnHeaderName OnHeaderValue OnBody OnComplete h f d Ha Hd Hlt)
      as (h' & hc & Ex & He & Hmc & Hsc).
    assert (HttpParser_Parse (mkHttp h f) d = Some (mkHttp h' (OnComplete hc (OnBody d f)), true)) as Ep.
    { unfold HttpParser_Parse. simpl. change m_settings with
        (pure_settings OnUrl OnHeaderName OnHeaderValue OnBody OnComplete). rewrite Ex.
      by rewrite bool_decide_true. }
    exists h', hc. split_and!; [done|done|simpl; by rewrite Ep|].
    eapply incomplete_before_cons; [done|exact Ep|apply incomplete_before_nil].
  - assert (0 < length (concat ds))%nat as Hpos.
    { destruct ds as [|d2 ds]; [done|]. apply Forall_cons in Hds as [Hd2 _]. simpl. rewrite length_app.
      destruct d2; [done|simpl; lia]. }
    destruct (body_part OnUrl OnHeaderName OnHeaderValue OnBody OnComplete h f d _ Ha Hd ltac:(lia))
      as (h1 & Ex & Ha1 & Hm1 & Hs1).
    assert (HttpParser_Parse (mkHttp h f) d = Some (mkHttp h1 (OnBody d f), true)) as Ep.
    { unfold HttpParser_Parse. simpl. change m_settings with
        (pure_settings OnUrl OnHeaderName OnHeaderValue OnBody OnComplete). rewrite Ex.
      rewrite bool_decide_true; [done|]. by destruct Ha1. }
    replace (Z.of_nat (length d + length (concat ds)) - Z.of_nat (length d))
      with (Z.of_nat (length (concat ds))) in Ha1 by lia.
    destruct (IH h1 (OnBody d f) Ha1 ltac:(lia) Hne Hds) as (h' & hc & Hmc & Hsc & Hfeed & Hinc).
    { by rewrite OnBody_complete. }
    exists h', hc. rewrite Hmc, Hsc. split_and!; [done|done| |].
    + simpl. rewrite Ep, Hfeed, OnBody_app. done.
    + by eapply incomplete_before_cons.
Qed.
