(* ===== verification/HttpRoundTrip.v ===== *)
(** * Round trips of HTTP messages

    What [HttpEncoder] prints, [HttpParser::Parse] reads back, in one call or in several when the
    body is cut: the request line or the status line, the parameters, the headers, the body. *)

From S2P Require Import Prelude OrdMap UrlCodec HttpTables HttpUrl HttpExecute HttpSafe HttpSafeLoops HttpRun HttpMessage HttpHeaders HttpPieces.

Open Scope Z_scope.

(** ** Decimal numbers *)

Definition digit (x : Z) : Prop := 48 <= x < 58.

Lemma dec_digits_spec fuel : forall z acc, 0 <= z < 10 ^ Z.of_nat fuel ->
  exists ds, dec_digits fuel z acc = ds ++ acc /\ Forall digit ds /\ read_digits 0 ds = z /\
    (0 < fuel -> ds <> [])%nat /\ (length ds <= fuel)%nat.
Proof.
  induction fuel as [|fuel IH]; intros z acc Hz.
  { simpl in Hz. exists []. split_and!; simpl; try done; lia. }
  rewrite Nat2Z.inj_succ, Z.pow_succ_r in Hz by lia. simpl. case_if; breflect.
  - exists [48 + z]. split_and!; try done; [|unfold read_digits; simpl; lia|simpl; lia].
    repeat constructor; lia.
  - destruct (IH (z / 10) ((48 + z mod 10) :: acc)) as (ds & -> & Hd & Hr & _ & Hl); [divlia|].
    exists (ds ++ [48 + z mod 10]). rewrite <- app_assoc. split_and!; try done.
    + apply Forall_app. split; [done|]. repeat constructor; divlia.
    + unfold read_digits in *. rewrite fold_left_app, Hr. simpl. divlia.
    + intros _. by destruct ds.
    + rewrite length_app. simpl. lia.
Qed.

Lemma decimal_spec z : 0 <= z < 2 ^ 60 ->
  Forall digit (decimal z) /\ read_digits 0 (decimal z) = z /\ decimal z <> [] /\
  (length (decimal z) <= 20)%nat.
Proof.
  intros Hz. destruct (dec_digits_spec 20 z []) as (ds & E & Hd & Hr & Hne & Hl).
  { change (10 ^ Z.of_nat 20) with 100000000000000000000. lia. }
  unfold decimal. rewrite E, app_nil_r. split_and!; try done. apply Hne. lia.
Qed.

(** ** One call on one message *)

Section Execute.
Context {U : Type} (settings : http_parser_settings U) (data : bytes) (h : http_parser) (u : U).

(** A run of the loop to the end of the data without a mark is a call that consumed it all. *)
Lemma execute_run (P : http_parser -> U -> Prop) :
  (forall h' u', P h' u' -> errno h' = HPE_OK) ->
  errno h = HPE_OK -> data <> [] -> initial_mark (hp_state h) = None ->
  loops settings data
    (fun _ s => p s = length data /\ marks s = no_mark /\ P (hp s) (user s)) (fun _ _ => False)
    h u (hp_state h) 0 no_mark ->
  exists h' u' st, P h' u' /\
    http_parser_execute settings data h u = (Executed (length data), set_hp_state st h', u').
Proof.
  intros HP Hh Hd Hm Hl. specialize (Hl 0 (S (length data)) ltac:(lia)).
  unfold http_parser_execute. rewrite decide_True, decide_False by done.
  unfold execute_body, initial_machine. rewrite Hm. unfold wp in Hl. unfold mbind at 1, M_bind at 1.
  destruct (for_loop settings data _ _) as [[h' u' st i c mk] [[]|j]]; [|done].
  destruct Hl as (Hp & Hmk & HPs). cbn [p marks hp user] in *. subst mk i.
  exists h', u', st. split; [done|].
  pose proof (HP _ _ HPs) as He. destruct h' as [ty fl hst hs ix le nr cl ma mi sc me er up].
  simpl in He. by subst er.
Qed.
End Execute.

(** ** Header lines and what follows them *)

(** The headers a message has, in the order of their lines. *)
Definition all_headers (e : HttpEncoder) : string_map :=
  (bs "Content-Length", decimal (Z.of_nat (length (he_body e)))) ::
  (bs "Connection", connection_value (he_closeConnection e)) :: he_headers e.

Definition header_lines (hs : string_map) : bytes := mjoin (header_line <$> hs).

Lemma AppendToStream_lines e :
  AppendToStream e = header_lines (all_headers e) ++ crlf ++ he_body e.
Proof.
  unfold AppendToStream, header_lines, all_headers, header_line. simpl.
  rewrite <- !app_assoc. by destruct (he_closeConnection e).
Qed.

Definition plain_headers (hs : string_map) : Prop :=
  Forall (fun kv => plain_name kv.1 /\ plain_value kv.2) hs.

Section Messages.
Context {U : Type} (fu ff fv fb : bytes -> U -> U) (fc : http_parser -> U -> U) (data : bytes).
Context (Q : unit -> machine U -> Prop) (E : jump -> machine U -> Prop).
#[local] Notation loops := (loops (pure_settings fu ff fv fb fc) data Q E).

(** The header callbacks of a list of headers. *)
Definition headers_run (hs : string_map) (u : U) : U :=
  foldl (fun u kv => fv kv.2 (ff kv.1 u)) u hs.

Lemma loops_headers hs : forall st h b u i rest,
  at_line st h b -> drop i data = header_lines hs ++ rest -> plain_headers hs ->
  errno b = HPE_OK -> 0 <= nread b ->
  nread b + Z.of_nat (length (header_lines hs)) <= HTTP_MAX_HEADER_SIZE ->
  (forall st' h', at_line st' h' (set_nread (nread b + Z.of_nat (length (header_lines hs))) b) ->
     loops h' (headers_run hs u) st' (i + length (header_lines hs)) no_mark) ->
  loops h u st i no_mark.
Proof.
  induction hs as [|[k v] hs IH]; intros st h b u i rest Hat Hc Hp Hb H0 Hn Hl.
  { unfold header_lines in Hl. simpl in Hl. rewrite Nat.add_0_r, Z.add_0_r in Hl.
    apply Hl. by destruct b. }
  apply Forall_cons in Hp as [[Hk Hv] Hp]. simpl in Hk, Hv.
  change (header_lines ((k, v) :: hs)) with (header_line (k, v) ++ header_lines hs) in *.
  assert (length (header_line (k, v)) = length k + length v + 4)%nat as Hlen.
  { unfold header_line. rewrite !length_app. simpl. lia. }
  rewrite length_app, Hlen in *.
  eapply (loops_plain fu ff fv fb fc data Q E st h b u i k v (header_lines hs ++ rest));
    [exact Hat| |done|done|done|done|lia|].
  { rewrite Hc. unfold header_line, crlf. by rewrite <- !app_assoc. }
  intros h' Hat'. rewrite <- app_assoc in Hc. apply cursor_app in Hc. rewrite Hlen in Hc.
  eapply (IH _ _ _ _ _ rest Hat' Hc Hp); [done|simpl; lia|simpl; lia|].
  intros st2 h2 Hat2. revert Hat2. simpl nread. rewrite <- Nat.add_assoc.
  replace (nread b + Z.of_nat (length k + length v) + 4 + Z.of_nat (length (header_lines hs)))
    with (nread b + Z.of_nat (length k + length v + 4 + length (header_lines hs))) by lia.
  intros Hat2. exact (Hl st2 h2 Hat2).
Qed.

(** The headers of [AppendToStream]. *)
Lemma loops_fields e h u i rest :
  drop i data = header_lines (all_headers e) ++ rest -> plain_headers (he_headers e) ->
  Z.of_nat (length (he_body e)) < 2 ^ 60 -> errno h = HPE_OK -> flags h = 0 ->
  method h <> HTTP_CONNECT -> 0 <= nread h ->
  nread h + Z.of_nat (length (header_lines (all_headers e))) + 2 <= HTTP_MAX_HEADER_SIZE ->
  (forall st h', line_start st -> plain_message (line_begin st h') (Z.of_nat (length (he_body e))) ->
     0 <= nread h' -> nread h' + 2 <= HTTP_MAX_HEADER_SIZE ->
     method (line_begin st h') = method h -> status_code (line_begin st h') = status_code h ->
     loops h' (headers_run (all_headers e) u) st (i + length (header_lines (all_headers e))) no_mark) ->
  loops h u s_header_field_start i no_mark.
Proof.
  intros Hc Hp Hbody Hh Hf Hm H0 Hn Hl.
  destruct (decimal_spec (Z.of_nat (length (he_body e)))) as (Hd & Hr & Hne & _); [lia|].
  unfold all_headers in *. set (n := Z.of_nat (length (he_body e))) in *.
  set (dec := decimal n) in *. set (con := connection_value (he_closeConnection e)) in *.
  change (header_lines (_ :: _ :: ?hs)) with
    (header_line (bs "Content-Length", dec) ++ header_line (bs "Connection", con) ++ header_lines hs)
    in *.
  assert (length (header_line (bs "Content-Length", dec)) = length dec + 18)%nat as L1.
  { unfold header_line. rewrite !length_app. simpl. lia. }
  assert (length (header_line (bs "Connection", con)) = length con + 14)%nat as L2.
  { unfold header_line. rewrite !length_app. simpl. lia. }
  rewrite !length_app, L1, L2 in *. rewrite <- !app_assoc in Hc.
  eapply (loops_content_length fu ff fv fb fc data Q E s_header_field_start h (norm h) u i dec n);
    [split; [by left|done]| |done|exact Hd|exact Hr|done| |done|done|simpl; lia|].
  { rewrite Hc. unfold header_line, crlf. by rewrite <- !app_assoc. }
  { unfold flag. simpl. by rewrite Hf. }
  intros h1 Hat1. apply cursor_app in Hc. rewrite L1 in Hc.
  set (b1 := set_nread _ _) in Hat1.
  eapply (loops_connection fu ff fv fb fc data Q E _ h1 b1 _ _ (he_closeConnection e));
    [exact Hat1| |done|simpl; lia|fold con; simpl nread; lia|].
  { rewrite Hc. unfold header_line, crlf. by rewrite <- !app_assoc. }
  intros h2 Hat2. apply cursor_app in Hc. rewrite L2 in Hc.
  set (b2 := set_nread _ _) in Hat2.
  assert (nread b2 = nread h + Z.of_nat (length dec) + 18 + Z.of_nat (length con) + 14) as N2
    by done.
  eapply (loops_headers (he_headers e) _ h2 b2 _ _ _ Hat2 Hc Hp);
    [done|lia..|].
  intros st3 h3 Hat3. apply cursor_app in Hc. simpl in Hc.
  destruct (at_line_fields _ _ _ Hat3) as [En _]. destruct Hat3 as [Hst Hn3].
  change (nread h3 = nread b2 + Z.of_nat (length (header_lines (he_headers e)))) in En.
  rewrite N2 in En.
  assert (forall A (f : http_parser -> A), (forall g, f g = f (norm g)) ->
            f (line_begin st3 h3) = f (set_nread (nread b2 + Z.of_nat (length (header_lines (he_headers e)))) b2))
    as Hf3 by (intros A f Hfn; by rewrite Hfn, Hn3).
  replace (i + (length dec + 18 + (length con + 14 + length (header_lines (he_headers e)))))%nat
    with (i + (length dec + 18) + (length con + 14) + length (header_lines (he_headers e)))%nat in Hl by lia.
  eapply (Hl st3 h3 Hst); [|lia|lia|by rewrite (Hf3 _ method)|by rewrite (Hf3 _ status_code)].
  assert (forall g, plain_message (norm g) n -> plain_message g n) as Hpm by done.
  apply Hpm. rewrite Hn3. unfold plain_message, flag, upgrade_requested. simpl. rewrite Hf.
  unfold connection_bit. split_and!; try done; try (by destruct (he_closeConnection e)).
  rewrite (bool_decide_false _ Hm). by destruct (he_closeConnection e).
Qed.

(** The whole of [AppendToStream]: headers, the empty line, the body. *)
Lemma loops_AppendToStream e h u i rest :
  drop i data = AppendToStream e ++ rest -> plain_headers (he_headers e) ->
  Z.of_nat (length (he_body e)) < 2 ^ 60 -> errno h = HPE_OK -> flags h = 0 ->
  method h <> HTTP_CONNECT -> 0 <= nread h ->
  nread h + Z.of_nat (length (header_lines (all_headers e))) + 2 <= HTTP_MAX_HEADER_SIZE ->
  (forall h', errno h' = HPE_OK -> method h' = method h -> status_code h' = status_code h ->
     let u1 := headers_run (all_headers e) u in
     loops h' (fc h' (if decide (he_body e = []) then u1 else fb (he_body e) u1)) (hp_state h')
       (i + length (AppendToStream e)) no_mark) ->
  loops h u s_header_field_start i no_mark.
Proof.
  intros Hc Hp Hbody Hh Hf Hm H0 Hn Hl. rewrite AppendToStream_lines in *.
  rewrite <- !app_assoc in Hc. eapply loops_fields; [exact Hc|done..|].
  intros st h' Hst Hpm H0' Hn' Hmeth Hstat. apply cursor_app in Hc.
  eapply (loops_message_end fu ff fv fb fc data Q E st h' _ _ (he_body e) rest);
    [done|exact Hc|done|done|done|unfold ULLONG_MAX; lia|].
  unfold complete. rewrite !length_app in Hl.
  match goal with |- loops ?a ?b ?c ?d _ =>
    replace d with (i + (length (header_lines (all_headers e)) + (length crlf + length (he_body e))))%nat
      by (simpl; lia) end.
  apply (Hl (at_complete (line_begin st h') (he_body e))).
  - transitivity (errno (line_begin st h')); [unfold at_complete; by case_decide|by destruct Hpm].
  - transitivity (method (line_begin st h')); [unfold at_complete; by case_decide|done].
  - transitivity (status_code (line_begin st h')); [unfold at_complete; by case_decide|done].
Qed.

(** *** The request line *)

(** The parser after the method and the space. *)
Definition req_parser (m : http_method) (st : state) (n : Z) : http_parser :=
  mkHttpParser HTTP_REQUEST 0 st h_general
    (Z.of_nat (length (method_strings m)) + 1) false n ULLONG_MAX 0 0 0 m HPE_OK false.

Ltac run_char :=
  match goal with
  | Hc : drop ?i data = _ :: _ |- _ =>
      eapply loops_run; [exact Hc|by intros _; split|vm_compute; reflexivity|];
      apply cursor_S in Hc
  end.

Lemma loops_method m u i rest :
  m <> HTTP_CONNECT -> drop i data = method_strings m ++ 32 :: rest ->
  loops (req_parser m s_start_req_or_res (Z.of_nat (length (method_strings m)) + 1)) u s_req_spaces_before_url
    (length (method_strings m) + 1 + i) no_mark ->
  loops (http_parser_init HTTP_BOTH) u s_start_req_or_res i no_mark.
Proof.
  intros Hm Hc Hl. destruct m; try done; simpl in Hc; repeat run_char; exact Hl.
Qed.

(** The states at the end of a URL with a path. *)
Definition url_end (st : state) : Prop :=
  st = s_req_path \/ st = s_req_query_string_start \/ st = s_req_query_string.

(** The parser after the request line. *)
Definition line_parser (m : http_method) (st : state) (n : Z) : http_parser :=
  mkHttpParser HTTP_REQUEST 0 st h_general
    (Z.of_nat (length (method_strings m)) + 1) false n ULLONG_MAX 1 1 0 m HPE_OK false.

(** A header byte whose handling does not depend on the parser. *)
Lemma loops_quiet f st' h u st i x rest :
  drop i data = x :: rest -> PARSING_HEADER st = true ->
  (forall g, dispatch (pure_settings fu ff fv fb fc) data st x (mkMachine g u st i x no_mark) =
               (mkMachine (f g) u st' i x no_mark, inl tt)) ->
  0 <= nread h -> nread h + 1 <= HTTP_MAX_HEADER_SIZE ->
  loops (f (set_nread (nread h + 1) h)) u st' (S i) no_mark -> loops h u st i no_mark.
Proof.
  intros Hc Hp Hd H0 Hn Hl. eapply loops_char; [exact Hc|by intros _| |exact Hl].
  unfold counted. by rewrite Hp, Hd.
Qed.

Ltac quiet f st :=
  eapply (loops_quiet f st); [eassumption|reflexivity|reflexivity|simpl; lia|simpl; lia|];
  match goal with Hc : drop _ _ = _ :: _ |- _ => apply cursor_S in Hc end.

Lemma loops_version m st n u i rest :
  drop i data = bs "HTTP/1.1" ++ crlf ++ rest -> 0 <= n -> n + 10 <= HTTP_MAX_HEADER_SIZE ->
  loops (line_parser m st (n + 10)) u s_header_field_start (i + 10) no_mark ->
  loops (req_parser m st n) u s_req_http_start i no_mark.
Proof.
  intros Hc H0 Hn Hl. simpl in Hc.
  replace (i + 10)%nat with (S (S (S (S (S (S (S (S (S (S i)))))))))) in Hl by lia.
  replace (n + 10) with (n + 1 + 1 + 1 + 1 + 1 + 1 + 1 + 1 + 1 + 1) in Hl by lia.
  quiet (fun h : http_parser => h) s_req_http_H.
  quiet (fun h : http_parser => h) s_req_http_HT.
  quiet (fun h : http_parser => h) s_req_http_HTT.
  quiet (fun h : http_parser => h) s_req_http_HTTP.
  quiet (fun h : http_parser => h) s_req_first_http_major.
  quiet (set_http_major 1) s_req_http_major.
  quiet (fun h : http_parser => h) s_req_first_http_minor.
  quiet (set_http_minor 1) s_req_http_minor.
  quiet (fun h : http_parser => h) s_req_line_almost_done.
  quiet (fun h : http_parser => h) s_header_field_start.
  exact Hl.
Qed.

Lemma loops_request_url m st0 n u i c w st rest :
  m <> HTTP_CONNECT -> url_run s_req_spaces_before_url (c :: w) = Some st -> url_end st ->
  drop i data = (c :: w) ++ 32 :: rest -> 0 <= n ->
  n + Z.of_nat (length w) + 2 <= HTTP_MAX_HEADER_SIZE ->
  loops (req_parser m s_req_http_start (n + Z.of_nat (length w) + 2)) (fu (c :: w) u) s_req_http_start
    (i + length w + 2) no_mark ->
  loops (req_parser m st0 n) u s_req_spaces_before_url i no_mark.
Proof.
  intros Hm Hr Hst Hc H0 Hn Hl. simpl in Hr. case_decide as Hd; [done|].
  destruct (parse_url_char_not_end _ _ Hd) as (N1 & _ & _). pose proof Hc as Hc0.
  assert (forall n, dispatch (pure_settings fu ff fv fb fc) data s_req_spaces_before_url c
            (mkMachine (req_parser m st0 n) u s_req_spaces_before_url i c no_mark) =
          (mkMachine (req_parser m st0 n) u (parse_url_char s_req_spaces_before_url c) i c
             (marked i no_mark M_url), inl tt)) as Hdisp.
  { intros k. simpl dispatch. unfold case_req_spaces_before_url.
    rewrite (proj2 (Z.eqb_neq c 32)) by done. unfold MARK, url_char, mbind, M_bind. simpl.
    rewrite decide_False by done. simpl. by rewrite decide_False by done. }
  eapply loops_char; [exact Hc|intros _; simpl; lia|apply (Hdisp (n + 1))|].
  clear Hdisp. apply cursor_S in Hc.
  eapply (loops_url (pure_settings fu ff fv fb fc) data Q E w);
    [by apply parse_url_char_mark|exact Hr|exact Hc|simpl; lia|simpl; lia|].
  apply cursor_app in Hc. destruct (cursor_nth _ _ _ _ Hc) as [_ Hi].
  eapply loops_step; [exact Hc|intros _; simpl; lia|].
  replace (counted _ _) with (req_parser m st0 (n + Z.of_nat (length w) + 2)).
  2: { destruct Hst as [-> |[-> | ->]]; unfold counted; simpl;
       (replace (n + 1 + Z.of_nat (length w) + 1) with (n + Z.of_nat (length w) + 2) by lia); done. }
  apply wp_reexecute.
  replace (dispatch _ _ st 32) with (case_req_url (pure_settings fu ff fv fb fc) data 32)
    by (by destruct Hst as [-> |[-> | ->]]).
  unfold case_req_url. simpl. wp_step. wp_step. unfold CALLBACK_DATA. apply wp_bind, wp_get. cbn [p].
  apply (wp_pure_data fu ff fv fb fc data M_url _ _ _ _ _ _ _ _ i); [done|done|done|].
  cbn [hp user p_state p marks pure_data].
  replace (S (i + length w) - i)%nat with (length (c :: w)) by (simpl; lia). split; [lia|].
  replace (S (S (i + length w))) with (i + length w + 2)%nat by lia.
  rewrite (cursor_slice data i (c :: w) _ Hc0). exact Hl.
Qed.
(** *** The status line *)

(** The parser inside and after the status line. *)
Definition res_parser (status n : Z) : http_parser :=
  mkHttpParser HTTP_RESPONSE 0 s_start_req_or_res h_general 0 false n ULLONG_MAX 1 1 status
    HTTP_DELETE HPE_OK false.

Lemma loops_status_code code u i rest :
  drop i data = bs "HTTP/1.1 " ++ decimal (status_num code) ++ 32 :: rest ->
  let n := (10 + length (decimal (status_num code)))%nat in
  loops (res_parser (status_num code) (Z.of_nat n)) u s_res_status_start (n + i) no_mark ->
  loops (http_parser_init HTTP_BOTH) u s_start_req_or_res i no_mark.
Proof.
  intros Hc n Hl. subst n.
  destruct code; simpl in Hc; repeat run_char; exact Hl.
Qed.

(** The status message is skipped: no callback is installed for it. *)
Lemma loops_status_message w : forall status n u i mk rest,
  Forall (fun c => c <> CR /\ c <> LF) w -> drop i data = w ++ CR :: LF :: rest ->
  0 <= n -> n + Z.of_nat (length w) + 2 <= HTTP_MAX_HEADER_SIZE -> put_mark mk M_status None = no_mark ->
  loops (res_parser status (n + Z.of_nat (length w) + 2)) u s_header_field_start
    (i + length w + 2) no_mark ->
  loops (res_parser status n) u s_res_status i mk.
Proof.
  induction w as [|c w IH]; intros status n u i mk rest Hw Hc H0 Hn Hmk Hl.
  - simpl in Hc, Hn. rewrite Nat.add_0_r in Hl. simpl in Hl. rewrite Z.add_0_r in Hl.
    eapply loops_char; [exact Hc|intros _; simpl; lia| |].
    { simpl dispatch. unfold case_res_status, CALLBACK_DATA, CALLBACK_DATA_, mbind, M_bind. simpl.
      instantiate (1 := no_mark). rewrite <- Hmk. destruct (status_mark mk) eqn:Es; [reflexivity|].
      destruct mk. simpl in Es. by subst. }
    apply cursor_S in Hc. quiet (fun h : http_parser => h) s_header_field_start.
    replace (S (S i)) with (i + 2)%nat by lia.
    change (set_nread _ _) with (res_parser status (n + 1 + 1)). by rewrite <- Z.add_assoc.
  - apply Forall_cons in Hw as [[Hcr Hlf] Hw]. simpl in Hn.
    eapply loops_char; [exact Hc|intros _; simpl; lia| |].
    { simpl dispatch. unfold case_res_status.
      rewrite (proj2 (Z.eqb_neq c CR)), (proj2 (Z.eqb_neq c LF)) by done. reflexivity. }
    apply cursor_S in Hc.
    apply (IH status (n + 1) u (S i) mk rest Hw Hc); [lia|lia|done|].
    replace (S i + length w + 2)%nat with (i + length (c :: w) + 2)%nat by (simpl; lia).
    by replace (n + 1 + Z.of_nat (length w) + 2) with (n + Z.of_nat (length (c :: w)) + 2) by (simpl; lia).
Qed.

Lemma loops_status_start w status n u i rest :
  Forall (fun c => c <> CR /\ c <> LF) w -> drop i data = w ++ CR :: LF :: rest ->
  0 <= n -> n + Z.of_nat (length w) + 2 <= HTTP_MAX_HEADER_SIZE ->
  loops (res_parser status (n + Z.of_nat (length w) + 2)) u s_header_field_start
    (i + length w + 2) no_mark ->
  loops (res_parser status n) u s_res_status_start i no_mark.
Proof.
  intros Hw Hc H0 Hn Hl. destruct w as [|c w].
  - simpl in Hc, Hn. rewrite Nat.add_0_r in Hl. simpl in Hl. rewrite Z.add_0_r in Hl.
    quiet (fun h : http_parser => h) s_res_line_almost_done.
    quiet (fun h : http_parser => h) s_header_field_start.
    replace (S (S i)) with (i + 2)%nat by lia.
    change (set_nread _ _) with (res_parser status (n + 1 + 1)). by rewrite <- Z.add_assoc.
  - apply Forall_cons in Hw as [[Hcr Hlf] Hw]. simpl in Hn.
    eapply loops_char; [exact Hc|intros _; simpl; lia| |].
    { simpl dispatch. unfold case_res_status_start.
      rewrite (proj2 (Z.eqb_neq c CR)), (proj2 (Z.eqb_neq c LF)) by done. reflexivity. }
    apply cursor_S in Hc.
    apply (loops_status_message w status (n + 1) u (S i) _ rest Hw Hc); [lia|lia|done|].
    replace (S i + length w + 2)%nat with (i + length (c :: w) + 2)%nat by (simpl; lia).
    by replace (n + 1 + Z.of_nat (length w) + 2) with (n + Z.of_nat (length (c :: w)) + 2) by (simpl; lia).
Qed.
End Messages.

(** ** Requests *)

(** What stands between the method and the version. *)
Definition request_target (e : HttpEncoder) : bytes :=
  he_url e ++ param_string (bs "?") (he_parameters e).

(** Everything but the body. *)
Definition head_size (message : bytes) (e : HttpEncoder) : Z :=
  Z.of_nat (length message) - Z.of_nat (length (he_body e)).

(** A fresh parser after the callbacks of the headers [hs] and the body [b]. *)
Definition parsed_fields (hs : string_map) (b : bytes) (f : HttpFields) : HttpFields :=
  OnBody b (headers_run OnHeaderName OnHeaderValue hs f).

Definition fresh (status : Z) : HttpFields :=
  mkHttpFields [] [] status [] HeaderState_None [] [] [] [] [] false.

#[local] Notation http_loops data Q :=
  (loops (pure_settings OnUrl OnHeaderName OnHeaderValue OnBody OnComplete) data Q
     (fun _ _ => False)).

Lemma headers_run_complete hs : forall f,
  m_complete (headers_run OnHeaderName OnHeaderValue hs f) = m_complete f.
Proof.
  assert (forall bit f, m_complete (header_event bit f) = m_complete f) as He.
  { intros bit f. unfold header_event. by case_match. }
  induction hs as [|[k v] hs IH]; intros f; [done|].
  change (headers_run OnHeaderName OnHeaderValue ((k, v) :: hs) f)
    with (headers_run OnHeaderName OnHeaderValue hs (OnHeaderValue v (OnHeaderName k f))).
  rewrite IH. unfold OnHeaderValue, OnHeaderName. by repeat case_bool_decide; rewrite ?He; simpl; rewrite ?He.
Qed.

Lemma OnBody_decide b f : (if decide (b = []) then f else OnBody b f) = OnBody b f.
Proof. case_decide; [|done]. unfold OnBody. by rewrite bool_decide_true. Qed.

(** A message cut after its head: the first piece [head ++ b1] has all of the head. *)
Record cut (e : HttpEncoder) (message : bytes) (pieces : list bytes) (head b1 : bytes) (rest : list bytes)
    : Prop := {
  cut_message : message = head ++ he_body e;
  cut_pieces : pieces = (head ++ b1) :: rest;
  cut_body : he_body e = b1 ++ concat rest;
  cut_nonempty : Forall (fun d => d <> []) rest
}.

(** Calls on a message whose start line is followed by the encoder's headers and body. *)
Section Pieces.
Context (e : HttpEncoder) (first b1 : bytes) (rest : list bytes) (i : nat) (h0 : http_parser)
  (f : HttpFields) (status : Z).
Context (Hc : drop i first = header_lines (all_headers e) ++ crlf ++ b1) (Hne : first <> [])
  (Hlen : (i + length (header_lines (all_headers e)) + 2 + length b1 = length first)%nat)
  (Hbody : he_body e = b1 ++ concat rest) (Hp : plain_headers (he_headers e))
  (Hb : Z.of_nat (length (he_body e)) < 2 ^ 60) (Hh : errno h0 = HPE_OK) (Hf : flags h0 = 0)
  (Hm : method h0 <> HTTP_CONNECT) (H0 : 0 <= nread h0)
  (Hn : nread h0 + Z.of_nat (length (header_lines (all_headers e))) + 2 <= HTTP_MAX_HEADER_SIZE)
  (Hrun : forall Q, http_loops first Q h0 f s_header_field_start i no_mark ->
     http_loops first Q (http_parser_init HTTP_BOTH) (fresh status) s_start_req_or_res 0 no_mark).

Lemma whole_parse :
  rest = [] ->
  exists h' hc, method hc = method h0 /\ status_code hc = status_code h0 /\
    HttpParser_Parse (HttpParser_init status) first =
      Some (mkHttp h' (OnComplete hc (parsed_fields (all_headers e) (he_body e) f)), true).
Proof.
  intros ->. simpl in Hbody. rewrite app_nil_r in Hbody.
  set (P := fun (h' : http_parser) (g : HttpFields) => errno h' = HPE_OK /\
    exists hc, method hc = method h0 /\ status_code hc = status_code h0 /\
      g = OnComplete hc (parsed_fields (all_headers e) (he_body e) f)).
  destruct (execute_run m_settings first (http_parser_init HTTP_BOTH) (fresh status) P)
    as (h' & u' & st' & [He (hc & Hmc & Hsc & Hu)] & Hex).
  - by intros h' u' [He _].
  - done.
  - done.
  - done.
  - apply Hrun.
    eapply (loops_AppendToStream OnUrl OnHeaderName OnHeaderValue OnBody OnComplete first _ _ e _ _ _ []);
      [by rewrite app_nil_r, AppendToStream_lines, Hbody|done|done|done|done|done|done|done|].
    intros h' He' Hm' Hs' u1. rewrite OnBody_decide, AppendToStream_lines, !length_app, Hbody.
    replace (i + (length (header_lines (all_headers e)) + (length crlf + length b1)))%nat
      with (length first) by (change (length crlf) with 2%nat; lia).
    apply loops_end. intros ch. split; [done|]. split; [done|]. split; [done|]. exists h'.
    split_and!; [done|done|]. unfold parsed_fields. by rewrite Hbody.
  - exists (set_hp_state st' h'), hc. split_and!; [done|done|]. unfold HttpParser_Parse. simpl.
    change (mkHttpFields _ _ _ _ _ _ _ _ _ _ _) with (fresh status). rewrite Hex. subst u'.
    by rewrite bool_decide_true.
Qed.

(** The head and the beginning of the body. *)
Lemma first_parse :
  concat rest <> [] ->
  exists h', awaits h' (Z.of_nat (length (concat rest))) /\ method h' = method h0 /\
    status_code h' = status_code h0 /\
    HttpParser_Parse (HttpParser_init status) first =
      Some (mkHttp h' (OnBody b1 (headers_run OnHeaderName OnHeaderValue (all_headers e) f)), true).
Proof.
  intros Hrest. set (u1 := headers_run OnHeaderName OnHeaderValue (all_headers e) f).
  assert (length (he_body e) = length b1 + length (concat rest))%nat as Lb by (by rewrite Hbody, length_app).
  assert (0 < length (concat rest))%nat as Lr by (destruct (concat rest); [done|simpl; lia]).
  set (P := fun (h' : http_parser) (g : HttpFields) =>
    awaits (set_hp_state s_body_identity h') (Z.of_nat (length (concat rest))) /\
    method h' = method h0 /\ status_code h' = status_code h0 /\ g = u1).
  assert (forall Q, (forall h2, P (set_content_length (Z.of_nat (length (concat rest))) h2) u1 ->
      content_length h2 = Z.of_nat (length (he_body e)) ->
      http_loops first Q h2 u1 s_body_identity (length first - length b1) no_mark) ->
    http_loops first Q (http_parser_init HTTP_BOTH) (fresh status) s_start_req_or_res 0 no_mark) as Hhead.
  { intros Q HQ. apply Hrun.
    eapply (loops_fields OnUrl OnHeaderName OnHeaderValue OnBody OnComplete first _ _ e);
      [exact Hc|done..|].
    intros st h' Hst Hpm H0' Hn' Hmeth Hstat. pose proof Hc as Hc'. apply cursor_app in Hc'.
    eapply (loops_headers_end OnUrl OnHeaderName OnHeaderValue OnBody OnComplete first);
      [done|exact Hc'|exact Hpm|done|done|unfold ULLONG_MAX; lia|].
    destruct Hpm as (He & _ & _ & _ & _ & Hcl). cbv zeta. split; [lia|intros _].
    replace (i + length (header_lines (all_headers e)) + 2)%nat with (length first - length b1)%nat by lia.
    apply HQ; [|done]. split; [done|]. by split_and!. }
  assert (forall h1 g, P h1 g -> errno h1 = HPE_OK) as HP by by intros h1 g [(He & _) _].
  assert (drop (length first - length b1) first = b1) as Hb1.
  { replace (length first - length b1)%nat with (i + (length (header_lines (all_headers e)) + 2))%nat by lia.
    rewrite <- drop_drop, Hc, app_assoc, drop_app_length'; [done|]. rewrite length_app. simpl. lia. }
  assert (exists h1, P h1 u1 /\ http_parser_execute m_settings first (http_parser_init HTTP_BOTH) (fresh status) =
            (Executed (length first), set_hp_state s_body_identity h1, OnBody b1 u1)) as (h1 & HP1 & Hex).
  { destruct (decide (b1 = [])) as [E1|E1].
    - destruct (execute_stop OnUrl OnHeaderName OnHeaderValue OnBody OnComplete first
        (http_parser_init HTTP_BOTH) (fresh status) eq_refl Hne eq_refl s_body_identity P HP)
        as (h1 & g & HP1 & Hex).
      + apply Hhead. intros h2 HP2 Hcl. rewrite E1. simpl. rewrite Nat.sub_0_r.
        apply loops_end. intros c. exists h2, u1, c. split; [|done].
        rewrite E1 in Lb. simpl in Lb. rewrite <- Lb, <- Hcl in HP2. by destruct h2.
      + exists h1. pose proof HP1 as (_ & _ & _ & ->). split; [done|]. rewrite E1. exact Hex.
    - destruct (execute_part OnUrl OnHeaderName OnHeaderValue OnBody OnComplete first
        (http_parser_init HTTP_BOTH) (fresh status) eq_refl Hne eq_refl s_body_identity
        (length first - length b1) P HP) as (h1 & g & HP1 & Hex).
      + apply Hhead. intros h2 HP2 Hcl. eapply loops_body_part; [exact Hb1|done|unfold ULLONG_MAX; lia|].
        intros c. eexists _, u1, c. split; [|done].
        replace (content_length h2 - Z.of_nat (length b1)) with (Z.of_nat (length (concat rest))) by lia. done.
      + exists h1. pose proof HP1 as (_ & _ & _ & ->). split; [done|]. etransitivity; [exact Hex|]. do 2 f_equal.
        replace (length first - (length first - length b1))%nat with (length b1) by lia.
        unfold slice. by rewrite Hb1, firstn_all. }
  destruct HP1 as (Ha & Hm1 & Hs1 & _). exists (set_hp_state s_body_identity h1).
  split_and!; [done|done|done|]. unfold HttpParser_Parse. simpl.
  change (mkHttpFields _ _ _ _ _ _ _ _ _ _ _) with (fresh status). rewrite Hex.
  rewrite bool_decide_true; [done|]. by destruct Ha.
Qed.

Lemma pieces_feed :
  Forall (fun d => d <> []) rest -> m_complete f = false ->
  exists h' hc, method hc = method h0 /\ status_code hc = status_code h0 /\
    feed (HttpParser_init status) (first :: rest) =
      Some (mkHttp h' (OnComplete hc (parsed_fields (all_headers e) (he_body e) f))) /\
    incomplete_before (HttpParser_init status) (first :: rest).
Proof.
  intros Hds Hcf. destruct (decide (rest = [])) as [E|E].
  - destruct (whole_parse E) as (h' & hc & Emc & Esc & Ep). exists h', hc. rewrite E.
    split_and!; [done|done|simpl; by rewrite Ep|].
    eapply incomplete_before_cons; [done|exact Ep|apply incomplete_before_nil].
  - assert (concat rest <> []) as Hr.
    { destruct rest as [|d ds]; [done|]. apply Forall_cons in Hds as [Hd _]. by destruct d. }
    destruct (first_parse Hr) as (h1 & Ha & Hm1 & Hs1 & Ep).
    set (u1 := headers_run OnHeaderName OnHeaderValue (all_headers e) f) in *.
    destruct (feed_body rest h1 (OnBody b1 u1) Ha) as (h' & hc & Emc & Esc & Efeed & Hinc); [|done|done| |].
    + rewrite Hbody, length_app in Hb. unfold ULLONG_MAX. lia.
    + rewrite OnBody_complete. unfold u1. by rewrite headers_run_complete.
    + exists h', hc. rewrite Emc, Esc. split_and!; [done|done| |].
      * simpl. rewrite Ep, Efeed, OnBody_app. unfold parsed_fields. by rewrite Hbody.
      * by eapply incomplete_before_cons.
Qed.
End Pieces.

Lemma length_AppendToStream e :
  length (AppendToStream e) =
    (length (header_lines (all_headers e)) + 2 + length (he_body e))%nat.
Proof. rewrite AppendToStream_lines, !length_app. simpl. lia. Qed.

(** The head of a message that ends with [AppendToStream]. *)
Lemma cut_head e message pieces head b1 rest start :
  cut e message pieces head b1 rest -> message = start ++ AppendToStream e ->
  head ++ b1 = start ++ header_lines (all_headers e) ++ crlf ++ b1.
Proof.
  intros [-> _ _ _] E. rewrite AppendToStream_lines in E. rewrite !app_assoc in E. apply app_inv_tail in E.
  rewrite E. by rewrite <- !app_assoc.
Qed.

Lemma cut_size e message pieces head b1 rest :
  cut e message pieces head b1 rest ->
  head_size message e = Z.of_nat (length (head ++ b1)) - Z.of_nat (length b1).
Proof. intros [-> _ _ _]. unfold head_size. rewrite !length_app. lia. Qed.

Lemma tail_length e (b1 : bytes) : exists tail, tail = header_lines (all_headers e) ++ crlf ++ b1 /\
  length tail = (length (header_lines (all_headers e)) + 2 + length b1)%nat.
Proof. eexists. split; [reflexivity|]. rewrite !length_app. change (length crlf) with 2%nat. lia. Qed.

Lemma GetRequestString_tail e :
  GetRequestString e = (he_method e ++ 32 :: request_target e ++ 32 :: bs "HTTP/1.1" ++ crlf) ++
    AppendToStream e.
Proof. unfold GetRequestString, request_target. repeat (rewrite <- ?app_assoc; simpl). done. Qed.

(** The callbacks of a request, and nothing else. *)
Lemma request_parse e m st status pieces head b1 rest :
  m <> HTTP_CONNECT -> he_method e = method_strings m ->
  url_run s_req_spaces_before_url (request_target e) = Some st -> url_end st ->
  plain_headers (he_headers e) -> Z.of_nat (length (he_body e)) < 2 ^ 60 ->
  head_size (GetRequestString e) e <= HTTP_MAX_HEADER_SIZE ->
  cut e (GetRequestString e) pieces head b1 rest ->
  exists h' hc, method hc = m /\ status_code hc = 0 /\
    feed (HttpParser_init status) pieces =
      Some (mkHttp h' (OnComplete hc (parsed_fields (all_headers e) (he_body e)
                         (OnUrl (request_target e) (fresh status))))) /\
    incomplete_before (HttpParser_init status) pieces.
Proof.
  intros Hm Hme Hr Hst Hp Hb Hsz Hcut.
  assert (GetRequestString e = (method_strings m ++ 32 :: request_target e ++ 32 ::
            bs "HTTP/1.1" ++ crlf) ++ AppendToStream e) as Em.
  { rewrite <- Hme. apply GetRequestString_tail. }
  pose proof (cut_head _ _ _ _ _ _ _ Hcut Em) as Er. rewrite (cut_size _ _ _ _ _ _ Hcut) in Hsz. clear Em.
  destruct Hcut as [_ -> Hbody Hds]. set (data := head ++ b1) in *.
  destruct (tail_length e b1) as (tail & Etail & La). rewrite <- Etail in Er.
  assert (data = method_strings m ++ 32 :: request_target e ++ 32 :: (bs "HTTP/1.1" ++ crlf) ++ tail) as Er'.
  { rewrite Er. repeat (rewrite <- ?app_assoc; simpl). done. }
  clear Er. rename Er' into Er.
  destruct (request_target e) as [|c w] eqn:Et.
  { simpl in Hr. destruct Hst as [-> |[-> | ->]]; done. }
  set (L := length (method_strings m)) in *.
  assert (length data = L + 13 + length w + length tail)%nat as Ld.
  { rewrite Er, !length_app. cbn [length]. rewrite !length_app. cbn [length]. rewrite !length_app.
    fold L. simpl length. lia. }
  pose proof Er as Hc. change data with (drop 0 data) in Hc at 1.
  apply cursor_app, cursor_S in Hc. fold L in Hc.
  replace (S (0 + L)) with (L + 1 + 0)%nat in Hc by lia. pose proof Hc as Hc1.
  apply cursor_app, cursor_S in Hc.
  replace (S (L + 1 + 0 + length (c :: w))) with (L + 1 + 0 + length w + 2)%nat in Hc by (simpl; lia).
  rewrite <- app_assoc in Hc. pose proof Hc as Hc2. rewrite app_assoc in Hc. apply cursor_app in Hc.
  change (length (bs "HTTP/1.1" ++ crlf)) with 10%nat in Hc. rewrite Etail in Hc.
  eapply (pieces_feed e data b1 rest _
            (line_parser m s_req_http_start (Z.of_nat L + 1 + Z.of_nat (length w) + 2 + 10)));
    [exact Hc|by rewrite Er; destruct m|lia|done|done|done|done|done|done|simpl; lia|simpl nread; lia| |done|].
  - intros Q Hl.
    eapply (loops_method OnUrl OnHeaderName OnHeaderValue OnBody OnComplete data _ _ m _ 0);
      [done|exact Er|]. fold L.
    eapply (loops_request_url OnUrl OnHeaderName OnHeaderValue OnBody OnComplete data _ _ m _ _ _ _ c w);
      [done|exact Hr|done|exact Hc1|lia|lia|].
    eapply (loops_version OnUrl OnHeaderName OnHeaderValue OnBody OnComplete);
      [exact Hc2|lia|lia|exact Hl].
  - unfold OnUrl. by case_bool_decide.
Qed.

(** *** Targets: segments and parameters *)

(** What [UrlEncode] keeps apart stays apart. *)
Lemma UrlDecode_Encode_app s rest :
  Forall is_byte s -> UrlDecode (UrlEncode s ++ rest) = s ++ UrlDecode rest.
Proof.
  induction 1 as [|c s Hc Hs IH]; [done|]. cbn [UrlEncode].
  by rewrite <- !app_assoc, UrlDecode_Encode_char, IH.
Qed.

Definition path_of (f : bytes -> bytes) (segments : list bytes) : bytes :=
  mjoin ((fun s => chr "/" :: f s) <$> segments).

Lemma UrlDecode_path segments rest :
  Forall (Forall is_byte) segments ->
  UrlDecode (path_of UrlEncode segments ++ rest) = path_of id segments ++ UrlDecode rest.
Proof.
  induction 1 as [|s segments Hs Hr IH]; [done|].
  change (path_of UrlEncode (s :: segments)) with (chr "/" :: UrlEncode s ++ path_of UrlEncode segments).
  change (path_of id (s :: segments)) with (chr "/" :: s ++ path_of id segments).
  rewrite <- !app_comm_cons, <- !app_assoc. simpl. by rewrite UrlDecode_Encode_app, IH.
Qed.

Definition encode_pair (kv : bytes * bytes) : bytes * bytes := (UrlEncode kv.1, UrlEncode kv.2).

Definition bytes_pair (kv : bytes * bytes) : Prop := Forall is_byte kv.1 /\ Forall is_byte kv.2.

Lemma UrlDecode_params sep ps :
  Forall bytes_pair ps -> sep = bs "?" \/ sep = bs "&" ->
  UrlDecode (param_string sep (encode_pair <$> ps)) = param_string sep ps.
Proof.
  intros Hps. revert sep. induction Hps as [|[k v] ps [Hk Hv] Hps IH]; intros sep Hsep; [done|].
  simpl. destruct Hsep as [-> | ->]; simpl; rewrite UrlDecode_Encode_app by done; simpl;
    rewrite UrlDecode_Encode_app by done; rewrite IH by (by right); done.
Qed.

Lemma url_run_app w1 w2 : forall st, url_run st (w1 ++ w2) = url_run st w1 ≫= fun st' => url_run st' w2.
Proof.
  induction w1 as [|c w1 IH]; intros st; [done|]. simpl. case_decide; [done|]. apply IH.
Qed.

(** The characters of [UrlEncode], [=], [&] and [/] in the grammar of URLs. *)
Definition query_char (c : Z) : bool :=
  url_safe c || (c =? chr "=") || (c =? chr "&") || (c =? chr "/").

Lemma url_safe_char c : query_char c = true ->
  parse_url_char s_req_path c = s_req_path /\
  parse_url_char s_req_query_string_start c = s_req_query_string /\
  parse_url_char s_req_query_string c = s_req_query_string.
Proof.
  intros Hc. assert (0 <= c < 128) as Hr.
  { unfold query_char, url_safe, url_unreserved, isalnum in Hc.
    repeat (apply orb_true_iff in Hc as [Hc|Hc]); breflect; lia. }
  assert (c ∈ seqZ 0 128) as Hin by (apply elem_of_seqZ; lia). clear Hr. revert c Hin Hc.
  refine (proj1 (Forall_forall (fun c => query_char c = true -> _) _) _).
  repeat constructor; intros; done.
Qed.

Lemma url_run_path w : Forall (fun c => query_char c = true) w ->
  url_run s_req_path w = Some s_req_path.
Proof.
  induction 1 as [|c w Hc Hw IH]; [done|]. simpl. destruct (url_safe_char c Hc) as (-> & _).
  by rewrite decide_False.
Qed.

Lemma url_run_query w st : Forall (fun c => query_char c = true) w ->
  st = s_req_query_string_start \/ st = s_req_query_string ->
  exists st', url_run st w = Some st' /\ (st' = s_req_query_string_start \/ st' = s_req_query_string).
Proof.
  intros Hw. revert st. induction Hw as [|c w Hc Hw IH]; intros st Hst; [by exists st|].
  simpl. destruct (url_safe_char c Hc) as (_ & E1 & E2).
  assert (parse_url_char st c = s_req_query_string) as -> by (by destruct Hst as [-> | ->]).
  rewrite decide_False by done. apply IH. by right.
Qed.

Lemma query_chars s : Forall is_byte s -> Forall (fun c => query_char c = true) (UrlEncode s).
Proof.
  intros Hs. eapply Forall_impl; [by apply encode_safe|]. intros c Hc. simpl in Hc.
  unfold query_char. by rewrite Hc.
Qed.

Lemma path_chars segments : Forall (Forall is_byte) segments ->
  Forall (fun c => query_char c = true) (path_of UrlEncode segments).
Proof.
  induction 1 as [|s segments Hs Hr IH]; [constructor|].
  change (path_of UrlEncode (s :: segments)) with (chr "/" :: UrlEncode s ++ path_of UrlEncode segments).
  constructor; [done|]. apply Forall_app. split; [by apply query_chars|done].
Qed.

Lemma param_chars ps : Forall bytes_pair ps ->
  Forall (fun c => query_char c = true) (param_string (bs "&") (encode_pair <$> ps)).
Proof.
  induction 1 as [|[k v] ps [Hk Hv] Hps IH]; [constructor|]. simpl. constructor; [done|].
  apply Forall_app. split; [by apply query_chars|]. constructor; [done|].
  apply Forall_app. split; [by apply query_chars|done].
Qed.

(** A target of encoded segments and parameters is in the grammar. *)
Lemma target_run segments ps :
  segments <> [] -> Forall (Forall is_byte) segments -> Forall bytes_pair ps ->
  exists st, url_run s_req_spaces_before_url
    (path_of UrlEncode segments ++ param_string (bs "?") (encode_pair <$> ps)) = Some st /\ url_end st.
Proof.
  intros Hne Hs Hps. pose proof (path_chars segments Hs) as Hpc.
  destruct segments as [|s segments]; [done|].
  change (path_of UrlEncode (s :: segments)) with (chr "/" :: UrlEncode s ++ path_of UrlEncode segments) in *.
  apply Forall_cons in Hpc as [_ Hpc]. rewrite <- app_comm_cons.
  change (url_run s_req_spaces_before_url (chr "/" :: ?x)) with (url_run s_req_path x).
  rewrite url_run_app, (url_run_path _ Hpc). simpl.
  destruct Hps as [|[k v] ps [Hk Hv] Hps]; [exists s_req_path; split; [done|by left]|].
  simpl. destruct (url_run_query (UrlEncode k ++ chr "=" :: UrlEncode v ++
    param_string (bs "&") (encode_pair <$> ps)) s_req_query_string_start) as (st & E & Hst).
  - apply Forall_app. split; [by apply query_chars|]. constructor; [done|].
    apply Forall_app. split; [by apply query_chars|by apply param_chars].
  - by left.
  - exists st. split; [exact E|]. by right.
Qed.

(** *** Splitting the decoded target *)

Lemma GetStringBefore_stop flag w rest :
  Forall (fun c => c <> flag) w -> GetStringBefore flag (w ++ flag :: rest) = w.
Proof.
  induction 1 as [|c w Hc Hw IH]; simpl; [by rewrite Z.eqb_refl|].
  rewrite (proj2 (Z.eqb_neq c flag)) by done. by rewrite IH.
Qed.

Lemma GetStringBefore_all flag w : Forall (fun c => c <> flag) w -> GetStringBefore flag w = w.
Proof.
  induction 1 as [|c w Hc Hw IH]; simpl; [done|].
  rewrite (proj2 (Z.eqb_neq c flag)) by done. by rewrite IH.
Qed.

(** Parameters that survive the splitting: a key that is not empty and has no [=], a value without
    [&]. *)
Definition splittable (kv : bytes * bytes) : Prop :=
  kv.1 <> [] /\ Forall (fun c => c <> chr "=") kv.1 /\ Forall (fun c => c <> chr "&") kv.2.

Definition set_all (params ps : string_map) : string_map :=
  foldl (fun m kv => smap_set kv.1 kv.2 m) params ps.

Lemma ParseUrlAndParam_loop_end fuel s offset params :
  (length s <= offset)%nat -> ParseUrlAndParam_loop fuel s offset params = params.
Proof. intros Ho. destruct fuel; [done|]. simpl. by rewrite (proj2 (Nat.ltb_ge _ _)). Qed.

Lemma param_value v ps :
  Forall (fun c => c <> chr "&") v -> GetStringBefore (chr "&") (v ++ param_string (bs "&") ps) = v.
Proof.
  intros Hv. destruct ps as [|[k' v'] ps]; simpl.
  - rewrite app_nil_r. by apply GetStringBefore_all.
  - by apply GetStringBefore_stop.
Qed.

Lemma ParseUrlAndParam_loop_params ps : forall fuel s offset params c,
  drop offset s = param_string [c] ps -> Forall splittable ps -> (length s - offset < fuel)%nat ->
  ParseUrlAndParam_loop fuel s (offset + 1) params = set_all params ps.
Proof.
  induction ps as [|[k v] ps IH]; intros fuel s offset params c Hs Hps Hf.
  - apply ParseUrlAndParam_loop_end. assert (length (drop offset s) = 0%nat) as Hl by by rewrite Hs.
    rewrite length_drop in Hl. lia.
  - destruct fuel as [|fuel]; [lia|]. apply Forall_cons in Hps as [(Hk0 & Hk & Hv) Hps].
    simpl in Hk0, Hk, Hv.
    change (param_string [c] ((k, v) :: ps)) with (c :: k ++ chr "=" :: v ++ param_string (bs "&") ps) in Hs.
    apply cursor_S in Hs. replace (offset + 1)%nat with (S offset) by lia.
    pose proof (cursor_len s (S offset) (k ++ [chr "="]) (v ++ param_string (bs "&") ps)
                  ltac:(by rewrite <- app_assoc) ltac:(by destruct k)) as Hlt.
    rewrite length_app in Hlt. simpl in Hlt.
    cbn [ParseUrlAndParam_loop]. rewrite (proj2 (Nat.ltb_lt _ _)) by lia.
    rewrite Hs, (GetStringBefore_stop _ _ _ Hk). apply cursor_app, cursor_S in Hs.
    replace (S offset + length k + 1)%nat with (S (S offset + length k)) by lia.
    set (o := S (S offset + length k)) in *. rewrite (bool_decide_false (k = [])) by done. simpl negb.
    cbv iota. destruct (Nat.ltb_spec o (length s)) as [Ho|Ho].
    + rewrite Hs, param_value by done. apply cursor_app in Hs.
      rewrite (IH fuel s (o + length v)%nat _ (chr "&") Hs Hps) by lia. done.
    + assert (length (drop o s) = 0%nat) as Hl by (rewrite length_drop; lia).
      rewrite Hs, length_app in Hl. destruct v; [|simpl in Hl; lia].
      destruct ps as [|[k' v'] ps]; [|simpl in Hl; lia].
      by rewrite ParseUrlAndParam_loop_end by done.
Qed.

Lemma ParseUrlAndParam_spec f path ps :
  UrlDecode (m_urlAndParams f) = path ++ param_string (bs "?") ps ->
  Forall (fun c => c <> chr "?") path -> Forall splittable ps -> path <> [] ->
  ParseUrlAndParam f =
    set_parameters (set_all (m_parameters f) ps)
      (set_url path (set_urlAndParams (path ++ param_string (bs "?") ps) f)).
Proof.
  intros Hd Hp Hps Hne. unfold ParseUrlAndParam. rewrite Hd.
  assert (GetStringBefore (chr "?") (path ++ param_string (bs "?") ps) = path) as ->.
  { destruct ps as [|[k v] ps]; simpl.
    - rewrite app_nil_r. by apply GetStringBefore_all.
    - by apply GetStringBefore_stop. }
  rewrite (ParseUrlAndParam_loop_params ps _ _ _ _ (chr "?")); [done| |done|].
  - by rewrite drop_app_length.
  - rewrite length_app. destruct path; [done|]. simpl. lia.
Qed.

(** *** The fields *)

Lemma headers_run_fields hs : forall f,
  Forall (fun kv : bytes * bytes => kv.1 <> [] /\ kv.2 <> []) hs -> m_headerState f = HeaderState_None ->
  let f' := headers_run OnHeaderName OnHeaderValue hs f in
  m_headers f' = set_all (m_headers f) hs /\ m_headerState f' = HeaderState_None /\
  m_body f' = m_body f /\ m_urlAndParams f' = m_urlAndParams f /\ m_parameters f' = m_parameters f.
Proof.
  induction hs as [|[k v] hs IH]; intros f Hhs Hst; [done|].
  apply Forall_cons in Hhs as [[Hk Hv] Hhs]. simpl in Hk, Hv.
  remember (OnHeaderValue v (OnHeaderName k f)) as f1 eqn:Ef.
  assert (m_headers f1 = smap_set k v (m_headers f) /\ m_headerState f1 = HeaderState_None /\
            m_body f1 = m_body f /\ m_urlAndParams f1 = m_urlAndParams f /\
            m_parameters f1 = m_parameters f) as (H1 & H2 & H3 & H4 & H5).
  { rewrite Ef. unfold OnHeaderValue, OnHeaderName. rewrite !bool_decide_false by done.
    destruct f. simpl in Hst. subst. done. }
  pose proof (IH f1 Hhs H2) as HI. cbv zeta in *.
  change (headers_run OnHeaderName OnHeaderValue ((k, v) :: hs) f)
    with (headers_run OnHeaderName OnHeaderValue hs (OnHeaderValue v (OnHeaderName k f))).
  rewrite <- Ef. rewrite <- H3, <- H4, <- H5.
  change (set_all _ ((k, v) :: hs)) with (set_all (smap_set k v (m_headers f)) hs).
  rewrite <- H1. exact HI.
Qed.

Lemma parsed_fields_spec hs b f :
  Forall (fun kv : bytes * bytes => kv.1 <> [] /\ kv.2 <> []) hs ->
  m_headerState f = HeaderState_None -> m_body f = [] ->
  let f' := parsed_fields hs b f in
  m_headers f' = set_all (m_headers f) hs /\ m_body f' = b /\
  m_urlAndParams f' = m_urlAndParams f /\ m_parameters f' = m_parameters f.
Proof.
  intros Hhs Hst Hb. destruct (headers_run_fields hs f Hhs Hst) as (I1 & I2 & I3 & I4 & I5).
  unfold parsed_fields, OnBody. cbv zeta in *. case_bool_decide as Hd.
  - rewrite I3, Hb, Hd. done.
  - simpl. rewrite I3, Hb. done.
Qed.

Lemma all_headers_nonempty e : plain_headers (he_headers e) -> Z.of_nat (length (he_body e)) < 2 ^ 60 ->
  Forall (fun kv : bytes * bytes => kv.1 <> [] /\ kv.2 <> []) (all_headers e).
Proof.
  intros Hp Hb. destruct (decimal_spec (Z.of_nat (length (he_body e)))) as (_ & _ & Hd & _); [lia|].
  repeat constructor; try done.
  - by destruct (he_closeConnection e).
  - eapply Forall_impl; [exact Hp|]. intros [k v] [[Hk _] [_ Hv]]. simpl in *. split; [done|].
    by destruct v.
Qed.

(** What a map built by [set_all] holds. *)
Lemma set_all_find kvs : forall m k v, smap_wf m -> NoDup (kvs.*1) -> (k, v) ∈ kvs ->
  smap_find k (set_all m kvs) = Some v.
Proof.
  assert (forall kvs m k, smap_wf m -> k ∉ kvs.*1 -> smap_find k (set_all m kvs) = smap_find k m) as Hne.
  { clear. induction kvs as [|[k' v'] kvs IH]; intros m k Hm Hk; [done|]. simpl in Hk.
    apply not_elem_of_cons in Hk as [Hk1 Hk2]. simpl. rewrite IH by (done || by apply smap_set_wf).
    by apply smap_find_set_ne. }
  induction kvs as [|[k' v'] kvs IH]; intros m k v Hm Hnd Hin; [by apply elem_of_nil in Hin|].
  simpl in Hnd. apply NoDup_cons in Hnd as [Hk' Hnd]. simpl.
  apply elem_of_cons in Hin as [[= -> ->]|Hin].
  - rewrite Hne; [by apply smap_find_set_eq|by apply smap_set_wf|done].
  - apply IH; [by apply smap_set_wf|done|done].
Qed.

(** A request of the library: an absolute path of encoded segments, encoded parameters, headers
    the message parser does not look at. *)
Record request_of (e : HttpEncoder) (m : http_method) (segments : list bytes) (ps : string_map) : Prop := {
  rq_method : he_method e = method_strings m;
  rq_not_connect : m <> HTTP_CONNECT;
  rq_url : he_url e = path_of UrlEncode segments;
  rq_segments : segments <> [];
  rq_segment_bytes : Forall (fun s => Forall is_byte s /\ Forall (fun c => c <> chr "?") s) segments;
  rq_params : he_parameters e = encode_pair <$> ps;
  rq_param_bytes : Forall bytes_pair ps;
  rq_headers : plain_headers (he_headers e);
  rq_body : Z.of_nat (length (he_body e)) < 2 ^ 60;
  rq_size : head_size (GetRequestString e) e <= HTTP_MAX_HEADER_SIZE
}.

Lemma path_no_query segments :
  Forall (fun s => Forall is_byte s /\ Forall (fun c => c <> chr "?") s) segments ->
  Forall (fun c => c <> chr "?") (path_of id segments).
Proof.
  induction 1 as [|s segments [_ Hs] Hr IH]; [constructor|].
  change (path_of id (s :: segments)) with (chr "/" :: s ++ path_of id segments).
  constructor; [done|]. by apply Forall_app.
Qed.

(** What a parsed message tells its client. *)
Definition parsed_as (p : HttpParser) (method url body : bytes) (headers params : string_map) : Prop :=
  HttpParser_IsComplete p = true /\ GetMethod p = method /\ GetUrl p = url /\ GetBody p = body /\
  GetHeaders p = headers /\ GetParameters p = params.

(** The parameters are those of any list [qs] that prints like the raw parameters. *)
Lemma request_pieces e m segments ps qs status pieces head b1 rest :
  request_of e m segments ps -> Forall splittable qs ->
  param_string (bs "?") qs = param_string (bs "?") ps ->
  cut e (GetRequestString e) pieces head b1 rest ->
  exists p, feed (HttpParser_init status) pieces = Some p /\
    parsed_as p (he_method e) (path_of id segments) (he_body e) (set_all [] (all_headers e))
      (set_all [] qs) /\
    incomplete_before (HttpParser_init status) pieces.
Proof.
  intros [Hme Hm Hu Hne Hsb Hps Hpb Hh Hb Hsz] Hqs Heq Hcut.
  assert (Forall (Forall is_byte) segments) as Hs1 by (eapply Forall_impl; [exact Hsb|]; naive_solver).
  assert (request_target e = path_of UrlEncode segments ++ param_string (bs "?") (encode_pair <$> ps))
    as Et by (unfold request_target; by rewrite Hu, Hps).
  destruct (target_run segments ps Hne Hs1 Hpb) as (st & Hr & Hst). rewrite <- Et in Hr.
  destruct (request_parse e m st status pieces head b1 rest Hm Hme Hr Hst Hh Hb Hsz Hcut)
    as (h' & hc & Emc & _ & Ep & Hinc).
  eexists. split; [exact Ep|]. split; [|exact Hinc]. clear Ep Hinc Hcut Hr.
  assert (request_target e <> []) as Htne by (rewrite Et; by destruct segments).
  set (f0 := OnUrl (request_target e) (fresh status)).
  assert (m_urlAndParams f0 = request_target e /\ m_headerState f0 = HeaderState_None /\
            m_body f0 = [] /\ m_headers f0 = [] /\ m_parameters f0 = []) as (F1 & F2 & F3 & F4 & F5).
  { subst f0. unfold OnUrl. by rewrite bool_decide_false by done. }
  clearbody f0.
  destruct (parsed_fields_spec (all_headers e) (he_body e) f0 (all_headers_nonempty e Hh Hb) F2 F3)
    as (P1 & P2 & P3 & P4).
  set (f1 := parsed_fields (all_headers e) (he_body e) f0) in *. clearbody f1.
  rewrite F1, Et in P3. rewrite F4 in P1. rewrite F5 in P4.
  set (f2 := set_status (status_code hc) (set_methodName (method_strings (method hc)) f1)).
  assert (OnComplete hc f1 = set_complete true (set_parameters (set_all [] qs)
            (set_url (path_of id segments)
              (set_urlAndParams (path_of id segments ++ param_string (bs "?") qs) f2)))) as ->.
  { unfold OnComplete. fold f2.
    rewrite (ParseUrlAndParam_spec f2 (path_of id segments) qs); [simpl; by rewrite P4| | |done|].
    - simpl. rewrite P3, UrlDecode_path by done. by rewrite UrlDecode_params, Heq by (done || by left).
    - by apply path_no_query.
    - by destruct segments. }
  split; [done|]. split; [transitivity (method_strings (method hc)); [done|by rewrite Emc]|done].
Qed.

(** One piece. *)
Lemma cut_whole e start message :
  message = start ++ AppendToStream e ->
  cut e message [message] (start ++ header_lines (all_headers e) ++ crlf) (he_body e) [].
Proof.
  intros ->. rewrite AppendToStream_lines. split; [..|done]; rewrite <- ?app_assoc; [done..|by rewrite app_nil_r].
Qed.

Lemma request_result e m segments ps qs status :
  request_of e m segments ps -> Forall splittable qs ->
  param_string (bs "?") qs = param_string (bs "?") ps ->
  exists p, HttpParser_Parse (HttpParser_init status) (GetRequestString e) = Some (p, true) /\
    parsed_as p (he_method e) (path_of id segments) (he_body e) (set_all [] (all_headers e))
      (set_all [] qs).
Proof.
  intros Hrq Hqs Heq. pose proof (cut_whole e _ _ (GetRequestString_tail e)) as Hcut.
  destruct (request_pieces _ _ _ _ _ status _ _ _ _ Hrq Hqs Heq Hcut) as (p & Ep & Hp & _).
  exists p. split; [exact (feed_one _ _ _ Ep)|exact Hp].
Qed.

(** C10.  What [GetRequestString] prints, calls of [Parse] on a fresh parser read back, whether the
    message comes in one piece or its body is cut anywhere into several: the calls all succeed, the
    message is complete after the last one and not before, and method, path (decoded), body, headers (with
    [Content-Length] and [Connection]) and parameters (decoded) are the encoder's, provided the
    parameters are percent-encoded by the caller, no key is empty or holds an '=' and no value an
    '&', no header is one the parser interprets, and the head fits [HTTP_MAX_HEADER_SIZE]. *)
Theorem request_roundtrip e m segments ps status pieces head b1 rest :
  request_of e m segments ps -> Forall splittable ps ->
  cut e (GetRequestString e) pieces head b1 rest ->
  exists p, feed (HttpParser_init status) pieces = Some p /\
    incomplete_before (HttpParser_init status) pieces /\
    parsed_as p (he_method e) (path_of id segments) (he_body e) (set_all [] (all_headers e))
      (set_all [] ps) /\
    (NoDup (ps.*1) -> forall k v, (k, v) ∈ ps -> GetParameter p k = c_str v).
Proof.
  intros Hrq Hps Hcut.
  destruct (request_pieces e m segments ps ps status _ _ _ _ Hrq Hps eq_refl Hcut) as (p & Ep & Hp & Hinc).
  exists p. split; [done|]. split; [done|]. split; [done|]. intros Hnd k v Hin.
  destruct Hp as (_ & _ & _ & _ & _ & Hpar). unfold GetParameter, GetParameters in *.
  rewrite Hpar, (set_all_find ps [] k v); [done| |done|done]. constructor.
Qed.

(** C39.  The target is decoded before it is split, so an encoded separator separates: a request
    whose one parameter has a value with an '&' in it, percent-encoded as it should be, is parsed
    as a request with two parameters. *)
Theorem encoded_separator_splits e m segments k v k2 v2 status :
  request_of e m segments [(k, v ++ chr "&" :: k2 ++ chr "=" :: v2)] ->
  splittable (k, v) -> splittable (k2, v2) ->
  exists p, HttpParser_Parse (HttpParser_init status) (GetRequestString e) = Some (p, true) /\
    GetParameters p = set_all [] [(k, v); (k2, v2)].
Proof.
  intros Hrq H1 H2.
  destruct (request_result e m segments _ [(k, v); (k2, v2)] status Hrq) as (p & Ep & Hp).
  - constructor; [done|]. by constructor.
  - simpl. by rewrite !app_nil_r.
  - exists p. split; [done|]. by destruct Hp as (_ & _ & _ & _ & _ & Hpar).
Qed.

(** ** Responses *)

Lemma GetReponseString_tail e :
  GetReponseString e = (bs "HTTP/1.1 " ++ decimal (status_num (he_statusCode e)) ++ 32 ::
    he_statusMessage e ++ crlf) ++ AppendToStream e.
Proof. unfold GetReponseString. repeat (rewrite <- ?app_assoc; simpl). done. Qed.

Lemma response_pieces e status pieces head b1 rest :
  Forall (fun c => c <> CR /\ c <> LF) (he_statusMessage e) -> plain_headers (he_headers e) ->
  Z.of_nat (length (he_body e)) < 2 ^ 60 ->
  head_size (GetReponseString e) e <= HTTP_MAX_HEADER_SIZE ->
  cut e (GetReponseString e) pieces head b1 rest ->
  exists p, feed (HttpParser_init status) pieces = Some p /\
    GetStatus p = status_num (he_statusCode e) /\
    parsed_as p (bs "DELETE") [] (he_body e) (set_all [] (all_headers e)) [] /\
    incomplete_before (HttpParser_init status) pieces.
Proof.
  intros Hw Hp Hb Hsz Hcut. set (w := he_statusMessage e) in *. set (code := he_statusCode e).
  set (n := (10 + length (decimal (status_num code)))%nat).
  pose proof (cut_head _ _ _ _ _ _ _ Hcut (GetReponseString_tail e)) as Er.
  rewrite (cut_size _ _ _ _ _ _ Hcut) in Hsz. destruct Hcut as [_ -> Hbody Hds].
  set (data := head ++ b1) in *. destruct (tail_length e b1) as (tail & Etail & La). rewrite <- Etail in Er.
  assert (data = bs "HTTP/1.1 " ++ decimal (status_num code) ++ 32 :: w ++ CR :: LF :: tail) as Er'.
  { rewrite Er. unfold crlf. repeat (rewrite <- ?app_assoc; simpl). done. }
  clear Er. rename Er' into Er.
  assert (length data = n + length w + 2 + length tail)%nat as Ld.
  { rewrite Er, !length_app. cbn [length]. rewrite !length_app. subst n. simpl length. lia. }
  assert (drop (n + 0) data = w ++ CR :: LF :: tail) as Hc1.
  { pose proof Er as Hc. change data with (drop 0 data) in Hc at 1.
    do 2 apply cursor_app in Hc. apply cursor_S in Hc. rewrite <- Hc. f_equal. subst n. simpl. lia. }
  pose proof Hc1 as Hc. apply cursor_app, cursor_S, cursor_S in Hc.
  replace (S (S (n + 0 + length w))) with (n + 0 + length w + 2)%nat in Hc by lia. rewrite Etail in Hc.
  destruct (pieces_feed e data b1 rest (n + 0 + length w + 2)
              (res_parser (status_num code) (Z.of_nat n + Z.of_nat (length w) + 2)) (fresh status) status)
    as (h' & hc & Emc & Esc & Ep & Hinc);
    [exact Hc|by rewrite Er|lia|done|done|done|done|done|done|simpl; lia|simpl nread; lia| |done|done|].
  - intros Q Hl.
    eapply (loops_status_code OnUrl OnHeaderName OnHeaderValue OnBody OnComplete data _ _ code _ 0);
      [exact Er|].
    eapply (loops_status_start OnUrl OnHeaderName OnHeaderValue OnBody OnComplete data _ _ w);
      [done|exact Hc1|lia|lia|exact Hl].
  - eexists. split; [exact Ep|]. clear Ep.
    destruct (parsed_fields_spec (all_headers e) (he_body e) (fresh status)
                (all_headers_nonempty e Hp Hb) eq_refl eq_refl) as (P1 & P2 & P3 & P4).
    set (f1 := parsed_fields _ _ _) in *. clearbody f1. simpl in P1, P3, P4.
    unfold parsed_as, GetStatus, GetBody, GetHeaders, GetUrl, GetParameters, GetMethod, OnComplete,
      ParseUrlAndParam. simpl. rewrite P3. simpl. rewrite Emc, Esc. done.
Qed.

Lemma response_result e status :
  Forall (fun c => c <> CR /\ c <> LF) (he_statusMessage e) -> plain_headers (he_headers e) ->
  Z.of_nat (length (he_body e)) < 2 ^ 60 ->
  head_size (GetReponseString e) e <= HTTP_MAX_HEADER_SIZE ->
  exists p, HttpParser_Parse (HttpParser_init status) (GetReponseString e) = Some (p, true) /\
    GetStatus p = status_num (he_statusCode e) /\
    parsed_as p (bs "DELETE") [] (he_body e) (set_all [] (all_headers e)) [].
Proof.
  intros Hw Hp Hb Hsz. pose proof (cut_whole e _ _ (GetReponseString_tail e)) as Hcut.
  destruct (response_pieces e status _ _ _ _ Hw Hp Hb Hsz Hcut) as (p & Ep & Hs & Hpa & _).
  exists p. exact (conj (feed_one _ _ _ Ep) (conj Hs Hpa)).
Qed.

(** C11.  What [GetReponseString] prints, calls of [Parse] on a fresh parser read back, whether the
    message comes in one piece or its body is cut anywhere into several: the calls all succeed, the
    message is complete after the last one and not before, and status, body and headers are the
    encoder's; URL and parameters are empty, and the method reads "DELETE", the first entry of the
    parser's table.  For a status message without CR and LF, headers that are none of those the parser
    looks at and whose values are not empty ([plain_headers]), a head within HTTP_MAX_HEADER_SIZE
    and a body below 2^60 bytes; a header with an empty value, for one, does not come back. *)
Theorem response_roundtrip e status pieces head b1 rest :
  Forall (fun c => c <> CR /\ c <> LF) (he_statusMessage e) -> plain_headers (he_headers e) ->
  Z.of_nat (length (he_body e)) < 2 ^ 60 ->
  head_size (GetReponseString e) e <= HTTP_MAX_HEADER_SIZE ->
  cut e (GetReponseString e) pieces head b1 rest ->
  exists p, feed (HttpParser_init status) pieces = Some p /\
    incomplete_before (HttpParser_init status) pieces /\
    HttpParser_IsComplete p = true /\ GetStatus p = status_num (he_statusCode e) /\
    GetBody p = he_body e /\ GetHeaders p = set_all [] (all_headers e) /\
    GetUrl p = [] /\ GetParameters p = [] /\ GetMethod p = bs "DELETE".
Proof.
  intros Hw Hp Hb Hsz Hcut.
  destruct (response_pieces e status _ _ _ _ Hw Hp Hb Hsz Hcut)
    as (p & Ep & Hs & (H1 & H2 & H3 & H4 & H5 & H6) & Hinc).
  exists p. exact (conj Ep (conj Hinc (conj H1 (conj Hs (conj H4 (conj H5 (conj H3 (conj H6 H2)))))))).
Qed.
