(* ===== verification/HttpSessions.v ===== *)
(** * Every use of an HttpParser

    A predicate that every callback preserves is kept by the whole message parser, whatever the bytes;
    and what that gives for the fields of an [HttpParser], over any sequence of [Parse] and
    [Reset]. *)

From S2P Require Import Prelude OrdMap UrlCodec HttpTables HttpUrl HttpExecute HttpSafe HttpSafeLoops HttpRun HttpProps HttpMessage HttpHeaders HttpPieces HttpRoundTrip.

Open Scope Z_scope.

Section Keeps.
Context {U : Type} (I : U -> Prop).

(** [m] preserves [I], however it ends. *)
Definition preserves {A} (m : M U A) : Prop := forall s, I (user s) -> I (user (fst (m s))).

Lemma preserves_bind {A B} (m : M U A) (f : A -> M U B) :
  preserves m -> (forall a, preserves (f a)) -> preserves (mbind f m).
Proof.
  intros Hm Hf s Hs. unfold mbind, M_bind. specialize (Hm s Hs).
  destruct (m s) as [s' [a|j]]; [by apply Hf|done].
Qed.

Lemma preserves_ret {A} (a : A) : preserves (mret a).
Proof. by intros s Hs. Qed.
Lemma preserves_leave {A} j : preserves (leave (A := A) j).
Proof. by intros s Hs. Qed.
Lemma preserves_get {A} (f : machine U -> A) : preserves (get f).
Proof. by intros s Hs. Qed.
Lemma preserves_modify f : preserves (modify f).
Proof. by intros s Hs. Qed.
Lemma preserves_update v : preserves (UPDATE_STATE v).
Proof. by intros s Hs. Qed.
Lemma preserves_set_p v : preserves (set_p v).
Proof. by intros s Hs. Qed.
Lemma preserves_set_ch v : preserves (set_ch v).
Proof. by intros s Hs. Qed.
Lemma preserves_set_mark k v : preserves (set_mark k v).
Proof. by intros s Hs. Qed.

Definition cb_preserves (f : http_cb U) : Prop := forall h u, I u -> I (f h u).2.

Lemma preserves_callback f e er : cb_preserves f -> preserves (run_callback f e er).
Proof.
  intros Hf [h u st i c mk] Hs. unfold run_callback, mbind, M_bind. simpl in *.
  specialize (Hf (set_hp_state st h) u Hs). destruct (f _ u) as [[r h'] u']. simpl in *.
  by repeat case_match.
Qed.
End Keeps.

Create HintDb preserves discriminated.
#[export] Hint Constants Opaque : preserves.
#[export] Hint Resolve preserves_ret preserves_leave preserves_get preserves_modify preserves_update preserves_set_p
  preserves_set_ch preserves_set_mark : preserves.

(** Follow the statements: a bind, a case, a basic statement, or a definition given. *)
Ltac preserves :=
  repeat match goal with
  | |- forall _, _ => intros
  | |- preserves _ (mbind _ _) => apply preserves_bind
  | |- preserves _ (match ?x with _ => _ end) => destruct x eqn:?
  | |- preserves _ _ => progress cbv zeta
  end; auto with preserves.

Section Statements.
Context {U : Type} (I : U -> Prop).

Lemma preserves_assert b : preserves I (assert_ b).
Proof. unfold assert_. preserves. Qed.
Lemma preserves_fail {A} e : preserves I (fail_with (A := A) e).
Proof. unfold fail_with. preserves. Qed.
Lemma preserves_RETURN {A} n : preserves I (RETURN (A := A) n).
Proof. unfold RETURN. preserves. Qed.
Lemma preserves_REEXECUTE {A} : preserves I (REEXECUTE (A := A)).
Proof. unfold REEXECUTE. preserves. Qed.
#[local] Hint Resolve preserves_fail : preserves.
Lemma preserves_STRICT b : preserves I (STRICT_CHECK b).
Proof. unfold STRICT_CHECK. preserves. Qed.
Lemma preserves_MARK k : preserves I (MARK k).
Proof. unfold MARK. preserves. Qed.
Lemma preserves_COUNT v : preserves I (COUNT_HEADER_SIZE v).
Proof. unfold COUNT_HEADER_SIZE. preserves. Qed.
End Statements.
#[export] Hint Resolve preserves_assert preserves_fail preserves_RETURN preserves_REEXECUTE preserves_STRICT preserves_MARK
  preserves_COUNT : preserves.

(** The callbacks of [settings] keep [I]. *)
Record settings_preserve {U} (I : U -> Prop) (settings : http_parser_settings U) : Prop := {
  sk_notify f : f ∈ [on_message_begin settings; on_headers_complete settings;
                     on_message_complete settings; on_chunk_header settings;
                     on_chunk_complete settings] -> forall g, f = Some g -> cb_preserves I g;
  sk_data k f : data_cb settings k = Some f -> forall h d u, I u -> I (f h d u).2
}.

Section Execute.
Context {U : Type} (I : U -> Prop) (settings : http_parser_settings U) (data : bytes).
Context (HI : settings_preserve I settings).

Lemma preserves_notify_ f e er : (forall g, f = Some g -> cb_preserves I g) -> preserves I (CALLBACK_NOTIFY_ f e er).
Proof.
  intros Hf. unfold CALLBACK_NOTIFY_. preserves. by apply preserves_callback, Hf.
Qed.
Lemma preserves_notify f e : (forall g, f = Some g -> cb_preserves I g) -> preserves I (CALLBACK_NOTIFY f e).
Proof. intros Hf. unfold CALLBACK_NOTIFY. preserves. by apply preserves_notify_. Qed.
Lemma preserves_notify_noadvance f e :
  (forall g, f = Some g -> cb_preserves I g) -> preserves I (CALLBACK_NOTIFY_NOADVANCE f e).
Proof. intros Hf. unfold CALLBACK_NOTIFY_NOADVANCE. preserves. by apply preserves_notify_. Qed.

Lemma preserves_data_ k upto er : preserves I (CALLBACK_DATA_ settings data k upto er).
Proof.
  unfold CALLBACK_DATA_. preserves. apply preserves_callback. intros h' u Hu. by eapply (sk_data _ _ HI).
Qed.
Lemma preserves_data k : preserves I (CALLBACK_DATA settings data k).
Proof. unfold CALLBACK_DATA. preserves. apply preserves_data_. Qed.
Lemma preserves_data_noadvance k : preserves I (CALLBACK_DATA_NOADVANCE settings data k).
Proof. unfold CALLBACK_DATA_NOADVANCE. preserves. apply preserves_data_. Qed.

#[local] Hint Resolve preserves_data preserves_data_ preserves_data_noadvance : preserves.

Lemma preserves_cb f : f ∈ [on_message_begin settings; on_headers_complete settings;
                       on_message_complete settings; on_chunk_header settings;
                       on_chunk_complete settings] ->
  (forall e, preserves I (CALLBACK_NOTIFY f e)) /\ (forall e, preserves I (CALLBACK_NOTIFY_NOADVANCE f e)).
Proof.
  intros Hf. split; intros e; [apply preserves_notify|apply preserves_notify_noadvance];
    intros g Hg; by apply (sk_notify _ _ HI f Hf).
Qed.

Ltac among := rewrite !elem_of_cons; tauto.
#[local] Hint Extern 0 (preserves _ (CALLBACK_NOTIFY _ _)) => refine (proj1 (preserves_cb _ _) _); among : preserves.
#[local] Hint Extern 0 (preserves _ (CALLBACK_NOTIFY_NOADVANCE _ _)) =>
  refine (proj2 (preserves_cb _ _) _); among : preserves.

Lemma preserves_field_char x c : preserves I (field_char x c).
Proof. unfold field_char, match_header, field_content_length. preserves. Qed.

Lemma preserves_field_loop fuel : preserves I (field_loop data fuel).
Proof. induction fuel; simpl; preserves. apply preserves_field_char. Qed.

Lemma preserves_value_char hs x : preserves I (value_char data hs x).
Proof. unfold value_char, value_content_length, match_value. preserves. Qed.

Lemma preserves_value_loop fuel : forall start hs, preserves I (value_loop settings data fuel start hs).
Proof. induction fuel; intros start hs; simpl; preserves. apply preserves_value_char. Qed.

Lemma preserves_message_complete : preserves I (message_complete settings).
Proof. unfold message_complete. preserves. Qed.

Lemma preserves_url_char c : preserves I (url_char c).
Proof. unfold url_char. preserves. Qed.

Lemma preserves_headers_complete : preserves I (headers_complete_callback settings).
Proof.
  unfold headers_complete_callback. apply preserves_bind; [apply preserves_get|intros i].
  apply preserves_bind; [|preserves]. destruct (on_headers_complete settings) as [f|] eqn:E; [|preserves].
  assert (cb_preserves I f) as Hf.
  { eapply (sk_notify _ _ HI); [|exact E]. rewrite !elem_of_cons. tauto. }
  intros [h u st i' c mk] Hs. unfold mbind, M_bind, get. simpl in *. specialize (Hf h u Hs).
  destruct (f h u) as [[r h'] u']. simpl in *. by repeat case_match.
Qed.
#[local] Hint Resolve preserves_field_loop preserves_value_loop preserves_message_complete preserves_url_char
  preserves_headers_complete : preserves.

(** Every group of cases of the [switch]. *)
Lemma preserves_dispatch s c : preserves I (dispatch settings data s c).
Proof.
  destruct s; cbn [dispatch];
  unfold case_start_req_or_res, case_res_or_resp_H, case_start_res, case_constant, case_res_http_major,
    case_res_http_minor, case_res_status_code, case_res_status_start, case_res_status, case_start_req, case_req_method,
    case_req_spaces_before_url, case_req_schema, case_req_url, case_req_http_start, case_req_http_major,
    case_req_http_minor, case_req_line_almost_done, case_header_field_start, case_header_field,
    case_header_value_discard_ws, case_header_value_start, case_header_value, case_header_almost_done,
    case_header_value_lws, case_header_value_discard_lws, case_headers_almost_done, case_headers_done,
    case_body_identity, case_body_identity_eof, case_message_done, case_chunk_size_start, case_chunk_size,
    case_chunk_parameters, case_chunk_size_almost_done, case_chunk_data, case_chunk_data_almost_done,
    case_chunk_data_done, read_body, assert_chunked.
  all: preserves.
Qed.

#[local] Hint Resolve preserves_dispatch : preserves.

Lemma preserves_reexecute fuel : preserves I (reexecute settings data fuel).
Proof.
  induction fuel as [|fuel IH]; intros s Hs; simpl; [done|].
  pose proof (preserves_dispatch (p_state s) (ch s) s Hs) as Hd.
  destruct (dispatch settings data (p_state s) (ch s) s) as [s' [[]|[]]]; try done. by apply IH.
Qed.
#[local] Hint Resolve preserves_reexecute : preserves.

Lemma preserves_for_loop fuel : preserves I (for_loop settings data fuel).
Proof. induction fuel; simpl; unfold for_body; preserves. Qed.

(** A call of [http_parser_execute] preserves what its callbacks keep. *)
Lemma preserves_execute h u r h' u' :
  http_parser_execute settings data h u = (r, h', u') -> I u -> I u'.
Proof.
  unfold http_parser_execute. case_decide; [|by intros [= _ _ <-]]. intros He Hu.
  assert (preserves I (execute_eof settings)) as K1 by (unfold execute_eof; preserves).
  assert (preserves I (for_loop settings data (S (length data));; flush_marks settings data)) as K2.
  { unfold flush_marks. apply preserves_bind; [apply preserves_for_loop|intros _]. preserves. }
  assert (preserves I (execute_body settings data)) as K3.
  { intros s Hs. specialize (K2 s Hs). unfold execute_body.
    destruct ((for_loop settings data (S (length data));; flush_marks settings data) s)
      as [s' [[]|[]]]; try done. }
  assert (preserves I (if decide (data = []) then execute_eof settings else execute_body settings data))
    as K by by case_decide.
  specialize (K (initial_machine h u) Hu). revert He. cbv zeta.
  destruct ((if decide (data = []) then execute_eof settings else execute_body settings data)
              (initial_machine h u)) as [s [[]|[]]]; intros [= _ _ <-]; exact K.
Qed.
End Execute.

(** ** The fields of an HttpParser *)

(** The invariant of the fields: both maps are ordered; every header has a name and a value that
    are not empty, every parameter a key; a name or value that waits for its partner is not
    empty; the two never wait together. *)
Record fields_wf (f : HttpFields) : Prop := {
  fw_headers : smap_wf (m_headers f);
  fw_parameters : smap_wf (m_parameters f);
  fw_header_entries : Forall (fun kv => kv.1 <> [] /\ kv.2 <> []) (m_headers f);
  fw_parameter_keys : Forall (fun kv => kv.1 <> []) (m_parameters f);
  fw_waiting :
    m_headerState f = HeaderState_None \/
    (m_headerState f = HeaderState_HasName /\ m_headerName f <> []) \/
    (m_headerState f = HeaderState_HasVaule /\ m_headerValue f <> [])
}.

Lemma fresh_wf status : fields_wf (fields (HttpParser_init status)).
Proof. split; simpl; try constructor. done. Qed.

Lemma set_entry_Forall {V} (P : bytes * V -> Prop) k v (m : list (bytes * V)) :
  P (k, v) -> Forall P m -> Forall P (smap_set k v m).
Proof. intros Hp. by apply smap_set_Forall. Qed.

Lemma OnHeaderName_wf d f : fields_wf f -> fields_wf (OnHeaderName d f).
Proof.
  intros [H1 H2 H3 H4 H5]. unfold OnHeaderName. case_bool_decide as Hd; [by split|].
  unfold header_event. destruct f as [u ua st me hs hn hv h p b c]. simpl in *.
  destruct H5 as [-> |[[-> Hn]|[-> Hv]]]; simpl.
  - split; simpl; try done. right. by left.
  - split; simpl; try done. right. by left.
  - split; simpl; try done; [by apply smap_set_wf|by apply set_entry_Forall|by left].
Qed.

Lemma OnHeaderValue_wf d f : fields_wf f -> fields_wf (OnHeaderValue d f).
Proof.
  intros [H1 H2 H3 H4 H5]. unfold OnHeaderValue. case_bool_decide as Hd; [by split|].
  unfold header_event. destruct f as [u ua st me hs hn hv h p b c]. simpl in *.
  destruct H5 as [-> |[[-> Hn]|[-> Hv]]]; simpl.
  - split; simpl; try done. right. by right.
  - split; simpl; try done; [by apply smap_set_wf|by apply set_entry_Forall|by left].
  - split; simpl; try done. right. by right.
Qed.

Lemma ParseUrlAndParam_loop_wf fuel : forall s offset params,
  smap_wf params -> Forall (fun kv : bytes * bytes => kv.1 <> []) params ->
  smap_wf (ParseUrlAndParam_loop fuel s offset params) /\
  Forall (fun kv : bytes * bytes => kv.1 <> []) (ParseUrlAndParam_loop fuel s offset params).
Proof.
  induction fuel as [|fuel IH]; intros s offset params Hw Hk; [done|]. cbn [ParseUrlAndParam_loop].
  destruct (offset <? length s)%nat; [|done]. cbv zeta. apply IH.
  - repeat case_bool_decide; simpl; try done; by apply smap_set_wf.
  - repeat case_bool_decide; simpl; try done; by apply set_entry_Forall.
Qed.

Lemma m_settings_preserve : settings_preserve fields_wf m_settings.
Proof.
  split.
  - intros f Hf g ->. rewrite !elem_of_cons, elem_of_nil in Hf. simpl in Hf.
    assert (g = fun h f => (0, h, OnComplete h f)) as -> by naive_solver.
    intros h f [H1 H2 H3 H4 H5]. simpl. unfold OnComplete, ParseUrlAndParam. simpl.
    destruct (ParseUrlAndParam_loop_wf (length (UrlDecode (m_urlAndParams f)))
      (UrlDecode (m_urlAndParams f))
      (length (GetStringBefore (chr "?") (UrlDecode (m_urlAndParams f))) + 1) (m_parameters f) H2 H4).
    by split.
  - intros [] f; simpl; intros; simplify_eq/=.
    + by apply OnHeaderName_wf.
    + by apply OnHeaderValue_wf.
    + unfold OnUrl. case_bool_decide; [done|]. by destruct H0.
    + unfold OnBody. case_bool_decide; [done|]. by destruct H0.
Qed.

(** *** Sessions *)

Lemma m_settings_pure :
  m_settings = pure_settings OnUrl OnHeaderName OnHeaderValue OnBody OnComplete.
Proof. done. Qed.

Lemma m_settings_ok : settings_ok m_settings.
Proof. rewrite m_settings_pure. apply pure_settings_ok. Qed.

(** What a client does with an [HttpParser]. *)
Inductive http_op := OpParse (data : bytes) | OpReset.

Definition http_step (p : HttpParser) (op : http_op) : option HttpParser :=
  match op with
  | OpParse data => fst <$> HttpParser_Parse p data
  | OpReset => Some (HttpParser_Reset p)
  end.

Fixpoint http_session (p : HttpParser) (ops : list http_op) : option HttpParser :=
  match ops with
  | [] => Some p
  | op :: ops' => http_step p op ≫= fun p' => http_session p' ops'
  end.

Definition http_wf (p : HttpParser) : Prop := parser_wf (m_httpParser p) /\ fields_wf (fields p).

Lemma Parse_ok p data : http_wf p -> exists p' b,
  HttpParser_Parse p data = Some (p', b) /\ http_wf p' /\
  (errno (m_httpParser p) <> HPE_OK -> p' = p /\ b = false).
Proof.
  intros [Hp Hf].
  destruct (execute_ok m_settings data m_settings_ok (m_httpParser p) (fields p) Hp)
    as (n & h' & f' & He & Hh & _).
  exists (mkHttp h' f'), (bool_decide (errno h' = HPE_OK)). unfold HttpParser_Parse. rewrite He.
  split; [done|]. split.
  - split; [exact Hh|]. exact (preserves_execute fields_wf m_settings data m_settings_preserve _ _ _ _ _ He Hf).
  - intros Hne. unfold http_parser_execute in He. rewrite decide_False in He by done.
    injection He as _ <- <-. rewrite bool_decide_false by done. by destruct p.
Qed.

(** C14.  Whatever bytes a client feeds an [HttpParser], in whatever pieces, with [Reset]s in between:
    no assertion of the message parser fails, and its maps stay ordered, with no empty header
    name, header value or parameter name; a name and a value never wait together, so
    [HeaderReady] is false whenever it can be asked. *)
Theorem http_session_safe ops status :
  exists p, http_session (HttpParser_init status) ops = Some p /\ http_wf p /\ HeaderReady p = false.
Proof.
  assert (forall p, http_wf p -> exists p', http_session p ops = Some p' /\ http_wf p') as H.
  { induction ops as [|[data|] ops IH]; intros p Hp; simpl; [by exists p|..].
    - destruct (Parse_ok p data Hp) as (p' & b & -> & Hp' & _). simpl. by apply IH.
    - apply IH. split; [apply parser_init_wf|apply (fresh_wf 0)]. }
  destruct (H (HttpParser_init status)) as (p & E & Hp).
  { split; [apply parser_init_wf|apply fresh_wf]. }
  exists p. split; [done|]. split; [done|]. destruct Hp as [_ [_ _ _ _ Hw]]. unfold HeaderReady.
  destruct Hw as [-> |[[-> _]|[-> _]]]; done.
Qed.

(** ** Witnesses of the round trips *)

(** Lines, each with its CR LF. *)
Definition text (lines : list bytes) : bytes := mjoin ((fun l => l ++ crlf) <$> lines).

(** A request with the parameters [ps]. *)
Definition sample_request (ps : string_map) : HttpEncoder :=
  foldl (fun e kv => AddParameter e (UrlEncode kv.1) (UrlEncode kv.2))
    (SetBody (AddHeader (SetUrl (SetMethod (HttpEncoder_init false) (bs "POST"))
       (path_of UrlEncode [bs "a b"; bs "c"])) (bs "Host") (bs "h:80")) (bs "hello")) ps.

Lemma sample_plain_headers : plain_headers [(bs "Host", bs "h:80")].
Proof.
  repeat constructor; simpl; try done.
  intros [l Hl]. vm_compute in Hl. discriminate Hl.
Qed.

Definition two_params : string_map := [(bs "k?", bs "x=1"); (bs "n", [])].
Definition amp_param : string_map := [(bs "a", bs "1&b=2")].

(** The head and two bytes of the body, then the rest in two pieces. *)
Lemma request_roundtrip_witness :
  let head := take (length (GetRequestString (sample_request two_params)) - 5)
    (GetRequestString (sample_request two_params)) in
  request_of (sample_request two_params) HTTP_POST [bs "a b"; bs "c"] two_params /\
  exists p, feed (HttpParser_init 7) [head ++ bs "he"; bs "l"; bs "lo"] = Some p /\
    GetUrl p = bs "/a b/c" /\ GetBody p = bs "hello" /\ GetParameter p (bs "k?") = bs "x=1".
Proof.
  intros head.
  assert (request_of (sample_request two_params) HTTP_POST [bs "a b"; bs "c"] two_params) as Hrq.
  { split; try done; try apply sample_plain_headers; by_compute. }
  split; [exact Hrq|].
  destruct (request_roundtrip _ _ _ _ 7 [head ++ bs "he"; bs "l"; bs "lo"] head (bs "he") [bs "l"; bs "lo"] Hrq)
    as (p & Ep & _ & (_ & _ & Hu & Hb & _) & Hp).
  { repeat constructor; by_compute. }
  { split; [by_compute|done|by_compute|]. repeat constructor; done. }
  exists p. split; [exact Ep|]. split; [exact Hu|]. split; [exact Hb|].
  apply (Hp ltac:(by_compute) (bs "k?") (bs "x=1")). by_compute.
Defined.

Lemma encoded_separator_splits_witness :
  he_parameters (sample_request amp_param) = [(bs "a", bs "1%26b%3D2")] /\
  exists p, HttpParser_Parse (HttpParser_init 7) (GetRequestString (sample_request amp_param)) = Some (p, true) /\
    GetParameters p = [(bs "a", bs "1"); (bs "b", bs "2")].
Proof.
  split; [reflexivity|].
  apply (encoded_separator_splits (sample_request amp_param) HTTP_POST [bs "a b"; bs "c"] (bs "a") (bs "1")
           (bs "b") (bs "2") 7).
  - split; try done; try apply sample_plain_headers; by_compute.
  - repeat constructor; by_compute.
  - repeat constructor; by_compute.
Defined.

Definition sample_response : HttpEncoder :=
  SetStatusMessage (SetStatusCode (SetBody (AddHeader (HttpEncoder_init true) (bs "Host") (bs "h:80"))
    (bs "not here")) StatusCode_404NotFound) (bs "Not Found").

(** The head alone, then the body in two pieces. *)
Lemma response_roundtrip_witness :
  let head := take (length (GetReponseString sample_response) - 8) (GetReponseString sample_response) in
  exists p, feed (HttpParser_init 7) [head; bs "not "; bs "here"] = Some p /\
    GetStatus p = 404 /\ GetBody p = bs "not here" /\ GetMethod p = bs "DELETE".
Proof.
  intros head.
  destruct (response_roundtrip sample_response 7 [head; bs "not "; bs "here"] head [] [bs "not "; bs "here"])
    as (p & Ep & _ & _ & Hs & Hb & _ & _ & _ & Hm).
  - by_compute.
  - apply sample_plain_headers.
  - reflexivity.
  - by_compute.
  - split; [by_compute|by_compute|done|]. repeat constructor; done.
  - exists p. split; [exact Ep|]. split; [exact Hs|]. split; [exact Hb|exact Hm].
Defined.
