(* ===== verification/HttpHeaderCut.v ===== *)
(** * Reads that end inside a header value

    http_parser calls the callback of a header value once for each read that brings a part of it;
    [OnHeaderValue] takes every call for a whole value.  Two calls of [Parse] on header lines of
    which one is cut inside its value ([split_value_shifts_headers]). *)

From S2P Require Import Prelude OrdMap HttpTables HttpUrl HttpExecute HttpSafe HttpRun HttpMessage HttpHeaders HttpPieces HttpRoundTrip HttpSessions.

Open Scope Z_scope.

(** ** Calls that begin or end inside a value *)

Section Execute.
Context {U : Type} (fu ff fv fb : bytes -> U -> U) (fc : http_parser -> U -> U).
Context (data : bytes) (h : http_parser) (u : U).
#[local] Notation settings := (pure_settings fu ff fv fb fc).
Context (Hh : errno h = HPE_OK) (Hd : data <> []).

Definition value_mark (j : nat) : mark_vars := put_mark no_mark M_header_value (Some j).

(** The callback of the value that is marked when the data end. *)
Lemma execute_value_part j (P : http_parser -> U -> Prop) :
  (forall h1 u1, P h1 u1 -> errno h1 = HPE_OK) -> initial_mark (hp_state h) = None ->
  loops settings data
    (fun _ s => exists h1 u1 c, P h1 u1 /\ s = mkMachine h1 u1 s_header_value (length data) c (value_mark j))
    (fun _ _ => False) h u (hp_state h) 0 no_mark ->
  exists h1 u1, P h1 u1 /\ http_parser_execute settings data h u =
    (Executed (length data), set_hp_state s_header_value h1, fv (slice data j (length data - j)) u1).
Proof.
  intros HP Hm Hl. specialize (Hl 0 (S (length data)) ltac:(lia)).
  unfold http_parser_execute. rewrite decide_True, decide_False by done.
  unfold execute_body, initial_machine. rewrite Hm. unfold wp in Hl. unfold mbind at 1, M_bind at 1.
  destruct (for_loop settings data _ _) as [s [[]|i]]; [|done].
  destruct Hl as (h1 & u1 & c & Hs & ->). exists h1, u1. split; [done|]. pose proof (HP _ _ Hs) as He.
  destruct h1 as [ty fl hst hs ix le nr cl ma mi sc me er up]. simpl in He. by subst er.
Qed.

(** The data begin inside a value. *)
Lemma execute_value_rest (P : http_parser -> U -> Prop) :
  (forall h' u', P h' u' -> errno h' = HPE_OK) -> hp_state h = s_header_value ->
  loops settings data
    (fun _ s => p s = length data /\ marks s = no_mark /\ P (hp s) (user s)) (fun _ _ => False)
    h u s_header_value 0 (value_mark 0) ->
  exists h' u' st, P h' u' /\
    http_parser_execute settings data h u = (Executed (length data), set_hp_state st h', u').
Proof.
  intros HP Hst Hl. specialize (Hl 0 (S (length data)) ltac:(lia)).
  unfold http_parser_execute. rewrite decide_True, decide_False by done.
  unfold execute_body, initial_machine. rewrite Hst. simpl initial_mark. cbv iota.
  unfold wp in Hl. unfold mbind at 1, M_bind at 1. unfold value_mark in Hl.
  destruct (for_loop settings data _ _) as [[h' u' st i c mk] [[]|j]]; [|done].
  destruct Hl as (Hp & Hmk & HPs). cbn [p marks hp user] in *. subst mk i.
  exists h', u', st. split; [done|].
  pose proof (HP _ _ HPs) as He. destruct h' as [ty fl hst hs ix le nr cl ma mi sc me er up].
  simpl in He. by subst er.
Qed.
End Execute.

(** ** Reads of header lines *)

Section Reads.
Context {U : Type} (fu ff fv fb : bytes -> U -> U) (fc : http_parser -> U -> U).
Implicit Types (h : http_parser) (u : U).
#[local] Notation settings := (pure_settings fu ff fv fb fc).
#[local] Notation headers_run := (headers_run ff fv).

(** The parser is between two header lines. *)
Definition between_lines h : Prop :=
  errno h = HPE_OK /\ line_start (hp_state h) /\ 0 <= nread h.

(** It is inside a value that means nothing to it. *)
Definition inside_value h : Prop :=
  errno h = HPE_OK /\ header_state h = h_general /\ 0 <= nread h.

Lemma between_lines_at h : between_lines h -> exists b,
  at_line (hp_state h) h b /\ errno b = HPE_OK /\ nread b = nread h /\ 0 <= nread b.
Proof.
  intros (He & Hs & H0). exists (norm (line_begin (hp_state h) h)).
  unfold at_line, line_begin. by case_decide.
Qed.

Lemma line_start_no_mark st : line_start st -> initial_mark st = None.
Proof. by intros [->| ->]. Qed.

(** Whole lines. *)
Lemma execute_lines h u hs :
  between_lines h -> hs <> [] -> plain_headers hs ->
  nread h + Z.of_nat (length (header_lines hs)) <= HTTP_MAX_HEADER_SIZE ->
  exists n h', http_parser_execute settings (header_lines hs) h u = (Executed n, h', headers_run hs u) /\
    errno h' = HPE_OK.
Proof.
  intros Hb Hne Hp Hn. destruct (between_lines_at h Hb) as (b & Hat & Eb & Nb & H0).
  destruct Hb as (He & Hs & _).
  assert (header_lines hs <> []) as Hd.
  { destruct hs as [|[[|x k] v] hs]; try done. }
  destruct (execute_run settings (header_lines hs) h u
    (fun h1 u1 => errno h1 = HPE_OK /\ u1 = headers_run hs u)) as (h1 & u1 & st & [Hh1 ->] & Ex).
  - by intros ? ? [? _].
  - done.
  - done.
  - by apply line_start_no_mark.
  - eapply (loops_headers fu ff fv fb fc _ _ _ hs _ h b u 0 []);
      [exact Hat|by rewrite drop_0, app_nil_r|done|done|done|lia|].
    intros st' h' Hat'. apply loops_end. intros c. simpl. split_and!; try done.
    destruct (at_line_fields _ _ _ Hat') as [_ ->]. exact Eb.
  - eexists _, _. split; [exact Ex|]. by destruct h1.
Qed.

(** A name and the first part of its value, up to the end of the data. *)
Lemma loops_cut_line data Q E st h b u i name v :
  at_line st h b -> drop i data = name ++ bs ": " ++ v -> plain_name name -> plain_value v ->
  errno b = HPE_OK -> 0 <= nread b ->
  nread b + Z.of_nat (length name + length v) + 3 <= HTTP_MAX_HEADER_SIZE ->
  (forall h' c, inside_value h' -> nread h' <= nread b + Z.of_nat (length name + length v) + 3 ->
     Q tt (mkMachine h' (ff name u) s_header_value (length data) c (value_mark (i + length name + 2)))) ->
  loops settings data Q E h u st i no_mark.
Proof.
  intros Hat Hc Hname [Hv Hblank] Eb H0 Hn HQ. destruct (at_line_fields _ _ _ Hat) as [Nh Eh].
  destruct Hat as [Hst _]. destruct name as [|x w]; [by destruct Hname|]. destruct v as [|y v]; [done|].
  destruct (name_run_plain (line_begin st h) x w Hname) as (h1 & Hrun & Hps & _).
  pose proof (name_run_frame w _ _ Hrun) as Hsf. destruct Hname as (_ & Hx & _).
  apply Forall_cons in Hx as [[Hx _] _]. apply Forall_cons in Hv as [Hy Hv]. simpl length in *.
  eapply (loops_name fu ff fv fb fc data Q E st x w h h1 u i (32 :: y :: v));
    [done|exact Hc|done|congruence|lia|lia|exact Hrun|].
  assert (drop (i + length w + 2) data = 32 :: y :: v) as Hc1.
  { replace (i + length w + 2)%nat with (i + length ((x :: w) ++ [chr ":"]))%nat
      by (rewrite length_app; simpl; lia).
    apply cursor_app. rewrite Hc. by rewrite <- app_assoc. }
  assert (errno h1 = HPE_OK) as Eh1.
  { rewrite Hsf. simpl. unfold line_begin. case_decide; simpl; congruence. }
  eapply (loops_char _ _ _ _ _ _ _ _ _ 32); [exact Hc1|intros _; simpl; lia|reflexivity|].
  apply cursor_S in Hc1.
  eapply (loops_value_start fu ff fv fb fc data Q E y v); [exact Hc1|apply Hblank..|exact Hy|simpl; lia|simpl; lia| |].
  { by apply value_start_plain. }
  apply cursor_S in Hc1 as Hc2. destruct (cursor_nth _ _ _ _ Hc1) as [_ Hlt].
  eapply (loops_value_part fu ff fv fb fc data Q E v); [exact Hc2|lia|exact Hv|done|simpl; lia|simpl; lia|].
  simpl nread. intros n c Hn1 Hn2.
  replace (S (i + length w + 2)) with (i + S (length w) + 2)%nat by lia.
  apply HQ; [by split_and!; [|done|simpl; lia]|simpl; lia].
Qed.

(** Lines, a name and part of its value. *)
Lemma execute_cut_value h u hs name v :
  let d := header_lines hs ++ name ++ bs ": " ++ v in
  between_lines h -> plain_headers hs -> plain_name name -> plain_value v ->
  nread h + Z.of_nat (length d) + 1 <= HTTP_MAX_HEADER_SIZE ->
  exists n h', http_parser_execute settings d h u = (Executed n, h', fv v (ff name (headers_run hs u))) /\
    inside_value h' /\ hp_state h' = s_header_value /\ nread h' <= nread h + Z.of_nat (length d) + 1.
Proof.
  intros d Hb Hp Hname Hval Hn. destruct (between_lines_at h Hb) as (b & Hat & Eb & Nb & H0).
  destruct Hb as (He & Hs & _). set (j := (length (header_lines hs) + length name + 2)%nat).
  assert (drop j d = v /\ length d = (j + length v)%nat) as [Hj Hlen].
  { subst d j. replace (header_lines hs ++ name ++ bs ": " ++ v)
      with ((header_lines hs ++ name ++ bs ": ") ++ v) by by rewrite <- !app_assoc.
    split; [apply drop_app_length'|]; rewrite !length_app; simpl; lia. }
  assert (d <> []) as Hne.
  { intros E. rewrite E in Hlen. simpl in Hlen. lia. }
  destruct (execute_value_part fu ff fv fb fc d h u He Hne j (fun h1 u1 =>
      inside_value h1 /\ u1 = ff name (headers_run hs u) /\ nread h1 <= nread h + Z.of_nat (length d) + 1))
    as (h1 & u1 & (Hin & -> & Hn1) & Ex).
  - by intros ? ? [[? _] _].
  - by apply line_start_no_mark.
  - eapply (loops_headers fu ff fv fb fc d _ _ hs _ h b u 0); [exact Hat|by rewrite drop_0|done|done|done|lia|].
    intros st1 h1 Hat1.
    eapply loops_cut_line; [exact Hat1| |done|done|done|simpl; lia|simpl; lia|].
    { exact (drop_app_length _ _). }
    simpl nread. intros h2 c Hin Hn2. exists h2, (ff name (headers_run hs u)), c.
    split; [|done]. split_and!; [done|done|lia].
  - eexists _, _. rewrite Ex. unfold slice. rewrite Hj, take_ge by lia. done.
Qed.

(** The rest of the value, and whole lines. *)
Lemma execute_rest h u v hs :
  inside_value h -> hp_state h = s_header_value -> Forall value_byte v -> plain_headers hs ->
  nread h + Z.of_nat (length (v ++ crlf ++ header_lines hs)) <= HTTP_MAX_HEADER_SIZE ->
  exists n h', http_parser_execute settings (v ++ crlf ++ header_lines hs) h u =
      (Executed n, h', headers_run hs (fv v u)) /\ errno h' = HPE_OK.
Proof.
  intros (He & Hg & H0) Hs Hv Hp Hn. set (d := v ++ crlf ++ header_lines hs) in *.
  assert (length d = length v + 2 + length (header_lines hs))%nat as Hlen.
  { subst d. rewrite !length_app. simpl. lia. }
  assert (d <> []) as Hne.
  { intros E. rewrite E in Hlen. simpl in Hlen. lia. }
  destruct (execute_value_rest fu ff fv fb fc d h u He Hne
    (fun h1 u1 => errno h1 = HPE_OK /\ u1 = headers_run hs (fv v u))) as (h1 & u1 & st & [Hh1 ->] & Ex).
  - by intros ? ? [? _].
  - done.
  - eapply (loops_value_rest fu ff fv fb fc d _ _ v h h h_general u 0 0 _ (header_lines hs));
      [by rewrite drop_0|done|done|done|lia|done|rewrite Hg; by destruct v|].
    set (h2 := set_nread _ _).
    replace (slice d 0 (0 + length v - 0)) with v.
    + eapply (loops_headers fu ff fv fb fc d _ _ hs _ h2 (norm (line_begin s_header_value_lws h2)) _ _ []);
        [split; [by right|done]| |done|done|simpl; lia|simpl; lia|].
      { rewrite app_nil_r. subst d. rewrite app_assoc. apply drop_app_length'.
        rewrite length_app. simpl. lia. }
      intros st' h' Hat'. replace (0 + length v + 2 + _)%nat with (length d) by lia.
      apply loops_end. intros c. simpl. split_and!; try done.
      by destruct (at_line_fields _ _ _ Hat') as [_ ->].
    + subst d. unfold slice. rewrite drop_0, Nat.sub_0_r. symmetry. apply take_app_length.
  - eexists _, _. split; [exact Ex|]. by destruct h1.
Qed.
End Reads.

(** ** Two calls of [Parse] *)

Lemma value_waits hs : forall f d,
  Forall (fun kv : bytes * bytes => kv.1 <> [] /\ kv.2 <> []) hs ->
  m_headerState f = HeaderState_HasVaule -> m_headerValue f = d ->
  m_headers (headers_run OnHeaderName OnHeaderValue hs f) =
    set_all (m_headers f) (zip hs.*1 (d :: hs.*2)).
Proof.
  induction hs as [|[k v] hs IH]; intros f d Hhs Hst Hd; [done|].
  apply Forall_cons in Hhs as [[Hk Hv] Hhs]. simpl in Hk, Hv.
  change (headers_run OnHeaderName OnHeaderValue ((k, v) :: hs) f)
    with (headers_run OnHeaderName OnHeaderValue hs (OnHeaderValue v (OnHeaderName k f))).
  rewrite (IH _ v Hhs); unfold OnHeaderValue, OnHeaderName; rewrite !bool_decide_false by done;
    destruct f; simpl in Hst, Hd; subst; done.
Qed.

(** The callbacks of a value in two parts. *)
Lemma two_values f name v1 v2 hs :
  m_headerState f = HeaderState_None -> name <> [] -> v1 <> [] -> v2 <> [] ->
  Forall (fun kv : bytes * bytes => kv.1 <> [] /\ kv.2 <> []) hs ->
  m_headers (headers_run OnHeaderName OnHeaderValue hs
    (OnHeaderValue v2 (OnHeaderValue v1 (OnHeaderName name f)))) =
    set_all (m_headers f) ((name, v1) :: zip hs.*1 (v2 :: hs.*2)).
Proof.
  intros Hst Hn H1 H2 Hhs. rewrite (value_waits hs _ v2 Hhs); unfold OnHeaderValue, OnHeaderName;
    rewrite !bool_decide_false by done; destruct f; simpl in Hst; subst; done.
Qed.

Lemma plain_nonempty hs : plain_headers hs ->
  Forall (fun kv : bytes * bytes => kv.1 <> [] /\ kv.2 <> []) hs.
Proof. intros Hp. eapply Forall_impl; [exact Hp|]. intros kv [[? _] [_ Hv]]. by destruct kv.2. Qed.

Lemma set_all_app m l1 l2 : set_all m (l1 ++ l2) = set_all (set_all m l1) l2.
Proof. apply foldl_app. Qed.

(** The parser is between two header lines, and no header waits for its other half. *)
Definition at_header_line (p : HttpParser) : Prop :=
  between_lines (m_httpParser p) /\ m_headerState (fields p) = HeaderState_None.

(** C38.  A header value in two reads.  The parser is between header lines; the first read brings any
    lines [hs0], a name, ": " and the first part [v1] of its value, the second one the rest [v2],
    and further lines [hs] (ordinary headers, not one of those the parser looks at, all within
    HTTP_MAX_HEADER_SIZE).  Both calls of [Parse] succeed, but the header keeps [v1] only, each header
    of [hs] gets the value of the one before it, the first of them [v2], and the last value is lost.
    One read of the same bytes gives every header its value. *)
Theorem split_value_shifts_headers p0 hs0 name v1 v2 hs :
  let d1 := header_lines hs0 ++ name ++ bs ": " ++ v1 in
  let d2 := v2 ++ crlf ++ header_lines hs in
  at_header_line p0 -> plain_headers hs0 -> plain_name name -> plain_value v1 ->
  v2 <> [] -> Forall value_byte v2 -> plain_headers hs ->
  nread (m_httpParser p0) + Z.of_nat (length (d1 ++ d2)) < HTTP_MAX_HEADER_SIZE ->
  (exists p1 p2, HttpParser_Parse p0 d1 = Some (p1, true) /\ HttpParser_Parse p1 d2 = Some (p2, true) /\
     GetHeaders p2 = set_all (GetHeaders p0) (hs0 ++ (name, v1) :: zip hs.*1 (v2 :: hs.*2))) /\
  (exists p, HttpParser_Parse p0 (d1 ++ d2) = Some (p, true) /\
     GetHeaders p = set_all (GetHeaders p0) (hs0 ++ (name, v1 ++ v2) :: hs)).
Proof.
  intros d1 d2 [Hb Hst] Hp0 Hname Hv1 Hne Hv2 Hp Hn. rewrite length_app in Hn.
  assert (v1 <> []) as Hv1' by (destruct Hv1 as [_ ?]; by destruct v1).
  destruct p0 as [h f]. simpl in Hst, Hb, Hn. split.
  - destruct (execute_cut_value OnUrl OnHeaderName OnHeaderValue OnBody OnComplete h f hs0 name v1 Hb
                Hp0 Hname Hv1 ltac:(fold d1; lia)) as (n1 & h1 & E1 & Hin & Hs1 & Hn1).
    cbv zeta in Hn1. fold d1 in E1, Hn1.
    destruct (execute_rest OnUrl OnHeaderName OnHeaderValue OnBody OnComplete h1
      (OnHeaderValue v1 (OnHeaderName name (headers_run OnHeaderName OnHeaderValue hs0 f))) v2 hs
                Hin Hs1 Hv2 Hp ltac:(fold d2; lia)) as (n2 & h2 & E2 & Hh2).
    eexists (mkHttp h1 _), (mkHttp h2 _). rewrite !Parse_accepts. split_and!.
    + exists n1. split; [exact E1|apply Hin].
    + exists n2. split; [exact E2|exact Hh2].
    + simpl. unfold GetHeaders. simpl.
      destruct (headers_run_fields hs0 f (plain_nonempty _ Hp0) Hst) as (F1 & F2 & _).
      rewrite (two_values _ name v1 v2 hs F2), F1, <- set_all_app; auto using plain_nonempty.
      by destruct Hname.
  - assert (d1 ++ d2 = header_lines (hs0 ++ (name, v1 ++ v2) :: hs)) as Ed.
    { subst d1 d2. unfold header_lines, header_line. rewrite fmap_app, join_app. simpl.
      repeat (rewrite <- !app_assoc; simpl). done. }
    assert (plain_headers (hs0 ++ (name, v1 ++ v2) :: hs)) as Hall.
    { apply Forall_app. split; [done|]. constructor; [|done]. split; [done|]. simpl.
      destruct Hv1 as [Hw Hbl]. split; [by apply Forall_app|]. by destruct v1. }
    destruct (execute_lines OnUrl OnHeaderName OnHeaderValue OnBody OnComplete h f
                (hs0 ++ (name, v1 ++ v2) :: hs) Hb ltac:(by destruct hs0) Hall)
      as (n & h' & E & Hh').
    { rewrite <- Ed, length_app. lia. }
    rewrite <- Ed in E. eexists (mkHttp h' _). rewrite Parse_accepts. split.
    + exists n. split; [exact E|exact Hh'].
    + exact (proj1 (headers_run_fields _ f (plain_nonempty _ Hall) Hst)).
Qed.

Lemma one_letter_name x : TOKEN x <> 0 -> x <> 32 -> plain_name [x].
Proof.
  intros Hx H32. split; [done|]. split; [by repeat constructor|].
  repeat split; try done. intros [l Hl]. discriminate Hl.
Qed.

(** The parser after the request line "GET / HTTP/1.1". *)
Lemma after_request_line :
  exists p0, HttpParser_Parse (HttpParser_init 0) (text [bs "GET / HTTP/1.1"]) = Some (p0, true) /\
    at_header_line p0 /\ nread (m_httpParser p0) < 100 /\ GetHeaders p0 = [].
Proof.
  eexists. split; [vm_compute; reflexivity|]. unfold at_header_line, between_lines, line_start.
  simpl. split_and!; (done || by left).
Qed.

(** After the request line: "A: 12" in one read and "34" with two more lines in the next. *)
Lemma split_value_shifts_headers_witness :
  exists p0 p1 p2 p, HttpParser_Parse (HttpParser_init 0) (text [bs "GET / HTTP/1.1"]) = Some (p0, true) /\
    HttpParser_Parse p0 (bs "A: 12") = Some (p1, true) /\
    HttpParser_Parse p1 (text [bs "34"; bs "B: 5"; bs "C: 6"]) = Some (p2, true) /\
    GetHeaders p2 = [(bs "A", bs "12"); (bs "B", bs "34"); (bs "C", bs "5")] /\
    HttpParser_Parse p0 (text [bs "A: 1234"; bs "B: 5"; bs "C: 6"]) = Some (p, true) /\
    GetHeaders p = [(bs "A", bs "1234"); (bs "B", bs "5"); (bs "C", bs "6")].
Proof.
  destruct after_request_line as (p0 & E0 & Hp0 & Hn & H0).
  destruct (split_value_shifts_headers p0 [] (bs "A") (bs "12") (bs "34") [(bs "B", bs "5"); (bs "C", bs "6")])
    as [(p1 & p2 & E1 & E2 & H2) (p & E & H)].
  - exact Hp0.
  - constructor.
  - apply one_letter_name; discriminate.
  - repeat constructor; discriminate.
  - discriminate.
  - repeat constructor; discriminate.
  - repeat constructor; try apply one_letter_name; discriminate.
  - revert Hn. unfold HTTP_MAX_HEADER_SIZE. simpl. lia.
  - rewrite H0 in H2, H. exists p0, p1, p2, p. split_and!; assumption.
Defined.
