(* ===== verification/Connections.v ===== *)
(** * net/TcpClient, net/TcpConnector, net/Timer: descriptors with an owner

    Each class is its descriptor [m_fd]; its methods are programs over the interface of
    [CoSocket].  [exit(1)] in a constructor ends the process: such a constructor returns [None].
    [inet_addr] belongs to the C library, so it is an argument. *)

From ITree Require Import ITree.
From S2P Require Import Prelude OrdMap Coroutine Timestamp TimeoutSet Os Epoller CoSocket EventLoop CoStream WebSocket.

Open Scope Z_scope.

(** The constants of the Linux headers. *)
Definition AF_INET : Z := 2.
Definition SOCK_STREAM : Z := 1.
Definition SOCK_NONBLOCK : Z := 0x800.
Definition SOCK_CLOEXEC : Z := 0x80000.

(** [struct sockaddr_in]: family, port and address in network order, padding. *)
Definition sockaddr_in (inet_addr : bytes -> Z) (ip : bytes) (port : Z) : bytes :=
  le_bytes 2 AF_INET ++ le_bytes 2 (htons port) ++ le_bytes 4 (u32 (inet_addr ip)) ++ replicate 8 0.

Section Connections.
Context {F Hp : Type} (inet_addr : bytes -> Z).
#[local] Abbreviation io := (itree (apiE F Hp)).

Definition closed : Z := -1.

(** [Close] of both classes: the new value of [m_fd]. *)
Definition close_fd (fd : Z) : io Z :=
  if fd >=? 0 then let* r := call (Sys (sys_close fd)) in Ret closed else Ret closed.

(** ** TcpClient *)

Record TcpClient := mkTcpClient { tc_fd : Z }.

Definition TcpClient_new : io (option TcpClient) :=
  let* r := call (Sys (sys_socket (Z.lor SOCK_STREAM (Z.lor SOCK_NONBLOCK SOCK_CLOEXEC)))) in
  match r with
  | Succ fd => if fd <? 0 then Ret None else Ret (Some (mkTcpClient fd))
  | Errno _ => Ret None
  end.

Definition TcpClient_Connect (c : TcpClient) (ip : bytes) (port timeoutMs : Z) : io Z :=
  call (Connect (tc_fd c) (sockaddr_in inet_addr ip port) timeoutMs).
Definition TcpClient_Read (c : TcpClient) (size : nat) (timeoutMs : Z) : io (Z * bytes) :=
  call (Read (tc_fd c) size timeoutMs).
Definition TcpClient_ReadFull (c : TcpClient) (size : nat) (timeoutMs : Z) : io (Z * bytes) :=
  ReadFull (tc_fd c) size timeoutMs.
Definition TcpClient_Write (c : TcpClient) (buffer : option bytes) (size : nat) (timeoutMs : Z) : io Z :=
  call (Write (tc_fd c) buffer size timeoutMs).
Definition TcpClient_WriteAll (c : TcpClient) (buffer : option bytes) (size : nat) (timeoutMs : Z) : io Z :=
  WriteAll (tc_fd c) buffer size timeoutMs.
Definition TcpClient_Close (c : TcpClient) : io TcpClient :=
  let* fd := close_fd (tc_fd c) in Ret (mkTcpClient fd).
Definition TcpClient_delete (c : TcpClient) : io TcpClient := TcpClient_Close c.

(** ** TcpConnector *)

Record TcpConnector := mkTcpConnector { cn_fd : Z }.

Definition TcpConnector_new (fd : Z) : TcpConnector := mkTcpConnector fd.
Definition TcpConnector_Read (c : TcpConnector) (size : nat) (timeoutMs : Z) : io (Z * bytes) :=
  call (Read (cn_fd c) size timeoutMs).
Definition TcpConnector_ReadFull (c : TcpConnector) (size : nat) (timeoutMs : Z) : io (Z * bytes) :=
  ReadFull (cn_fd c) size timeoutMs.
Definition TcpConnector_Write (c : TcpConnector) (buffer : option bytes) (size : nat) (timeoutMs : Z) : io Z :=
  call (Write (cn_fd c) buffer size timeoutMs).
Definition TcpConnector_WriteAll (c : TcpConnector) (buffer : option bytes) (size : nat) (timeoutMs : Z) : io Z :=
  WriteAll (cn_fd c) buffer size timeoutMs.
Definition TcpConnector_Close (c : TcpConnector) : io TcpConnector :=
  let* fd := close_fd (cn_fd c) in Ret (mkTcpConnector fd).
Definition TcpConnector_delete (c : TcpConnector) : io TcpConnector := TcpConnector_Close c.
Definition GetFd (c : TcpConnector) : Z := cn_fd c.

(** ** Timer *)

Record Timer := mkTimer { tm_fd : Z }.

Definition Timer_new : io (option Timer) :=
  let* r := call (Sys sys_timerfd_create) in
  match r with
  | Succ fd => if fd <? 0 then Ret None else Ret (Some (mkTimer fd))
  | Errno _ => Ret None
  end.

(** [ms / 1000] and [ms % 1000 * 1000000] of C, which truncate. *)
Definition Timer_Wait (t : Timer) (ms : Z) : io unit :=
  let* r := call (Sys (sys_timerfd_settime (tm_fd t) (Z.quot ms 1000) (Z.rem ms 1000 * 1000000))) in
  match r with
  | Errno _ => Ret tt
  | Succ _ => let* n := call (Read (tm_fd t) 8 (-1)) in Ret tt
  end.

Definition Timer_delete (t : Timer) : io unit :=
  if tm_fd t >=? 0 then let* r := call (Sys (sys_close (tm_fd t))) in Ret tt else Ret tt.
End Connections.
