(* ===== verification/Exchange.v ===== *)
(** * Conversations

    What a program does for given answers of its calls.  [reply] is the other side, with a state of
    its own; [serve] runs a program against it, and [answers_to] says what the program returns and
    how it leaves the other side.  The HTTP client and the HTTP server are programs that only read
    and write one descriptor ([answers]), a relay reads one and writes another. *)

From ITree Require Import ITree.
From S2P Require Import Prelude OrdMap Coroutine Timestamp TimeoutSet Os Epoller CoSocket EventLoop CoStream.

Open Scope Z_scope.

Section Serve.
Context {F Hp S : Type} (reply : forall A, apiE F Hp A -> S -> option (A * S)).
#[local] Abbreviation io := (itree (apiE F Hp)).
Implicit Types (n : S).

(** [None] when the program makes a call that has no answer. *)
Fixpoint serve {R} (fuel : nat) n (p : io R) : option (R * S) :=
  match fuel with
  | O => None
  | Datatypes.S fuel' =>
      match observe p with
      | RetF r => Some (r, n)
      | TauF p' => serve fuel' n p'
      | VisF e k => match reply _ e n with Some (a, n') => serve fuel' n' (k a) | None => None end
      end
  end.

(** The program returns [r] and leaves [n']. *)
Definition answers_to {R} n (p : io R) (r : R) n' : Prop :=
  exists fuel, serve fuel n p = Some (r, n').

Lemma serve_S {R} fuel : forall n (p : io R) x, serve fuel n p = Some x -> serve (Datatypes.S fuel) n p = Some x.
Proof.
  induction fuel as [|fuel IH]; intros n p x Hs; [done|]. simpl in Hs. cbn [serve].
  destruct (observe p) as [r|p'|A e k]; [done|by apply IH|].
  destruct (reply _ e n) as [[a n']|]; [by apply IH|done].
Qed.

Lemma serve_mono {R} f1 f2 n (p : io R) x :
  serve f1 n p = Some x -> (f1 <= f2)%nat -> serve f2 n p = Some x.
Proof. intros Hs. induction 1 as [|f2 _ IH]; [done|by apply serve_S]. Qed.

(** A program has one outcome. *)
Lemma answers_det {R} n (p : io R) r1 n1 r2 n2 :
  answers_to n p r1 n1 -> answers_to n p r2 n2 -> r1 = r2 /\ n1 = n2.
Proof.
  intros [f1 H1] [f2 H2]. apply (serve_mono _ (f1 + f2)) in H1; [|lia].
  apply (serve_mono _ (f1 + f2)) in H2; [|lia]. rewrite H1 in H2. by simplify_eq.
Qed.

Lemma answers_ret {R} n (r : R) : answers_to n (Ret r) r n.
Proof. by exists 1%nat. Qed.

Lemma answers_observe {R} n (p q : io R) r n' : observe p = observe q -> answers_to n q r n' -> answers_to n p r n'.
Proof. intros Ho [[|f] Hs]; [done|]. exists (Datatypes.S f). simpl. by rewrite Ho. Qed.

Lemma answers_tau {R} n (p q : io R) r n' : observe p = TauF q -> answers_to n q r n' -> answers_to n p r n'.
Proof. intros Ho [f Hs]. exists (Datatypes.S f). simpl. by rewrite Ho. Qed.

Lemma answers_vis {R A} n (p : io R) (e : apiE F Hp A) k a n1 r n' :
  observe p = VisF e k -> reply _ e n = Some (a, n1) -> answers_to n1 (k a) r n' -> answers_to n p r n'.
Proof. intros Ho Hr [f Hs]. exists (Datatypes.S f). simpl. by rewrite Ho, Hr. Qed.

Lemma answers_bind {A B} n (p : io A) (k : A -> io B) a n1 r n' :
  answers_to n p a n1 -> answers_to n1 (k a) r n' -> answers_to n (ITree.bind p k) r n'.
Proof.
  intros [f Hs] Hk. revert n p Hs. induction f as [|f IH]; intros n p Hs; [done|]. simpl in Hs.
  pose proof (observe_bind_eq p k) as Hb. destruct (observe p) as [b|p'|T e j].
  - simplify_eq. by apply (answers_observe _ _ (k a)).
  - eapply answers_tau; [exact Hb|by apply IH].
  - destruct (reply _ e n) as [[b n2]|] eqn:E; [|done].
    eapply answers_vis; [exact Hb|exact E|by apply IH].
Qed.

Lemma answers_call {A} n (e : apiE F Hp A) a n1 : reply _ e n = Some (a, n1) -> answers_to n (call e) a n1.
Proof. intros Hr. eapply answers_vis; [reflexivity|exact Hr|]. apply answers_ret. Qed.

(** One round of a loop. *)
Lemma answers_iter_next {I R} (body : I -> io (I + R)) i j n n1 r n' :
  answers_to n (body i) (inl j) n1 -> answers_to n1 (ITree.iter body j) r n' ->
  answers_to n (ITree.iter body i) r n'.
Proof.
  intros Hb Hn. eapply (answers_observe _ _ (ITree.bind (body i) (fun lr => match lr with
    | inl l => Tau (ITree.iter body l) | inr r => Ret r end))); [reflexivity|].
  eapply answers_bind; [exact Hb|]. by eapply answers_tau.
Qed.

Lemma answers_iter_done {I R} (body : I -> io (I + R)) i n r n' :
  answers_to n (body i) (inr r) n' -> answers_to n (ITree.iter body i) r n'.
Proof.
  intros Hb. eapply (answers_observe _ _ (ITree.bind (body i) (fun lr => match lr with
    | inl l => Tau (ITree.iter body l) | inr r => Ret r end))); [reflexivity|].
  eapply answers_bind; [exact Hb|]. apply answers_ret.
Qed.

End Serve.

(** Another side that gives the same answers. *)
Lemma answers_lift {F Hp S S' : Type} (reply : forall A, apiE F Hp A -> S -> option (A * S))
    (reply' : forall A, apiE F Hp A -> S' -> option (A * S')) (emb : S -> S') :
  (forall A (e : apiE F Hp A) n a n', reply A e n = Some (a, n') -> reply' A e (emb n) = Some (a, emb n')) ->
  forall R n (p : itree (apiE F Hp) R) r n',
    answers_to reply n p r n' -> answers_to reply' (emb n) p r (emb n').
Proof.
  intros He R n p r n' [f Hs]. exists f. revert n p Hs.
  induction f as [|f IH]; intros n p Hs; [done|]. simpl in *.
  destruct (observe p) as [x|p'|A e k]; [by simplify_eq|by apply IH|].
  destruct (reply A e n) as [[a n1]|] eqn:E; [|done]. rewrite (He _ _ _ _ _ E). by apply IH.
Qed.

(** ** Reading and writing *)

(** The answers to come, and the bytes accepted so far. *)
Record net := mkNet { net_reads : list (Z * bytes); net_writes : list Z; net_sent : bytes }.

(** The answer of [Read] for a piece of the stream. *)
Definition piece (d : bytes) : Z * bytes := (Z.of_nat (length d), d).

(** The other side of a program that reads [rfd] and writes [wfd]. *)
Definition reply_on {F Hp : Type} (rfd wfd : Z) (A : Type) (e : apiE F Hp A) (n : net) : option (A * net) :=
  match e in apiE _ _ T return option (T * net) with
  | Read fd _ _ =>
      match net_reads n with
      | a :: l => if fd =? rfd then Some (a, mkNet l (net_writes n) (net_sent n)) else None
      | [] => None
      end
  | Write fd (Some d) size _ =>
      match net_writes n with
      | a :: l =>
          if fd =? wfd then
            Some (a, mkNet (net_reads n) l (net_sent n ++ take (Z.to_nat a) (take size d)))
          else None
      | [] => None
      end
  | _ => None
  end.

(** A conversation on one descriptor. *)
Definition answers {F Hp : Type} (fd : Z) {R} (n : net) (p : itree (apiE F Hp) R) (r : R) (n' : net) : Prop :=
  answers_to (reply_on fd fd) n p r n'.

Section Net.
Context {F Hp : Type} (rfd wfd : Z).
#[local] Abbreviation io := (itree (apiE F Hp)).
#[local] Abbreviation relays := (answers_to (reply_on (F := F) (Hp := Hp) rfd wfd)).

Lemma relays_read size t a l ws sent :
  relays (mkNet (a :: l) ws sent) (call (Read rfd size t)) a (mkNet l ws sent).
Proof. apply answers_call. simpl. by rewrite Z.eqb_refl. Qed.

(** Writes that are accepted bit by bit. *)
Fixpoint accepting (size : nat) (l : list Z) : Prop :=
  match l with
  | [] => size = 0%nat
  | a :: l' => 0 < a <= Z.of_nat size /\ accepting (size - Z.to_nat a) l'
  end.

Lemma relays_loop d size t reads l ws : forall n sent,
  (n <= size)%nat -> accepting (size - n) l ->
  relays (mkNet reads (l ++ ws) (sent ++ take n d))
    (ITree.iter (WriteAll_body wfd (Some d) size t) n) (Z.of_nat size)
    (mkNet reads ws (sent ++ take size d)).
Proof.
  induction l as [|a l IH]; intros n sent Hn Ha; simpl in Ha.
  - assert (n = size) as -> by lia. apply answers_iter_done.
    unfold WriteAll_body. rewrite Nat.ltb_irrefl. apply answers_ret.
  - destruct Ha as [Ha Hl].
    eapply (answers_iter_next _ _ n (n + Z.to_nat a)%nat).
    + unfold WriteAll_body. rewrite (proj2 (Nat.ltb_lt _ _)) by lia.
      eapply answers_bind; [apply answers_call; simpl; by rewrite Z.eqb_refl|].
      cbn beta. rewrite (proj2 (Z.ltb_ge a 0)) by lia. apply answers_ret.
    + simpl. rewrite <- app_assoc, take_take, Nat.min_l, take_take_drop by lia.
      apply IH; [lia|]. by replace (size - (n + Z.to_nat a))%nat
        with (size - n - Z.to_nat a)%nat by lia.
Qed.

(** The first [size] bytes of a buffer are sent, in whatever portions they are accepted. *)
Lemma relays_WriteAll_take d size t reads l ws sent :
  accepting size l ->
  relays (mkNet reads (l ++ ws) sent) (WriteAll wfd (Some d) size t) (Z.of_nat size)
    (mkNet reads ws (sent ++ take size d)).
Proof.
  intros Ha. pose proof (relays_loop d size t reads l ws 0 sent) as H.
  rewrite take_0, app_nil_r, Nat.sub_0_r in H. apply H; [lia|done].
Qed.

(** A whole buffer. *)
Lemma relays_WriteAll d t reads l ws sent :
  accepting (length d) l ->
  relays (mkNet reads (l ++ ws) sent) (WriteAll wfd (Some d) (length d) t) (Z.of_nat (length d))
    (mkNet reads ws (sent ++ d)).
Proof.
  intros Ha. pose proof (relays_WriteAll_take d _ t reads l ws sent Ha) as H. by rewrite take_ge in H.
Qed.

(** Writes of which the last fails with [e], before [size] bytes are accepted. *)
Fixpoint refusing (size : nat) (l : list Z) (e : Z) : Prop :=
  match l with
  | [] => False
  | a :: l' =>
      (0 < size)%nat /\
      ((a = e /\ e < 0 /\ l' = []) \/ (0 < a <= Z.of_nat size /\ refusing (size - Z.to_nat a) l' e))
  end.

Lemma relays_loop_refused d t reads e l ws : forall n sent,
  (n <= length d)%nat -> refusing (length d - n) l e ->
  exists m, (m < length d)%nat /\
    relays (mkNet reads (l ++ ws) (sent ++ take n d))
      (ITree.iter (WriteAll_body wfd (Some d) (length d) t) n) e
      (mkNet reads ws (sent ++ take m d)).
Proof.
  induction l as [|a l IH]; intros n sent Hn Ha; simpl in Ha; [done|].
  destruct Ha as [H0 [(-> & He & ->)|[Ha Hl]]].
  - exists n. split; [lia|]. apply answers_iter_done.
    unfold WriteAll_body. rewrite (proj2 (Nat.ltb_lt _ _)) by lia.
    eapply answers_bind; [apply answers_call; simpl; by rewrite Z.eqb_refl|].
    cbn beta. rewrite (proj2 (Z.ltb_lt e 0)) by lia.
    rewrite Z2Nat.nonpos, take_0, app_nil_r by lia. apply answers_ret.
  - replace (length d - n - Z.to_nat a)%nat with (length d - (n + Z.to_nat a))%nat in Hl by lia.
    destruct (IH (n + Z.to_nat a)%nat sent ltac:(lia) Hl) as (m & Hm & Hr). exists m. split; [done|].
    eapply (answers_iter_next _ _ n (n + Z.to_nat a)%nat).
    + unfold WriteAll_body. rewrite (proj2 (Nat.ltb_lt _ _)) by lia.
      eapply answers_bind; [apply answers_call; simpl; by rewrite Z.eqb_refl|].
      cbn beta. rewrite (proj2 (Z.ltb_ge a 0)) by lia. apply answers_ret.
    + simpl. by rewrite <- app_assoc, take_take, Nat.min_l, take_take_drop by lia.
Qed.

Lemma relays_refused d t reads e l ws sent :
  refusing (length d) l e ->
  exists m, (m < length d)%nat /\
    relays (mkNet reads (l ++ ws) sent) (WriteAll wfd (Some d) (length d) t) e
      (mkNet reads ws (sent ++ take m d)).
Proof.
  intros Ha. pose proof (relays_loop_refused d t reads e l ws 0 sent) as H.
  rewrite take_0, app_nil_r, Nat.sub_0_r in H. apply H; [lia|done].
Qed.
End Net.

Section Descriptor.
Context {F Hp : Type} (fd : Z).
#[local] Abbreviation answers := (answers (F := F) (Hp := Hp) fd).

Lemma answers_read size t a l ws sent :
  answers (mkNet (a :: l) ws sent) (call (Read fd size t)) a (mkNet l ws sent).
Proof. apply relays_read. Qed.

Lemma WriteAll_sends d t reads l ws sent :
  accepting (length d) l ->
  answers (mkNet reads (l ++ ws) sent) (WriteAll fd (Some d) (length d) t) (Z.of_nat (length d))
    (mkNet reads ws (sent ++ d)).
Proof. apply relays_WriteAll. Qed.

Lemma WriteAll_refused d t reads e l ws sent :
  refusing (length d) l e ->
  exists m, (m < length d)%nat /\
    answers (mkNet reads (l ++ ws) sent) (WriteAll fd (Some d) (length d) t) e
      (mkNet reads ws (sent ++ take m d)).
Proof. apply relays_refused. Qed.
End Descriptor.
