(* ===== verification/HttpClient.v ===== *)
(** * net/http/HttpClient.h: a request and its response

    [Request] is a program over the interface of [CoSocket]: it writes the encoded request, then
    reads and parses until the response is complete.  [None] is a failed assertion of the message
    parser. *)

From ITree Require Import ITree.
From S2P Require Import Prelude OrdMap Os CoSocket CoStream Exchange Connections.
From S2P Require Import HttpExecute HttpSafe HttpMessage HttpProps HttpHeaders HttpRoundTrip HttpSessions.

Open Scope Z_scope.

Definition EPIPE : Z := 32.
Definition EINVAL : Z := 22.

Record HttpClient := mkHttpClient {
  m_httpDecoder : HttpDecoder;
  m_httpEncoder : HttpEncoder;
  m_tcpClient : TcpClient
}.

Definition client_kKeepAliveMs : Z := 3000.
Definition client_kBufferSize : nat := Z.to_nat 102400.

(** [status] and [port] are what the memory holds. *)
Definition HttpClient_init (tcpClient : TcpClient) (status port : Z) : HttpClient :=
  mkHttpClient (HttpDecoder_init status port) (HttpEncoder_init false) tcpClient.

(** The methods that forward to the decoder and the encoder. *)
Definition client_GetStatus (c : HttpClient) : Z := GetStatus (dec_httpParser (m_httpDecoder c)).
Definition client_GetBody (c : HttpClient) : bytes := GetBody (dec_httpParser (m_httpDecoder c)).
Definition client_GetHeaders (c : HttpClient) : string_map := GetHeaders (dec_httpParser (m_httpDecoder c)).
Definition client_GetHeader (c : HttpClient) (name : bytes) : bytes :=
  GetHeader (dec_httpParser (m_httpDecoder c)) name.
Definition set_encoder (c : HttpClient) (e : HttpEncoder) : HttpClient :=
  mkHttpClient (m_httpDecoder c) e (m_tcpClient c).
Definition client_AddHeader (c : HttpClient) (key value : bytes) : HttpClient :=
  set_encoder c (AddHeader (m_httpEncoder c) key value).
Definition client_SetBody (c : HttpClient) (body : bytes) : HttpClient :=
  set_encoder c (SetBody (m_httpEncoder c) body).
Definition client_SetMethod (c : HttpClient) (method : bytes) : HttpClient :=
  set_encoder c (SetMethod (m_httpEncoder c) method).
Definition client_SetUrl (c : HttpClient) (url : bytes) : HttpClient :=
  set_encoder c (SetUrl (m_httpEncoder c) url).
Definition client_AddParameter (c : HttpClient) (key value : bytes) : HttpClient :=
  set_encoder c (AddParameter (m_httpEncoder c) key value).

Section Request.
Context {F Hp : Type}.
#[local] Abbreviation io := (itree (apiE F Hp)).

Definition set_decoder (c : HttpClient) (d : HttpDecoder) : HttpClient :=
  mkHttpClient d (m_httpEncoder c) (m_tcpClient c).

(** What the loop of [Request] does with the answer of a read, the number of bytes it stored and
    these bytes: go on, or return. *)
Definition Request_turn (c : HttpClient) (r : Z * bytes) : HttpClient + option (Z * HttpClient) :=
  if fst r <? 0 then inr (Some (fst r, c))
  else if fst r =? 0 then inr (Some (- EPIPE, c))
  else
    match HttpDecoder_Parse (m_httpDecoder c) (snd r) with
    | None => inr None
    | Some (d, false) => inr (Some (- EINVAL, set_decoder c d))
    | Some (d, true) =>
        if HttpParser_IsComplete (dec_httpParser d) then inr (Some (0, set_decoder c d))
        else inl (set_decoder c d)
    end.

Definition Request_body (c : HttpClient) : io (HttpClient + option (Z * HttpClient)) :=
  let* r := TcpClient_Read (m_tcpClient c) client_kBufferSize client_kKeepAliveMs in
  Ret (Request_turn c r).

Definition Request (c : HttpClient) : io (option (Z * HttpClient)) :=
  let requestStr := GetRequestString (m_httpEncoder c) in
  let* ret := TcpClient_WriteAll (m_tcpClient c) (Some requestStr) (length requestStr) client_kKeepAliveMs in
  if ret <? 0 then Ret (Some (ret, c))
  else ITree.iter Request_body (set_decoder c (HttpDecoder_Reset (m_httpDecoder c))).

(** ** What [Request] promises *)

(** The result for the answers of [Read] after the request was sent: the error of a read, [-EPIPE]
    when the peer closed first, [-EINVAL] for a text that is no HTTP, and 0 when a response is
    complete; [None] when more answers are needed. *)
Fixpoint response_of (d : HttpDecoder) (l : list (Z * bytes)) : option (Z * HttpDecoder * list (Z * bytes)) :=
  match l with
  | [] => None
  | (ret, data) :: l' =>
      if ret <? 0 then Some (ret, d, l')
      else if ret =? 0 then Some (- EPIPE, d, l')
      else
        match HttpDecoder_Parse d data with
        | None => None
        | Some (d', false) => Some (- EINVAL, d', l')
        | Some (d', true) =>
            if HttpParser_IsComplete (dec_httpParser d') then Some (0, d', l')
            else response_of d' l'
        end
  end.

Lemma Request_loop l ws sent : forall c ret d l',
  response_of (m_httpDecoder c) l = Some (ret, d, l') ->
  answers (F := F) (Hp := Hp) (tc_fd (m_tcpClient c)) (mkNet l ws sent) (ITree.iter Request_body c)
    (Some (ret, set_decoder c d)) (mkNet l' ws sent).
Proof.
  induction l as [|[r data] l IH]; intros c ret d l' Hr; [done|]. simpl in Hr.
  assert (answers (F := F) (Hp := Hp) (tc_fd (m_tcpClient c)) (mkNet ((r, data) :: l) ws sent)
            (Request_body c) (Request_turn c (r, data)) (mkNet l ws sent)) as Hbody.
  { eapply answers_bind; [apply answers_read|apply answers_ret]. }
  unfold Request_turn in Hbody. cbn [fst snd] in Hbody.
  destruct (r <? 0); [simplify_eq; apply answers_iter_done; by destruct c|].
  destruct (r =? 0); [simplify_eq; apply answers_iter_done; by destruct c|].
  destruct (HttpDecoder_Parse (m_httpDecoder c) data) as [[d1 []]|];
    [|simplify_eq; by apply answers_iter_done|done].
  destruct (HttpParser_IsComplete _); [simplify_eq; by apply answers_iter_done|].
  eapply answers_iter_next; [exact Hbody|]. exact (IH (set_decoder c d1) ret d l' Hr).
Qed.

(** With an end in sight, there is a result: no assertion fails, whatever the bytes. *)
Lemma response_of_total l : forall d, http_wf (dec_httpParser d) ->
  (exists r data, (r, data) ∈ l /\ r <= 0) -> is_Some (response_of d l).
Proof.
  induction l as [|[r data] l IH]; intros d Hd (r0 & data0 & Hin & H0); [by apply elem_of_nil in Hin|].
  simpl. destruct (r <? 0) eqn:E1; [by eexists|]. destruct (r =? 0) eqn:E2; [by eexists|]. breflect.
  destruct (Parse_ok (dec_httpParser d) data Hd) as (p & b & Ep & Hwf & _).
  unfold HttpDecoder_Parse. rewrite Ep. simpl. destruct b; [|by eexists].
  destruct (HttpParser_IsComplete p); [by eexists|]. apply IH; [done|].
  exists r0, data0. split; [|done]. apply elem_of_cons in Hin as [[= -> ->]|Hin]; [lia|done].
Qed.

(** C17.  [Request] refines its specification [response_of].  When the writes are accepted, in
    whatever portions, exactly the encoded request is sent, and the result is that of
    [response_of] on a reset decoder: the error of a read, [-EPIPE] for an early end, [-EINVAL] for
    a malformed response, 0 for a complete one.  A failing write is reported and nothing is read.
    Once a read fails or ends there is such a result: no response makes an assertion fail. *)
Theorem Request_refines c l ws wl sent :
  let fd := tc_fd (m_tcpClient c) in
  let req := GetRequestString (m_httpEncoder c) in
  let d0 := HttpDecoder_Reset (m_httpDecoder c) in
  (accepting (length req) wl -> forall ret d l', response_of d0 l = Some (ret, d, l') ->
     answers (F := F) (Hp := Hp) fd (mkNet l (wl ++ ws) sent) (Request c) (Some (ret, set_decoder c d))
       (mkNet l' ws (sent ++ req))) /\
  (forall e, refusing (length req) wl e -> exists m, (m < length req)%nat /\
     answers (F := F) (Hp := Hp) fd (mkNet l (wl ++ ws) sent) (Request c) (Some (e, c))
       (mkNet l ws (sent ++ take m req))) /\
  ((exists r data, (r, data) ∈ l /\ r <= 0) -> is_Some (response_of d0 l)).
Proof.
  intros fd req d0. split_and!.
  - intros Hw ret d l' Hr. unfold Request. fold req.
    eapply answers_bind; [by apply WriteAll_sends|]. cbn beta.
    rewrite (proj2 (Z.ltb_ge _ 0)) by lia.
    exact (Request_loop l ws (sent ++ req) (set_decoder c d0) ret d l' Hr).
  - intros e He. destruct (WriteAll_refused (F := F) (Hp := Hp) fd req client_kKeepAliveMs l e wl ws sent He)
      as (m & Hm & Ha). exists m. split; [done|]. unfold Request. fold req.
    eapply answers_bind; [exact Ha|]. cbn beta.
    assert (e < 0) as Hneg.
    { clear - He. revert He. generalize (length req). induction wl as [|a l IH]; intros n; [done|].
      intros [_ [(-> & ? & _)|[_ Hr]]]; [done|by eapply IH]. }
    rewrite (proj2 (Z.ltb_lt e 0)) by done. apply answers_ret.
  - apply response_of_total. split; [apply parser_init_wf|apply (fresh_wf 0)].
Qed.
End Request.
