(* ===== verification/HttpDispatch.v ===== *)
(** * net/http/HttpDispatch.cpp: serving one connection

    A dispatcher belongs to one connection (the example server makes one per request handler).  Its
    handlers are functions of the clients: programs over the interface of [CoSocket] that may
    block.  SHA-1 is OpenSSL's, so it is an argument; [ndebug] is the build's, for [base64_encode].
    A statement that does not return normally ends the program: [BadFunctionCall] is the exception
    of an empty [std::function], [Asserted] a failed assertion. *)

From ITree Require Import ITree.
From S2P Require Import Prelude OrdMap Os CoSocket CoStream Exchange Connections Base64 WebSocket.
From S2P Require Import HttpExecute HttpSafe HttpMessage HttpProps HttpHeaders HttpRoundTrip HttpSessions.

Open Scope Z_scope.

(** ** The responses *)

Definition RSP_OK : bytes :=
  bs "{" ++ [34] ++ bs "code" ++ [34] ++ bs ": 0, " ++ [34] ++ bs "message" ++ [34] ++ bs ": " ++ [34; 34] ++ bs "}" ++ [10].
Definition RSP_MESSAGE (m : bytes) : bytes :=
  bs "{" ++ [34] ++ bs "code" ++ [34] ++ bs ": 1, " ++ [34] ++ bs "message" ++ [34] ++ bs ": " ++ [34] ++ m ++ [34] ++ bs "}" ++ [10].
Definition RSP_ERROR : bytes := RSP_MESSAGE (bs "Bad Method").
Definition RSP_NOTFOUND : bytes := RSP_MESSAGE (bs "Not Found").

Definition ResponseHttpOk (r : HttpEncoder) : HttpEncoder :=
  SetBody (SetStatusCode r StatusCode_200Ok) RSP_OK.
Definition ResponseHttpError (r : HttpEncoder) : HttpEncoder :=
  SetCloseConnection (SetBody (SetStatusCode r StatusCode_400BadRequest) RSP_ERROR) true.
Definition ResponseHttpNotFound (r : HttpEncoder) : HttpEncoder :=
  SetCloseConnection (SetBody (SetStatusCode r StatusCode_404NotFound) RSP_NOTFOUND) true.

Definition GUID : bytes := bs "258EAFA5-E914-47DA-95CA-C5AB0DC85B11".

Inductive crash := BadFunctionCall | Asserted.

(** [std::string(reinterpret_cast<const char * >(webSockAccept))] reaches to the first NUL; the
    array has one more element, a NUL. *)
Definition ResponseWebSocketHandshake (SHA1 : bytes -> bytes) (ndebug : bool) (r : HttpEncoder) (key : bytes)
    : crash + HttpEncoder :=
  let webSockAccept := SHA1 (key ++ GUID) ++ [0] in
  match base64_encode ndebug (c_str webSockAccept) with
  | B64Ok acceptBase64 =>
      let r := SetStatusMessage (SetStatusCode r StatusCode_101WebSocket) (bs "Switching Protocols") in
      let r := AddHeader r (bs "Upgrade") (bs "websocket") in
      let r := AddHeader r (bs "Connection") (bs "Upgrade") in
      inr (AddHeader r (bs "Sec-WebSocket-Accept") acceptBase64)
  | _ => inl Asserted
  end.

(** ** WebSocketDecoder *)

Record WebSocketDecoder := mkWsDecoder { m_wsParser : ws_parser }.
Definition WebSocketDecoder_init : WebSocketDecoder := mkWsDecoder WebSocketParser_init.
Definition wsd_Parse (d : WebSocketDecoder) (data : bytes) : WebSocketDecoder * bool :=
  let '(p, ok) := WebSocket.Parse (m_wsParser d) data in (mkWsDecoder p, ok).
Definition wsd_IsComplete (d : WebSocketDecoder) : bool := ws_IsComplete (m_wsParser d).
Definition wsd_GetPayLoad (d : WebSocketDecoder) : bytes := GetPayLoad (m_wsParser d).
Definition wsd_GetPayloadLen (d : WebSocketDecoder) : Z := GetPayloadLen (m_wsParser d).
Definition wsd_Reset (d : WebSocketDecoder) : WebSocketDecoder := mkWsDecoder (ws_Reset (m_wsParser d)).

Section Dispatch.
Context {F Hp : Type} (SHA1 : bytes -> bytes) (ndebug : bool).
#[local] Abbreviation io := (itree (apiE F Hp)).

Definition HttpHandler : Type := HttpDecoder -> HttpEncoder -> io HttpEncoder.
Definition WebSocketHandler : Type := WebSocketDecoder -> ws_encoder -> io ws_encoder.

(** An empty [std::function] is [None]. *)
Record Handler := mkHandler { httpHandler : option HttpHandler; webSocketHandler : option WebSocketHandler }.
Definition no_handler : Handler := mkHandler None None.

Record HttpDispatch := mkDispatch {
  m_isWebSocketReq : bool;
  m_enableWebSocket : bool;
  m_handlers : list (bytes * Handler);
  m_wsHandler : option WebSocketHandler;
  m_connectorPtr : TcpConnector
}.

Definition kBufferSize : nat := Z.to_nat 102400.
Definition kKeepAliveMs : Z := 60000.

(** The connection is that of the call operator. *)
Definition HttpDispatch_init (enableWebSocket : bool) (c : TcpConnector) : HttpDispatch :=
  mkDispatch false enableWebSocket [] None c.

Definition set_handlers (d : HttpDispatch) hs : HttpDispatch :=
  mkDispatch (m_isWebSocketReq d) (m_enableWebSocket d) hs (m_wsHandler d) (m_connectorPtr d).
Definition set_isWebSocketReq (d : HttpDispatch) b : HttpDispatch :=
  mkDispatch b (m_enableWebSocket d) (m_handlers d) (m_wsHandler d) (m_connectorPtr d).
Definition set_wsHandler (d : HttpDispatch) h : HttpDispatch :=
  mkDispatch (m_isWebSocketReq d) (m_enableWebSocket d) (m_handlers d) h (m_connectorPtr d).

Definition AddHttpHandler (d : HttpDispatch) (url : bytes) (h : HttpHandler) : HttpDispatch :=
  let old := default no_handler (smap_find url (m_handlers d)) in
  set_handlers d (smap_set url (mkHandler (Some h) (webSocketHandler old)) (m_handlers d)).
Definition AddWebSocketHandler (d : HttpDispatch) (url : bytes) (h : WebSocketHandler) : HttpDispatch :=
  let old := default no_handler (smap_find url (m_handlers d)) in
  set_handlers d (smap_set url (mkHandler (httpHandler old) (Some h)) (m_handlers d)).

(** [Response]: whether all was written. *)
Definition Response (d : HttpDispatch) (data : bytes) : io bool :=
  let* ret := TcpConnector_WriteAll (m_connectorPtr d) (Some data) (length data) kKeepAliveMs in
  Ret (u64 ret =? Z.of_nat (length data)).

(** Statements that may crash. *)
Definition try {A B} (m : crash + A) (k : A -> io (crash + B)) : io (crash + B) :=
  match m with inl e => Ret (inl e) | inr a => k a end.

(** [Dispatch], as the new state and the response. *)
Definition Dispatch (d : HttpDispatch) (httpRequest : HttpDecoder) (httpResponse : HttpEncoder)
    : io (crash + (HttpDispatch * HttpEncoder)) :=
  let webSocketKey :=
    if m_enableWebSocket d then GetHeader (dec_httpParser httpRequest) (bs "Sec-WebSocket-Key") else [] in
  let d :=
    if m_enableWebSocket d then set_isWebSocketReq d (negb (bool_decide (webSocketKey = []))) else d in
  match smap_find (c_str (GetUrl (dec_httpParser httpRequest))) (m_handlers d) with
  | None => Ret (inr (d, ResponseHttpNotFound httpResponse))
  | Some h =>
      if m_isWebSocketReq d then
        match webSocketHandler h with
        | None => Ret (inr (d, ResponseHttpNotFound httpResponse))
        | Some f =>
            try (ResponseWebSocketHandshake SHA1 ndebug httpResponse webSocketKey) (fun r =>
              Ret (inr (set_wsHandler d (Some f), r)))
        end
      else
        match httpHandler h with
        | None => Ret (inr (d, ResponseHttpNotFound httpResponse))
        | Some f => let* r := f httpRequest httpResponse in Ret (inr (d, r))
        end
  end.

(** [ParseHttpToDispatch]: whether to go on, the dispatcher and the decoder. *)
Definition ParseHttpToDispatch (d : HttpDispatch) (data : bytes) (httpRequest : HttpDecoder)
    : io (crash + (bool * HttpDispatch * HttpDecoder)) :=
  match HttpDecoder_Parse httpRequest data with
  | None => Ret (inl Asserted)
  | Some (httpRequest, false) => Ret (inr (false, d, httpRequest))
  | Some (httpRequest, true) =>
      if HttpParser_IsComplete (dec_httpParser httpRequest) then
        let* r := Dispatch d httpRequest (HttpEncoder_init false) in
        try r (fun '(d, httpResponse) =>
          let* ok := Response d (GetReponseString httpResponse) in
          if (ok : bool) then Ret (inr (true, d, HttpDecoder_Reset httpRequest))
          else Ret (inr (false, d, httpRequest)))
      else Ret (inr (true, d, httpRequest))
  end.

(** [ResponseWebSocketData]; a server encoder does not call [random()]. *)
Definition ResponseWebSocketData_body (d : HttpDispatch) (e : ws_encoder) : io (ws_encoder + bool) :=
  if we_IsComplete e then Ret (inr true)
  else
    let '(e, frame) := GetFrame e 0 in
    let* ok := Response d frame in
    if (ok : bool) then Ret (inl e) else Ret (inr false).
Definition ResponseWebSocketData (d : HttpDispatch) (e : ws_encoder) : io bool :=
  ITree.iter (ResponseWebSocketData_body d) e.

Definition ProcessWebSocketData (d : HttpDispatch) (data : bytes) (wsDecoder : WebSocketDecoder)
    : io (crash + (bool * WebSocketDecoder)) :=
  let '(wsDecoder, ok) := wsd_Parse wsDecoder data in
  if negb ok then Ret (inr (false, wsDecoder))
  else if wsd_IsComplete wsDecoder then
    match m_wsHandler d with
    | None => Ret (inl BadFunctionCall)
    | Some f =>
        let* e := f wsDecoder (WebSocketEncoder_init false) in
        let* ok := ResponseWebSocketData d e in
        Ret (inr (ok, if (ok : bool) then wsd_Reset wsDecoder else wsDecoder))
    end
  else Ret (inr (true, wsDecoder)).

(** The call operator: the loop over the reads.  It returns, or crashes. *)
Definition session : Type := HttpDispatch * HttpDecoder * WebSocketDecoder.

Definition serve_body (x : session) : io (session + (crash + unit)) :=
  let '(d, httpRequest, wsDecoder) := x in
  let* r := TcpConnector_Read (m_connectorPtr d) kBufferSize kKeepAliveMs in
  if fst r <=? 0 then Ret (inr (inr tt))
  else if negb (m_isWebSocketReq d) then
    let* res := ParseHttpToDispatch d (snd r) httpRequest in
    Ret (match res with
         | inl e => inr (inl e)
         | inr (false, _, _) => inr (inr tt)
         | inr (true, d, httpRequest) => inl (d, httpRequest, wsDecoder)
         end)
  else
    let* res := ProcessWebSocketData d (snd r) wsDecoder in
    Ret (match res with
         | inl e => inr (inl e)
         | inr (false, _) => inr (inr tt)
         | inr (true, wsDecoder) => inl (d, httpRequest, wsDecoder)
         end).

Definition HttpDispatch_call (d : HttpDispatch) (status port : Z) : io (crash + unit) :=
  ITree.iter serve_body (d, HttpDecoder_init status port, WebSocketDecoder_init).
End Dispatch.
Arguments HttpDispatch : clear implicits.
Arguments Handler : clear implicits.
