(* ===== verification/HttpServerProps.v ===== *)
(** * What the HTTP server does with a connection

    The handshake of WebSocket against RFC 6455; a request of [HttpClient] answered by
    [HttpDispatch], and the response understood by the client; a request that makes the server
    crash. *)

From ITree Require Import ITree.
From S2P Require Import Prelude OrdMap UrlCodec Os CoSocket CoStream Exchange Connections Base64 WebSocket.
From S2P Require Import HttpTables HttpExecute HttpSafe HttpMessage HttpProps HttpHeaders HttpRoundTrip HttpSessions HttpClient HttpDispatch.

Open Scope Z_scope.

(** ** The handshake *)

Lemma c_str_app_nul s : Forall (fun c => c <> 0) s -> c_str (s ++ [0]) = s.
Proof.
  induction 1 as [|c s Hc Hs IH]; [done|]. simpl. rewrite (proj2 (Z.eqb_neq c 0)) by done. by rewrite IH.
Qed.

Lemma c_str_shorter s t : 0 ∈ s -> (length (c_str (s ++ t)) < length s)%nat.
Proof.
  induction s as [|c s IH]; intros H0; [by apply elem_of_nil in H0|]. simpl.
  destruct (Z.eqb_spec c 0) as [->|Hc]; simpl; [lia|].
  apply elem_of_cons in H0 as [?|H0]; [done|]. specialize (IH H0). lia.
Qed.

Lemma c_str_incl (P : Z -> Prop) s : Forall P s -> Forall P (c_str s).
Proof.
  induction 1 as [|c s Hc Hs IH]; simpl; [constructor|]. destruct (c =? 0); by constructor.
Qed.

Lemma rfc4648_inj s t : Forall is_byte s -> Forall is_byte t -> rfc4648 s = rfc4648 t -> s = t.
Proof.
  intros Hs Ht He. pose proof (decode_rfc4648 s 0 [] Hs) as H1. pose proof (decode_rfc4648 t 0 [] Ht) as H2.
  rewrite He, H2 in H1. by injection H1.
Qed.

(** RFC 6455, section 1.3: the GUID, and the value of [Sec-WebSocket-Accept] for a key. *)
Definition rfc6455_guid : bytes := bs "258EAFA5-E914-47DA-95CA-C5AB0DC85B11".
Definition rfc6455_accept (SHA1 : bytes -> bytes) (key : bytes) : bytes := rfc4648 (SHA1 (key ++ rfc6455_guid)).

(** C19.  The header [Sec-WebSocket-Accept] of the handshake is what RFC 6455 asks for, the base64
    form of the SHA-1 digest of the key and the GUID of the RFC, exactly when the digest has no zero
    byte (about one key in thirteen has one): the digest is handed on as a C string.  When the
    digest begins with a zero byte and assertions are enabled, the server aborts. *)
Theorem handshake_accept SHA1 ndebug r key :
  let digest := SHA1 (key ++ rfc6455_guid) in
  Forall is_byte digest -> length digest = 20%nat ->
  (0 ∉ digest -> exists r', ResponseWebSocketHandshake SHA1 ndebug r key = inr r' /\
     he_statusCode r' = StatusCode_101WebSocket /\
     smap_find (bs "Sec-WebSocket-Accept") (he_headers r') = Some (rfc6455_accept SHA1 key)) /\
  (0 ∈ digest -> forall r', ResponseWebSocketHandshake SHA1 ndebug r key = inr r' ->
     smap_find (bs "Sec-WebSocket-Accept") (he_headers r') <> Some (rfc6455_accept SHA1 key)) /\
  (head digest = Some 0 -> ndebug = false ->
     ResponseWebSocketHandshake SHA1 ndebug r key = inl Asserted).
Proof.
  intros digest Hb Hlen. unfold rfc6455_accept, ResponseWebSocketHandshake.
  change GUID with rfc6455_guid. fold digest.
  assert (forall ndebug s, Forall is_byte s -> (length s <= 20)%nat -> ndebug = true \/ s <> [] ->
            base64_encode ndebug s = B64Ok (rfc4648 s)) as Henc.
  { intros nd s Hs Hl Hne. apply encode_spec; [done| |done].
    transitivity 20; [lia|by vm_compute]. }
  assert (forall r a, smap_find (bs "Sec-WebSocket-Accept")
            (he_headers (AddHeader r (bs "Sec-WebSocket-Accept") a)) = Some a) as Hfind.
  { intros. apply smap_find_set_eq. }
  split_and!.
  - intros H0. rewrite c_str_app_nul.
    2: { apply Forall_forall. intros x Hx ->. by apply H0. }
    rewrite Henc by (done || lia || (right; by destruct digest)). eexists. by rewrite Hfind.
  - intros H0 r'. pose proof (c_str_shorter digest [0] H0) as Hs.
    assert (Forall is_byte (c_str (digest ++ [0]))) as Hb'.
    { apply c_str_incl, Forall_app. split; [done|]. repeat constructor; done. }
    set (s := c_str (digest ++ [0])) in *.
    destruct (base64_encode ndebug s) as [t| |] eqn:E; [|done|done]. intros [= <-]. rewrite Hfind.
    assert (t = rfc4648 s) as ->.
    { assert (ndebug = true \/ s <> []) as Hne.
      { destruct ndebug; [by left|right]. intros Hs0. rewrite Hs0 in E. by vm_compute in E. }
      rewrite Henc in E by (done || lia). by injection E. }
    intros [= He%rfc4648_inj]; [|done|done]. rewrite He in Hs. lia.
  - intros Hh ->. destruct digest as [|x d]; [done|]. injection Hh as ->. reflexivity.
Qed.

Lemma handshake_accept_witness :
  (let SHA1 := fun _ => replicate 20 65 in
   exists r', ResponseWebSocketHandshake SHA1 true (HttpEncoder_init false) (bs "key") = inr r' /\
     smap_find (bs "Sec-WebSocket-Accept") (he_headers r') = Some (rfc4648 (replicate 20 65))) /\
  (let SHA1 := fun _ => 0 :: replicate 19 65 in
   ResponseWebSocketHandshake SHA1 false (HttpEncoder_init false) (bs "key") = inl Asserted).
Proof.
  split.
  - destruct (handshake_accept (fun _ => replicate 20 65) true (HttpEncoder_init false) (bs "key")) as [H _];
      [by_compute|reflexivity|].
    destruct (H ltac:(by_compute)) as (r' & E & _ & Hf). exists r'. split; [exact E|exact Hf].
  - destruct (handshake_accept (fun _ => 0 :: replicate 19 65) false (HttpEncoder_init false) (bs "key")) as (_ & _ & H);
      [by_compute|reflexivity|]. exact (H eq_refl eq_refl).
Defined.

(** ** A turn of the server *)

(** A key that no entry has is not found. *)
Lemma set_all_find_None kvs k : k ∉ kvs.*1 -> smap_find k (set_all [] kvs) = None.
Proof.
  assert (forall m, smap_wf m -> smap_find k m = None -> k ∉ kvs.*1 -> smap_find k (set_all m kvs) = None)
    as H; [|intros Hk; apply H; [constructor|done|done]].
  induction kvs as [|[k' v'] kvs IH]; intros m Hm Hf Hk; [done|]. simpl in Hk.
  apply not_elem_of_cons in Hk as [Hk1 Hk2]. simpl. apply IH; [by apply smap_set_wf| |done].
  by rewrite smap_find_set_ne.
Qed.

Section Server.
Context {F Hp : Type} (SHA1 : bytes -> bytes) (ndebug : bool).
#[local] Abbreviation answers := (answers (F := F) (Hp := Hp)).
Implicit Types (d : HttpDispatch F Hp) (q : HttpDecoder).

Lemma answers_Response d data reads wl ws sent :
  accepting (length data) wl -> Z.of_nat (length data) < 2 ^ 64 ->
  answers (cn_fd (m_connectorPtr d)) (mkNet reads (wl ++ ws) sent) (Response d data) true
    (mkNet reads ws (sent ++ data)).
Proof.
  intros Ha Hl. unfold Response. eapply answers_bind; [by apply WriteAll_sends|]. cbn beta.
  rewrite u64_small, Z.eqb_refl by lia. apply answers_ret.
Qed.

(** A read that completes a request: dispatch, response, and the connection stays open. *)
Lemma serve_http_turn d q w data q' d' resp l wl ws sent :
  m_isWebSocketReq d = false -> data <> [] -> HttpDecoder_Parse q data = Some (q', true) ->
  HttpParser_IsComplete (dec_httpParser q') = true ->
  (forall n, answers (cn_fd (m_connectorPtr d)) n
     (Dispatch SHA1 ndebug d q' (HttpEncoder_init false)) (inr (d', resp)) n) ->
  m_connectorPtr d' = m_connectorPtr d ->
  accepting (length (GetReponseString resp)) wl -> Z.of_nat (length (GetReponseString resp)) < 2 ^ 64 ->
  answers (cn_fd (m_connectorPtr d)) (mkNet ((Z.of_nat (length data), data) :: l) (wl ++ ws) sent)
    (serve_body SHA1 ndebug (d, q, w)) (inl (d', HttpDecoder_Reset q', w))
    (mkNet l ws (sent ++ GetReponseString resp)).
Proof.
  intros Hws Hne Hp' Hc Hd Hcn Ha Hl. unfold serve_body.
  eapply answers_bind; [apply answers_read|]. cbn [fst snd]. cbn beta.
  rewrite (proj2 (Z.leb_gt _ 0)) by (destruct data; [done|simpl; lia]). rewrite Hws. simpl negb. cbv iota.
  eapply answers_bind with (a := inr (true, d', HttpDecoder_Reset q')); [|apply answers_ret].
  unfold ParseHttpToDispatch. rewrite Hp', Hc.
  eapply answers_bind; [apply Hd|]. cbn beta. unfold try.
  eapply answers_bind with (a := true); [|apply answers_ret]. rewrite <- Hcn. by apply answers_Response.
Qed.

(** [Dispatch] to a handler that does not block. *)
Lemma Dispatch_handler d q h (f : HttpDecoder -> HttpEncoder -> HttpEncoder) r n :
  m_isWebSocketReq d = false ->
  m_enableWebSocket d = false \/ GetHeader (dec_httpParser q) (bs "Sec-WebSocket-Key") = [] ->
  smap_find (c_str (GetUrl (dec_httpParser q))) (m_handlers d) = Some h ->
  httpHandler h = Some (fun q r => Ret (f q r)) ->
  answers (cn_fd (m_connectorPtr d)) n (Dispatch SHA1 ndebug d q r) (inr (d, f q r)) n.
Proof.
  intros Hws Hkey Hf Hh. unfold Dispatch.
  assert ((if m_enableWebSocket d
           then set_isWebSocketReq d (negb (bool_decide ((if m_enableWebSocket d
                  then GetHeader (dec_httpParser q) (bs "Sec-WebSocket-Key") else []) = [])))
           else d) = d) as ->.
  { destruct (m_enableWebSocket d) eqn:E; [|done]. destruct Hkey as [?| ->]; [done|].
    destruct d. simpl in *. by subst. }
  rewrite Hf, Hws, Hh. eapply answers_bind; apply answers_ret.
Qed.

(** [Dispatch] of a handshake for a URL nobody handles. *)
Lemma Dispatch_not_found d q r n :
  m_enableWebSocket d = true -> GetHeader (dec_httpParser q) (bs "Sec-WebSocket-Key") <> [] ->
  smap_find (c_str (GetUrl (dec_httpParser q))) (m_handlers d) = None ->
  answers (cn_fd (m_connectorPtr d)) n (Dispatch SHA1 ndebug d q r)
    (inr (set_isWebSocketReq d true, ResponseHttpNotFound r)) n.
Proof.
  intros Hen Hkey Hf. unfold Dispatch. rewrite Hen. rewrite bool_decide_false by done. simpl negb.
  change (m_handlers (set_isWebSocketReq d true)) with (m_handlers d). rewrite Hf. apply answers_ret.
Qed.

(** *** What the parsed request says about one header *)

Lemma all_headers_NoDup e : smap_wf (he_headers e) -> plain_headers (he_headers e) ->
  NoDup ((all_headers e).*1).
Proof.
  intros Hw Hpl. assert (NoDup ((he_headers e).*1)) as Hnd.
  { clear Hpl. induction Hw as [|[k v] m Hs IH Hf]; simpl; constructor; [|done].
    intros Hin. apply list_elem_of_fmap in Hin as ([k' v'] & -> & Hin).
    rewrite Forall_forall in Hf. specialize (Hf _ Hin). unfold key_lt in Hf. simpl in Hf.
    by rewrite bytes_ltb_irrefl in Hf. }
  assert (forall k, TOKEN <$> k = CONNECTION \/ TOKEN <$> k = CONTENT_LENGTH -> k ∉ (he_headers e).*1) as Hne.
  { intros k Hk Hin. apply list_elem_of_fmap in Hin as ([k' v'] & -> & Hin).
    unfold plain_headers in Hpl. rewrite Forall_forall in Hpl. destruct (Hpl _ Hin) as [(_ & _ & Hw') _].
    simpl in *. destruct Hw' as (N1 & _ & _ & _ & N5). destruct Hk as [Hk|Hk]; [by apply N1|].
    apply N5. by rewrite Hk. }
  unfold all_headers. simpl. constructor; [|constructor; [|done]].
  - apply not_elem_of_cons. split; [done|]. apply Hne. by right.
  - apply Hne. by left.
Qed.

(** ** A client and a server *)

(** A response the client's parser reads back. *)
Definition plain_response (r : HttpEncoder) : Prop :=
  Forall (fun c => c <> CR /\ c <> LF) (he_statusMessage r) /\ plain_headers (he_headers r) /\
  Z.of_nat (length (he_body r)) < 2 ^ 60 /\ head_size (GetReponseString r) r <= HTTP_MAX_HEADER_SIZE.

Lemma plain_response_size r : plain_response r -> Z.of_nat (length (GetReponseString r)) < 2 ^ 64.
Proof. intros (_ & _ & Hb & Hs). unfold head_size, HTTP_MAX_HEADER_SIZE in *. lia. Qed.

Lemma GetReponseString_nonempty r : GetReponseString r <> [].
Proof. done. Qed.

Lemma GetRequestString_nonempty e m segments ps : request_of e m segments ps -> GetRequestString e <> [].
Proof.
  intros [Hme _ _ _ _ _ _ _ _ _]. unfold GetRequestString. rewrite Hme. by destruct m.
Qed.

(** C18.  A request of [HttpClient] and its answer by [HttpDispatch], when each of the two messages
    arrives in one read.  The request is one that can be read back ([request_of]: encoded path and
    parameters, headers the parser does not look at, with values that are not empty, a head within
    HTTP_MAX_HEADER_SIZE), its parameters have no separator in them ([splittable]; else see
    [encoded_separator_splits]), and it has no header Sec-WebSocket-Key; the handler is registered
    for the path and returns without a blocking call; the response is a [plain_response] (headers and
    size as above, no line end in the status message).  Then the server, waiting for a request with
    its decoder reset, hands the handler the method, path, body, headers and parameters of the
    client; the response is sent whole, and the connection waits for the next request.  The
    client's call of [Request] returns 0, with the handler's status, body and headers. *)
Theorem client_server_exchange c m segments ps d h f q0 status :
  let e := m_httpEncoder c in
  let fd := cn_fd (m_connectorPtr d) in
  request_of e m segments ps -> Forall splittable ps -> bs "Sec-WebSocket-Key" ∉ (he_headers e).*1 ->
  m_isWebSocketReq d = false -> smap_find (c_str (path_of id segments)) (m_handlers d) = Some h ->
  httpHandler h = Some (fun q r => Ret (f q r)) -> dec_httpParser q0 = HttpParser_init status ->
  exists q, parsed_as (dec_httpParser q) (he_method e) (path_of id segments) (he_body e)
              (set_all [] (all_headers e)) (set_all [] ps) /\
    let req := GetRequestString e in
    let r := f q (HttpEncoder_init false) in
    let resp := GetReponseString r in
    (plain_response r ->
     (forall w rl wl ws sent, accepting (length resp) wl ->
      answers fd (mkNet ((Z.of_nat (length req), req) :: rl) (wl ++ ws) sent)
        (serve_body SHA1 ndebug (d, q0, w)) (inl (d, HttpDecoder_Reset q, w))
        (mkNet rl ws (sent ++ resp))) /\
     (forall rl wl ws sent, accepting (length req) wl -> exists c',
      answers (tc_fd (m_tcpClient c)) (mkNet ((Z.of_nat (length resp), resp) :: rl) (wl ++ ws) sent)
        (Request c) (Some (0, c')) (mkNet rl ws (sent ++ req)) /\
      client_GetStatus c' = status_num (he_statusCode r) /\ client_GetBody c' = he_body r /\
      client_GetHeaders c' = set_all [] (all_headers r))).
Proof.
  intros e fd Hrq Hps Hkey Hws Hfind Hh Hq0.
  destruct (request_result e m segments ps ps status Hrq Hps eq_refl) as (p & Ep & Hpa).
  exists (mkDecoder p (m_peerIp q0) (m_peerPort q0)). split; [done|].
  set (q := mkDecoder p _ _). intros req r resp Hpl. pose proof (plain_response_size r Hpl) as Hlen.
  destruct Hpl as (R1 & R2 & R3 & R4).
  assert (HttpDecoder_Parse q0 req = Some (q, true)) as Eq.
  { unfold HttpDecoder_Parse. rewrite Hq0. fold req in Ep. by rewrite Ep. }
  destruct Hpa as (P1 & P2 & P3 & P4 & P5 & P6). split.
  - intros w rl wl ws sent Ha. apply (serve_http_turn d q0 w req q d r); try done.
    + by apply (GetRequestString_nonempty e m segments ps).
    + intros n. eapply Dispatch_handler; [done| |simpl; rewrite P3; exact Hfind|done].
      right. unfold GetHeader, GetHeaders in *. simpl. rewrite P5.
      rewrite set_all_find_None; [done|].
      unfold all_headers. simpl. rewrite !not_elem_of_cons. done.
  - intros rl wl ws sent Ha. destruct (response_result r 0 R1 R2 R3 R4) as (p' & Ep' & Hs & (Q1 & Q2 & Q3 & Q4 & Q5 & Q6)).
    set (d0 := HttpDecoder_Reset (m_httpDecoder c)).
    set (d1 := mkDecoder p' (m_peerIp d0) (m_peerPort d0)).
    exists (set_decoder c d1). split; [|exact (conj Hs (conj Q4 Q5))].
    unfold Request.
    eapply answers_bind;
      [exact (WriteAll_sends (F := F) (Hp := Hp) (tc_fd (m_tcpClient c)) req client_kKeepAliveMs
                ((Z.of_nat (length resp), resp) :: rl) wl ws sent Ha)|].
    cbn beta. rewrite (proj2 (Z.ltb_ge _ 0)) by lia.
    apply (Request_loop (F := F) (Hp := Hp) ((Z.of_nat (length resp), resp) :: rl) ws (sent ++ req)
             (set_decoder c d0) 0 d1 rl).
    change (m_httpDecoder (set_decoder c d0)) with d0.
    cbn [response_of]. rewrite (proj2 (Z.ltb_ge _ 0)) by lia.
    rewrite (proj2 (Z.eqb_neq _ 0)) by (unfold resp; simpl; lia).
    assert (HttpDecoder_Parse d0 resp = Some (d1, true)) as ->.
    { unfold HttpDecoder_Parse. change (dec_httpParser d0) with (HttpParser_init 0).
      fold resp in Ep'. by rewrite Ep'. }
    simpl dec_httpParser. by rewrite Q1.
Qed.

(** C20.  A request with a WebSocket key for a URL nobody handles is answered with 404, but leaves
    the dispatcher in WebSocket mode without a handler: as soon as a WebSocket message is
    complete, the call of the empty function throws, and nothing catches it. *)
Theorem unknown_websocket_crashes e m segments ps key d status port data rl wl ws sent :
  let fd := cn_fd (m_connectorPtr d) in
  let req := GetRequestString e in
  let resp := GetReponseString (ResponseHttpNotFound (HttpEncoder_init false)) in
  request_of e m segments ps -> Forall splittable ps -> smap_wf (he_headers e) ->
  (bs "Sec-WebSocket-Key", key) ∈ he_headers e -> c_str key <> [] ->
  m_isWebSocketReq d = false -> m_enableWebSocket d = true -> m_wsHandler d = None ->
  smap_find (c_str (path_of id segments)) (m_handlers d) = None ->
  data <> [] -> (wsd_Parse WebSocketDecoder_init data).2 = true ->
  wsd_IsComplete (wsd_Parse WebSocketDecoder_init data).1 = true -> accepting (length resp) wl ->
  answers fd (mkNet ((Z.of_nat (length req), req) :: (Z.of_nat (length data), data) :: rl) (wl ++ ws) sent)
    (HttpDispatch_call SHA1 ndebug d status port) (inl BadFunctionCall) (mkNet rl ws (sent ++ resp)).
Proof.
  intros fd req resp Hrq Hps Hwf Hkey Hne Hws Hen Hnone Hfind Hdata Hok Hcomp Ha.
  destruct (request_result e m segments ps ps status Hrq Hps eq_refl) as (p & Ep & (P1 & P2 & P3 & P4 & P5 & P6)).
  set (q := mkDecoder p [] port).
  assert (GetHeader p (bs "Sec-WebSocket-Key") = c_str key) as Hget.
  { unfold GetHeader, GetHeaders in *. rewrite P5, (set_all_find _ [] _ key); [done|constructor| |].
    - apply all_headers_NoDup; [done|by destruct Hrq].
    - unfold all_headers. by do 2 right. }
  unfold HttpDispatch_call. eapply answers_iter_next.
  - eapply (serve_http_turn d _ _ req q (set_isWebSocketReq d true)); try done.
    + by apply (GetRequestString_nonempty e m segments ps).
    + unfold HttpDecoder_Parse, HttpDecoder_init. simpl dec_httpParser. fold req in Ep. by rewrite Ep.
    + intros n. eapply Dispatch_not_found; [done|simpl; by rewrite Hget|simpl; by rewrite P3].
  - apply answers_iter_done. unfold serve_body.
    change (m_connectorPtr (set_isWebSocketReq d true)) with (m_connectorPtr d).
    eapply answers_bind; [apply answers_read|]. cbn [fst snd]. cbn beta.
    rewrite (proj2 (Z.leb_gt _ 0)) by (destruct data; [done|simpl; lia]). simpl m_isWebSocketReq. simpl negb. cbv iota.
    eapply answers_bind with (a := inl BadFunctionCall); [|apply answers_ret].
    unfold ProcessWebSocketData. destruct (wsd_Parse _ data) as [x ok]. simpl in Hok, Hcomp. subst ok.
    rewrite Hcomp. simpl m_wsHandler. rewrite Hnone. simpl negb. cbv iota. apply answers_ret.
Qed.
End Server.

(** ** Witnesses *)

Definition sha_demo (_ : bytes) : bytes := replicate 20 65.

(** The handler: status 200, and the body of the request as the body. *)
Definition echo_handler (q : HttpDecoder) (r : HttpEncoder) : HttpEncoder :=
  SetBody (SetStatusCode r StatusCode_200Ok) (GetBody (dec_httpParser q)).

Definition demo_server : HttpDispatch unit unit :=
  AddHttpHandler (HttpDispatch_init true (mkTcpConnector 9)) (bs "/a b/c") (fun q r => Ret (echo_handler q r)).

Definition demo_client : HttpClient :=
  mkHttpClient (HttpDecoder_init 7 7) (sample_request two_params) (mkTcpClient 5).

Lemma demo_request_of : request_of (sample_request two_params) HTTP_POST [bs "a b"; bs "c"] two_params.
Proof. split; try done; try apply sample_plain_headers; by_compute. Qed.

Lemma echo_plain q : GetBody (dec_httpParser q) = bs "hello" ->
  plain_response (echo_handler q (HttpEncoder_init false)).
Proof.
  intros Hb. unfold echo_handler. rewrite Hb.
  split; [constructor|]. split; [constructor|]. split; vm_compute; done.
Qed.

(** One portion. *)
Lemma accepting_one n : (0 < n)%nat -> accepting n [Z.of_nat n].
Proof. intros Hn. simpl. split; [lia|]. lia. Qed.

Definition demo_req : bytes := GetRequestString (sample_request two_params).
Definition demo_resp (q : HttpDecoder) : bytes := GetReponseString (echo_handler q (HttpEncoder_init false)).
Definition one_read (data : bytes) : list (Z * bytes) := [(Z.of_nat (length data), data)].

Lemma client_server_exchange_witness : exists q c',
  answers (F := unit) (Hp := unit) 9 (mkNet (one_read demo_req) [Z.of_nat (length (demo_resp q))] [])
    (serve_body sha_demo true (demo_server, HttpDecoder_init 7 7, WebSocketDecoder_init))
    (inl (demo_server, HttpDecoder_Reset q, WebSocketDecoder_init)) (mkNet [] [] (demo_resp q)) /\
  answers (F := unit) (Hp := unit) 5 (mkNet (one_read (demo_resp q)) [Z.of_nat (length demo_req)] [])
    (Request demo_client) (Some (0, c')) (mkNet [] [] demo_req) /\
  client_GetStatus c' = 200 /\ client_GetBody c' = bs "hello".
Proof.
  assert (Forall splittable two_params) as Hsp by (repeat constructor; by_compute).
  assert (bs "Sec-WebSocket-Key" ∉ (he_headers (m_httpEncoder demo_client)).*1) as Hk by by_compute.
  destruct (client_server_exchange (F := unit) (Hp := unit) sha_demo true demo_client HTTP_POST
    [bs "a b"; bs "c"] two_params demo_server
    (mkHandler (Some (fun q r => Ret (echo_handler q r))) None) echo_handler (HttpDecoder_init 7 7) 7
    demo_request_of Hsp Hk eq_refl eq_refl eq_refl eq_refl) as (q & (_ & _ & _ & Hb & _) & H).
  cbv zeta in H. destruct (H (echo_plain q Hb)) as [Hs Hc].
  destruct (Hc [] [Z.of_nat (length demo_req)] [] [] ltac:(apply accepting_one; vm_compute; lia))
    as (c' & Ha & Hst & Hbody & _).
  exists q, c'. split; [|split; [exact Ha|split; [exact Hst|rewrite Hbody; exact Hb]]].
  apply (Hs WebSocketDecoder_init [] [Z.of_nat (length (demo_resp q))] [] []). apply accepting_one.
  unfold demo_resp, GetReponseString. rewrite length_app. simpl. lia.
Defined.

(** A request of a WebSocket client for a URL the server does not know. *)
Definition ws_request : HttpEncoder :=
  AddHeader (SetUrl (SetMethod (HttpEncoder_init false) (bs "GET")) (path_of UrlEncode [bs "chat"]))
    (bs "Sec-WebSocket-Key") (bs "dGhlIHNhbXBsZSBub25jZQ==").

(** A masked text frame "Hi". *)
Definition ws_frame : bytes := [0x81; 0x82; 1; 2; 3; 4; Z.lxor 72 1; Z.lxor 105 2].

Lemma unknown_websocket_crashes_witness :
  answers (F := unit) (Hp := unit) 9
    (mkNet [(Z.of_nat (length (GetRequestString ws_request)), GetRequestString ws_request);
            (Z.of_nat (length ws_frame), ws_frame)]
       [Z.of_nat (length (GetReponseString (ResponseHttpNotFound (HttpEncoder_init false))))] [])
    (HttpDispatch_call sha_demo true demo_server 7 7) (inl BadFunctionCall)
    (mkNet [] [] (GetReponseString (ResponseHttpNotFound (HttpEncoder_init false)))).
Proof.
  apply (unknown_websocket_crashes (F := unit) (Hp := unit) sha_demo true ws_request HTTP_GET [bs "chat"] []
           (bs "dGhlIHNhbXBsZSBub25jZQ==") demo_server 7 7 ws_frame []
           [Z.of_nat (length (GetReponseString (ResponseHttpNotFound (HttpEncoder_init false))))] [] []).
  - split; try done; try by_compute. repeat constructor; simpl; try done.
    intros [l Hl]. vm_compute in Hl. discriminate Hl.
  - constructor.
  - repeat constructor.
  - left.
  - discriminate.
  - reflexivity.
  - reflexivity.
  - reflexivity.
  - reflexivity.
  - discriminate.
  - reflexivity.
  - reflexivity.
  - apply accepting_one. vm_compute. lia.
Defined.

(** A response in two reads, cut inside its body; the request is accepted in two portions. *)
Definition two_reads : list (Z * bytes) :=
  let d1 := text [bs "HTTP/1.1 200 OK"; bs "Content-Length: 5"; []] ++ bs "he" in
  [(Z.of_nat (length d1), d1); (3, bs "llo")].

Lemma Request_refines_witness : exists c',
  answers (F := unit) (Hp := unit) 5 (mkNet two_reads [10; Z.of_nat (length demo_req) - 10] [])
    (Request demo_client) (Some (0, c')) (mkNet [] [] demo_req) /\
  client_GetBody c' = bs "hello".
Proof.
  destruct (Request_refines (F := unit) (Hp := unit) demo_client two_reads []
              [10; Z.of_nat (length demo_req) - 10] []) as [H _].
  assert (exists d, response_of (HttpDecoder_Reset (m_httpDecoder demo_client)) two_reads = Some (0, d, []) /\
            GetBody (dec_httpParser d) = bs "hello") as (d & Hd & Hb).
  { eexists. split; vm_compute; reflexivity. }
  exists (set_decoder demo_client d). split; [|exact Hb].
  apply (H ltac:(simpl; split_and!; vm_compute; done) 0 d [] Hd).
Defined.
