(* ===== verification/TcpServer.v ===== *)
(** * net/TcpServer.cpp: a master process and its slaves

    The master binds, listens, forks and watches its slaves: functions on the world of the kernel.
    A slave runs an event loop with one accepting coroutine per listening descriptor, which starts
    one coroutine per connection; its functions are the type [slave_func].  [fork] is seen from
    the master; the child never returns from [SlaveRun], for [CoSocket::Run] does not end. *)

From ITree Require Import ITree.
From S2P Require Import Prelude OrdMap Coroutine Timestamp TimeoutSet Os Epoller CoSocket EventLoop CoStream Connections.

Open Scope Z_scope.

(** ** The master *)

(** The calls on processes: [fork] gives the pid of the child or an error, [waitpid(-1, 0, WNOHANG)]
    a pid, 0, or -1. *)
Class Processes (W : Type) := {
  sys_fork : W -> sysret Z * W;
  sys_waitpid : W -> Z * W;
  sys_sleep : Z -> W -> W
}.

(** [class TcpServer]; [H] is the type of request handlers.  [m_handleInit] and [m_handleFini] are
    never used, and [m_cs] exists in the slaves only. *)
Record TcpServer (H : Type) := mkTcpServer {
  m_listenFd : list Z;
  m_ports : list Z;
  m_numSlaveExpected : Z;
  m_numSlaveRunning : Z;
  m_handleRequest : option H
}.
Arguments mkTcpServer {H}. Arguments m_listenFd {H}. Arguments m_ports {H}.
Arguments m_numSlaveExpected {H}. Arguments m_numSlaveRunning {H}. Arguments m_handleRequest {H}.

Section Server.
Context {H : Type}.
Implicit Types (s : TcpServer H).

Definition TcpServer_init : TcpServer H := mkTcpServer [] [] 0 0 None.

Definition add_listener s (fd port : Z) : TcpServer H :=
  mkTcpServer (m_listenFd s ++ [fd]) (m_ports s ++ [port]) (m_numSlaveExpected s)
    (m_numSlaveRunning s) (m_handleRequest s).
Definition set_expected s (n : Z) : TcpServer H :=
  mkTcpServer (m_listenFd s) (m_ports s) n (m_numSlaveRunning s) (m_handleRequest s).
Definition set_running s (n : Z) : TcpServer H :=
  mkTcpServer (m_listenFd s) (m_ports s) (m_numSlaveExpected s) n (m_handleRequest s).
Definition SetRequestHandler s (handler : option H) : TcpServer H :=
  mkTcpServer (m_listenFd s) (m_ports s) (m_numSlaveExpected s) (m_numSlaveRunning s) handler.
End Server.

Section Master.
Context {H W : Type} `{OS W} `{Processes W} (inet_addr : bytes -> Z).
#[local] Abbreviation TcpServer := (TcpServer H).

Definition fd_of (r : sysret Z) : Z := match r with Succ fd => fd | Errno _ => -1 end.

(** [Bind]; the results of [socket] and [setsockopt] are not looked at. *)
Definition Bind (s : TcpServer) (ip : bytes) (port : Z) (w : W) : bool * TcpServer * W :=
  let '(r, w) := os_call (sys_socket (Z.lor SOCK_STREAM SOCK_NONBLOCK)) w in
  let listenFd := fd_of r in
  let '(_, w) := os_call (sys_reuseaddr listenFd) w in
  let '(r, w) := os_call (sys_bind listenFd (sockaddr_in inet_addr ip port)) w in
  match r with
  | Errno _ => (false, s, w)
  | Succ _ => (true, add_listener s listenFd port, w)
  end.

Fixpoint Listen (fds : list Z) (w : W) : bool * W :=
  match fds with
  | [] => (true, w)
  | fd :: fds' =>
      let '(r, w) := os_call (sys_listen fd) w in
      match r with Errno _ => (false, w) | Succ _ => Listen fds' w end
  end.

(** The loop of [ForkSlaves], with the list it fills. *)
Fixpoint fork_loop (numSlaves : nat) (childIds : list Z) (w : W) : list Z * W :=
  match numSlaves with
  | O => (childIds, w)
  | S n =>
      let '(r, w) := sys_fork w in
      match r with
      | Succ pid => fork_loop n (if pid >? 0 then childIds ++ [pid] else childIds) w
      | Errno _ => fork_loop n childIds w
      end
  end.

(** [ForkSlaves]; [childIds] is passed by value, so the caller keeps its own. *)
Definition ForkSlaves (s : TcpServer) (numSlaves : Z) (childIds : list Z) (w : W) : bool * TcpServer * W :=
  let '(childIds, w) := fork_loop (Z.to_nat numSlaves) childIds w in
  (negb (bool_decide (childIds = [])),
   set_running s (m_numSlaveRunning s + Z.of_nat (length childIds)), w).

Definition ListenAndFork (s : TcpServer) (numSlaves : Z) (childIds : list Z) (w : W) : bool * TcpServer * W :=
  let '(ok, w) := Listen (m_listenFd s) w in
  if negb ok then (false, s, w)
  else
    let numSlaves := if numSlaves <? 1 then 1 else numSlaves in
    ForkSlaves (set_expected s numSlaves) numSlaves childIds w.

(** One round of [MonitorSlavesLoop]. *)
Definition monitor_round (s : TcpServer) (w : W) : TcpServer * W :=
  let numSlaveNeedStart := m_numSlaveExpected s - m_numSlaveRunning s in
  let '(s, w) :=
    if numSlaveNeedStart >? 0 then
      let '(_, s, w) := ForkSlaves s numSlaveNeedStart [] w in (s, w)
    else (s, w) in
  let '(r, w) := sys_waitpid w in
  if negb (r =? 0) then (set_running s (m_numSlaveRunning s - 1), w)
  else (s, sys_sleep 1 w).

(** The loop has no exit: its first [n] rounds. *)
Fixpoint MonitorSlavesLoop (n : nat) (s : TcpServer) (w : W) : TcpServer * W :=
  match n with
  | O => (s, w)
  | S n' => let '(s, w) := monitor_round s w in MonitorSlavesLoop n' s w
  end.

(** [~TcpServer] *)
Fixpoint TcpServer_delete (fds : list Z) (w : W) : W :=
  match fds with
  | [] => w
  | fd :: fds' => let '(_, w) := os_call (sys_close fd) w in TcpServer_delete fds' w
  end.
End Master.

(** ** The slaves *)

(** The functions of a slave's coroutines: accept on a descriptor, or serve a connection. *)
Inductive slave_func := DoAccept_func (fd port : Z) | Request_func (connector : TcpConnector) (port : Z).

Definition O_NONBLOCK : Z := 0x800.

Section Slave.
Context {Hp : Type}.
#[local] Abbreviation io := (itree (apiE slave_func Hp)).
#[local] Abbreviation server := (TcpServer (TcpConnector -> Z -> prog slave_func Hp)).

Definition SpawnOnNewRequest (connector : TcpConnector) (port : Z) : io unit :=
  call (NewCoroutine (Request_func connector port)).

(** The loop of [DoAccept].  The connector is shared with the function of the new coroutine, which
    keeps it alive; without a handler it is deleted at the end of the round. *)
Definition DoAccept_body (s : server) (fd port : Z) (_ : unit) : io (unit + unit) :=
  let* sockFd := call (Accept fd (-1)) in
  if sockFd >=? 0 then
    let* flags := call (Sys (sys_getfl sockFd)) in
    let* r := call (Sys (sys_setfl sockFd (Z.lor flags O_NONBLOCK))) in
    let connector := TcpConnector_new sockFd in
    if m_handleRequest s then
      let* u := SpawnOnNewRequest connector port in Ret (inl tt)
    else
      let* r := call (Sys (sys_close sockFd)) in
      let* c := TcpConnector_delete connector in Ret (inl tt)
  else Ret (inl tt).

Definition DoAccept (s : server) (fd port : Z) : io unit := ITree.iter (DoAccept_body s fd port) tt.

Definition slave_body (s : server) (f : slave_func) : prog slave_func Hp :=
  match f with
  | DoAccept_func fd port => DoAccept s fd port
  | Request_func connector port =>
      match m_handleRequest s with Some h => h connector port | None => Ret tt end
  end.

(** [SlaveRun]: the start of the slave's event loop. *)
Definition SlaveRun {W} (junk : bytes) (s : server) (h : Hp) (w : W) :=
  initial (F := slave_func) junk (zip_with DoAccept_func (m_listenFd s) (m_ports s)) h w.
End Slave.
