(* ===== verification/TcpServerProps.v ===== *)
(** * The server: how many slaves run, and what the accepting coroutine does

    The master counts its slaves; [children] is the number of processes the kernel keeps for it.
    Then the loop of [DoAccept]: a connection gets its coroutine, an error that does not go away
    takes the whole slave. *)

From ITree Require Import ITree.
From S2P Require Import Prelude OrdMap Coroutine Timestamp TimeoutSet Os Epoller CoSocket EventLoop CoStream Connections TcpServer.

Open Scope Z_scope.

(** ** The master's count *)

(** What the calls on processes do to the children that were not waited for yet. *)
Class ProcLaws (W : Type) `{Processes W} := {
  children : W -> nat;
  fork_children w : let '(r, w') := sys_fork w in
    match r with
    | Succ pid => 0 < pid /\ children w' = S (children w)
    | Errno _ => children w' = children w
    end;
  waitpid_children w : let '(r, w') := sys_waitpid w in
    (0 < r /\ children w = S (children w')) \/
    (r = 0 /\ children w' = children w /\ (0 < children w)%nat) \/
    (r = -1 /\ children w' = 0%nat /\ children w = 0%nat);
  sleep_children n w : children (sys_sleep n w) = children w
}.

Section Count.
Context {H W : Type} `{ProcLaws W}.
Implicit Types (s : TcpServer H) (w : W).

(** The pids of the children the loop of [ForkSlaves] starts. *)
Definition forked (n : nat) (w : W) : list Z := (fork_loop n [] w).1.

Lemma fork_loop_acc n : forall l w, fork_loop n l w = (l ++ forked n w, (fork_loop n [] w).2).
Proof.
  unfold forked. induction n as [|n IH]; intros l w; simpl; [by rewrite app_nil_r|].
  destruct (sys_fork w) as [[pid|e] w']; [|apply IH].
  rewrite IH, (IH (if pid >? 0 then _ else _)). simpl.
  destruct (pid >? 0); [by rewrite <- app_assoc|done].
Qed.

Lemma forked_S n w :
  forked (S n) w = (match (sys_fork w).1 with Succ pid => [pid] | Errno _ => [] end) ++ forked n (sys_fork w).2.
Proof.
  unfold forked at 1. simpl. pose proof (fork_children w) as Hf.
  destruct (sys_fork w) as [[pid|e] w']; simpl; [|done].
  rewrite (proj2 (Z.gtb_lt pid 0)) by lia. by rewrite fork_loop_acc.
Qed.

Lemma fork_loop_children n : forall w,
  children (fork_loop n [] w).2 = (children w + length (forked n w))%nat /\ (length (forked n w) <= n)%nat.
Proof.
  induction n as [|n IH]; intros w; [simpl; lia|].
  rewrite forked_S, length_app. simpl. pose proof (fork_children w) as Hf.
  destruct (sys_fork w) as [[pid|e] w']; simpl; [|destruct (IH w'); lia].
  rewrite fork_loop_acc. destruct (IH w'). simpl. lia.
Qed.

(** The slaves a round starts, and the state before its [waitpid]. *)
Definition missing s : nat := Z.to_nat (m_numSlaveExpected s - m_numSlaveRunning s).
Definition started s w : nat := length (forked (missing s) w).

Lemma monitor_round_eq s w :
  monitor_round s w =
    let s1 := set_running s (m_numSlaveRunning s + Z.of_nat (started s w)) in
    let '(r, w2) := sys_waitpid (fork_loop (missing s) [] w).2 in
    if r =? 0 then (s1, sys_sleep 1 w2) else (set_running s1 (m_numSlaveRunning s1 - 1), w2).
Proof.
  unfold monitor_round, started, missing. destruct (_ >? 0) eqn:E.
  - unfold ForkSlaves. rewrite fork_loop_acc. simpl.
    destruct (sys_waitpid _) as [r w2]. by destruct (r =? 0).
  - breflect. rewrite Z2Nat.nonpos by lia. simpl. rewrite Z.add_0_r.
    replace (set_running s (m_numSlaveRunning s)) with s by by destruct s.
    destruct (sys_waitpid w) as [r w2]. by destruct (r =? 0).
Qed.

(** One round: what it adds to the count and to the children, [a] started and [b] reaped; a
    [waitpid] without children counts as a reaped child. *)
Lemma monitor_round_count s w s' w' :
  monitor_round s w = (s', w') ->
  let a := started s w in
  m_numSlaveExpected s' = m_numSlaveExpected s /\ (a <= missing s)%nat /\
  ((m_numSlaveRunning s' = m_numSlaveRunning s + Z.of_nat a /\ children w' = (children w + a)%nat /\ (0 < children w')%nat) \/
   (m_numSlaveRunning s' = m_numSlaveRunning s + Z.of_nat a - 1 /\ S (children w') = (children w + a)%nat) \/
   (m_numSlaveRunning s' = m_numSlaveRunning s - 1 /\ a = 0%nat /\ children w = 0%nat /\ children w' = 0%nat)).
Proof.
  rewrite monitor_round_eq. destruct (fork_loop_children (missing s) w) as [Hc Hle].
  cbv zeta. unfold started. set (w1 := (fork_loop (missing s) [] w).2) in *.
  pose proof (waitpid_children w1) as Hwp. destruct (sys_waitpid w1) as [r w2].
  destruct (r =? 0) eqn:E; breflect; intros [= <- <-]; (split; [done|]); (split; [done|]); simpl.
  - left. rewrite sleep_children. lia.
  - lia.
Qed.

(** [ForkSlaves] at the start and every round keep [m_numSlaveRunning] equal to the children. *)
Definition counted s w : Prop :=
  m_numSlaveRunning s = Z.of_nat (children w) /\ m_numSlaveRunning s <= m_numSlaveExpected s.

(** Every [fork] works. *)
Definition fork_works : Prop := forall w, exists pid, (sys_fork w).1 = Succ pid.

Lemma forked_all n w : fork_works -> length (forked n w) = n.
Proof.
  intros Hf. revert w. induction n as [|n IH]; intros w; [done|].
  rewrite forked_S, length_app, IH. destruct (Hf w) as [pid ->]. done.
Qed.

(** C21.  While [fork] works, [MonitorSlavesLoop] keeps the number of slaves: after any number of
    rounds at least one, whatever slaves exit, [m_numSlaveRunning] is the number of the master's
    children, and that is the expected number or one less (a slave that has just been reaped, to
    be replaced in the next round). *)
Theorem monitor_keeps_slaves n s w s' w' :
  fork_works -> 0 < m_numSlaveExpected s -> counted s w ->
  MonitorSlavesLoop (S n) s w = (s', w') ->
  counted s' w' /\ m_numSlaveExpected s' = m_numSlaveExpected s /\
  m_numSlaveExpected s - 1 <= m_numSlaveRunning s'.
Proof.
  intros Hf. revert s w s' w'.
  assert (forall s w s' w', 0 < m_numSlaveExpected s -> counted s w -> monitor_round s w = (s', w') ->
            counted s' w' /\ m_numSlaveExpected s' = m_numSlaveExpected s /\
            m_numSlaveExpected s - 1 <= m_numSlaveRunning s') as Hround.
  { intros s w s' w' He [Hc Hle] Hr. destruct (monitor_round_count _ _ _ _ Hr) as (Ee & _ & Hor).
    assert (started s w = missing s) as Ha by by apply forked_all. rewrite Ha in Hor.
    unfold missing in Hor. split; [split|split]; lia. }
  induction n as [|n IH]; intros s w s' w' He Hc Hl; cbn [MonitorSlavesLoop] in Hl;
    destruct (monitor_round s w) as [s1 w1] eqn:E1;
    destruct (Hround _ _ _ _ He Hc E1) as (Hc1 & Ee1 & Hb1).
  - by injection Hl as <- <-.
  - rewrite <- Ee1. by apply (IH s1 w1); [rewrite Ee1| |].
Qed.

(** In each of the first [n] rounds no slave can be started. *)
Fixpoint failing (n : nat) s w : Prop :=
  match n with
  | O => True
  | S n' => started s w = 0%nat /\ let '(s', w') := monitor_round s w in failing n' s' w'
  end.

(** The surplus of children over the count never falls. *)
Lemma surplus_stays k m : forall s w s' w',
  m_numSlaveRunning s + k <= Z.of_nat (children w) -> MonitorSlavesLoop m s w = (s', w') ->
  m_numSlaveRunning s' + k <= Z.of_nat (children w').
Proof.
  induction m as [|m IH]; intros s w s' w' Hk Hl; cbn [MonitorSlavesLoop] in Hl; [by injection Hl as <- <-|].
  destruct (monitor_round s w) as [s1 w1] eqn:E. apply (IH s1 w1); [|done].
  destruct (monitor_round_count _ _ _ _ E) as (_ & _ & Hor). lia.
Qed.

(** C22.  When no slave is left and none can be started for [n] rounds, the -1 of [waitpid] counts
    as an exit in each of them (without the sleep: the master is busy all the time), so
    [m_numSlaveRunning] falls to [-n]; as soon as [fork] works again, one round starts [n] slaves
    more than expected.  The master never takes them back: the count says all is well, and after any
    number of further rounds there are still at least [n] children more than it counts. *)
Theorem monitor_overshoots n s w s1 w1 s2 w2 :
  m_numSlaveRunning s = 0 -> children w = 0%nat -> 0 < m_numSlaveExpected s ->
  failing n s w -> MonitorSlavesLoop n s w = (s1, w1) ->
  started s1 w1 = missing s1 -> monitor_round s1 w1 = (s2, w2) ->
  m_numSlaveRunning s1 = - Z.of_nat n /\
  Z.of_nat (children w2) = m_numSlaveRunning s2 + Z.of_nat n /\
  m_numSlaveExpected s - 1 <= m_numSlaveRunning s2 <= m_numSlaveExpected s /\
  forall m s3 w3, MonitorSlavesLoop m s2 w2 = (s3, w3) ->
    m_numSlaveRunning s3 + Z.of_nat n <= Z.of_nat (children w3).
Proof.
  assert (forall n s w s1 w1, children w = 0%nat -> failing n s w -> MonitorSlavesLoop n s w = (s1, w1) ->
            m_numSlaveRunning s1 = m_numSlaveRunning s - Z.of_nat n /\ children w1 = 0%nat /\
            m_numSlaveExpected s1 = m_numSlaveExpected s) as Hfall.
  { clear. induction n as [|n IH]; intros s w s1 w1 Hc Hf Hl; cbn [MonitorSlavesLoop] in Hl.
    - injection Hl as <- <-. split_and!; [lia|done..].
    - destruct Hf as [Hz Hf]. destruct (monitor_round s w) as [s' w'] eqn:E.
      destruct (monitor_round_count _ _ _ _ E) as (Ee & _ & Hor). rewrite Hz in Hor.
      destruct (IH s' w' s1 w1) as (-> & -> & ->); [lia|done..|]. split_and!; [lia|done..]. }
  intros Hr Hc He Hf Hl Hs Hround.
  destruct (Hfall _ _ _ _ _ Hc Hf Hl) as (Er & Ec & Ee).
  destruct (monitor_round_count _ _ _ _ Hround) as (Ee2 & _ & Hor). rewrite Hs in Hor.
  unfold missing in Hor.
  assert (Z.of_nat (children w2) = m_numSlaveRunning s2 + Z.of_nat n) as H2 by lia.
  split_and!; [lia..|]. intros m s3 w3. apply surplus_stays. lia.
Qed.
End Count.

(** ** The accepting coroutine *)

Section Accept.
Context {W Hp : Type} `{OS W} (stack_size : nat).
#[local] Abbreviation handler := (TcpConnector -> Z -> prog slave_func Hp).
#[local] Abbreviation st := (st W slave_func Hp).
Implicit Types (srv : TcpServer handler) (s : st).

(** The rest of a round of [DoAccept] after the answer of [Accept]. *)
Definition accepted srv fd port (sockFd : Z) : prog slave_func Hp :=
  ITree.bind
    (ITree.bind (Ret sockFd) (fun sockFd =>
      if sockFd >=? 0 then
        let* flags := call (Sys (sys_getfl sockFd)) in
        let* r := call (Sys (sys_setfl sockFd (Z.lor flags O_NONBLOCK))) in
        let connector := TcpConnector_new sockFd in
        if m_handleRequest srv then
          let* u := SpawnOnNewRequest connector port in Ret (inl tt)
        else
          let* r := call (Sys (sys_close sockFd)) in
          let* c := TcpConnector_delete connector in Ret (inl tt)
      else Ret (inl tt)))
    (fun lr : unit + unit => match lr with
               | inl x => Tau (ITree.iter (DoAccept_body srv fd port) x)
               | inr r => Ret r
               end).

Lemma observe_DoAccept srv fd port :
  observe (DoAccept srv fd port) = VisF (Accept fd (-1)) (accepted srv fd port).
Proof. reflexivity. Qed.

Lemma observe_accepted_error srv fd port e :
  e < 0 -> observe (accepted srv fd port e) = TauF (DoAccept srv fd port).
Proof.
  intros He. unfold accepted. rewrite !observe_bind_eq. simpl.
  by rewrite Z.geb_leb, (proj2 (Z.leb_gt 0 e)) by lia.
Qed.

Lemma Accept_error fd t s e w' :
  os_call (sys_accept fd) (world s) = (Errno e, w') -> accept_retry e = false ->
  start_op (Accept fd t) s = inl (inl (- e), mkSt (cs s) (heap s) w').
Proof.
  intros Ho He. unfold start_op, Accept_start, mbind, act_bind, sys, on_world.
  by rewrite Ho, He.
Qed.

Lemma Accept_ok fd t s c w' :
  os_call (sys_accept fd) (world s) = (Succ c, w') ->
  start_op (Accept fd t) s = inl (inl c, mkSt (cs s) (heap s) w').
Proof. intros Ho. unfold start_op, Accept_start, mbind, act_bind, sys, on_world. by rewrite Ho. Qed.

(** C23.  While [accept] fails with an error that is not retried, such as EMFILE, the loop of
    [DoAccept] never blocks: however long the run, the accepting coroutine keeps the control, so no
    other coroutine of the slave runs, not even one that would close a descriptor. *)
Theorem DoAccept_spins srv fd port (fails : W -> Prop) back s n :
  (forall w, fails w -> exists e w', os_call (sys_accept fd) w = (Errno e, w') /\
     0 < e /\ accept_retry e = false /\ fails w') ->
  fails (world s) ->
  exists p w', run stack_size (slave_body srv) n (InCo (DoAccept srv fd port) back, s) =
    inl (InCo p back, mkSt (cs s) (heap s) w') /\ fails w'.
Proof.
  intros Hfail.
  assert (forall n s, fails (world s) ->
    (exists p w', run stack_size (slave_body srv) n (InCo (DoAccept srv fd port) back, s) =
       inl (InCo p back, mkSt (cs s) (heap s) w') /\ fails w') /\
    forall e, e < 0 -> exists p w',
      run stack_size (slave_body srv) n (InCo (accepted srv fd port e) back, s) =
        inl (InCo p back, mkSt (cs s) (heap s) w') /\ fails w') as Hgen; [|by apply Hgen].
  clear s n. induction n as [|n IH]; intros s Hs.
  { destruct s; split; [|intros e He]; eexists _, _; (split; [reflexivity|done]). }
  destruct (Hfail _ Hs) as (e & w' & Ho & He & Hretry & Hs'). split.
  - cbn [run]. unfold step, step_pc, step_co. cbn [fst snd]. rewrite observe_DoAccept.
    unfold mbind, act_bind. rewrite (Accept_error _ _ _ _ _ Ho Hretry).
    destruct (IH (mkSt (cs s) (heap s) w') Hs') as [_ Ha]. by apply Ha; lia.
  - intros r Hr. cbn [run]. unfold step, step_pc, step_co. cbn [fst snd].
    rewrite observe_accepted_error by done. by apply IH.
Qed.

(** A connection gets its coroutine: when [accept] gives a descriptor and there is a request
    handler, the round of [DoAccept] makes the descriptor non-blocking, hands exactly one new
    coroutine (the handler on a connector of that descriptor) to the event loop, and goes back to
    accepting; nothing else of the loop's state changes. *)
Theorem DoAccept_spawns srv fd port back s c h w1 w2 w3 flags r :
  os_call (sys_accept fd) (world s) = (Succ c, w1) -> 0 <= c -> m_handleRequest srv = Some h ->
  os_call (sys_getfl c) w1 = (flags, w2) ->
  os_call (sys_setfl c (Z.lor flags O_NONBLOCK)) w2 = (r, w3) ->
  run stack_size (slave_body srv) 5 (InCo (DoAccept srv fd port) back, s) =
    inl (InCo (DoAccept srv fd port) back,
         mkSt (set_funcList (m_coFuncList (cs s) ++ [Request_func (mkTcpConnector c) port]) (cs s))
              (heap s) w3).
Proof.
  intros Ho Hc Hh Hg Hsf.
  assert (c >=? 0 = true) as Ec by (rewrite Z.geb_leb; by apply Z.leb_le).
  eapply run_call; [exact (observe_DoAccept srv fd port)|exact (Accept_ok _ _ _ _ _ Ho)|].
  eapply run_call.
  { unfold accepted. rewrite !observe_bind_eq. simpl. rewrite Ec. head_step; reflexivity. }
  { exact (Sys_ok (sys_getfl c) (mkSt (cs s) (heap s) w1) _ _ Hg). }
  eapply run_call; [head_step; reflexivity|exact (Sys_ok (sys_setfl c _) (mkSt (cs s) (heap s) w2) _ _ Hsf)|].
  eapply run_call; [head_step; rewrite Hh; head_step; reflexivity|reflexivity|].
  by eapply run_tau; [head_step; reflexivity|].
Qed.
End Accept.

(** ** A concrete kernel *)

Module ToyProcesses.

(** The children, how many calls of [fork] will fail (none unless [faulty]), and whether a child
    has exited at each call of [waitpid]. *)
Record procs (faulty : bool) := mkProcs { p_children : nat; p_failures : nat; p_exits : list bool }.
Arguments mkProcs {faulty}. Arguments p_children {faulty}. Arguments p_failures {faulty}.
Arguments p_exits {faulty}.

Definition toy_fork {b} (w : procs b) : sysret Z * procs b :=
  if b && (0 <? p_failures w)%nat then
    (Errno EAGAIN, mkProcs (p_children w) (pred (p_failures w)) (p_exits w))
  else (Succ 100, mkProcs (S (p_children w)) (p_failures w) (p_exits w)).


Definition toy_waitpid {b} (w : procs b) : Z * procs b :=
  match p_children w, p_exits w with
  | O, _ => (-1, w)
  | S n, true :: l => (100, mkProcs n (p_failures w) l)
  | _, l => (0, mkProcs (p_children w) (p_failures w) (tail l))
  end.

#[export] Instance toy_processes b : Processes (procs b) :=
  {| sys_fork := toy_fork; sys_waitpid := toy_waitpid; sys_sleep _ w := w |}.

#[export] Program Instance toy_proc_laws b : ProcLaws (procs b) := {| children := p_children |}.
Next Obligation. intros [] [c [|n] l]; simpl; auto with lia. Qed.
Next Obligation. intros b [[|c] n [|[] l]]; simpl; auto with lia. Qed.
Next Obligation. done. Qed.

(** Three slaves expected. *)
Definition three (running : Z) : TcpServer unit := mkTcpServer [] [] 3 running None.

(** Two slaves run; one of the three then exits. *)
Lemma monitor_keeps_slaves_witness :
  m_numSlaveRunning (MonitorSlavesLoop 2 (three 2) (mkProcs (faulty := false) 2 0 [false; true])).1 = 2.
Proof.
  assert (fork_works (W := procs false)) as Hf.
  { intros w. exists 100. reflexivity. }
  assert (Hc : counted (three 2) (mkProcs (faulty := false) 2 0 [false; true])).
  { split; [reflexivity|discriminate]. }
  destruct (MonitorSlavesLoop 2 (three 2) (mkProcs 2 0 [false; true])) as [s' w'] eqn:E.
  pose proof (monitor_keeps_slaves 1 (three 2) _ s' w' Hf (eq_refl : 0 < 3) Hc E) as [[E1 _] _].
  cbn [fst]. rewrite E1. change w' with (snd (s', w')). rewrite <- E. vm_compute. reflexivity.
Defined.

(** No slave is left and [fork] fails for two rounds (3 times, then 4): the third round starts 5. *)
Definition outage : TcpServer unit * procs true :=
  MonitorSlavesLoop 2 (three 0) (mkProcs (faulty := true) 0 7 []).

Lemma monitor_overshoots_witness :
  let after := monitor_round outage.1 outage.2 in
  Z.of_nat (children after.2) = m_numSlaveRunning after.1 + 2 /\ children after.2 = 5%nat /\
  let later := MonitorSlavesLoop 7 after.1 after.2 in
  m_numSlaveRunning later.1 + 2 <= Z.of_nat (children later.2).
Proof.
  intros after.
  assert (failing 2 (three 0) (mkProcs (faulty := true) 0 7 [])) as Hf.
  { vm_compute. auto. }
  assert (children (mkProcs (faulty := true) 0 7 []) = 0%nat) as H0 by reflexivity.
  assert (started outage.1 outage.2 = missing outage.1) as Hst by (vm_compute; reflexivity).
  destruct (monitor_overshoots 2 (three 0) (mkProcs (faulty := true) 0 7 []) outage.1 outage.2
    _ _ eq_refl H0 (eq_refl : 0 < 3) Hf (surjective_pairing outage) Hst (surjective_pairing _))
    as (_ & Hc & _ & Hlater). split; [exact Hc|]. split; [vm_compute; reflexivity|].
  exact (Hlater 7%nat _ _ (surjective_pairing _)).
Defined.

(** The kernel of Epoller.v with its descriptors used up. *)
Definition EMFILE : Z := 24.
#[local] Instance full_os : OS ToyOS.world := fun A e w =>
  match e in sysE T return T * ToyOS.world with
  | sys_accept _ => (Errno EMFILE, w)
  | e => ToyOS.toy_call _ e w
  end.

Definition server : TcpServer (TcpConnector -> Z -> prog slave_func unit) :=
  mkTcpServer [3] [80] 1 0 (Some (fun _ _ => Ret tt)).

Lemma DoAccept_spins_witness :
  exists p w', run 8 (slave_body server) 1000
    (InCo (DoAccept server 3 80) (AtMain []), (SlaveRun [] server tt ToyOS.toy_world).2) =
    inl (InCo p (AtMain []), mkSt (CoSocket_init []) tt w').
Proof.
  destruct (DoAccept_spins 8 server 3 80 (fun _ => True) (AtMain [])
    (SlaveRun [] server tt ToyOS.toy_world).2 1000) as (p & w' & Hr & _).
  - intros w _. exists EMFILE, w. split; [reflexivity|]. split; [reflexivity|]. split; [reflexivity|exact I].
  - exact I.
  - exists p, w'. exact Hr.
Defined.
End ToyProcesses.

(** A connection on the listening descriptor 3 of the kernel of Epoller.v. *)
Definition accepting_world : ToyOS.world :=
  ToyOS.mkWorld ∅ {[3 := [Succ [9]]]} [] (mkTimeval 100 0) [].

Lemma DoAccept_spawns_witness :
  exists s', run 8 (slave_body ToyProcesses.server) 5
    (InCo (DoAccept ToyProcesses.server 3 80) (AtMain []), (SlaveRun [] ToyProcesses.server tt accepting_world).2) =
    inl (InCo (DoAccept ToyProcesses.server 3 80) (AtMain []), s') /\
    m_coFuncList (cs s') = [Request_func (mkTcpConnector 9) 80].
Proof.
  eexists. split.
  - eapply (DoAccept_spawns (H := ToyOS.toy_os) 8 ToyProcesses.server 3 80 (AtMain []) _ 9).
    + vm_compute. reflexivity.
    + discriminate.
    + reflexivity.
    + reflexivity.
    + reflexivity.
  - reflexivity.
Defined.
