(* ===== verification/CoQueue.v ===== *)
(** * net/CoQueue.h: a queue between coroutines

    The contents of a [CoQueue] are shared by its users, so they are a part of the heap of the
    coroutines (the class [Shared]); [m_condition] is set by the constructor and never changes, so
    it is what a user holds.  The methods are programs over the interface of [CoSocket].  [Buffer]
    is the class of the elements of a [BufferQueue]. *)

From ITree Require Import ITree.
From S2P Require Import Prelude OrdMap Coroutine Timestamp TimeoutSet Os Epoller CoSocket EventLoop CoStream.

Open Scope Z_scope.

(** An object of type [A] in a heap [Hp]. *)
Class Shared (Hp A : Type) := {
  load : Hp -> A;
  store : A -> Hp -> Hp;
  load_store a h : load (store a h) = a
}.

Record CoQueue := mkCoQueue { m_condition : Z }.

Section Queue.
Context {F Hp T : Type} `{!Shared Hp (list T)}.
#[local] Abbreviation io := (itree (apiE F Hp)).

(** ** The calls of [std::deque] *)

Definition q_empty (h : Hp) : bool * Hp := (bool_decide (length (load h) = 0%nat), h).
Definition q_push_back (d : T) (h : Hp) : unit * Hp := (tt, store (load h ++ [d]) h).
Definition q_pop_front (h : Hp) : unit * Hp := (tt, store (tail (load h)) h).

(** [front] of an empty deque is undefined behaviour: [None]. *)
Definition q_front (h : Hp) : option T * Hp := (head (load h), h).

(** ** The methods *)

Definition CoQueue_new : io CoQueue :=
  let* condition := call GetCondition in
  let* u := call (Heap (fun h => (tt, store [] h))) in
  Ret (mkCoQueue condition).

Definition Enque (q : CoQueue) (ptr : T) : io unit :=
  let* u := call (Heap (q_push_back ptr)) in
  call (ConditionNotify (m_condition q)).

(** The loop of [Deque], and what follows it. *)
Definition Deque_body (q : CoQueue) (_ : unit) : io (unit + unit) :=
  let* empty := call (Heap q_empty) in
  if empty : bool then
    let* u := call (ConditionWait (m_condition q)) in Ret (inl tt)
  else Ret (inr tt).

Definition Deque_take : io (option T) :=
  let* data := call (Heap q_front) in
  let* u := call (Heap q_pop_front) in
  Ret data.

Definition Deque (q : CoQueue) : io (option T) :=
  let* u := ITree.iter (Deque_body q) tt in Deque_take.
End Queue.

(** ** Buffer *)

Record Buffer := mkBuffer { m_stop : bool; m_size : Z; m_capacity : Z; buf_data : option bytes }.

(** [new char[m_capacity]]: [junk] is what the storage held before.  A negative capacity makes it
    throw [std::bad_array_new_length]: [None]. *)
Definition Buffer_init (capacity : Z) (junk : bytes) : option Buffer :=
  if capacity <? 0 then None
  else Some (mkBuffer false 0 capacity (Some (take (Z.to_nat capacity) junk))).
Definition Buffer_delete (b : Buffer) : Buffer := mkBuffer (m_stop b) (m_size b) (m_capacity b) None.
Definition Buffer_Stop (b : Buffer) : Buffer := mkBuffer true (m_size b) (m_capacity b) (buf_data b).
Definition Buffer_IsStop (b : Buffer) : bool := m_stop b.
Definition Buffer_Size (b : Buffer) : Z := m_size b.
Definition Buffer_Capacity (b : Buffer) : Z := m_capacity b.
Definition Buffer_Data (b : Buffer) : option bytes := buf_data b.
Definition Buffer_SetSize (b : Buffer) (size : Z) : Buffer :=
  mkBuffer (m_stop b) size (m_capacity b) (buf_data b).

(** ** First in, first out *)

Section Fifo.
Context {W F Hp T : Type} `{OS W} `{!Shared Hp (list T)} (stack_size : nat) (body : F -> prog F Hp).
Implicit Types (s : st W F Hp) (q : CoQueue).

(** The elements of the queue, and the coroutines in its condition's list. *)
Definition elements s : list T := load (heap s).
Definition waiters q s : list Z := default [] (m_conditionMap (cs s) !! to_int (m_condition q)).

(** [Enque] never blocks: it appends to the queue, moves every waiter of the condition to the
    resume list, and returns. *)
Theorem Enque_appends q d (k : unit -> prog F Hp) back s :
  exists p s', run stack_size body 2 (InCo (ITree.bind (Enque q d) k) back, s) = inl (InCo p back, s') /\
    observe p = observe (k tt) /\ elements s' = elements s ++ [d] /\ waiters q s' = [] /\
    m_waitResumeList (cs s') = m_waitResumeList (cs s) ++ waiters q s /\ world s' = world s.
Proof.
  eexists _, _. split.
  - eapply run_call; [head_step; reflexivity|by apply Heap_ok|].
    eapply run_call; [head_step; reflexivity|reflexivity|]. reflexivity.
  - split_and!; [reflexivity| | |reflexivity|reflexivity]; unfold elements, waiters; simpl.
    + apply load_store.
    + by rewrite lookup_insert_eq.
Qed.

(** [Deque] takes the first element without blocking when there is one; of an empty queue it
    changes nothing before it waits for the condition, and after the wait it starts again. *)
Theorem Deque_takes_first q (k : option T -> prog F Hp) back s :
  (forall d l, elements s = d :: l -> exists p s',
     run stack_size body 3 (InCo (ITree.bind (Deque q) k) back, s) = inl (InCo p back, s') /\
     observe p = observe (k (Some d)) /\ elements s' = l /\ cs s' = cs s /\ world s' = world s) /\
  (elements s = [] -> exists p k',
     run stack_size body 1 (InCo (ITree.bind (Deque q) k) back, s) = inl (InCo p back, s) /\
     observe p = VisF (ConditionWait (m_condition q)) k' /\
     observe (k' tt) = TauF (ITree.bind (Deque q) k)).
Proof.
  unfold elements. destruct s as [a h w]. cbn [heap]. split.
  - intros d l Hl. eexists _, _. split.
    + eapply run_call; [head_step; reflexivity|apply Heap_ok; cbn; unfold q_empty; by rewrite Hl|].
      eapply run_call; [head_step; reflexivity|apply Heap_ok; cbn; unfold q_front; by rewrite Hl|].
      eapply run_call; [head_step; reflexivity|by apply Heap_ok|]. reflexivity.
    + split_and!; [reflexivity| |done|done]. simpl. by rewrite load_store, Hl.
  - intros Hl. eexists _, _. split; [|split].
    + eapply run_call; [head_step; reflexivity|apply Heap_ok; cbn; unfold q_empty; by rewrite Hl|].
      reflexivity.
    + head_step. reflexivity.
    + reflexivity.
Qed.
End Fifo.
