(* ===== verification/CoQueueProps.v ===== *)
(** * net/CoQueue.h: no wake-up is lost

    Whatever coroutines use a queue through [Enque] and [Deque] (and do anything else that leaves
    the queue and its condition alone), a coroutine that waits in [Deque] while the queue has
    elements is on the resume list, so it runs before the loop next waits for events. *)

From ITree Require Import ITree.
From S2P Require Import Prelude OrdMap Coroutine Timestamp TimeoutSet Os Epoller CoSocket EventLoop.
From S2P Require Import LoopSafe LoopInvariant LoopProps LoopFrame CoStream CoQueue.

Open Scope Z_scope.

(** ** The users of a queue *)

Section Clients.
Context {F Hp T : Type} `{!Shared Hp (list T)} (q : CoQueue).
#[local] Abbreviation io := (itree (apiE F Hp)).

(** A call that does not touch the contents of the queue and does not wait for its condition. *)
Definition plain {A} (e : apiE F Hp A) : Prop :=
  match e with
  | ConditionWait condition => to_int condition <> to_int (m_condition q)
  | Heap op => forall h, load (op h).2 = load h
  | _ => True
  end.

Inductive clientE : Type -> Type :=
  | EnqueE (ptr : T) : clientE unit
  | DequeE : clientE (option T)
  | PlainE {A} (e : apiE F Hp A) (H : plain e) : clientE A.

Definition handle A (e : clientE A) : io A :=
  match e with
  | EnqueE ptr => Enque q ptr
  | DequeE => Deque q
  | PlainE e _ => call e
  end.

(** The coroutine of a client. *)
Definition client_prog (t : itree clientE unit) : io unit := interp (M := itree (apiE F Hp)) handle t.

(** A client inside one of its calls. *)
Definition in_call {A} (r : io A) (k : A -> itree clientE unit) : io unit :=
  ITree.bind (ITree.map (fun x => inl (k x)) r)
    (fun lr => match lr with inl t => Tau (client_prog t) | inr u => Ret u end).

Lemma observe_client t :
  observe (client_prog t) =
    match observe t with
    | RetF u => RetF u
    | TauF t' => TauF (client_prog t')
    | VisF e k => observe (in_call (handle _ e) k)
    end.
Proof.
  transitivity (observe (ITree.bind (match observe t with
      | RetF r => Ret (inr r)
      | TauF t => Ret (inl t)
      | VisF e k => ITree.map (fun x => inl (k x)) (handle _ e)
      end)
    (fun lr => match lr with inl t => Tau (client_prog t) | inr u => Ret u end))); [reflexivity|].
  by destruct (observe t).
Qed.
End Clients.

(** ** Programs that keep the queue quiet *)

Section Good.
Context {W F Hp T : Type} `{OS W} `{!Shared Hp (list T)} (q : CoQueue).
#[local] Abbreviation io := (itree (apiE F Hp)).
#[local] Abbreviation st := (st W F Hp).
Implicit Types (s : st).

(** No coroutine waits in vain: with elements in the queue nobody is in the condition's list. *)
Definition quiet s : Prop := elements s = [] \/ waiters q s = [].

(** The first [n] calls of [r] from [s] return or block in quiet states, and so does what follows a
    wait, from any quiet state. *)
Fixpoint good (n : nat) {A} (r : io A) s : Prop :=
  match n with
  | O => True
  | S n' =>
      match observe r with
      | RetF _ => quiet s
      | TauF r' => good n' r' s
      | VisF e k =>
          (forall a s', start_op e s = inl (inl a, s') -> good n' (k a) s') /\
          (forall w s', start_op e s = inl (inr w, s') ->
             quiet s' /\ forall a s2, quiet s2 -> good n' (k a) s2)
      end
  end.

Lemma good_observe n {A} (r r' : io A) s : observe r = observe r' -> good n r' s -> good n r s.
Proof. destruct n; [done|]. cbn [good]. by intros ->. Qed.

Lemma good_ret n {A} (a : A) s : quiet s -> good n (Ret a) s.
Proof. by destruct n. Qed.

Lemma good_bind n {A B} (r : io A) (k : A -> io B) : forall s,
  good n r s -> (forall m a s', (m <= n)%nat -> quiet s' -> good m (k a) s') ->
  good n (ITree.bind r k) s.
Proof.
  revert r. induction n as [|n IH]; intros r s Hr Hk; [done|].
  cbn [good] in *. rewrite observe_bind_eq. destruct (observe r) as [a|r'|X e j].
  - exact (Hk (S n) a s (le_n _) Hr).
  - apply IH; [done|]. intros m a s' Hm. apply Hk. lia.
  - destruct Hr as [Ha Hw]. split.
    + intros a s' Hs. apply IH; [by apply Ha|]. intros m b s2 Hm. apply Hk. lia.
    + intros w s' Hs. destruct (Hw _ _ Hs) as [Hq Hg]. split; [done|]. intros a s2 Hs2.
      apply IH; [by apply Hg|]. intros m b s3 Hm. apply Hk. lia.
Qed.

(** ** The calls of a client *)

Definition queue_frame s s' : Prop :=
  elements s' = elements s /\ (waiters q s' = waiters q s \/ waiters q s' = []).

Lemma quiet_frame s s' : queue_frame s s' -> quiet s -> quiet s'.
Proof. unfold quiet. intros [-> [-> | ->]]; tauto. Qed.

#[export] Instance queue_frame_preorder : PreOrder queue_frame.
Proof.
  split; [by split; [|left]|]. intros s1 s2 s3 [E1 H1] [E2 H2]. unfold queue_frame.
  rewrite E2, E1. split; [done|]. destruct H2 as [-> | ->]; auto.
Qed.

#[export] Instance queue_io_frame : IoFrame queue_frame.
Proof.
  split.
  - apply _.
  - intros A e s. by split; [|left].
  - intros m s. by split; [|left].
  - intros c t s u s' Hs. unfold guard_begin in Hs. destruct (t >? 0); [|by injection Hs as _ <-].
    apply bind_inl in Hs as (now & s1 & Ho & [= _ <-]). unfold sys, on_world in Ho.
    destruct (os_call _ _) as [x w]. injection Ho as <- <-. by split; [|left].
  - intros c t s u s' (ts & s1 & [= <- <-] & Hs)%bind_inl.
    destruct (guard_leave _ _ _); [|done]. injection Hs as _ <-. by split; [|left].
Qed.

Lemma respects_plain {A} (e : apiE F Hp A) : plain q e -> respects queue_frame (start_op e).
Proof.
  intros Hpl. apply (respects_start_op queue_frame). intros He. destruct e; try done.
  - intros s r s' (a & s1 & Hs & [= _ <-])%bind_inl.
    apply bind_inl in Hs as (c & s2 & [= <- <-] & Hs). destruct (_ =? _); [done|].
    apply bind_inl in Hs as (u & s3 & [= _ <-] & [= _ <-]). by split; [|left].
  - simpl in Hpl. intros s r s' (c & s2 & [= <- <-] & Hs)%bind_inl.
    apply bind_inl in Hs as (u & s3 & [= _ <-] & [= _ <-]).
    split; [done|left]. unfold waiters. simpl. by rewrite lookup_insert_ne.
  - intros s r s' (a & s1 & Hs & [= _ <-])%bind_inl.
    apply bind_inl in Hs as (m & s2 & [= <- <-] & Hs).
    apply bind_inl in Hs as (u & s3 & [= _ <-] & [= _ <-]).
    split; [done|]. unfold waiters. simpl.
    destruct (decide (to_int condition = to_int (m_condition q))) as [->|Hne].
    + right. by rewrite lookup_insert_eq.
    + left. by rewrite lookup_insert_ne.
  - intros s r s' (a & s1 & [= _ <-] & [= _ <-])%bind_inl. by split; [|left].
  - simpl in Hpl. intros s r s' (a & s1 & Hs & [= _ <-])%bind_inl. unfold on_heap in Hs.
    specialize (Hpl (heap s)). destruct (op (heap s)) as [x h]. injection Hs as _ <-.
    split; [done|by left].
Qed.

Lemma good_plain n {A} (e : apiE F Hp A) s : plain q e -> quiet s -> good n (call e) s.
Proof.
  intros Hpl Hs. destruct n as [|n]; [done|]. cbn.
  split.
  - intros a s' Ho. apply good_ret. by eapply quiet_frame; [apply (respects_plain e Hpl _ _ _ Ho)|].
  - intros w s' Ho. split; [by eapply quiet_frame; [apply (respects_plain e Hpl _ _ _ Ho)|]|].
    intros a s2 Hs2. by apply good_ret.
Qed.

Lemma good_Heap n {A B} (r : io B) (op : Hp -> A * Hp) k s :
  observe r = VisF (Heap op) k ->
  good n (k (op (heap s)).1) (mkSt (cs s) (op (heap s)).2 (world s)) -> good (S n) r s.
Proof.
  intros Ho Hk. cbn [good]. rewrite Ho. split.
  - intros a s' (x & s1 & Hx & [= <- <-])%bind_inl. unfold on_heap in Hx.
    destruct (op (heap s)) as [y h]. by injection Hx as <- <-.
  - by intros w s' (x & s1 & _ & [=])%bind_inl.
Qed.

Lemma good_Enque n ptr s : quiet s -> good n (Enque q ptr) s.
Proof.
  intros Hs. destruct n as [|n]; [done|]. eapply good_Heap; [head_step; reflexivity|].
  destruct n as [|n]; [done|]. apply (good_observe _ _ (call (ConditionNotify (m_condition q)))); [reflexivity|].
  cbn. split.
  - intros a s' (x & s1 & Hn & [= _ <-])%bind_inl. apply good_ret.
    apply bind_inl in Hn as (m & s2 & [= <- <-] & Hn). apply bind_inl in Hn as (u & s3 & [= _ <-] & [= _ <-]).
    right. unfold waiters. simpl. by rewrite lookup_insert_eq.
  - by intros w s' (x & s1 & _ & [=])%bind_inl.
Qed.

(** Waiting for the condition with an empty queue. *)
Lemma good_ConditionWait n {B} (r : io B) k s :
  observe r = VisF (ConditionWait (m_condition q)) k -> elements s = [] ->
  (forall s2, quiet s2 -> good n (k tt) s2) -> good (S n) r s.
Proof.
  intros Ho He Hk. cbn [good]. rewrite Ho. split.
  - by intros a s' (c & s1 & _ & (u & s2 & _ & [=])%bind_inl)%bind_inl.
  - intros w s' (c & s1 & [= <- <-] & (u & s2 & [= _ <-] & [= _ <-])%bind_inl)%bind_inl.
    split; [by left|]. intros []. apply Hk.
Qed.

Lemma good_Deque n s : quiet s -> good n (Deque q) s.
Proof.
  revert s. induction (lt_wf n) as [n _ IH]. intros [a h w] Hs. destruct n as [|n]; [done|].
  eapply good_Heap; [head_step; reflexivity|]. cbn [heap world cs q_empty fst snd].
  destruct (bool_decide _) eqn:E; (destruct n as [|n]; [done|]).
  - apply bool_decide_eq_true, length_zero_iff_nil in E.
    eapply good_ConditionWait; [head_step; reflexivity|done|]. intros s2 Hs2.
    destruct n as [|n]; [done|].
    apply (good_observe _ _ (Tau (Deque q))); [reflexivity|]. apply IH; [lia|done].
  - apply bool_decide_eq_false in E.
    destruct Hs as [Hs|Hs]; [by destruct E; unfold elements in Hs; simpl in Hs; rewrite Hs|].
    eapply good_Heap; [head_step; reflexivity|]. destruct n as [|n]; [done|].
    eapply good_Heap; [head_step; reflexivity|]. destruct n as [|n]; [done|].
    apply (good_observe _ _ (Ret (head (load h)))); [reflexivity|]. apply good_ret. by right.
Qed.

Lemma good_client n t s : quiet s -> good n (client_prog q t) s.
Proof.
  revert t s. induction (lt_wf n) as [n _ IH]. intros t s Hs. destruct n as [|n]; [done|].
  destruct (observe t) as [u|t'|A e k] eqn:Et.
  - apply (good_observe _ _ (Ret u)); [by rewrite observe_client, Et|by apply good_ret].
  - apply (good_observe _ _ (Tau (client_prog q t'))); [by rewrite observe_client, Et|].
    apply IH; [lia|done].
  - apply (good_observe _ _ (in_call q (handle q _ e) k)); [by rewrite observe_client, Et|].
    apply good_bind; [apply good_bind|].
    + destruct e; [exact (good_Enque _ _ _ Hs)|exact (good_Deque _ _ Hs)|by apply (good_plain (S n) e)].
    + intros m a s' _. apply good_ret.
    + intros [|m] [t'|[]] s' Hm Hs'; try done. apply IH; [lia|done].
Qed.
End Good.

(** ** Every step keeps the queue quiet *)

Section Loop.
Context {W F Hp T : Type} `{OS W} `{!Shared Hp (list T)} (stack_size : nat) (q : CoQueue)
  (client : F -> itree (clientE (F := F) (T := T) q) unit).
#[local] Abbreviation st := (st W F Hp).
#[local] Abbreviation body := (fun f => client_prog q (client f)).
Implicit Types (s : st) (S : schedule (ctx F Hp)).

(** A saved context goes on well from any quiet state. *)
Definition ctx_good (k : ctx F Hp) : Prop :=
  match k with
  | CtxStart _ _ => True
  | CtxWait w k => forall n a s, quiet q s -> good q n (k a) s
  end.

Definition contexts_good S : Prop :=
  forall i co k, sch_co S !! i = Some (Some co) -> co_status co = COROUTINE_SUSPEND ->
    co_ctx co = Some k -> ctx_good k.

Definition queue_inv (x : pc F Hp * st) : Prop :=
  contexts_good (m_schedule (cs (snd x))) /\
  match fst x with
  | Main l => quiet q (snd x) /\ (l = AtPoll -> m_waitResumeList (cs (snd x)) = [])
  | InCo p back => back <> AtPoll /\ forall n, good q n p (snd x)
  end.

Lemma contexts_insert S S' i x :
  contexts_good S -> sch_co S' = <[i := x]> (sch_co S) ->
  (forall co k, x = Some co -> co_status co = COROUTINE_SUSPEND -> co_ctx co = Some k -> ctx_good k) ->
  contexts_good S'.
Proof.
  intros HS E Hx j co k. rewrite E. intros [(<- & -> & _)|[_ Hj]]%list_lookup_insert_Some; [by apply Hx|].
  by apply (HS j).
Qed.

Lemma contexts_enter S S' id k :
  sched_wf stack_size S -> contexts_good S -> resume_enter stack_size S id = EnterRun S' k ->
  contexts_good S'.
Proof.
  intros Hs HS He. destruct (enter_spec _ _ _ _ _ Hs He)
    as (i & co & co' & stk & -> & _ & Hi & -> & Hst & _).
  eapply contexts_insert; [exact HS|reflexivity|]. intros co1 k1 [= <-]. congruence.
Qed.

Lemma contexts_yield S S' k depth :
  sched_wf stack_size S -> contexts_good S -> coroutine_yield stack_size S k depth = Some S' ->
  ctx_good k -> contexts_good S'.
Proof.
  intros Hs HS Hy Hk. destruct (yield_spec _ _ _ _ _ Hs Hy) as (i & co & co' & _ & _ & _ & -> & _ & Hc & _).
  eapply contexts_insert; [exact HS|reflexivity|]. intros co1 k1 [= <-] _. rewrite Hc. by intros [= <-].
Qed.

(** What the second half of a call leaves. *)
Definition same_schedule s s' : Prop := m_schedule (cs s') = m_schedule (cs s).

#[local] Instance same_schedule_preorder : PreOrder same_schedule.
Proof. split; [done|]. unfold same_schedule. intros ? ? ? E1 E2. by rewrite E2. Qed.

#[local] Instance same_schedule_frame : IoFrame same_schedule.
Proof.
  split; [apply _|done|done| |].
  - intros c t s u s' Hs. unfold guard_begin in Hs. destruct (t >? 0); [|by injection Hs as _ <-].
    apply bind_inl in Hs as (now & s1 & Ho & [= _ <-]). unfold sys, on_world in Ho.
    destruct (os_call _ _) as [x w]. by injection Ho as <- <-.
  - intros c t s u s' (ts & s1 & [= <- <-] & Hs)%bind_inl.
    destruct (guard_leave _ _ _); [|done]. by injection Hs as _ <-.
Qed.

Lemma queue_resume c back s s' p :
  sched_wf stack_size (m_schedule (cs s)) -> blocked (m_schedule (cs s)) ->
  contexts_good (m_schedule (cs s)) -> quiet q s -> back <> AtPoll ->
  resume stack_size body c back s = inl (p, s') -> queue_inv (p, s').
Proof.
  intros Hs Hb HS Hq Hback Hr.
  destruct (resume_inl stack_size body _ _ _ _ _ Hs Hb Hr)
    as [(-> & -> & _)|(A & w & k & a & S & (H0 & co & Hco & Hst & Hctx) & He & Ho & ->)].
  - by split.
  - pose proof (respects_resume_op same_schedule _ _ _ _ Ho) as Es.
    pose proof (respects_resume_op (queue_frame q) _ _ _ _ Ho) as Hf.
    split; simpl; [rewrite Es; by eapply contexts_enter|]. split; [done|]. intros n.
    apply (HS _ _ _ Hco Hst Hctx). eapply quiet_frame; [exact Hf|]. exact Hq.
Qed.

Lemma queue_new ud f back s s' p :
  sched_wf stack_size (m_schedule (cs s)) -> sch_running (m_schedule (cs s)) = -1 ->
  contexts_good (m_schedule (cs s)) -> quiet q s -> back <> AtPoll ->
  new_coroutine stack_size body ud f back s = inl (p, s') -> queue_inv (p, s').
Proof.
  intros Hs Hrun HS Hq Hback (c & s1 & [= <- <-] & Hn)%bind_inl.
  unfold coroutine_running in Hn. rewrite Hrun in Hn. simpl in Hn.
  apply bind_inl in Hn as (S0 & s1 & [= <- <-] & Hn).
  destruct (new_spec stack_size (m_schedule (cs s)) (CtxStart ud f) Hs)
    as (S1 & id & E & Hs1 & _ & _ & _ & Hid & Hsame). rewrite E in Hn.
  apply bind_inl in Hn as (? & s1 & [= _ <-] & Hn). apply bind_inl in Hn as (? & s1 & [= <- <-] & Hn).
  simpl in Hn. destruct (resume_enter stack_size S1 (Z.of_nat id)) as [| |S2 k] eqn:He; [done| |].
  { unfold resume_enter in He. rewrite Nat2Z.id, Hid in He. by repeat case_match. }
  assert (contexts_good S1) as HS1.
  { intros j co k' Hj Hst. destruct (decide (j = id)) as [->|Hne].
    - rewrite Hid in Hj. by injection Hj as <-.
    - apply (HS j); [by apply Hsame|done]. }
  pose proof (contexts_enter _ _ _ _ Hs1 HS1 He) as HS2.
  destruct (enter_spec _ _ _ _ _ Hs1 He) as (i & co & co' & stk & Hi & _ & Hco & _ & _ & _ & _ & _ & _ & Hor).
  apply Nat2Z.inj in Hi as ->. rewrite Hid in Hco. injection Hco as <-.
  destruct Hor as [(_ & -> & _)|[? _]]; [|done]. simpl in Hn.
  apply bind_inl in Hn as (? & s1 & [= _ <-] & [= <- <-]).
  split; [done|]. split; [done|]. intros n. apply good_client. exact Hq.
Qed.

Lemma queue_watcher fd s s' x :
  watcher fd s = inl (x, s') ->
  contexts_good (m_schedule (cs s)) -> quiet q s -> contexts_good (m_schedule (cs s')) /\ quiet q s'.
Proof.
  intros Hw HS Hq.
  assert (respects same_schedule (watcher (W := W) (F := F) (Hp := Hp) fd)) as Hsame by repeat respects_step.
  assert (respects (queue_frame q) (watcher (W := W) (F := F) (Hp := Hp) fd)) as Hf by repeat respects_step.
  rewrite (Hsame _ _ _ Hw). split; [done|]. by eapply quiet_frame; [apply (Hf _ _ _ Hw)|].
Qed.

Lemma watcher_inv fd s s' x l :
  inv_at stack_size true l (cs s) -> watcher fd s = inl (x, s') ->
  sched_wf stack_size (m_schedule (cs s')) /\ blocked (m_schedule (cs s')).
Proof. intros [Hs Hb _ _ _ _] (Es & _)%watcher_inl. by rewrite Es. Qed.

Lemma queue_step_main l s s' p :
  inv_at stack_size true l (cs s) -> contexts_good (m_schedule (cs s)) -> quiet q s ->
  (l = AtPoll -> m_waitResumeList (cs s) = []) ->
  step_main stack_size body l s = inl (p, s') -> queue_inv (p, s').
Proof.
  intros Hinv HS Hq Hpoll Hst. pose proof Hinv as [Hs Hb _ _ _ Hrun].
  destruct l as [[|f fs]|i|i| |[|[fd ev] evs] n|fd ev evs n|now]; simpl in Hst.
  - by injection Hst as <- <-.
  - by eapply queue_new; [..|exact Hst].
  - apply bind_inl in Hst as (fs & s1 & [= <- <-] & Hst). destruct (_ !! i); [by eapply queue_new; [..|exact Hst]|].
    by apply bind_inl in Hst as (? & ? & [= _ <-] & [= <- <-]).
  - apply bind_inl in Hst as (ids & s1 & [= <- <-] & Hst). destruct (_ !! i); [by eapply queue_resume; [..|exact Hst]|].
    by apply bind_inl in Hst as (? & ? & [= _ <-] & [= <- <-]).
  - apply bind_inl in Hst as (ts & s1 & [= <- <-] & Hst). apply bind_inl in Hst as (g & s1 & Hg & Hst).
    apply bind_inl in Hst as (size & s2 & [= <- <-] & Hst). apply bind_inl in Hst as (r & s2 & Hw & Hst).
    assert (cs s1 = cs s /\ heap s1 = heap s) as [E1 E2].
    { destruct (m_timeoutSet _); [by injection Hg as _ <-|].
      apply bind_inl in Hg as (now & s0 & Ho & [= _ <-]). unfold sys, on_world in Ho.
      destruct (os_call _ _). by injection Ho as _ <-. }
    unfold on_world in Hw. destruct (Poll_wait _ _ _) as [x w]. injection Hw as <- <-.
    destruct x; [|done]. injection Hst as <- <-. unfold queue_inv, quiet, elements, waiters. simpl.
    rewrite E1, E2. split_and!; [done|exact Hq|done].
  - do 2 apply bind_inl in Hst as (? & ? & [= _ <-] & Hst).
    apply bind_inl in Hst as (now & s3 & Ho & [= <- <-]). unfold sys, on_world in Ho.
    destruct (os_call _ _). by injection Ho as _ <-.
  - apply bind_inl in Hst as (x & s1 & Hw & Hst).
    destruct (queue_watcher _ _ _ _ Hw HS Hq), (watcher_inv _ _ _ _ _ Hinv Hw).
    destruct (negb _ && negb _); [by injection Hst as <- <-|].
    destruct (_ && HasReadCoroutine x); [by eapply queue_resume; [..|exact Hst]|by injection Hst as <- <-].
  - apply bind_inl in Hst as (x & s1 & Hw & Hst).
    destruct (queue_watcher _ _ _ _ Hw HS Hq), (watcher_inv _ _ _ _ _ Hinv Hw).
    destruct (_ && HasWriteCoroutine x); [by eapply queue_resume; [..|exact Hst]|by injection Hst as <- <-].
  - apply bind_inl in Hst as (ts & s1 & [= <- <-] & Hst). destruct (_ =? -1); [|by eapply queue_resume; [..|exact Hst]].
    by apply bind_inl in Hst as (? & ? & [= _ <-] & [= <- <-]).
Qed.

Lemma queue_yield {A} (w : waiting A) k s s' u :
  sched_wf stack_size (m_schedule (cs s)) -> contexts_good (m_schedule (cs s)) -> quiet q s ->
  ctx_good (CtxWait w k) -> yield stack_size (CtxWait w k) s = inl (u, s') ->
  contexts_good (m_schedule (cs s')) /\ quiet q s'.
Proof.
  intros Hs HS Hq Hk (depth & s1 & Ho & Hy)%bind_inl. unfold sys, on_world in Ho.
  destruct (os_call _ _) as [d wd]. injection Ho as <- <-.
  destruct (stack_size <? d)%nat; [done|]. apply bind_inl in Hy as (S & s2 & [= <- <-] & Hy).
  simpl in Hy. destruct (coroutine_yield _ _ _ _) as [S'|] eqn:E; [|done]. injection Hy as _ <-.
  split; [by eapply contexts_yield|exact Hq].
Qed.

Lemma queue_step_co p back s s' p' :
  inv_at stack_size false back (cs s) -> contexts_good (m_schedule (cs s)) ->
  back <> AtPoll -> (forall n, good q n p s) ->
  step_co stack_size p back s = inl (p', s') -> queue_inv (p', s').
Proof.
  intros Hinv HS Hback Hgood Hst. pose proof Hinv as [Hs _ Hc Hpos _ Hrun]. unfold step_co in Hst.
  assert (forall n, good q (S n) p s) as Hg by done. cbn [good] in Hg.
  destruct (observe p) as [u|p1|A e k].
  - apply bind_inl in Hst as (? & ? & [= _ <-] & [= <- <-]). split; [|by split; [apply (Hg 0%nat)|]].
    simpl. eapply contexts_insert; [exact HS|reflexivity|done].
  - by injection Hst as <- <-.
  - apply bind_inl in Hst as (r & s1 & Ho & Hst).
    assert (m_schedule (cs s1) = m_schedule (cs s)) as Es.
    { pose proof (safe_start_op e _ s (resumed back) Hc Hpos (running_waits_not stack_size _ Hs) Hrun) as Hop.
      unfold safe in Hop. rewrite Ho in Hop. by destruct Hop as [[? _] _]. }
    destruct r as [a|w].
    + injection Hst as <- <-. split; simpl; [by rewrite Es|]. split; [done|]. intros n. by apply (Hg n).
    + apply bind_inl in Hst as (u & s2 & Hy & [= <- <-]).
      destruct (queue_yield w k s1 s2 u) as [HS2 Hq2]; rewrite ?Es; try done.
      * exact (proj1 (proj2 (Hg 0%nat) w s1 Ho)).
      * intros n a s3. exact (proj2 (proj2 (Hg n) w s1 Ho) a s3).
Qed.

Lemma queue_steps x y :
  steps stack_size body x y -> inv stack_size x -> queue_inv x -> queue_inv y.
Proof.
  induction 1 as [x|x y z Hxy _ IH]; [done|]. intros Hinv Hx. pose proof (step_inv stack_size body _ Hinv) as Hn.
  rewrite Hxy in Hn. apply IH; [done|]. destruct x as [[l|p back] s], Hx as [HS Hx], y as [p' s'].
  - destruct Hx. by eapply queue_step_main.
  - destruct Hx. by eapply queue_step_co.
Qed.

(** C15.  No wake-up of a [CoQueue] is lost: in every reachable state of the event loop, whatever its
    users do, a coroutine that is blocked in [Deque] while the queue has elements has been notified
    and stands on the part of the resume list that is still to come, and when the loop waits for
    events there is none. *)
Theorem no_lost_wakeup junk fs h w l s c c0 A (wt : waiting A) k :
  length junk = stack_size -> steps stack_size body (initial junk fs h w) (Main l, s) ->
  elements s <> [] -> suspended_in (cs s) c wt k -> waiting_info wt = CondInfo c0 ->
  to_int c0 = to_int (m_condition q) ->
  c ∈ rest_of (resumed l) (cs s) /\ l <> AtPoll.
Proof.
  intros Hj Hsteps Hne (H0 & co & Hco & Hst & Hctx) Hwt Hkey.
  pose proof (loop_initial_inv stack_size junk fs h w Hj) as Hinit.
  pose proof (steps_inv _ _ _ _ Hsteps Hinit) as [Hs _ Hc _ _ _].
  assert (queue_inv (Main l, s)) as (_ & Hq & Hpoll).
  { apply (queue_steps _ _ Hsteps); [done|]. split; [|split; [|done]]; simpl.
    - intros i x kx Hx. apply lookup_replicate in Hx as [? _]. done.
    - right. reflexivity. }
  destruct Hq as [?|Hq]; [done|].
  assert (wait_of (m_schedule (cs s)) c = Some (CondInfo c0)) as Hwait.
  { unfold wait_of. rewrite (proj2 (Z.leb_le 0 c) H0), Hco, decide_True, Hctx by done. simpl. by rewrite Hwt. }
  destruct (c_kept _ _ _ Hc _ _ Hwait) as [Hin|Hin].
  - split; [done|]. intros ->. unfold rest_of in Hin. simpl in Hin, Hpoll. rewrite Hpoll, drop_nil in Hin by done.
    by apply elem_of_nil in Hin.
  - change (default [] (m_conditionMap (cs s) !! to_int (m_condition q)) = []) in Hq.
    rewrite <- Hkey in Hq. assert (c ∈ @nil Z) as []%elem_of_nil by (rewrite <- Hq; exact Hin).
Qed.
End Loop.

(** ** A producer and two consumers on the kernel of Epoller.v *)

Module QueueDemo.

#[export] Instance whole_heap : Shared (list nat) (list nat) :=
  {| load h := h; store a _ := a; load_store a h := eq_refl |}.

Definition queue : CoQueue := mkCoQueue 0.

Definition client (f : nat) : itree (clientE (F := nat) (Hp := list nat) (T := nat) queue) unit :=
  match f with
  | 0%nat => ITree.bind (ITree.trigger (DequeE queue)) (fun _ => Ret tt)
  | n => ITree.trigger (EnqueE queue n)
  end.

Definition body (f : nat) : prog nat (list nat) := client_prog queue (client f).

Definition start := initial (F := nat) (replicate 8 0) [0%nat; 0%nat; 7%nat] ([] : list nat) ToyOS.toy_world.

(** The consumers wait and the producer has put 7 into the queue. *)
Definition produced : pc nat (list nat) * st ToyOS.world nat (list nat) :=
  match run 8 body 11 start with inl x => x | inr _ => start end.

Lemma produced_reached : steps 8 body start (Main (AtMain []), snd produced).
Proof.
  assert (match run 8 body 11 start with inl (Main (AtMain []), _) => True | _ => False end) as Hm.
  { vm_compute. exact I. }
  apply (run_steps _ _ 11). unfold produced. 
  destruct (run 8 body 11 start) as [[[[[|? ?]|?|?| |? ?|? ? ? ?|?]|? ?] s]|e];
    try destruct Hm. reflexivity.
Qed.

Lemma no_lost_wakeup_witness :
  elements (snd produced) = [7%nat] /\ m_waitResumeList (cs (snd produced)) = [0; 1] /\
  1 ∈ rest_of (resumed (AtMain (F := nat) [])) (cs (snd produced)).
Proof.
  assert (elements (snd produced) = [7%nat]) as He by (vm_compute; reflexivity).
  split; [exact He|]. split; [vm_compute; reflexivity|].
  assert (match sch_co (m_schedule (cs (snd produced))) !! 1%nat with
          | Some (Some co) => co_status co = COROUTINE_SUSPEND /\
              match co_ctx co with Some (CtxWait w k) => waiting_info w = CondInfo 0 | _ => False end
          | _ => False
          end) as Hctx by (vm_compute; split; reflexivity).
  pose proof produced_reached as Hs. generalize dependent (snd produced). intros s He Hctx Hs.
  destruct (sch_co (m_schedule (cs s)) !! 1%nat) as [[co|]|] eqn:Eco; try destruct Hctx.
  destruct (co_ctx co) as [[ud f|A w k]|] eqn:Ectx; try contradiction.
  refine (proj1 (no_lost_wakeup 8 queue client (replicate 8 0) [0%nat; 0%nat; 7%nat] [] ToyOS.toy_world
    (AtMain []) s 1 0 A w k eq_refl Hs _ (conj _ (ex_intro _ co (conj Eco (conj H Ectx)))) H0 eq_refl)).
  - rewrite He. discriminate.
  - discriminate.
Defined.

Lemma Deque_takes_first_witness :
  exists p s', run 8 body 3
      (InCo (ITree.bind (Deque queue) (fun _ => Ret tt)) (AtMain []), snd produced) = inl (InCo p (AtMain []), s') /\
    elements s' = [].
Proof.
  destruct (Deque_takes_first 8 body queue
    (fun _ : option nat => Ret tt) (AtMain []) (snd produced)) as [Ht _].
  destruct (Ht 7%nat [] ltac:(vm_compute; reflexivity)) as (p & s' & Hr & _ & He & _).
  exists p, s'. exact (conj Hr He).
Defined.
End QueueDemo.
