(* ===== verification/Examples.v ===== *)
(** * example/: the programs that come with the library

    Servers and clients over [TcpServer], [TcpClient], [Timer], [CoQueue] and the HTTP classes.
    A request handler and a coroutine function are programs over the interface of [CoSocket]; the
    type [F] of function objects is the user's, so a program that starts another coroutine takes
    the function object as an argument.  A [main] of a server is a function on the world of its
    master; a [main] of a client is the state in which [Run] begins. *)

From ITree Require Import ITree.
From S2P Require Import Prelude OrdMap Coroutine Timestamp TimeoutSet Os Epoller CoSocket EventLoop CoStream Connections.
From S2P Require Import Base64 WebSocket HttpMessage HttpClient HttpDispatch TcpServer CoQueue.

Open Scope Z_scope.

(** How a program that need not return normally ends: by [return], by the [exit(1)] of a
    constructor, by a failed assertion or an exception, or in undefined behaviour. *)
Inductive outcome := Returned | Exited | Crashed | Undefined.

Section Programs.
Context {F Hp : Type} (inet_addr : bytes -> Z).
#[local] Abbreviation io := (itree (apiE F Hp)).

(** The loop [while (1)]: [None] goes round again. *)
Definition forever {R} (body : io (option R)) : io R :=
  ITree.iter (fun _ : unit => let* r := body in Ret (match r with Some x => inr x | None => inl tt end)) tt.

(** ** echo/Echo.cpp *)

Definition echo_round (connector : TcpConnector) : io (option unit) :=
  let* ret := TcpConnector_Read connector 1024 3000 in
  if fst ret <=? 0 then Ret (Some tt)
  else
    let* w := TcpConnector_WriteAll connector (Some (snd ret)) (Z.to_nat (fst ret)) 3000 in
    if w <? 0 then Ret (Some tt) else Ret None.
Definition echo_HandleRequest (connector : TcpConnector) (_ : Z) : io unit := forever (echo_round connector).

(** ** echo/EchoClient.cpp

    [++i] overflows after 2^31 - 1 rounds; [buffer[size] = '\0'] with the size that [Read] returned
    is in front of the buffer when it is an error. *)

Definition echo_text (i : Z) : bytes := bs "echo test: " ++ decimal i.

Definition echo_client_round (tcpClient : TcpClient) (timer : Timer) (i : Z) : io (Z + outcome) :=
  if i =? 2^31 - 1 then Ret (inr Undefined) else
  let i := i + 1 in
  let* size := TcpClient_Write tcpClient (Some (echo_text i)) (length (echo_text i)) 3000 in
  let* r := TcpClient_Read tcpClient 1023 3000 in
  if fst r <? 0 then Ret (inr Undefined)
  else let* u := Timer_Wait timer 2000 in Ret (inl i).

Definition echo_func : io outcome :=
  let* c := TcpClient_new in
  match c with
  | None => Ret Exited
  | Some tcpClient =>
      let* ret := TcpClient_Connect inet_addr tcpClient (bs "127.0.0.1") 12345 3000 in
      let* t := Timer_new in
      match t with
      | None => Ret Exited
      | Some timer => ITree.iter (echo_client_round tcpClient timer) 0
      end
  end.

(** ** sigpipe_test/SigPipeTest.cpp *)

Definition sigpipe_round (tcpClient : TcpClient) (timer : Timer) : io (option outcome) :=
  let buff := bs "test over" ++ [0] in
  let* ret := TcpClient_Write tcpClient (Some buff) (length buff) 3000 in
  let* u := Timer_Wait timer 2000 in Ret None.

Definition sigpipe_Client : io outcome :=
  let* c := TcpClient_new in
  match c with
  | None => Ret Exited
  | Some tcpClient =>
      let* t := Timer_new in
      match t with
      | None => Ret Exited
      | Some timer =>
          let* ret := TcpClient_Connect inet_addr tcpClient (bs "10.104.143.116") 12345 3000 in
          forever (sigpipe_round tcpClient timer)
      end
  end.

(** ** dont_use_other_routine_local_variable/Echo.cpp

    The global [g_connector] is the address of the parameter [connector] of the coroutine that
    serves port 12345, or null.  All coroutines run on one stack, each with its own frames while it
    runs, and the calls that lead to the handler are the same in each, so [addr], the address of
    that parameter, is too: the coroutine that dereferences the pointer finds its own parameter.
    Anything else is undefined behaviour ([None]). *)

Section LocalPointer.
Context `{!Shared Hp Z} (addr : Z).

Definition deref (connector : TcpConnector) (p : Z) : option TcpConnector :=
  if p =? addr then Some connector else None.

Definition pointer_round (connector : TcpConnector) : io (option outcome) :=
  let* ret := TcpConnector_Read connector 1024 300000 in
  if fst ret <=? 0 then Ret (Some Returned)
  else
    let* g_connector := call (Heap (fun h => (load h, h))) in
    match deref connector g_connector with
    | None => Ret (Some Undefined)
    | Some c =>
        let* w := TcpConnector_WriteAll c (Some (snd ret)) (Z.to_nat (fst ret)) 300000 in
        if w <? 0 then Ret (Some Returned) else Ret None
    end.

Definition pointer_HandleRequest (connector : TcpConnector) (port : Z) : io outcome :=
  let* u := (if port =? 12345 then call (Heap (fun h => (tt, store addr h))) else Ret tt) in
  forever (pointer_round connector).
End LocalPointer.

(** ** tcp_proxy/TcpProxy.cpp *)

Definition kTimeoutMs : Z := 3000.
Definition proxy_kBufferSize : nat := 1024.

(** A round of the loop both functions have: it ends with a failed read, or with a write that did
    not write everything. *)
Definition copy_round (read : nat -> Z -> io (Z * bytes)) (write : option bytes -> nat -> Z -> io Z)
    : io (option unit) :=
  let* readBytes := read proxy_kBufferSize kTimeoutMs in
  if fst readBytes <=? 0 then Ret (Some tt)
  else
    let* writeBytes := write (Some (snd readBytes)) (Z.to_nat (fst readBytes)) kTimeoutMs in
    if negb (writeBytes =? fst readBytes) then Ret (Some tt) else Ret None.

Definition ReadServerCoroutine (connector : TcpConnector) (tcpClient : TcpClient) : io unit :=
  forever (copy_round (TcpClient_Read tcpClient) (TcpConnector_WriteAll connector)).

(** [read_server] is the function object of [ReadServerCoroutine] with its arguments;
    [gLocalServerPort] is the second argument of the program. *)
Definition proxy_HandleRequest (read_server : TcpConnector -> TcpClient -> F) (gLocalServerPort : Z)
    (connector : TcpConnector) (_ : Z) : io outcome :=
  let* c := TcpClient_new in
  match c with
  | None => Ret Exited
  | Some tcpClient =>
      let* ret := TcpClient_Connect inet_addr tcpClient (bs "127.0.0.1") gLocalServerPort kTimeoutMs in
      if ret <? 0 then Ret Returned
      else
        let* u := call (NewCoroutine (read_server connector tcpClient)) in
        let* u := forever (copy_round (TcpConnector_Read connector) (TcpClient_WriteAll tcpClient)) in
        Ret Returned
  end.

(** ** throughput/ThroughputServer.cpp *)

Section ThroughputServer.
Context `{!Shared Hp (list Buffer)}.

Definition write_round (bufferQueue : CoQueue) (connector : TcpConnector) : io (option outcome) :=
  let* d := Deque bufferQueue in
  match d with
  | None => Ret (Some Undefined)
  | Some dataToWrite =>
      if Buffer_IsStop dataToWrite then Ret (Some Returned)
      else
        let* ret := TcpConnector_WriteAll connector (Buffer_Data dataToWrite)
                      (Z.to_nat (Buffer_Size dataToWrite)) 3000 in
        if negb (ret =? Buffer_Size dataToWrite) then Ret (Some Returned) else Ret None
  end.
Definition WriteCoroutine (bufferQueue : CoQueue) (bufferSize : Z) (connector : TcpConnector) : io outcome :=
  forever (write_round bufferQueue connector).

(** [Read] into the buffer: the bytes it stored, and behind them what the storage held. *)
Definition buffer_filled (b : Buffer) (d : bytes) : Buffer :=
  mkBuffer (m_stop b) (m_size b) (m_capacity b)
    ((fun old => d ++ drop (length d) old) <$> buf_data b).

(** [junk] is the content of the storage a buffer gets. *)
Definition request_round (bufferSize : Z) (junk : bytes) (bufferQueue : CoQueue) (connector : TcpConnector)
    : io (option outcome) :=
  match Buffer_init bufferSize junk with
  | None => Ret (Some Crashed)
  | Some buffer =>
      let* ret := TcpConnector_Read connector (Z.to_nat bufferSize) 3000 in
      if fst ret <=? 0 then Ret (Some Returned)
      else
        let buffer := Buffer_SetSize (buffer_filled buffer (snd ret)) (fst ret) in
        let* u := Enque bufferQueue buffer in Ret None
  end.

Definition stop_buffer (junk : bytes) : Buffer :=
  Buffer_Stop (default (mkBuffer false 0 4 None) (Buffer_init 4 junk)).

Definition RequestHandle (write : CoQueue -> Z -> TcpConnector -> F) (bufferSize : Z) (junk : bytes)
    (connector : TcpConnector) (_ : Z) : io outcome :=
  let* bufferQueue := CoQueue_new (T := Buffer) in
  let* u := call (NewCoroutine (write bufferQueue bufferSize connector)) in
  let* r := forever (request_round bufferSize junk bufferQueue connector) in
  match r with
  | Returned => let* u := Enque bufferQueue (stop_buffer junk) in Ret Returned
  | _ => Ret r
  end.
End ThroughputServer.

(** ** throughput/ThroughputClient.cpp *)

Section ThroughputClient.
(** [g_numSendAndAckPer1Sec] *)
Context `{!Shared Hp Z}.

Definition timer_round (timer : Timer) : io (option outcome) :=
  let* u := Timer_Wait timer (1 * 1000) in
  let* u := call (Heap (fun h => (tt, store 0 h))) in Ret None.

Definition TimerFunc : io outcome :=
  let* t := Timer_new in
  match t with None => Ret Exited | Some timer => forever (timer_round timer) end.

(** The first [int] of the buffer. *)
Definition first_int (buffer : bytes) : Z := ntohl (le_load (take 4 buffer)).

(** A round on the buffer: send it, read it back, compare its first [int]. *)
Definition send_round (bufferSize dataSize : Z) (tcpClient : TcpClient) (buffer : bytes) : io (bytes + outcome) :=
  let* ret := TcpClient_WriteAll tcpClient (Some buffer) (Z.to_nat bufferSize) 3000 in
  if negb (ret =? bufferSize) then Ret (inr Returned)
  else
    let* r := TcpClient_ReadFull tcpClient (Z.to_nat bufferSize) 3000 in
    let buffer := snd r ++ drop (length (snd r)) buffer in
    if negb (fst r =? bufferSize) then Ret (inr Returned)
    else if negb (first_int buffer =? dataSize) then Ret (inl buffer)
    else let* u := call (Heap (fun h => (tt, store (load h + bufferSize) h))) in Ret (inl buffer).

(** Every way out but [exit(1)] destroys [tcpClient]. *)
Definition SendFunc (bufferSize : Z) : io outcome :=
  let dataSize := bufferSize - 4 in
  if dataSize <? 0 then Ret Returned
  else
    let* c := TcpClient_new in
    match c with
    | None => Ret Exited
    | Some tcpClient =>
        let* ret := TcpClient_Connect inet_addr tcpClient (bs "127.0.0.1") 12345 3000 in
        let* r := (if negb (ret =? 0) then Ret Returned
                   else ITree.iter (send_round bufferSize dataSize tcpClient)
                          (le_bytes 4 (ntohl dataSize) ++ replicate (Z.to_nat (bufferSize - 4)) 0)) in
        let* c := TcpClient_delete tcpClient in Ret r
    end.
End ThroughputClient.

(** ** http_server/HttpServer.cpp *)

Definition HttpHandle (request : HttpDecoder) (response : HttpEncoder) : HttpEncoder :=
  SetBody (SetStatusCode response StatusCode_200Ok) RSP_OK.
Definition WebSocketHandle (request : WebSocketDecoder) (response : ws_encoder) : ws_encoder :=
  SetPayload (SetOpCode response OpCodeType_Text) (wsd_GetPayLoad request).

Definition http_dispatch (connector : TcpConnector) : HttpDispatch F Hp :=
  AddWebSocketHandler
    (AddHttpHandler (HttpDispatch_init true connector) (bs "/") (fun q r => Ret (HttpHandle q r)))
    (bs "/") (fun q r => Ret (WebSocketHandle q r)).

(** [status] and [port] are what the memory of the decoder holds. *)
Definition http_HandleRequest (SHA1 : bytes -> bytes) (ndebug : bool) (status port : Z)
    (connector : TcpConnector) (_ : Z) : io outcome :=
  let* r := HttpDispatch_call SHA1 ndebug (http_dispatch connector) status port in
  Ret (match r with inl _ => Crashed | inr _ => Returned end).

(** ** http_server/HttpClient.cpp *)

Definition http_request (tcpClient : TcpClient) (status port : Z) : HttpClient :=
  let c := HttpClient_init tcpClient status port in
  let c := client_AddHeader (client_AddHeader c (bs "h1") (bs "v1")) (bs "h2") (bs "v2") in
  let c := client_AddParameter (client_AddParameter c (bs "p1") (bs "v1")) (bs "p2") (bs "v2") in
  client_SetBody (client_SetUrl (client_SetMethod c (bs "POST")) (bs "/")) (bs "test body").

Definition http_client_round (status port : Z) (tcpClient : TcpClient) (timer : Timer) : io (option outcome) :=
  let* r := Request (http_request tcpClient status port) in
  match r with
  | None => Ret (Some Crashed)
  | Some (ret, _) =>
      if negb (ret =? 0) then Ret (Some Returned)
      else let* u := Timer_Wait timer 2000 in Ret None
  end.

Definition http_func (status port : Z) : io outcome :=
  let* c := TcpClient_new in
  match c with
  | None => Ret Exited
  | Some tcpClient =>
      let* ret := TcpClient_Connect inet_addr tcpClient (bs "127.0.0.1") 12345 3000 in
      if negb (ret =? 0) then let* c := TcpClient_delete tcpClient in Ret Returned
      else
        let* t := Timer_new in
        match t with
        | None => Ret Exited
        | Some timer =>
            let* r := forever (http_client_round status port tcpClient timer) in
            match r with
            | Returned => let* u := Timer_delete timer in let* c := TcpClient_delete tcpClient in Ret r
            | _ => Ret r
            end
        end
  end.
End Programs.

(** ** The functions [main] of the servers

    [n] rounds of [MonitorSlavesLoop], which does not end.  The results of [Bind] and
    [ListenAndFork] are not looked at. *)

Section Servers.
Context {W H : Type} `{OS W} `{Processes W} (inet_addr : bytes -> Z).

(** [Bind] of the addresses in turn. *)
Fixpoint bind_all (s : TcpServer H) (l : list (bytes * Z)) (w : W) : TcpServer H * W :=
  match l with
  | [] => (s, w)
  | (ip, port) :: l' => let '(_, s, w) := Bind inet_addr s ip port w in bind_all s l' w
  end.

Definition server_main (l : list (bytes * Z)) (handler : H) (numSlaves : Z) (n : nat) (w : W)
    : TcpServer H * W :=
  let '(s, w) := bind_all TcpServer_init l w in
  let s := SetRequestHandler s (Some handler) in
  let '(_, s, w) := ListenAndFork s numSlaves [] w in
  MonitorSlavesLoop n s w.

Definition echo_main (HandleRequest : H) := server_main [(bs "0.0.0.0", 12345)] HandleRequest 3.
Definition proxy_main (HandleRequest : Z -> H) (gListenPort gLocalServerPort : Z) :=
  server_main [(bs "0.0.0.0", gListenPort)] (HandleRequest gLocalServerPort) 3.
Definition throughput_main (RequestHandle : Z -> H) (bufferSize : Z) :=
  server_main [(bs "127.0.0.1", 12345)] (RequestHandle bufferSize) 1.
Definition http_main (HandleRequest : H) := server_main [(bs "0.0.0.0", 12345)] HandleRequest 1.
Definition two_ports_main (HandleRequest : H) :=
  server_main [(bs "0.0.0.0", 12345); (bs "0.0.0.0", 34567)] HandleRequest 1.
End Servers.

(** ** The functions [main] of the clients *)

Section Clients.
Context {W Hp : Type} (junk : bytes) (h : Hp) (w : W).

(** One coroutine. *)
Definition client_main : pc unit Hp * st W unit Hp := initial junk [tt] h w.

Inductive throughput_func := Send_func (bufferSize : Z) | Timer_func.
Definition throughput_client_main (bufferSize : Z) (coNum : nat)
    : pc throughput_func Hp * st W throughput_func Hp :=
  initial junk (replicate coNum (Send_func bufferSize) ++ [Timer_func]) h w.
End Clients.
