(* ===== verification/Turns.v ===== *)
(** * Coroutines that take turns

    What the event loop gives its coroutines, reduced to what they can see of each other: one runs
    until it blocks (in [Read], [Write] or [ConditionWait]) or ends; then any one whose call has an
    answer may go on.  A notification wakes the coroutines that wait for the condition, and a
    coroutine that is started runs later.  That the loop of EventLoop.v resumes a coroutine for its
    cause, with the result of it, is the subject of LoopProps.v; here the order of the turns is
    arbitrary.  The data that arrive are a list of answers of [Read]; a [Write] takes any part of
    its data, or fails. *)

From ITree Require Import ITree.
From S2P Require Import Prelude OrdMap Coroutine Timestamp TimeoutSet Os Epoller CoSocket EventLoop CoStream.

Open Scope Z_scope.

Section Turns.
Context {F Hp R : Type} (body : F -> itree (apiE F Hp) R) (rfd wfd cond : Z).
#[local] Abbreviation io := (itree (apiE F Hp)).

(** Where a coroutine stands: new or woken up, in one of the calls that block, or at its end. *)
Inductive thread :=
  | Ready (p : io R)
  | Reading (size : nat) (k : Z * bytes -> io R)
  | Writing (d : bytes) (size : nat) (k : Z -> io R)
  | Waiting (condition : Z) (k : unit -> io R)
  | Ended (r : R).

(** The coroutines, the heap they share, the answers of [Read] to come, the bytes that were sent,
    and whether a [Write] has failed. *)
Record turns := mkTurns {
  threads : list thread; t_heap : Hp; t_reads : list (Z * bytes); t_sent : bytes; t_failed : bool
}.

(** [ConditionNotify]. *)
Definition notify (condition : Z) (t : thread) : thread :=
  match t with
  | Waiting c k => if to_int c =? to_int condition then Ready (k tt) else t
  | _ => t
  end.

(** A coroutine goes on until it blocks or ends; [ts] are the coroutines.  [None] for a call that is
    not modelled here. *)
Fixpoint burst (fuel : nat) (p : io R) (h : Hp) (ts : list thread) : option (thread * Hp * list thread) :=
  match fuel with
  | O => None
  | S fuel' =>
      match observe p with
      | RetF r => Some (Ended r, h, ts)
      | TauF p' => burst fuel' p' h ts
      | VisF e k =>
          match e in apiE _ _ A return (A -> io R) -> option (thread * Hp * list thread) with
          | Heap op => fun k => burst fuel' (k (op h).1) (op h).2 ts
          | GetCondition => fun k => burst fuel' (k cond) h ts
          | ConditionNotify c => fun k => burst fuel' (k tt) h (notify c <$> ts)
          | NewCoroutine f => fun k => burst fuel' (k tt) h (ts ++ [Ready (body f)])
          | Read fd size _ => fun k => if fd =? rfd then Some (Reading size k, h, ts) else None
          | Write fd (Some d) size _ => fun k => if fd =? wfd then Some (Writing d size k, h, ts) else None
          | ConditionWait c => fun k => Some (Waiting c k, h, ts)
          | _ => fun _ => None
          end k
      end
  end.

(** Coroutine [i] goes on as [p]. *)
Definition go_on (fuel i : nat) (p : io R) (x : turns) : option turns :=
  match burst fuel p (t_heap x) (threads x) with
  | Some (t, h, ts) => Some (mkTurns (<[i := t]> ts) h (t_reads x) (t_sent x) (t_failed x))
  | None => None
  end.

(** A turn of coroutine [i]; [a] is the answer when it is blocked in [Write]. *)
Definition turn (fuel i : nat) (a : Z) (x : turns) : option turns :=
  match threads x !! i with
  | Some (Ready p) => go_on fuel i p x
  | Some (Reading size k) =>
      match t_reads x with
      | b :: l =>
          if (length (snd b) <=? size)%nat then
            go_on fuel i (k b) (mkTurns (threads x) (t_heap x) l (t_sent x) (t_failed x))
          else None
      | [] => None
      end
  | Some (Writing d size k) =>
      if a <? 0 then go_on fuel i (k a) (mkTurns (threads x) (t_heap x) (t_reads x) (t_sent x) true)
      else if (0 <? a) && (a <=? Z.of_nat size) then
        go_on fuel i (k a) (mkTurns (threads x) (t_heap x) (t_reads x)
                              (t_sent x ++ take (Z.to_nat a) (take size d)) (t_failed x))
      else None
  | _ => None
  end.

Definition takes_turn (x y : turns) : Prop := exists fuel i a, turn fuel i a x = Some y.

(** No coroutine can go on. *)
Definition stuck (x : turns) : Prop := forall y, ~ takes_turn x y.

(** One coroutine, about to start. *)
Definition alone (p : io R) (h : Hp) (reads : list (Z * bytes)) : turns :=
  mkTurns [Ready p] h reads [] false.

(** Turns in a given order. *)
Fixpoint play (fuel : nat) (l : list (nat * Z)) (x : turns) : option turns :=
  match l with
  | [] => Some x
  | (i, a) :: l' => match turn fuel i a x with Some y => play fuel l' y | None => None end
  end.

Lemma play_turns fuel l : forall x y, play fuel l x = Some y -> rtc takes_turn x y.
Proof.
  induction l as [|[i a] l IH]; intros x y Ht; simpl in *; [injection Ht as ->; constructor|].
  destruct (turn fuel i a x) as [x1|] eqn:E; [|done]. econstructor; [by exists fuel, i, a|by apply IH].
Qed.

(** ** What a burst does *)

Definition bursts (p : io R) (h : Hp) (ts : list thread) (o : thread * Hp * list thread) : Prop :=
  exists fuel, burst fuel p h ts = Some o.

Lemma burst_S fuel : forall p h ts o, burst fuel p h ts = Some o -> burst (S fuel) p h ts = Some o.
Proof.
  induction fuel as [|fuel IH]; intros p h ts o Hb; [done|]. simpl in Hb. cbn [burst].
  destruct (observe p) as [r|p'|A e k]; [done|by apply IH|].
  destruct e; try done; try (by apply IH).
Qed.

Lemma burst_mono f1 f2 p h ts o : burst f1 p h ts = Some o -> (f1 <= f2)%nat -> burst f2 p h ts = Some o.
Proof. intros Hb. induction 1 as [|f2 _ IH]; [done|by apply burst_S]. Qed.

Lemma bursts_det p h ts o1 o2 : bursts p h ts o1 -> bursts p h ts o2 -> o1 = o2.
Proof.
  intros [f1 H1] [f2 H2]. apply (burst_mono _ (f1 + f2)) in H1; [|lia].
  apply (burst_mono _ (f1 + f2)) in H2; [|lia]. congruence.
Qed.

Lemma bursts_observe p p' h ts o : observe p = observe p' -> bursts p' h ts o -> bursts p h ts o.
Proof. intros Ho [[|f] Hb]; [done|]. exists (S f). simpl. by rewrite Ho. Qed.

(** *** A program and what follows it

    The innermost statement that is to be executed, and the frames around it. *)

Inductive frames : Type -> Type :=
  | Outermost : frames R
  | Frame {A B} (k : A -> io B) (K : frames B) : frames A.

Fixpoint plug {A} (K : frames A) : io A -> io R :=
  match K in frames A return io A -> io R with
  | Outermost => fun p => p
  | Frame k K' => fun p => plug K' (ITree.bind p k)
  end.

Lemma observe_plug {A} (K : frames A) (p p' : io A) :
  observe p = observe p' -> observe (plug K p) = observe (plug K p').
Proof.
  intros Ho. induction K as [|A B k K IH]; [done|]. apply IH. by rewrite !observe_bind_eq, Ho.
Qed.

Lemma observe_plug_tau {A} (K : frames A) (p p' : io A) :
  observe p = TauF p' -> observe (plug K p) = TauF (plug K p').
Proof.
  intros Ho. induction K as [|A B k K IH]; [done|]. apply IH. by rewrite observe_bind_eq, Ho.
Qed.

Lemma observe_plug_vis {A X} (K : frames A) (p : io A) (e : apiE F Hp X) j :
  observe p = VisF e j -> observe (plug K p) = VisF e (fun x => plug K (j x)).
Proof.
  revert p j. induction K as [|A B k K IH]; intros p j Ho; [done|].
  apply (IH _ (fun x => ITree.bind (j x) k)). by rewrite observe_bind_eq, Ho.
Qed.

Lemma observe_plug_call {A} (K : frames A) (e : apiE F Hp A) :
  observe (plug K (call e)) = VisF e (fun x => plug K (Ret x)).
Proof. exact (observe_plug_vis K (call e) e (fun x => Ret x) eq_refl). Qed.

(** The program [p] inside the frames [K]. *)
Definition goes {A} (K : frames A) (p : io A) h ts o : Prop := bursts (plug K p) h ts o.

Section Goes.
Context {A : Type} (K : frames A) (h : Hp) (ts : list thread) (o : thread * Hp * list thread).

Lemma goes_observe p p' : observe p = observe p' -> goes K p' h ts o -> goes K p h ts o.
Proof. intros Ho. by apply bursts_observe, observe_plug. Qed.

Lemma goes_bind {B} (p : io B) (k : B -> io A) : goes (Frame k K) p h ts o -> goes K (ITree.bind p k) h ts o.
Proof. done. Qed.

Lemma goes_ret {B} (k : B -> io A) b : goes K (k b) h ts o -> goes (Frame k K) (Ret b) h ts o.
Proof. apply goes_observe. by rewrite observe_bind_eq. Qed.

Lemma goes_tau p : goes K p h ts o -> goes K (Tau p) h ts o.
Proof.
  intros [f Hb]. exists (S f). simpl. by rewrite (observe_plug_tau K (Tau p) p eq_refl).
Qed.

(** What a loop does with the result of a round. *)
Definition next {I B} (round : I -> io (I + B)) (r : I + B) : io B :=
  match r with inl i => Tau (ITree.iter round i) | inr b => Ret b end.

Lemma goes_iter {I} (round : I -> io (I + A)) i :
  goes (Frame (next round) K) (round i) h ts o -> goes K (ITree.iter round i) h ts o.
Proof. by apply goes_observe. Qed.

Lemma goes_iter_inv {I} (round : I -> io (I + A)) i :
  goes K (ITree.iter round i) h ts o -> goes (Frame (next round) K) (round i) h ts o.
Proof. exact (goes_observe (ITree.bind (round i) (next round)) (ITree.iter round i) eq_refl). Qed.
End Goes.

Section Calls.
Context {A : Type} (h : Hp) (ts : list thread) (o : thread * Hp * list thread).

Lemma goes_Heap (K : frames A) (op : Hp -> A * Hp) a h' :
  op h = (a, h') -> goes K (Ret a) h' ts o -> goes K (call (Heap op)) h ts o.
Proof.
  intros Hop [f Hb]. exists (S f). cbn [burst]. rewrite (observe_plug_call K).
  by rewrite Hop.
Qed.

Lemma goes_GetCondition (K : frames Z) : goes K (Ret cond) h ts o -> goes K (call GetCondition) h ts o.
Proof. intros [f Hb]. exists (S f). cbn [burst]. by rewrite (observe_plug_call K). Qed.

Lemma goes_ConditionNotify (K : frames unit) condition :
  goes K (Ret tt) h (notify condition <$> ts) o -> goes K (call (ConditionNotify condition)) h ts o.
Proof. intros [f Hb]. exists (S f). cbn [burst]. by rewrite (observe_plug_call K). Qed.

Lemma goes_NewCoroutine (K : frames unit) g :
  goes K (Ret tt) h (ts ++ [Ready (body g)]) o -> goes K (call (NewCoroutine g)) h ts o.
Proof. intros [f Hb]. exists (S f). cbn [burst]. by rewrite (observe_plug_call K). Qed.

Lemma goes_Read (K : frames (Z * bytes)) size t :
  goes K (call (Read rfd size t)) h ts (Reading size (fun a => plug K (Ret a)), h, ts).
Proof. exists 1%nat. cbn [burst]. by rewrite (observe_plug_call K), Z.eqb_refl. Qed.

Lemma goes_Write (K : frames Z) d size t :
  goes K (call (Write wfd (Some d) size t)) h ts (Writing d size (fun a => plug K (Ret a)), h, ts).
Proof. exists 1%nat. cbn [burst]. by rewrite (observe_plug_call K), Z.eqb_refl. Qed.

Lemma goes_ConditionWait (K : frames unit) condition :
  goes K (call (ConditionWait condition)) h ts (Waiting condition (fun u => plug K (Ret u)), h, ts).
Proof. exists 1%nat. cbn [burst]. by rewrite (observe_plug_call K). Qed.

Lemma goes_end r : goes Outermost (Ret r) h ts (Ended r, h, ts).
Proof. by exists 1%nat. Qed.
End Calls.

(** ** What a turn does *)

Lemma go_on_spec i p x y t h ts :
  bursts p (t_heap x) (threads x) (t, h, ts) ->
  (exists fuel, go_on fuel i p x = Some y) <->
    y = mkTurns (<[i := t]> ts) h (t_reads x) (t_sent x) (t_failed x).
Proof.
  intros Hb. unfold go_on. split.
  - intros [fuel Hg]. destruct (burst fuel _ _ _) as [[[t' h'] ts']|] eqn:E; [|done].
    pose proof (bursts_det _ _ _ _ _ Hb (ex_intro _ _ E)) as Heq. by simplify_eq.
  - intros ->. destruct Hb as [fuel Hb]. exists fuel. by rewrite Hb.
Qed.

(** The turns of one coroutine. *)
Definition turns_of (i : nat) (x y : turns) : Prop := exists fuel a, turn fuel i a x = Some y.

Lemma takes_turn_of x y : takes_turn x y <-> exists i, (i < length (threads x))%nat /\ turns_of i x y.
Proof.
  split.
  - intros (fuel & i & a & Ht). exists i. split; [|by exists fuel, a].
    unfold turn in Ht. destruct (threads x !! i) eqn:E; [|done]. by eapply lookup_lt_Some.
  - intros (i & _ & fuel & a & Ht). by exists fuel, i, a.
Qed.

Lemma turn_ready i p x y t h ts :
  threads x !! i = Some (Ready p) -> bursts p (t_heap x) (threads x) (t, h, ts) ->
  turns_of i x y <-> y = mkTurns (<[i := t]> ts) h (t_reads x) (t_sent x) (t_failed x).
Proof.
  intros Hi Hb. rewrite <- (go_on_spec i p x y t h ts Hb). unfold turns_of, turn. rewrite Hi.
  split; [intros (fuel & _ & Hg); by exists fuel|intros [fuel Hg]; by exists fuel, 0].
Qed.

Lemma turn_read i size k x y b l t h ts :
  threads x !! i = Some (Reading size k) -> t_reads x = b :: l -> (length b.2 <= size)%nat ->
  bursts (k b) (t_heap x) (threads x) (t, h, ts) ->
  turns_of i x y <-> y = mkTurns (<[i := t]> ts) h l (t_sent x) (t_failed x).
Proof.
  intros Hi Hl Hb Ho.
  rewrite <- (go_on_spec i (k b) (mkTurns (threads x) (t_heap x) l (t_sent x) (t_failed x)) y t h ts Ho).
  unfold turns_of, turn. rewrite Hi, Hl, (proj2 (Nat.leb_le _ _) Hb).
  split; [intros (fuel & _ & Hg); by exists fuel|intros [fuel Hg]; by exists fuel, 0].
Qed.

(** A coroutine in a [Write] goes on with every answer of [Write], and with no other. *)
Definition accepted (a : Z) (d : bytes) (size : nat) : bytes := take (Z.to_nat a) (take size d).

Lemma turn_write i d size k x y :
  threads x !! i = Some (Writing d size k) -> turns_of i x y ->
  exists a fuel, (a < 0 \/ 0 < a <= Z.of_nat size) /\
    go_on fuel i (k a) (mkTurns (threads x) (t_heap x) (t_reads x)
      (if a <? 0 then t_sent x else t_sent x ++ accepted a d size) ((a <? 0) || t_failed x)) = Some y.
Proof.
  intros Hi (fuel & a & Ht). exists a, fuel. unfold turn in Ht. rewrite Hi in Ht.
  destruct (a <? 0) eqn:Ea; breflect; [split; [by left|done]|].
  destruct ((0 <? a) && (a <=? Z.of_nat size)) eqn:E; [|done].
  apply andb_true_iff in E as [E1 E2]. breflect. split; [right; lia|done].
Qed.

Lemma turn_write_some i d size k x a o :
  threads x !! i = Some (Writing d size k) -> 0 < a <= Z.of_nat size ->
  bursts (k a) (t_heap x) (threads x) o -> exists y, turns_of i x y.
Proof.
  intros Hi Ha [fuel Hb]. destruct o as [[t h] ts].
  eexists. exists fuel, a. unfold turn. rewrite Hi, (proj2 (Z.ltb_ge _ _)), (proj2 (Z.ltb_lt _ _)),
    (proj2 (Z.leb_le _ _)) by lia. cbn [andb]. unfold go_on. cbn [t_heap threads]. by rewrite Hb.
Qed.
End Turns.

Arguments thread : clear implicits.
Arguments turns : clear implicits.
