(* ===== verification/ThroughputProps.v ===== *)
(** * The two coroutines of the throughput server

    In whatever order the reading and the writing coroutine of a connection take their turns, the
    bytes that were read are sent back in order, no wake-up is missing, and both end. *)

From ITree Require Import ITree.
From S2P Require Import Prelude OrdMap Coroutine Timestamp TimeoutSet Os Epoller CoSocket EventLoop CoStream.
From S2P Require Import Exchange Turns Connections TcpServer CoQueue Examples.

Open Scope Z_scope.

Section Throughput.
Context {F Hp : Type} `{!Shared Hp (list Buffer)} (body : F -> itree (apiE F Hp) outcome).
Context (cond : Z) (c : TcpConnector) (bufferSize : Z) (junk : bytes) (Hsize : 0 <= bufferSize).
#[local] Abbreviation io := (itree (apiE F Hp)).
#[local] Abbreviation bursts := (bursts body (cn_fd c) (cn_fd c) cond).
#[local] Abbreviation goes := (goes body (cn_fd c) (cn_fd c) cond).
#[local] Abbreviation frames := (frames (F := F) (Hp := Hp) (R := outcome)).
#[local] Abbreviation thread := (thread F Hp outcome).
#[local] Abbreviation turns := (turns F Hp outcome).
#[local] Abbreviation q := (mkCoQueue cond).
#[local] Abbreviation stop := (stop_buffer junk).
Implicit Types (t : thread) (ts : list thread) (x y : turns) (h : Hp) (d : bytes) (b : Buffer).

(** A buffer of the queue and the bytes that will be written of it. *)
Definition holds (b : Buffer) (d : bytes) : Prop :=
  m_stop b = false /\ m_size b = Z.of_nat (length d) /\
  exists rest, buf_data b = Some (d ++ rest).

Lemma filled_holds b d :
  Buffer_init bufferSize junk = Some b ->
  holds (Buffer_SetSize (buffer_filled b d) (Z.of_nat (length d))) d.
Proof.
  unfold Buffer_init. destruct (_ <? 0); [done|]. intros [= <-]. split_and!; [done..|].
  eexists. reflexivity.
Qed.

Definition push b h : Hp := store (load h ++ [b]) h.

(** ** The reading coroutine *)

Definition reader_loop : io outcome :=
  let* r := forever (request_round bufferSize junk q c) in
  match r with
  | Returned => let* u := Enque q stop in Ret Returned
  | _ => Ret r
  end.

(** A piece of the stream that one [Read] brings. *)
Definition fits (d : bytes) : Prop := d <> [] /\ (length d <= Z.to_nat bufferSize)%nat.

(** The coroutine is blocked in its [Read]. *)
Definition at_read t : Prop := exists k, t = Reading (Z.to_nat bufferSize) k /\
  (forall d h ts, d <> [] -> exists b, holds b d /\
     forall o, bursts reader_loop (push b h) (notify cond <$> ts) o -> bursts (k (piece d)) h ts o) /\
  (forall a h ts, a.1 <= 0 -> bursts (k a) h ts (Ended Returned, push stop h, notify cond <$> ts)).

Lemma goes_Enque {A} (K : frames A) b (k : unit -> io A) h ts o :
  goes K (k tt) (push b h) (notify cond <$> ts) o -> goes K (ITree.bind (Enque q b) k) h ts o.
Proof.
  intros Hk. apply goes_bind, goes_bind. eapply goes_Heap; [reflexivity|].
  apply goes_ret, goes_ConditionNotify, goes_ret. exact Hk.
Qed.

Lemma reader_loop_reads h ts : exists t, at_read t /\ bursts reader_loop h ts (t, h, ts).
Proof.
  destruct (Buffer_init bufferSize junk) as [b|] eqn:Eb.
  2: { unfold Buffer_init in Eb. by rewrite (proj2 (Z.ltb_ge _ _)) in Eb by done. }
  assert (request_round (F := F) (Hp := Hp) bufferSize junk q c =
    let* ret := TcpConnector_Read c (Z.to_nat bufferSize) 3000 in
    if fst ret <=? 0 then Ret (Some Returned)
    else let* u := Enque q (Buffer_SetSize (buffer_filled b (snd ret)) (fst ret)) in Ret None) as Er.
  { unfold request_round. by rewrite Eb. }
  eexists. split; [eexists; split; [reflexivity|split]|]; cycle 2.
  - change (bursts reader_loop) with (goes Outermost reader_loop).
    apply goes_bind, goes_iter, goes_bind. eapply goes_observe; [by rewrite Er|].
    apply goes_bind, goes_Read.
  - intros d h' ts' Hd. exists (Buffer_SetSize (buffer_filled b d) (Z.of_nat (length d))).
    split; [by apply filled_holds|]. intros o Ho. apply goes_ret. cbn [piece fst snd].
    rewrite (proj2 (Z.leb_gt _ _)) by (destruct d; [done|simpl; lia]).
    apply goes_Enque, goes_ret, goes_ret, goes_tau. exact Ho.
  - intros a h' ts' Ha. apply goes_ret. rewrite (proj2 (Z.leb_le _ _)) by done.
    apply goes_ret, goes_ret, goes_ret, goes_Enque, goes_end.
Qed.

(** ** The writing coroutine *)

Definition writer_loop : io outcome := WriteCoroutine q bufferSize c.

(** What follows [WriteAll] of [size] bytes. *)
Definition after_write (size : nat) (K : frames Z) : Prop :=
  (forall h ts o, bursts writer_loop h ts o -> goes K (Ret (Z.of_nat size)) h ts o) /\
  (forall e h ts, e < 0 -> goes K (Ret e) h ts (Ended Returned, h, ts)).

Definition writing (K : frames Z) (D : bytes) (size n : nat) h ts o : Prop :=
  goes K (ITree.iter (WriteAll_body (cn_fd c) (Some D) size 3000) n) h ts o.

(** The coroutine is blocked in a [Write] of [WriteAll], which has written [n] of [size] bytes. *)
Definition at_write (D : bytes) (size n : nat) t : Prop := exists K k, after_write size K /\
  t = Writing (drop n D) (size - n) k /\
  (forall a h ts o, 0 < a -> writing K D size (n + Z.to_nat a) h ts o -> bursts (k a) h ts o) /\
  (forall e h ts, e < 0 -> bursts (k e) h ts (Ended Returned, h, ts)).

Lemma writing_blocks K D size n h ts : after_write size K -> (n < size)%nat ->
  exists t, at_write D size n t /\ writing K D size n h ts (t, h, ts).
Proof.
  intros HK Hn. eexists. split; [exists K; eexists; split; [exact HK|split; [reflexivity|split]]|]; cycle 2.
  - apply goes_iter. unfold WriteAll_body. rewrite (proj2 (Nat.ltb_lt _ _)) by done.
    apply goes_bind, goes_Write.
  - intros a h' ts' o Ha Ho. apply goes_ret. rewrite (proj2 (Z.ltb_ge _ _)) by lia.
    apply goes_ret, goes_tau. exact Ho.
  - intros e h' ts' He. apply goes_ret. rewrite (proj2 (Z.ltb_lt _ _)) by done.
    apply goes_ret, HK. done.
Qed.

Lemma writing_done K D size h ts o : after_write size K ->
  bursts writer_loop h ts o -> writing K D size size h ts o.
Proof.
  intros [HK _] Ho. apply goes_iter. unfold WriteAll_body. rewrite Nat.ltb_irrefl. by apply goes_ret, HK.
Qed.

(** The coroutine waits for the queue, or has been woken up. *)
Definition resumes (p : io outcome) : Prop := forall h ts o, bursts writer_loop h ts o -> bursts p h ts o.
Definition at_wait t : Prop := exists k, t = Waiting cond k /\ resumes (k tt).

Definition writer_round (_ : unit) : io (unit + outcome) :=
  let* r := write_round q c in Ret (match r with Some x => inr x | None => inl tt end).

Lemma writer_loop_round h ts o : bursts writer_loop h ts o <->
  goes (Frame (next writer_round) Outermost) (writer_round tt) h ts o.
Proof.
  split; intros Ho.
  - exact (goes_iter_inv body _ _ cond Outermost h ts o writer_round tt Ho).
  - exact (goes_iter body _ _ cond Outermost h ts o writer_round tt Ho).
Qed.

(** What the loop does with its queue. *)
Lemma writer_loop_waits h ts : load h = [] -> exists t, at_wait t /\ bursts writer_loop h ts (t, h, ts).
Proof.
  intros Hl. eexists. split; [eexists; split; [reflexivity|]|]; cycle 1.
  - change (bursts writer_loop) with (goes Outermost writer_loop).
    apply goes_iter, goes_bind, goes_bind, goes_bind, goes_iter, goes_bind.
    eapply goes_Heap; [unfold q_empty; by rewrite Hl|]. apply goes_ret, goes_bind, goes_ConditionWait.
  - intros h' ts' o Ho. apply goes_ret, goes_ret, goes_tau.
    by apply writer_loop_round in Ho.
Qed.

Lemma writer_loop_takes b l h ts : load h = b :: l ->
  (m_stop b = true -> bursts writer_loop h ts (Ended Returned, store l h, ts)) /\
  (forall d, holds b d -> d <> [] -> exists D t, take (length d) D = d /\ at_write D (length d) 0 t /\
     bursts writer_loop h ts (t, store l h, ts)).
Proof.
  intros Hl.
  assert (forall (K : frames (option Buffer)) o,
    goes K (Ret (Some b)) (store l h) ts o -> goes K (Deque q) h ts o) as Hdeque.
  { intros K o Ho. apply goes_bind, goes_iter, goes_bind.
    eapply goes_Heap; [unfold q_empty; by rewrite Hl|]. apply goes_ret, goes_ret, goes_ret, goes_bind.
    eapply goes_Heap; [unfold q_front; by rewrite Hl|]. apply goes_ret, goes_bind.
    eapply goes_Heap; [unfold q_pop_front; by rewrite Hl|]. apply goes_ret. exact Ho. }
  split.
  - intros Hstop. change (bursts writer_loop) with (goes Outermost writer_loop).
    apply goes_iter, goes_bind, goes_bind, Hdeque, goes_ret. unfold Buffer_IsStop. rewrite Hstop.
    apply goes_ret, goes_ret, goes_end.
  - intros d (Hs & Hsz & rest & Hdata) Hd. exists (d ++ rest).
    eassert (after_write (length d) _) as HK; cycle 1.
    + destruct (writing_blocks _ (d ++ rest) (length d) 0 (store l h) ts HK) as (t & Ht & Hg).
      { destruct d; [done|simpl; lia]. }
      exists t. split; [apply take_app_length|]. split; [exact Ht|].
      change (bursts writer_loop) with (goes Outermost writer_loop).
      apply goes_iter, goes_bind, goes_bind, Hdeque, goes_ret. unfold Buffer_IsStop, Buffer_Data, Buffer_Size.
      rewrite Hs, Hdata, Hsz, Nat2Z.id. apply goes_bind. exact Hg.
    + split.
      * intros h' ts' o Ho. apply goes_ret. rewrite Z.eqb_refl. apply goes_ret, goes_ret, goes_tau. exact Ho.
      * intros e h' ts' He. apply goes_ret. rewrite (proj2 (Z.eqb_neq _ _)) by lia.
        apply goes_ret, goes_ret, goes_end.
Qed.

Lemma request_starts (write : CoQueue -> Z -> TcpConnector -> F) port h ts :
  body (write q bufferSize c) = writer_loop ->
  exists t, at_read t /\
    bursts (RequestHandle write bufferSize junk c port) h ts (t, store [] h, ts ++ [Ready writer_loop]).
Proof.
  intros Hbody. destruct (reader_loop_reads (store [] h) (ts ++ [Ready writer_loop])) as (t & Ht & Hr).
  exists t. split; [exact Ht|].
  change (bursts (RequestHandle ?w ?s ?j ?c ?p)) with (goes Outermost (RequestHandle w s j c p)).
  apply goes_bind, goes_bind, goes_GetCondition, goes_ret, goes_bind.
  eapply goes_Heap; [reflexivity|]. apply goes_ret, goes_ret, goes_bind, goes_NewCoroutine, goes_ret.
  rewrite Hbody. exact Hr.
Qed.

(** ** Their turns *)

Section Stream.
Context (ds : list bytes) (e : Z) (He : e <= 0) (Hds : Forall fits ds).

(** The reading coroutine: the answers to come, the data in them, and what it has put at the end of
    the queue when there are none. *)
Inductive reader_at : thread -> list (Z * bytes) -> list bytes -> list Buffer -> Prop :=
  | reader_reads t ds2 : at_read t -> Forall fits ds2 -> reader_at t ((piece <$> ds2) ++ [(e, [])]) ds2 []
  | reader_ended : reader_at (Ended Returned) [] [] [stop].

(** The writing coroutine: the queue, and the bytes it has taken from it and not yet written. *)
Inductive writer_at : thread -> list Buffer -> bytes -> Prop :=
  | writer_ready p l : resumes p -> writer_at (Ready p) l []
  | writer_waits t : at_wait t -> writer_at t [] []
  | writer_writes t D size n l : at_write D size n t -> (n < size <= length D)%nat ->
      writer_at t l (drop n (take size D)).

(** The queue: buffers with the data [dq], and the reader's [tail]. *)
Definition queue_holds h (dq : list bytes) (tail : list Buffer) : Prop :=
  Forall (fun d => d <> []) dq /\ exists bs, load h = bs ++ tail /\ Forall2 holds bs dq.

Lemma queue_push b d h dq :
  queue_holds h dq [] -> holds b d -> d <> [] -> queue_holds (push b h) (dq ++ [d]) [].
Proof.
  intros (Hdq & bs & Hl & Hbs) Hb Hd. split; [by apply Forall_app; repeat constructor|].
  exists (bs ++ [b]). unfold push. rewrite load_store, Hl, !app_nil_r.
  split; [done|]. by apply Forall2_app; [|constructor].
Qed.

Lemma queue_stop h dq : queue_holds h dq [] -> queue_holds (push stop h) dq [stop].
Proof.
  intros (Hdq & bs & Hl & Hbs). split; [done|]. exists bs. unfold push. by rewrite load_store, Hl, app_nil_r.
Qed.

Lemma length_piece_reads ds2 : length ((piece <$> ds2) ++ [(e, [])]) = S (length ds2).
Proof. rewrite length_app, length_fmap. simpl. lia. Qed.

Lemma reader_ended_reads r reads ds2 tail : reader_at (Ended r) reads ds2 tail ->
  reads = [] /\ tail = [stop].
Proof. intros Hr. inversion Hr; [|done]. by match goal with Hat : at_read _ |- _ => destruct Hat as (k & [=] & _) end. Qed.

(** How much a coroutine still does between two blocking calls. *)
Definition weight t : nat := match t with Ready _ => 2 | Ended _ => 0 | _ => 1 end.

Lemma weight_notify t : (weight (notify cond t) <= S (weight t))%nat.
Proof. destruct t; simpl; try lia. case_match; simpl; lia. Qed.

Lemma writer_notified t l l' w : writer_at t l w -> writer_at (notify cond t) l' w.
Proof.
  destruct 1 as [p l Hres|t (k & -> & Hk)|t D size n l Hw Hn].
  - by constructor.
  - simpl. rewrite Z.eqb_refl. by constructor.
  - assert (notify cond t = t) as -> by by destruct Hw as (K & k & _ & -> & _). by constructor.
Qed.

(** A turn of the reading coroutine: data for the queue, or the end. *)
Lemma reader_turn x tr tw reads ds2 tail :
  threads x = [tr; tw] -> t_reads x = reads -> reader_at tr reads ds2 tail ->
  (reads = [] /\ tr = Ended Returned /\ ds2 = [] /\ forall y, ~ turns_of body (cn_fd c) (cn_fd c) cond 0 x y) \/
  exists tr' reads' ds2' tail' h',
    (forall y, turns_of body (cn_fd c) (cn_fd c) cond 0 x y <->
       y = mkTurns [tr'; notify cond tw] h' reads' (t_sent x) (t_failed x)) /\
    reader_at tr' reads' ds2' tail' /\ length reads = S (length reads') /\ (weight tr' <= weight tr)%nat /\
    tail = [] /\
    ((exists b d, holds b d /\ d <> [] /\ h' = push b (t_heap x) /\ ds2 = d :: ds2' /\ tail' = []) \/
     (h' = push stop (t_heap x) /\ ds2 = [] /\ ds2' = [] /\ tail' = [stop])).
Proof.
  intros Hts Hreads Hr. revert Hts Hreads. destruct Hr as [t ds3 Hat Hfit|]; intros Hts Hreads.
  2: { left. split_and!; try done. intros y (fuel & a & Ht). unfold turn in Ht. by rewrite Hts in Ht. }
  right. pose proof Hat as (k & Et & Hdata & Hend). destruct Hfit as [|d ds3 [Hd Hlen] Hfit].
  - exists (Ended Returned), [], [], [stop], (push stop (t_heap x)).
    split; [|split_and!; [constructor|done|simpl; lia|done|by right]].
    intros y. rewrite (turn_read _ _ _ _ 0 (Z.to_nat bufferSize) k x y (e, []) [] (Ended Returned)
      (push stop (t_heap x)) (notify cond <$> threads x)).
    + by rewrite Hts.
    + by rewrite Hts, Et.
    + exact Hreads.
    + simpl. lia.
    + by apply Hend.
  - destruct (Hdata d (t_heap x) (threads x) Hd) as (b & Hb & Hk).
    destruct (reader_loop_reads (push b (t_heap x)) (notify cond <$> threads x)) as (t' & Ht' & Hr).
    exists t', ((piece <$> ds3) ++ [(e, [])]), ds3, [], (push b (t_heap x)).
    split; [|split_and!; [by constructor|done| |done|left; by exists b, d]].
    + intros y. rewrite (turn_read _ _ _ _ 0 (Z.to_nat bufferSize) k x y (piece d)
        ((piece <$> ds3) ++ [(e, [])]) t' (push b (t_heap x)) (notify cond <$> threads x)).
      * by rewrite Hts.
      * by rewrite Hts, Et.
      * exact Hreads.
      * exact Hlen.
      * by apply Hk.
    + destruct Ht' as (k' & -> & _), Hat as (? & -> & _). done.
Qed.

(** The writing coroutine looks at the queue. *)
Lemma writer_looks h ts tr reads ds2 tail dq :
  reader_at tr reads ds2 tail -> queue_holds h dq tail ->
  exists t h', bursts writer_loop h ts (t, h', ts) /\ (weight t <= 1)%nat /\
    ((exists dq' w, writer_at t (load h') w /\ queue_holds h' dq' tail /\ concat dq = w ++ concat dq') \/
     (t = Ended Returned /\ tr = Ended Returned /\ load h' = [] /\ ds2 = [] /\ dq = [])).
Proof.
  intros Hr (Hdq & bs & Hl & Hbs). destruct Hbs as [|b d bs dq Hb Hbs].
  - destruct Hr as [t ds2 _ _|]; simpl in Hl.
    + destruct (writer_loop_waits h ts Hl) as (t' & Ht & Hg). exists t', h. split; [done|].
      split; [by destruct Ht as (k & -> & _)|]. left. exists [], []. rewrite Hl.
      split_and!; [by constructor|split; [done|exists []; by split]|done].
    + destruct (writer_loop_takes stop [] h ts Hl) as [Hg _].
      exists (Ended Returned), (store [] h). split; [by apply Hg|]. split; [simpl; lia|]. right.
      by rewrite load_store.
  - apply Forall_cons in Hdq as [Hd Hdq].
    destruct (writer_loop_takes b (bs ++ tail) h ts Hl) as [_ Hg].
    destruct (Hg d Hb Hd) as (D & t & HD & Ht & Hb').
    exists t, (store (bs ++ tail) h). split; [done|]. split; [by destruct Ht as (K & k & _ & -> & _)|].
    left. exists dq, d. split_and!; [|split; [done|exists bs; by rewrite load_store]|done].
    assert (length (take (length d) D) = length d) as E by by rewrite HD.
    rewrite length_take in E. assert (0 < length d)%nat by (destruct d; [done|simpl; lia]).
    pose proof (writer_writes t D (length d) 0 (load (store (bs ++ tail) h)) Ht ltac:(lia)) as Hw.
    by rewrite HD in Hw.
Qed.

(** Both coroutines are alive, or the reader has ended; every byte is somewhere. *)
Definition live x : Prop := exists tr tw ds2 tail dq w,
  threads x = [tr; tw] /\ reader_at tr (t_reads x) ds2 tail /\ writer_at tw (load (t_heap x)) w /\
  queue_holds (t_heap x) dq tail /\ concat ds = t_sent x ++ w ++ concat dq ++ concat ds2 /\ t_failed x = false.

(** The writer has ended. *)
Definition ended x : Prop := exists tr ds2 tail,
  threads x = [tr; Ended Returned] /\ reader_at tr (t_reads x) ds2 tail /\ t_sent x `prefix_of` concat ds /\
  (t_failed x = false -> tr = Ended Returned /\ t_sent x = concat ds /\ load (t_heap x) = []).

Definition measure x : nat :=
  3 * length (t_reads x) + (length (concat ds) - length (t_sent x)) + sum_list (weight <$> threads x)
  + (if bool_decide (length (threads x) = 1%nat) then 2 else 0).

#[local] Abbreviation turns_of := (turns_of body (cn_fd c) (cn_fd c) cond).

Lemma live_reader x y : live x -> turns_of 0 x y -> live y /\ (measure y < measure x)%nat.
Proof.
  intros (tr & tw & ds2 & tail & dq & w & Hts & Hr & Hw & Hq & Hcat & Hf) Hy.
  destruct (reader_turn x tr tw _ ds2 tail Hts eq_refl Hr)
    as [(_ & _ & _ & Hno)|(tr' & reads' & ds2' & tail' & h' & Hiff & Hr' & Hlen & Hwt & -> & Hcase)].
  { by destruct (Hno y). }
  apply Hiff in Hy as ->. split.
  - exists tr', (notify cond tw), ds2', tail'. cbn [threads t_reads t_heap t_sent t_failed].
    destruct Hcase as [(b & d & Hb & Hd & -> & -> & ->)|(-> & -> & -> & ->)].
    + exists (dq ++ [d]), w. split_and!; try done; [by eapply writer_notified|by eapply queue_push|].
      rewrite Hcat, concat_app. simpl. by rewrite app_nil_r, <- app_assoc.
    + exists dq, w. split_and!; try done; [by eapply writer_notified|by apply queue_stop].
  - unfold measure. rewrite Hts. cbn [threads t_reads t_sent length fmap list_fmap sum_list].
    rewrite Hlen. pose proof (weight_notify tw). simpl. lia.
Qed.

Lemma ended_reader x y : ended x -> turns_of 0 x y -> ended y /\ (measure y < measure x)%nat.
Proof.
  intros (tr & ds2 & tail & Hts & Hr & Hpre & Hok) Hy.
  destruct (reader_turn x tr _ _ ds2 tail Hts eq_refl Hr)
    as [(_ & _ & _ & Hno)|(tr' & reads' & ds2' & tail' & h' & Hiff & Hr' & Hlen & Hwt & _)].
  { by destruct (Hno y). }
  apply Hiff in Hy as ->. split.
  - exists tr', ds2', tail'. cbn [threads t_reads t_heap t_sent t_failed]. split_and!; try done.
    intros Hf. destruct (Hok Hf) as (-> & _). by rewrite (proj1 (reader_ended_reads _ _ _ _ Hr)) in Hlen.
  - unfold measure. rewrite Hts. cbn [threads t_reads t_sent length fmap list_fmap sum_list].
    rewrite Hlen. simpl. lia.
Qed.

(** The writer gets to its queue at [y0], after the bytes [s]. *)
Lemma writer_goes_on tr tw ds2 tail dq s h reads sent x p :
  threads x = [tr; tw] -> reader_at tr reads ds2 tail -> queue_holds h dq tail ->
  concat ds = (sent ++ s) ++ concat dq ++ concat ds2 -> resumes p ->
  exists t h', bursts p h (threads x) (t, h', threads x) /\ (weight t <= 1)%nat /\
    forall y, y = mkTurns [tr; t] h' reads (sent ++ s) false -> live y \/ ended y.
Proof.
  intros Hts Hr Hq Hcat Hres.
  destruct (writer_looks h (threads x) tr reads ds2 tail dq Hr Hq) as (t & h' & Hb & Hwt & Hcase).
  exists t, h'. split; [by apply Hres|]. split; [done|]. intros y ->.
  destruct Hcase as [(dq' & w' & Hw & Hq' & E)|(-> & -> & Hl & -> & ->)].
  - left. exists tr, t, ds2, tail, dq', w'. cbn. split_and!; try done. by rewrite Hcat, E, <- !app_assoc.
  - right. exists (Ended Returned), [], tail. cbn. simpl in Hcat. rewrite app_nil_r in Hcat.
    split_and!; try done. by rewrite Hcat.
Qed.

Lemma measure_writer x tr tw t h s f :
  threads x = [tr; tw] -> (length (t_sent x ++ s) <= length (concat ds))%nat ->
  (weight t < weight tw + length s)%nat ->
  (measure (mkTurns [tr; t] h (t_reads x) (t_sent x ++ s) f) < measure x)%nat.
Proof. intros Hts Hs Hw. rewrite length_app in Hs. unfold measure. rewrite Hts. simpl. rewrite length_app. lia. Qed.

(** A [Write] that has been answered. *)
Lemma written x y tr K D size n k ds2 tail dq fuel a :
  threads x = [tr; Writing (drop n D) (size - n) k] -> reader_at tr (t_reads x) ds2 tail ->
  after_write size K -> (n < size <= length D)%nat ->
  (forall a h ts o, 0 < a -> writing K D size (n + Z.to_nat a) h ts o -> bursts (k a) h ts o) ->
  (forall e h ts, e < 0 -> bursts (k e) h ts (Ended Returned, h, ts)) ->
  queue_holds (t_heap x) dq tail ->
  concat ds = t_sent x ++ drop n (take size D) ++ concat dq ++ concat ds2 ->
  t_failed x = false -> (a < 0 \/ 0 < a <= Z.of_nat (size - n)) ->
  go_on body (cn_fd c) (cn_fd c) cond fuel 1 (k a) (mkTurns (threads x) (t_heap x) (t_reads x)
    (if a <? 0 then t_sent x else t_sent x ++ accepted a (drop n D) (size - n)) ((a <? 0) || t_failed x)) = Some y ->
  (live y \/ ended y) /\ (measure y < measure x)%nat.
Proof.
  intros Hts Hr HK Hn Hgo Hfail Hq Hcat Hf Ha Hg. destruct Ha as [Ha|Ha].
  - rewrite (proj2 (Z.ltb_lt _ _) Ha) in Hg. cbn [orb] in Hg.
    apply (ex_intro (fun f => go_on _ _ _ _ f _ _ _ = _)), (go_on_spec _ _ _ _ _ _ _ _ (Ended Returned) (t_heap x) (threads x)) in Hg;
      [|by apply Hfail].
    subst y. cbn [t_reads t_sent t_failed]. rewrite Hts. split.
    + right. exists tr, ds2, tail. cbn. split_and!; try done. rewrite Hcat. by apply prefix_app_r.
    + rewrite <- (app_nil_r (t_sent x)). eapply measure_writer; [exact Hts| |simpl; lia].
      rewrite Hcat, !length_app. simpl. lia.
  - rewrite (proj2 (Z.ltb_ge _ _)) in Hg by lia. cbn [orb] in Hg. rewrite Hf in Hg.
    set (m := (n + Z.to_nat a)%nat) in *. set (s := accepted a (drop n D) (size - n)) in *.
    assert (drop n (take size D) = s ++ drop m (take size D)) as Hsplit.
    { unfold s, m, accepted. rewrite <- drop_drop, skipn_firstn_comm. symmetry. apply take_drop. }
    assert (length s = Z.to_nat a) as Hlen.
    { unfold s, accepted. rewrite !length_take, length_drop. lia. }
    rewrite Hsplit, <- app_assoc in Hcat.
    assert (length (t_sent x ++ s) <= length (concat ds))%nat as Htot.
    { rewrite Hcat, !length_app. lia. }
    assert (exists t h', bursts (k a) (t_heap x) (threads x) (t, h', threads x) /\ (weight t <= 1)%nat /\
      forall y, y = mkTurns [tr; t] h' (t_reads x) (t_sent x ++ s) false -> live y \/ ended y)
      as (t & h' & Hb & Hwt & Hlive).
    { destruct (decide (m = size)) as [Em|Em].
      - apply (writer_goes_on tr _ ds2 tail dq s (t_heap x) (t_reads x) (t_sent x) x (k a) Hts Hr Hq).
        + rewrite Hcat, Em, drop_ge by (rewrite length_take; lia). by rewrite <- app_assoc.
        + intros h0 ts0 o Ho. apply Hgo; [lia|]. fold m. rewrite Em. by apply writing_done.
      - destruct (writing_blocks K D size m (t_heap x) (threads x) HK ltac:(lia)) as (t & Ht & Hb).
        exists t, (t_heap x). split; [by apply Hgo; [lia|]|].
        split; [by destruct Ht as (? & ? & _ & -> & _)|]. intros y' ->. left.
        exists tr, t, ds2, tail, dq, (drop m (take size D)). cbn. split_and!; try done.
        + constructor; [done|lia].
        + by rewrite Hcat, <- app_assoc. }
    apply (ex_intro (fun f => go_on _ _ _ _ f _ _ _ = _)), (go_on_spec _ _ _ _ _ _ _ _ t h' (threads x)) in Hg;
      [|exact Hb].
    cbn [t_reads t_sent t_failed] in Hg. rewrite Hts in Hg. cbn in Hg. split; [by apply Hlive|]. subst y.
    eapply measure_writer; [exact Hts|done|]. rewrite Hlen. simpl. lia.
Qed.

Lemma live_writer x y : live x -> turns_of 1 x y -> (live y \/ ended y) /\ (measure y < measure x)%nat.
Proof.
  intros (tr & tw & ds2 & tail & dq & w & Hts & Hr & Hw & Hq & Hcat & Hf) Hy.
  destruct Hw as [p l Hres|t (k & -> & _)|t D size n l (K & k & HK & -> & Hgo & Hfail) Hn].
  - destruct (writer_goes_on tr (Ready p) ds2 tail dq [] (t_heap x) (t_reads x) (t_sent x) x p)
      as (t & h' & Hb & Hwt & Hlive); try done; [by rewrite app_nil_r|].
    assert (y = mkTurns [tr; t] h' (t_reads x) (t_sent x ++ []) false) as ->.
    { apply (turn_ready _ _ _ _ 1 p x y t h' (threads x)) in Hy; [|by rewrite Hts|done].
      by rewrite Hy, app_nil_r, Hts, Hf. }
    split; [by apply Hlive|]. eapply measure_writer; [exact Hts| |simpl; lia].
    rewrite Hcat, !length_app. simpl. lia.
  - destruct Hy as (fuel & a & Ht). unfold turn in Ht. by rewrite Hts in Ht.
  - assert (threads x !! 1%nat = Some (Writing (drop n D) (size - n) k)) as Hi by by rewrite Hts.
    destruct (turn_write _ _ _ _ _ _ _ _ _ _ Hi Hy) as (a & fuel & Ha & Hg).
    by eapply written.
Qed.
Lemma live_goes_on x : live x -> exists i y, turns_of i x y.
Proof.
  intros (tr & tw & ds2 & tail & dq & w & Hts & Hr & Hw & Hq & Hcat & Hf).
  destruct (writer_looks (t_heap x) (threads x) tr _ ds2 tail dq Hr Hq) as (t0 & h0 & Hlook & _).
  remember (load (t_heap x)) as l0 eqn:El.
  destruct Hw as [p l Hres|t (k & -> & _)|t D size n l (K & k & HK & -> & Hgo & Hfail) Hn].
  - exists 1%nat. eexists. eapply (turn_ready _ _ _ _ 1 p); [by rewrite Hts|by apply Hres|reflexivity].
  - destruct (reader_turn x tr _ _ ds2 tail Hts eq_refl Hr)
      as [(_ & -> & _)|(tr' & reads' & ds2' & tail' & h' & Hiff & _)].
    + destruct Hq as (_ & bs & Hl & _). rewrite <- El in Hl.
      rewrite (proj2 (reader_ended_reads _ _ _ _ Hr)) in Hl. by destruct bs.
    + exists 0%nat. eexists. by apply Hiff.
  - exists 1%nat. eapply (turn_write_some _ _ _ _ 1 _ (size - n) k x (Z.of_nat (size - n)));
      [by rewrite Hts|lia|]. apply Hgo; [lia|].
    replace (n + Z.to_nat (Z.of_nat (size - n)))%nat with size by lia. by apply writing_done.
Qed.

Lemma ended_stuck x : ended x -> (forall y, ~ turns_of 0 x y) ->
  exists r, threads x = [Ended r; Ended Returned] /\ r = Returned.
Proof.
  intros (tr & ds2 & tail & Hts & Hr & _) Hno.
  destruct (reader_turn x tr _ _ ds2 tail Hts eq_refl Hr)
    as [(_ & -> & _)|(tr' & reads' & ds2' & tail' & h' & Hiff & _)]; [by exists Returned|].
  destruct (Hno _ (proj2 (Hiff _) eq_refl)).
Qed.

(** ** All turns *)

Context (write : CoQueue -> Z -> TcpConnector -> F) (Hbody : body (write q bufferSize c) = writer_loop).
Context (port : Z) (h0 : Hp).
#[local] Abbreviation takes_turn := (takes_turn body (cn_fd c) (cn_fd c) cond).
#[local] Abbreviation start :=
  (alone (F := F) (RequestHandle write bufferSize junk c port) h0 ((piece <$> ds) ++ [(e, [])])).

Definition served x : Prop := x = start \/ live x \/ ended x.

Lemma start_turn y : turns_of 0 start y -> live y /\ (measure y < measure start)%nat.
Proof.
  intros Hy. destruct (request_starts write port h0 (threads start) Hbody) as (t & Ht & Hb).
  apply (turn_ready _ _ _ _ 0 _ start y _ _ _ eq_refl Hb) in Hy as ->. split.
  - exists t, (Ready writer_loop), ds, [], [], []. cbn. split_and!; try done.
    + by constructor.
    + constructor. by intros h ts o.
    + split; [done|]. exists []. by rewrite load_store.
  - unfold measure, alone. cbn [t_reads threads t_sent]. destruct Ht as (k & -> & _). simpl. lia.
Qed.

Lemma served_turn x y : served x -> takes_turn x y -> served y /\ (measure y < measure x)%nat.
Proof.
  intros Hx (i & Hi & Hy)%takes_turn_of. destruct Hx as [->|[Hx|Hx]].
  - destruct i as [|i]; [|simpl in Hi; lia]. destruct (start_turn y Hy). split; [right; by left|done].
  - assert (length (threads x) = 2%nat) as Hl by by destruct Hx as (? & ? & ? & ? & ? & ? & -> & _).
    destruct i as [|[|i]]; [| |lia].
    + destruct (live_reader x y Hx Hy). split; [right; by left|done].
    + destruct (live_writer x y Hx Hy). split; [by right|done].
  - pose proof Hx as (tr & ds2 & tail & Hts & _). destruct i as [|[|i]].
    + destruct (ended_reader x y Hx Hy). split; [right; by right|done].
    + destruct Hy as (fuel & a & Ht). unfold turn in Ht. by rewrite Hts in Ht.
    + rewrite Hts in Hi. simpl in Hi. lia.
Qed.

Lemma served_steps n x y : nsteps takes_turn n x y -> served x -> served y /\ (n + measure y <= measure x)%nat.
Proof.
  induction 1 as [x|n x y z Hxy _ IH]; intros Hx; [split; [done|lia]|].
  destruct (served_turn x y Hx Hxy) as [Hy Hm]. destruct (IH Hy) as [Hz Hn]. split; [done|lia].
Qed.

Lemma served_sent x : served x -> t_sent x `prefix_of` concat ds.
Proof.
  intros [->|[(tr & tw & ds2 & tail & dq & w & _ & _ & _ & _ & -> & _)|(_ & _ & _ & _ & _ & Hp0 & _)]];
    [apply prefix_nil|by apply prefix_app_r|done].
Qed.

Lemma served_stuck x : served x -> stuck body (cn_fd c) (cn_fd c) cond x ->
  threads x = [Ended Returned; Ended Returned] /\
  (t_failed x = false -> t_sent x = concat ds /\ load (t_heap x) = []).
Proof.
  intros Hx Hno.
  assert (forall i y, ~ turns_of i x y) as Hno'.
  { intros i y (fuel & a & Ht). apply (Hno y). by exists fuel, i, a. }
  destruct Hx as [->|[Hx|Hx]].
  - destruct (request_starts write port h0 (threads start) Hbody) as (t & _ & Hb).
    destruct (Hno' 0%nat _ (proj2 (turn_ready _ _ _ _ 0 _ start _ _ _ _ eq_refl Hb) eq_refl)).
  - destruct (live_goes_on x Hx) as (i & y & Hy). by destruct (Hno' i y).
  - destruct (ended_stuck x Hx (Hno' 0%nat)) as (r & Hts & ->). split; [done|]. intros Hf.
    destruct Hx as (tr & ds2 & tail & _ & _ & _ & Hok). by destruct (Hok Hf).
Qed.
End Stream.
End Throughput.

(** C16.  The throughput server sends back what it reads, in whatever order its two coroutines take
    their turns (a coroutine runs until it blocks in [Read], [Write] or [ConditionWait]; any one whose
    call has an answer goes on) and in whatever portions the writes are accepted.  The handler
    reads the pieces [ds], none longer than its buffers, and then the end of the stream or an error.
    There are boundedly many turns; at any moment the bytes sent are a prefix of the bytes of
    [ds]; and when no coroutine can go on, both have returned (none waits for a wake-up that does
    not come), and unless a write failed everything was sent and the queue is empty. *)
Theorem throughput_echoes {F Hp : Type} `{!Shared Hp (list Buffer)} (body : F -> itree (apiE F Hp) outcome)
    cond c bufferSize junk (write : CoQueue -> Z -> TcpConnector -> F) port (h : Hp) ds e :
  body (write (mkCoQueue cond) bufferSize c) = WriteCoroutine (mkCoQueue cond) bufferSize c ->
  0 <= bufferSize -> Forall (fits bufferSize) ds -> e <= 0 ->
  let start := alone (F := F) (RequestHandle write bufferSize junk c port) h ((piece <$> ds) ++ [(e, [])]) in
  (forall n x, nsteps (takes_turn body (cn_fd c) (cn_fd c) cond) n start x ->
     (n <= 3 * length ds + length (concat ds) + 7)%nat) /\
  forall x, rtc (takes_turn body (cn_fd c) (cn_fd c) cond) start x ->
    t_sent x `prefix_of` concat ds /\
    (stuck body (cn_fd c) (cn_fd c) cond x ->
       threads x = [Ended Returned; Ended Returned] /\
       (t_failed x = false -> t_sent x = concat ds /\ load (t_heap x) = [])).
Proof.
  intros Hbody Hsize Hds He start. split.
  - intros n x Hn.
    destruct (served_steps body cond c bufferSize junk Hsize ds e He Hds write Hbody port h n start x Hn
                ltac:(by left)) as [_ Hm].
    unfold measure in Hm at 2. unfold start, alone in Hm. simpl in Hm.
    rewrite length_app, length_fmap in Hm. simpl in Hm. lia.
  - intros x [n Hn]%rtc_nsteps.
    destruct (served_steps body cond c bufferSize junk Hsize ds e He Hds write Hbody port h n start x Hn
                ltac:(by left)) as [Hx _].
    split; [by eapply served_sent|]. by eapply served_stuck.
Qed.

(** ** An instance *)

Module ThroughputDemo.

#[local] Instance buffers_only : Shared (list Buffer) (list Buffer) :=
  {| load h := h; store a _ := a; load_store a h := eq_refl |}.

Definition write_func : Type := CoQueue * Z * TcpConnector.
Definition body (f : write_func) : itree (apiE write_func (list Buffer)) outcome :=
  WriteCoroutine f.1.1 f.1.2 f.2.

Definition start (ds : list bytes) : turns write_func (list Buffer) outcome :=
  alone (RequestHandle (fun q size c => (q, size, c)) 16 (replicate 16 0) (mkTcpConnector 5) 12345)
    [] ((piece <$> ds) ++ [(0, [])]).

(** The writer waits, is woken up by the first piece, and sends it in two portions while the reader
    goes on to the end of the stream. *)
Lemma throughput_echoes_witness :
  (forall n x, nsteps (takes_turn body 5 5 7) n (start [[97; 98]; [99]]) x -> (n <= 16)%nat) /\
  exists x, rtc (takes_turn body 5 5 7) (start [[97; 98]; [99]]) x /\
    threads x = [Ended Returned; Ended Returned] /\ t_sent x = [97; 98; 99] /\
    t_sent x `prefix_of` [97; 98; 99].
Proof.
  destruct (throughput_echoes body 7 (mkTcpConnector 5) 16 (replicate 16 0) (fun q size c => (q, size, c))
    12345 [] [[97; 98]; [99]] 0) as [Hn Hx].
  - reflexivity.
  - lia.
  - repeat constructor; try discriminate; simpl; lia.
  - lia.
  - split; [exact Hn|].
    destruct (play body 5 5 7 100
      [(0%nat, 0); (1%nat, 0); (0%nat, 0); (1%nat, 0); (1%nat, 1); (0%nat, 0); (0%nat, 0); (1%nat, 1); (1%nat, 1)]
      (start [[97; 98]; [99]])) as [x|] eqn:E; [|vm_compute in E; discriminate E].
    assert (threads x = [Ended Returned; Ended Returned] /\ t_sent x = [97; 98; 99]) as [Ht Hs].
    { vm_compute in E. injection E as <-. split; reflexivity. }
    apply play_turns in E. exists x. split; [exact E|]. split; [exact Ht|].
    split; [exact Hs|]. exact (proj1 (Hx x E)).
Defined.
End ThroughputDemo.
