(* ===== verification/ExampleProps.v ===== *)
(** * What the example programs do

    The echo server and the proxy hand on what they read, in order and completely; the example of a
    pointer to a local variable of another coroutine reads a variable of the running one; the
    throughput client counts what comes back.  (The throughput server is in ThroughputProps.v.) *)

From ITree Require Import ITree.
From S2P Require Import Prelude OrdMap Coroutine Timestamp TimeoutSet Os Epoller CoSocket EventLoop CoStream.
From S2P Require Import Exchange Connections WebSocket WebSocketProps HttpMessage HttpClient HttpDispatch TcpServer CoQueue Examples.

Open Scope Z_scope.

(** ** Streams *)

(** Answers of [Write] that take each of the pieces whole, in portions. *)
Definition takes (ds : list bytes) (ls : list (list Z)) : Prop :=
  Forall2 (fun d l => accepting (length d) l) ds ls.

Section Forever.
Context {F Hp S : Type} (reply : forall A, apiE F Hp A -> S -> option (A * S)).
#[local] Abbreviation io := (itree (apiE F Hp)).

Lemma forever_next {R} (body : io (option R)) n n1 r n' :
  answers_to reply n body None n1 -> answers_to reply n1 (forever body) r n' ->
  answers_to reply n (forever body) r n'.
Proof.
  intros Hb Hn. eapply answers_iter_next; [|exact Hn]. eapply answers_bind; [exact Hb|apply answers_ret].
Qed.

Lemma forever_done {R} (body : io (option R)) n r n' :
  answers_to reply n body (Some r) n' -> answers_to reply n (forever body) r n'.
Proof. intros Hb. apply answers_iter_done. eapply answers_bind; [exact Hb|apply answers_ret]. Qed.

(** A loop that hands on one piece in each round hands on a stream. *)
Lemma forever_pieces {R} (emb : net -> S) (body : io (option R)) ds lls reads ws r n' :
  (forall d l reads ws sent, d <> [] -> accepting (length d) l ->
     answers_to reply (emb (mkNet (piece d :: reads) (l ++ ws) sent)) body None
       (emb (mkNet reads ws (sent ++ d)))) ->
  Forall (fun d => d <> []) ds -> takes ds lls -> forall sent,
  answers_to reply (emb (mkNet reads ws (sent ++ concat ds))) (forever body) r n' ->
  answers_to reply (emb (mkNet ((piece <$> ds) ++ reads) (concat lls ++ ws) sent)) (forever body) r n'.
Proof.
  intros Hbody Hds Ht. revert Hds. induction Ht as [|d l ds lls Hl _ IH]; intros Hds sent Hr.
  - simpl in *. by rewrite app_nil_r in Hr.
  - apply Forall_cons in Hds as [Hd Hds]. simpl. rewrite <- app_assoc.
    eapply forever_next; [by apply Hbody|]. apply IH; [done|]. by rewrite <- app_assoc.
Qed.
End Forever.

(** ** The rounds

    On a side that answers reads and writes as [net] does. *)

Section Rounds.
Context {F Hp S : Type} (reply : forall A, apiE F Hp A -> S -> option (A * S)) (rfd wfd : Z) (emb : net -> S).
Context (reply_net : forall A (e : apiE F Hp A) n a n',
  reply_on rfd wfd _ e n = Some (a, n') -> reply _ e (emb n) = Some (a, emb n')).
#[local] Abbreviation runs n p r n' := (answers_to reply (emb n) p r (emb n')).
#[local] Abbreviation io := (itree (apiE F Hp)).

Definition copies {R} (body : io (option R)) (r : R) : Prop :=
  (forall d l reads ws sent, d <> [] -> accepting (length d) l ->
     runs (mkNet (piece d :: reads) (l ++ ws) sent) body None (mkNet reads ws (sent ++ d))) /\
  (forall a reads ws sent, a.1 <= 0 -> runs (mkNet (a :: reads) ws sent) body (Some r) (mkNet reads ws sent)) /\
  (forall d l e reads ws sent, refusing (length d) l e -> exists m, (m < length d)%nat /\
     runs (mkNet (piece d :: reads) (l ++ ws) sent) body (Some r) (mkNet reads ws (sent ++ take m d))).

(** What such a loop makes of a stream that ends, and of one that the other side refuses. *)
Definition streams {R} (p : io R) (r : R) : Prop :=
  forall ds lls, Forall (fun d => d <> []) ds -> takes ds lls ->
  (forall a, a.1 <= 0 ->
     runs (mkNet ((piece <$> ds) ++ [a]) (concat lls) []) p r (mkNet [] [] (concat ds))) /\
  (forall d l e, refusing (length d) l e -> exists m, (m < length d)%nat /\
     runs (mkNet ((piece <$> ds) ++ [piece d]) (concat lls ++ l) []) p r
       (mkNet [] [] (concat ds ++ take m d))).

Lemma refusing_pos size l e : refusing size l e -> (0 < size)%nat /\ e < 0.
Proof.
  revert size. induction l as [|a l IH]; intros size Hr; [done|]. simpl in Hr.
  destruct Hr as [H0 [(_ & He & _)|[_ Hr]]]; [done|]. by destruct (IH _ Hr).
Qed.

Lemma length_pos {A} (d : list A) : d <> [] -> (0 < length d)%nat.
Proof. destruct d; [done|simpl; lia]. Qed.

Lemma copies_streams {R} (body : io (option R)) r : copies body r -> streams (forever body) r.
Proof.
  intros (Hnext & Hend & Hrefused) ds lls Hds Ht. split.
  - intros a Ha. rewrite <- (app_nil_r (concat lls)).
    eapply (forever_pieces _ emb); [exact Hnext|done..|]. by apply forever_done, Hend.
  - intros d l e Hl. destruct (Hrefused d l e [] [] (concat ds) Hl) as (m & Hm & Hb). exists m.
    split; [done|]. rewrite app_nil_r in Hb.
    eapply (forever_pieces _ emb); [exact Hnext|done..|]. by apply forever_done.
Qed.

(** A round reads, and unless that fails writes what it read. *)
Lemma round_copies {R} size t t' (K : Z * bytes -> io (option R)) (r : R) :
  (forall d x n n', x = Z.of_nat (length d) \/ x < 0 ->
     runs n (WriteAll wfd (Some d) (length d) t') x n' ->
     runs n (K (piece d)) (if x <? 0 then Some r else None) n') ->
  copies (ITree.bind (call (Read rfd size t)) (fun a => if fst a <=? 0 then Ret (Some r) else K a)) r.
Proof.
  intros HK. unshelve (epose proof (answers_lift (F := F) (Hp := Hp) (reply_on rfd wfd) reply emb _) as Hlift);
    [exact reply_net|]. split_and!.
  - intros d l reads ws sent Hd%length_pos Hl. eapply answers_bind; [apply Hlift, relays_read|]. cbn [fst piece].
    rewrite (proj2 (Z.leb_gt _ _)) by lia. pose proof (relays_WriteAll (F := F) (Hp := Hp) rfd wfd d t' reads l ws sent Hl) as Hw.
    apply Hlift, HK in Hw; [|by left]. by rewrite (proj2 (Z.ltb_ge _ _)) in Hw by lia.
  - intros a reads ws sent Ha. eapply answers_bind; [apply Hlift, relays_read|].
    rewrite (proj2 (Z.leb_le _ _)) by done. apply answers_ret.
  - intros d l e reads ws sent Hl. destruct (refusing_pos _ _ _ Hl) as [Hd He].
    destruct (relays_refused (F := F) (Hp := Hp) rfd wfd d t' reads e l ws sent Hl) as (m & Hm & Hw).
    exists m. split; [done|]. eapply answers_bind; [apply Hlift, relays_read|]. cbn [fst piece].
    rewrite (proj2 (Z.leb_gt _ _)) by lia. apply Hlift, HK in Hw; [|by right].
    by rewrite (proj2 (Z.ltb_lt _ _)) in Hw by lia.
Qed.

Lemma copy_round_copies read write :
  (forall size t, read size t = call (Read rfd size t)) ->
  (forall b size t, write b size t = WriteAll wfd b size t) ->
  copies (copy_round read write) tt.
Proof.
  intros Er Ew. unfold copy_round. rewrite Er. apply (round_copies _ _ kTimeoutMs). intros d x n n' Hx Hw.
  cbn [fst snd piece]. rewrite Ew, Nat2Z.id. eapply answers_bind; [exact Hw|]. cbn beta.
  destruct Hx as [-> |Hx].
  - rewrite Z.eqb_refl, (proj2 (Z.ltb_ge _ _)) by lia. apply answers_ret.
  - rewrite (proj2 (Z.eqb_neq _ _)), (proj2 (Z.ltb_lt _ _)) by lia. apply answers_ret.
Qed.
End Rounds.

(** ** The other side of a program *)

(** Reads and writes as in [net], the shared heap, the functions of the coroutines it has started,
    and the descriptors it has closed.  [socket] gives [sock], and [Connect] and [close] succeed. *)
Record app (F Hp : Type) := mkApp {
  a_net : net; a_heap : Hp; a_funcs : list F; a_closed : list Z
}.
Arguments mkApp {F Hp}. Arguments a_net {F Hp}. Arguments a_heap {F Hp}. Arguments a_funcs {F Hp}.
Arguments a_closed {F Hp}.

Section Reply.
Context {F Hp : Type} (rfd wfd sock : Z).
#[local] Abbreviation io := (itree (apiE F Hp)).

Definition set_net (x : app F Hp) (n : net) : app F Hp := mkApp n (a_heap x) (a_funcs x) (a_closed x).

Definition reply_app (A : Type) (e : apiE F Hp A) (x : app F Hp) : option (A * app F Hp) :=
  match e in apiE _ _ T return option (T * app F Hp) with
  | Connect _ _ _ => Some (0, x)
  | NewCoroutine f => Some (tt, mkApp (a_net x) (a_heap x) (a_funcs x ++ [f]) (a_closed x))
  | Heap op => Some ((op (a_heap x)).1, mkApp (a_net x) (op (a_heap x)).2 (a_funcs x) (a_closed x))
  | Sys e =>
      match e in sysE T return option (T * app F Hp) with
      | sys_socket _ => Some (Succ sock, x)
      | sys_close fd => Some (Succ tt, mkApp (a_net x) (a_heap x) (a_funcs x) (a_closed x ++ [fd]))
      | _ => None
      end
  | Read fd size t =>
      (fun r => (r.1, set_net x r.2)) <$> reply_on rfd wfd _ (Read (F := F) (Hp := Hp) fd size t) (a_net x)
  | Write fd d size t =>
      (fun r => (r.1, set_net x r.2)) <$> reply_on rfd wfd _ (Write (F := F) (Hp := Hp) fd d size t) (a_net x)
  | _ => None
  end.

Lemma reply_app_net h fs cl A (e : apiE F Hp A) n a n' :
  reply_on rfd wfd _ e n = Some (a, n') -> reply_app _ e (mkApp n h fs cl) = Some (a, mkApp n' h fs cl).
Proof. intros Hr. destruct e; try done; simpl in Hr |- *; by rewrite Hr. Qed.

Lemma app_heap {A} (op : Hp -> A * Hp) n h fs cl :
  answers_to reply_app (mkApp n h fs cl) (call (Heap op)) (op h).1 (mkApp n (op h).2 fs cl).
Proof. by apply answers_call. Qed.
End Reply.

(** ** The echo server and the proxy *)

Section Relays.
Context {F Hp : Type}.

(** The handler of the echo server sends back what it reads: of a stream that ends, everything
    in order, and of one whose echo fails at some piece, all that came before and a part of that
    piece; then it returns, in whatever portions the writes are accepted. *)
Theorem echo_echoes (c : TcpConnector) port :
  streams (reply_on (F := F) (Hp := Hp) (cn_fd c) (cn_fd c)) id (echo_HandleRequest c port) tt.
Proof.
  apply copies_streams, (round_copies _ (cn_fd c) (cn_fd c) id (fun _ _ _ _ _ Hr => Hr) 1024 3000 3000).
  intros d x n n' Hx Hw. cbn [fst snd piece]. unfold TcpConnector_WriteAll. rewrite Nat2Z.id.
  eapply answers_bind; [exact Hw|]. cbn beta. destruct (x <? 0); apply answers_ret.
Qed.

(** The two coroutines of the proxy: with the connection to the local server made, the handler
    of a connection starts the coroutine that reads the server and then hands on to the server what
    it reads from the connection; the other coroutine hands on to the connection what it reads from
    the server.  Each returns when its stream has ended. *)
Theorem proxy_relays inet_addr (read_server : TcpConnector -> TcpClient -> F) port c any sock (h : Hp) ds lls a :
  0 <= sock -> Forall (fun d => d <> []) ds -> takes ds lls -> a.1 <= 0 ->
  let reads := (piece <$> ds) ++ [a] in
  answers_to (reply_app (cn_fd c) sock sock) (mkApp (mkNet reads (concat lls) []) h [] [])
    (proxy_HandleRequest inet_addr read_server port c any) Returned
    (mkApp (mkNet [] [] (concat ds)) h [read_server c (mkTcpClient sock)] []) /\
  answers_to (reply_on (F := F) (Hp := Hp) sock (cn_fd c)) (mkNet reads (concat lls) [])
    (ReadServerCoroutine c (mkTcpClient sock)) tt (mkNet [] [] (concat ds)).
Proof.
  intros Hsock Hds Ht Ha reads. split.
  - unfold proxy_HandleRequest, TcpClient_new.
    eapply answers_bind; [eapply answers_bind; [by apply answers_call|]|].
    { cbn beta iota. rewrite (proj2 (Z.ltb_ge _ _)) by done. apply answers_ret. }
    cbn beta iota. eapply answers_bind; [by apply answers_call|]. cbn [Z.ltb Z.compare].
    eapply answers_bind; [by apply answers_call|]. cbn beta.
    eapply answers_bind; [|apply answers_ret].
    eapply (copies_streams (reply_app (cn_fd c) sock sock)
      (fun n => mkApp n h [read_server c (mkTcpClient sock)] []) _ tt); [|done..].
    by apply (copy_round_copies _ (cn_fd c) sock); [apply reply_app_net|..].
  - apply (copies_streams _ id _ tt); [|done..].
    by apply (copy_round_copies _ sock (cn_fd c) id (fun _ _ _ _ _ Hr => Hr)).
Qed.
End Relays.

(** ** A pointer to a local variable of another coroutine *)

Section LocalPointer.
Context {F Hp : Type} `{!Shared Hp Z}.

(** Once [g_connector] points to the parameter of the coroutine that serves port 12345, a
    connection of any port is echoed to itself, not to the connection of port 12345: the running
    coroutine finds its own parameter at that address.  Before, the first piece makes the
    dereference undefined. *)
Theorem pointer_echoes_itself addr (c : TcpConnector) port (h : Hp) :
  let runs := answers_to (reply_app (cn_fd c) (cn_fd c) closed) in
  (port = 12345 \/ load h = addr -> exists h', load h' = addr /\
     forall ds lls a, Forall (fun d => d <> []) ds -> takes ds lls -> a.1 <= 0 ->
     runs (mkApp (mkNet ((piece <$> ds) ++ [a]) (concat lls) []) h [] [])
       (pointer_HandleRequest (F := F) addr c port) Returned (mkApp (mkNet [] [] (concat ds)) h' [] [])) /\
  (port <> 12345 -> load h <> addr -> forall d reads ws, d <> [] ->
     runs (mkApp (mkNet (piece d :: reads) ws []) h [] [])
       (pointer_HandleRequest (F := F) addr c port) Undefined (mkApp (mkNet reads ws []) h [] [])).
Proof.
  intros runs. unfold pointer_HandleRequest. split.
  - intros Hp0. set (h' := if port =? 12345 then store addr h else h).
    assert (load h' = addr) as Hh.
    { unfold h'. destruct (port =? 12345) eqn:E; [apply load_store|]. apply Z.eqb_neq in E. by destruct Hp0. }
    exists h'. split; [done|]. intros ds lls a Hds Ht Ha.
    apply (answers_bind _ _ _ _ tt (mkApp (mkNet ((piece <$> ds) ++ [a]) (concat lls) []) h' [] [])).
    { unfold h'. destruct (port =? 12345); [by apply answers_call|apply answers_ret]. }
    eapply (copies_streams (reply_app _ _ _) (fun n => mkApp n h' [] []) _ Returned); [|done..].
    apply (round_copies _ (cn_fd c) (cn_fd c) _ (reply_app_net _ _ _ _ _ _) 1024 300000 300000).
    intros d x n n' Hx Hw. eapply answers_bind; [apply app_heap|]. cbn [fst snd piece].
    unfold deref. rewrite Hh, Z.eqb_refl, Nat2Z.id.
    eapply answers_bind; [exact Hw|]. cbn beta. destruct (x <? 0); apply answers_ret.
  - intros Hport Hh d reads ws Hd%length_pos. rewrite (proj2 (Z.eqb_neq _ _)) by done.
    eapply answers_bind; [apply answers_ret|]. apply forever_done. unfold pointer_round.
    eapply answers_bind; [apply answers_call; apply reply_app_net; simpl; by rewrite Z.eqb_refl|].
    cbn [fst snd piece]. rewrite (proj2 (Z.leb_gt _ _)) by lia.
    eapply answers_bind; [apply app_heap|]. cbn [fst snd]. unfold deref.
    rewrite (proj2 (Z.eqb_neq _ _)) by done. apply answers_ret.
Qed.
End LocalPointer.

(** ** The throughput client *)

Lemma le_bytes_load b : Forall (fun x => 0 <= x < 256) b -> le_bytes (length b) (le_load b) = b.
Proof.
  induction 1 as [|x b Hx _ IH]; [done|]. cbn [le_load length le_bytes].
  rewrite (Z.mul_comm 256), Z_mod_plus_full, Z.mod_small, Z.div_add, Z.div_small, Z.add_0_l, IH by lia. done.
Qed.

Lemma le_load_bytes n z : le_load (le_bytes n z) = z mod 256 ^ Z.of_nat n.
Proof.
  revert z. induction n as [|n IH]; intros z; [by rewrite Z.mod_1_r|]. cbn [le_bytes le_load].
  rewrite IH, Nat2Z.inj_succ, Z.pow_succ_r, Z.rem_mul_r by lia. done.
Qed.

Lemma le_bytes_range n z : Forall (fun x => 0 <= x < 256) (le_bytes n z).
Proof. revert z. induction n as [|n IH]; intros z; constructor; [apply Z.mod_pos_bound; lia|apply IH]. Qed.

Lemma le_load_range b : Forall (fun x => 0 <= x < 256) b -> 0 <= le_load b < 256 ^ Z.of_nat (length b).
Proof.
  induction 1 as [|x b Hx _ IH]; [done|]. cbn [le_load length].
  rewrite Nat2Z.inj_succ, Z.pow_succ_r by lia. lia.
Qed.

Lemma ntohl_range x : 0 <= ntohl x < 2 ^ 32.
Proof. apply (le_load_range (rev (le_bytes 4 x))). apply Forall_rev, le_bytes_range. Qed.

(** Swapping the bytes twice. *)
Lemma ntohl_ntohl x : 0 <= x < 2 ^ 32 -> ntohl (ntohl x) = x.
Proof.
  intros Hx. unfold ntohl. change 4%nat with (length (rev (le_bytes 4 x))) at 1.
  rewrite le_bytes_load by (apply Forall_rev, le_bytes_range).
  rewrite rev_involutive, le_load_bytes, Z.mod_small; [done|exact Hx].
Qed.

Section ReadFull.
Context {F Hp : Type} (rfd wfd : Z).
#[local] Abbreviation relays := (answers_to (reply_on (F := F) (Hp := Hp) rfd wfd)).

Lemma relays_ReadFull_loop size t reads ws sent ps : Forall (fun d => d <> []) ps ->
  forall got, size = (length got + length (concat ps))%nat ->
  relays (mkNet ((piece <$> ps) ++ reads) ws sent)
    (ITree.iter (ReadFull_body rfd size t) (length got, got)) (Z.of_nat size, got ++ concat ps)
    (mkNet reads ws sent).
Proof.
  induction 1 as [|d ps Hd%length_pos _ IH]; intros got Hsize; simpl in Hsize.
  - simpl. rewrite app_nil_r. replace size with (length got) by lia. apply answers_iter_done.
    unfold ReadFull_body. rewrite Nat.ltb_irrefl. apply answers_ret.
  - rewrite length_app in Hsize. simpl. eapply (answers_iter_next _ _ _ (length (got ++ d), got ++ d)).
    + unfold ReadFull_body. rewrite (proj2 (Nat.ltb_lt _ _)) by lia.
      eapply answers_bind; [apply relays_read|]. cbn [fst snd piece].
      rewrite (proj2 (Z.ltb_ge _ _)), (proj2 (Z.eqb_neq _ _)), Nat2Z.id, <- length_app by lia. apply answers_ret.
    + rewrite app_assoc. apply IH. rewrite length_app. lia.
Qed.

(** A buffer that arrives in pieces. *)
Lemma relays_ReadFull t reads ws sent ps : Forall (fun d => d <> []) ps ->
  relays (mkNet ((piece <$> ps) ++ reads) ws sent) (ReadFull rfd (length (concat ps)) t)
    (Z.of_nat (length (concat ps)), concat ps) (mkNet reads ws sent).
Proof. intros Hps. by apply (relays_ReadFull_loop _ t reads ws sent ps Hps []). Qed.
End ReadFull.

Section Client.
Context {F Hp : Type} `{!Shared Hp Z} (sock : Z).
#[local] Abbreviation runs := (answers_to (reply_app (F := F) (Hp := Hp) sock sock sock)).

(** The buffer of a client, and the pieces in which a server sends it back. *)
Definition client_buffer (bufferSize : Z) : bytes :=
  le_bytes 4 (ntohl (bufferSize - 4)) ++ replicate (Z.to_nat (bufferSize - 4)) 0.
Definition cuts (buffer : bytes) (ps : list bytes) : Prop :=
  Forall (fun d => d <> []) ps /\ concat ps = buffer.

Lemma length_client_buffer bufferSize :
  4 <= bufferSize -> length (client_buffer bufferSize) = Z.to_nat bufferSize.
Proof. intros H4. unfold client_buffer. rewrite length_app, length_replicate, length_le_bytes. lia. Qed.

Lemma first_int_buffer bufferSize :
  4 <= bufferSize < 2 ^ 31 -> first_int (client_buffer bufferSize) = bufferSize - 4.
Proof.
  intros H4. unfold first_int, client_buffer.
  rewrite take_app_length' by (by rewrite length_le_bytes).
  rewrite le_load_bytes, Z.mod_small; [apply ntohl_ntohl; lia|]. apply ntohl_range.
Qed.

(** A round in which the whole buffer comes back. *)
Lemma send_round_echoed bufferSize l ps reads ws sent h fs cl :
  4 <= bufferSize < 2 ^ 31 -> accepting (Z.to_nat bufferSize) l -> cuts (client_buffer bufferSize) ps ->
  runs (mkApp (mkNet ((piece <$> ps) ++ reads) (l ++ ws) sent) h fs cl)
    (send_round bufferSize (bufferSize - 4) (mkTcpClient sock) (client_buffer bufferSize))
    (inl (client_buffer bufferSize))
    (mkApp (mkNet reads ws (sent ++ client_buffer bufferSize)) (store (load h + bufferSize) h) fs cl).
Proof.
  intros Hsize Hl [Hps Hcat]. pose proof (length_client_buffer bufferSize) as Hlen.
  pose proof (first_int_buffer bufferSize Hsize) as Hfirst.
  set (buffer := client_buffer bufferSize) in *. clearbody buffer. unfold send_round.
  pose proof (answers_lift (F := F) (Hp := Hp) (reply_on sock sock) (reply_app sock sock sock)
    (fun n => mkApp n h fs cl) (reply_app_net _ _ _ h fs cl)) as Hlift.
  rewrite <- Hlen in Hl |- * by lia.
  eapply answers_bind; [by apply Hlift, relays_WriteAll|]. cbn beta.
  rewrite Hlen, Z2Nat.id, Z.eqb_refl, <- Hlen, <- Hcat by lia. cbn [negb].
  eapply answers_bind; [by apply Hlift, relays_ReadFull|]. cbn beta. cbn [fst snd].
  rewrite Hcat, drop_ge, app_nil_r by done. rewrite Hfirst, Hlen, Z2Nat.id, !Z.eqb_refl by lia. cbn [negb].
  eapply answers_bind; [apply app_heap|]. apply answers_ret.
Qed.

Lemma send_rounds bufferSize fs cl lls pss : 4 <= bufferSize < 2 ^ 31 ->
  Forall2 (fun l ps => accepting (Z.to_nat bufferSize) l /\ cuts (client_buffer bufferSize) ps) lls pss ->
  forall reads ws sent h, exists h', load h' = load h + Z.of_nat (length lls) * bufferSize /\ forall x r,
  (runs (mkApp (mkNet reads ws (sent ++ concat (replicate (length lls) (client_buffer bufferSize)))) h' fs cl)
     (ITree.iter (send_round bufferSize (bufferSize - 4) (mkTcpClient sock)) (client_buffer bufferSize)) r x ->
   runs (mkApp (mkNet ((piece <$> concat pss) ++ reads) (concat lls ++ ws) sent) h fs cl)
     (ITree.iter (send_round bufferSize (bufferSize - 4) (mkTcpClient sock)) (client_buffer bufferSize)) r x).
Proof.
  intros Hsize. induction 1 as [|l ps lls pss [Hl Hps] _ IH]; intros reads ws sent h.
  - exists h. split; [simpl; lia|]. intros x r. simpl. by rewrite app_nil_r.
  - destruct (IH reads ws (sent ++ client_buffer bufferSize) (store (load h + bufferSize) h)) as (h' & Hh & Hr). exists h'. split; [rewrite Hh, load_store; simpl length; lia|].
    intros x r. simpl. rewrite fmap_app, <- !app_assoc. intros Hn.
    eapply answers_iter_next; [by apply send_round_echoed|]. apply Hr. by rewrite <- app_assoc.
Qed.

(** C40.  The throughput client counts exactly the bytes that came back: when the server returns the
    whole buffer in each of some rounds, in whatever portions, and refuses the next one, the counter
    has grown by the size of the buffer for each of these rounds; the client then closes its
    connection, the one descriptor it closes, and returns. *)
Theorem throughput_counts inet_addr bufferSize lls pss l e h :
  4 <= bufferSize < 2 ^ 31 -> 0 <= sock ->
  Forall2 (fun l ps => accepting (Z.to_nat bufferSize) l /\ cuts (client_buffer bufferSize) ps) lls pss ->
  refusing (Z.to_nat bufferSize) l e ->
  exists m h', (m < Z.to_nat bufferSize)%nat /\ load h' = load h + Z.of_nat (length lls) * bufferSize /\
  runs (mkApp (mkNet (piece <$> concat pss) (concat lls ++ l) []) h [] [])
    (SendFunc inet_addr bufferSize) Returned
    (mkApp (mkNet [] [] (concat (replicate (length lls) (client_buffer bufferSize))
                         ++ take m (client_buffer bufferSize))) h' [] [sock]).
Proof.
  intros Hsize Hsock Hrounds Hl. pose proof (length_client_buffer bufferSize ltac:(lia)) as Hlen.
  destruct (refusing_pos _ _ _ Hl) as [_ He]. rewrite <- Hlen in Hl.
  destruct (relays_refused (F := F) (Hp := Hp) sock sock (client_buffer bufferSize) 3000 [] e l []
    (concat (replicate (length lls) (client_buffer bufferSize))) Hl) as (m & Hm & Hw).
  destruct (send_rounds bufferSize [] [] lls pss Hsize Hrounds [] l [] h) as (h' & Hh & Hr).
  exists m, h'. split_and!; [by rewrite <- Hlen|done|]. unfold SendFunc, TcpClient_new.
  rewrite (proj2 (Z.ltb_ge _ _)) by lia.
  eapply answers_bind; [eapply answers_bind; [by apply answers_call|]|].
  { cbn beta iota. rewrite (proj2 (Z.ltb_ge _ _)) by done. apply answers_ret. }
  cbn beta iota. eapply answers_bind; [by apply answers_call|].
  rewrite app_nil_r in Hr, Hw. cbn [Z.eqb negb].
  eapply answers_bind; [apply Hr, answers_iter_done; unfold send_round; eapply answers_bind|].
  - rewrite <- Hlen. apply (answers_lift (F := F) (Hp := Hp) (reply_on sock sock) (reply_app sock sock sock)
      (fun n => mkApp n h' [] [])); [apply reply_app_net|exact Hw].
  - cbn beta. rewrite (proj2 (Z.eqb_neq _ _)) by lia. apply answers_ret.
  - cbn beta. eapply answers_bind; [|apply answers_ret]. unfold TcpClient_delete, TcpClient_Close, close_fd.
    cbn [tc_fd]. rewrite (proj2 (Z.geb_le _ _)) by done.
    eapply answers_bind; [eapply answers_bind; [by apply answers_call|apply answers_ret]|apply answers_ret].
Qed.
End Client.

(** ** Instances *)

Module ExampleDemo.

#[local] Instance counter_only : Shared Z Z :=
  {| load h := h; store a _ := a; load_store a h := eq_refl |}.

(** A buffer of 8 bytes that comes back in two pieces, and a write that fails with EPIPE. *)
Lemma throughput_counts_witness :
  exists m h', (m < Z.to_nat 8)%nat /\ load h' = 100 + 1 * 8 /\
  answers_to (reply_app (F := Z) (Hp := Z) 5 5 5)
    (mkApp (mkNet [(3, [0; 0; 0]); (5, [4; 0; 0; 0; 0])] [5; 3; -32] []) 100 [] [])
    (SendFunc (fun _ => 16777343) 8) Returned
    (mkApp (mkNet [] [] (concat (replicate 1 (client_buffer 8)) ++ take m (client_buffer 8))) h' [] [5]).
Proof.
  refine (throughput_counts (F := Z) 5 (fun _ => 16777343) 8 [[5; 3]] [[[0; 0; 0]; [4; 0; 0; 0; 0]]]
    [-32] (-32) 100 _ _ _ _).
  - lia.
  - lia.
  - repeat constructor; try discriminate; simpl; lia.
  - simpl. split; [lia|]. left. repeat split; lia.
Defined.
End ExampleDemo.
